(** * Invoice memory layer: Recall / Apply / Decide / Learn

    A shallow embedding of the TypeScript invoice-processing pipeline and of
    its three memory modules, with the properties stated about it.

    Modelling conventions.
    - A JavaScript [number] that carries a confidence or an amount is a
      rational ([Q]).  The rounding of binary64 arithmetic is modelled by
      [roundDouble] where the code compares or prints a number that a
      rounding can carry across the line: in the amount test of the duplicate
      guard, in the steps by which a tax or SKU confidence moves, and in the
      percentages of the texts.  The scores and the confidences computed from
      counters are computed exactly.  Counters read from INTEGER columns are
      [Z].
    - A timestamp produced by [new Date().toISOString()] is the number of
      milliseconds it denotes ([Z]); ISO strings of that shape compare like
      the instants they denote.
    - [uuidv4()] is a fresh-identifier supply: a counter kept in the store.
    - A JavaScript string is a [string]; an optional string ([?:], [| null])
      is an [option string]; truthiness of a string is non-emptiness.
    - The sql.js database is a record of its four tables.  [vendor_memories]
      has a UNIQUE key and is a [gmap] from vendor name to row; the other
      tables are lists of rows in insertion order. *)

From Stdlib Require Import Reals Lra.
From Stdlib Require Import QArith Qminmax Qround Qabs Qpower Lqa ZArith Lia.
From Stdlib Require Import Ascii String Sorted.
From stdpp Require Import gmap strings list pretty.

Local Open Scope string_scope.
Local Open Scope list_scope.
Local Open Scope Z_scope.

(** ** JavaScript helpers *)

Definition Qleb (a b : Q) : bool := Qle_bool a b.
Definition Qltb (a b : Q) : bool := negb (Qle_bool b a).

(** *** Binary64 arithmetic *)

(** The integer nearest to [x], ties to the even one. *)
Definition roundHalfEven (x : Q) : Z :=
  let f := Qfloor x in
  match (x - inject_Z f ?= 1 # 2)%Q with
  | Lt => f
  | Gt => f + 1
  | Eq => if Z.even f then f else f + 1
  end.

(** The exponent [e] of the last place of the double nearest to [x <> 0]:
    [2^(52+e) <= |x| < 2^(53+e)]. *)
Definition lastPlace (x : Q) : Z :=
  let k := Z.log2 (Z.abs (Qnum x)) - Z.log2 (Zpos (Qden x)) in
  (if Qle_bool (2 ^ k) (Qabs x) then k else k - 1) - 52.

(** The double nearest to [x]: 53 significant bits, round to nearest, ties
    to even.  The exponent is not bounded: the numbers beyond [2^1024] and
    the subnormal ones below [2^-1022], which no amount and no confidence
    reaches, are rounded like the others.  A number the code holds is the
    double nearest to the rational the model holds for it, and the result of
    an operation is the double nearest to the exact result. *)
Definition roundDouble (x : Q) : Q :=
  if Qeq_bool x 0 then 0%Q
  else
    let e := lastPlace x in
    let m := roundHalfEven (Qabs x / 2 ^ e) in
    Qred ((if Qle_bool 0 x then 1 else -1) * inject_Z m * 2 ^ e).

(** The largest relative error of a rounding. *)
Definition unitRoundoff : Q := (2 ^ (-53))%Q.

(** [a + b], [a - b] and [a * b] on doubles. *)
Definition addDouble (a b : Q) : Q := roundDouble (roundDouble a + roundDouble b).
Definition subDouble (a b : Q) : Q := roundDouble (roundDouble a - roundDouble b).
Definition mulDouble (a b : Q) : Q := roundDouble (roundDouble a * roundDouble b).

(** [!!s] for a string. *)
Definition truthy (s : string) : bool := negb (String.eqb s "").

(** [o || undefined] and the test [if (o)] for an optional string. *)
Definition orUndefined (o : option string) : option string :=
  match o with
  | Some s => if truthy s then Some s else None
  | None => None
  end.

Definition isSet (o : option string) : bool :=
  match orUndefined o with Some _ => true | None => false end.

(** [Array.prototype.join]. *)
Fixpoint join (sep : string) (l : list string) : string :=
  match l with
  | [] => ""
  | [x] => x
  | x :: rest => x +:+ sep +:+ join sep rest
  end.

(** [x.toFixed(1)] for the number a double is: the nearest multiple of 1/10,
    ties towards the larger magnitude, printed with one digit after the
    point. *)
Definition toFixed1 (x : Q) : string :=
  let n := Qfloor (Qabs x * 10 + 0.5)%Q in
  (if Qltb x 0 then "-" else "") +:+ pretty (n / 10) +:+ "." +:+ pretty (n mod 10).

(** [(c * 100).toFixed(1)]: the product is a double, and [toFixed] rounds
    the number that double is. *)
Definition percent (c : Q) : string := toFixed1 (mulDouble c 100).

(** Values typed [unknown] in the source. *)
Inductive JsValue : Type :=
  | VNull
  | VStr (s : string)
  | VNum (q : Q)
  | VFromTo (from to : JsValue).

(** ** Types (types/invoice.ts, types/memory.ts, types/output.ts) *)

Record LineItem := mkLineItem {
  li_sku : option string;
  li_description : option string;
  li_qty : Q;
  li_unitPrice : Q
}.

Record InvoiceFields := mkInvoiceFields {
  invoiceNumber : string;
  invoiceDate : string;
  serviceDate : option string;
  currency : option string;
  poNumber : option string;
  netTotal : Q;
  taxRate : Q;
  taxTotal : Q;
  grossTotal : Q;
  lineItems : list LineItem;
  discountTerms : option string
}.

Record Invoice := mkInvoice {
  invoiceId : string;
  vendor : string;
  fields : InvoiceFields;
  inv_confidence : Q;
  rawText : string
}.

Record PurchaseOrder := mkPurchaseOrder {
  po_poNumber : string;
  po_vendor : string;
  po_date : string;
  po_lineItems : list LineItem
}.

Inductive Verdict := approved | rejected.

Record FieldCorrection := mkFieldCorrection {
  fc_field : string;
  fc_from : JsValue;
  fc_to : JsValue;
  fc_reason : string
}.

Record HumanCorrection := mkHumanCorrection {
  hc_invoiceId : string;
  hc_vendor : string;
  corrections : list FieldCorrection;
  finalDecision : Verdict
}.

Record FieldMapping := mkFieldMapping {
  sourceLabel : string;
  targetField : string;
  fm_confidence : Q;
  fm_successCount : Z;
  fm_failureCount : Z
}.

Record TaxBehavior := mkTaxBehavior {
  isInclusive : bool;
  defaultRate : Q;
  tb_confidence : Q
}.

Record SkuMapping := mkSkuMapping {
  sm_description : string;
  sm_sku : string;
  sm_confidence : Q;
  sm_usageCount : Z
}.

Record VendorMemory := mkVendorMemory {
  vm_id : string;
  vm_vendorName : string;
  fieldMappings : list FieldMapping;
  taxBehavior : option TaxBehavior;
  defaultCurrency : option string;
  skuMappings : list SkuMapping;
  paymentTerms : option string;
  vm_confidence : Q;
  vm_usageCount : Z;
  vm_lastUsed : Z;
  vm_createdAt : Z;
  vm_updatedAt : Z
}.

Inductive CorrectionType :=
  | extract_from_rawtext | recalculate_tax | match_po
  | map_sku | set_currency | set_payment_terms.

Record CorrectionMemory := mkCorrectionMemory {
  cm_id : string;
  cm_vendorName : string;
  fieldName : string;
  pattern : string;
  correctionType : CorrectionType;
  correctionValue : JsValue;
  cm_confidence : Q;
  successCount : Z;
  failureCount : Z;
  cm_createdAt : Z;
  cm_updatedAt : Z
}.

Record ResolutionMemory := mkResolutionMemory {
  rm_id : string;
  rm_invoiceId : string;
  rm_vendorName : string;
  discrepancyType : string;
  rm_originalValue : JsValue;
  correctedValue : JsValue;
  resolution : Verdict;
  humanFeedback : option string;
  rm_createdAt : Z
}.

Record ProcessedInvoice := mkProcessedInvoice {
  pi_id : string;
  pi_invoiceNumber : string;
  pi_vendorName : string;
  pi_invoiceDate : string;
  pi_grossTotal : Q;
  processedAt : Z;
  hash : string
}.

Record RecalledMemories := mkRecalledMemories {
  vendorMemory : option VendorMemory;
  correctionMemories : list CorrectionMemory;
  resolutionMemories : list ResolutionMemory;
  potentialDuplicate : option ProcessedInvoice
}.

Inductive MemoryKind := mk_vendor | mk_correction | mk_resolution.
Inductive MemoryAction := act_create | act_reinforce | act_weaken.

Record MemoryUpdate := mkMemoryUpdate {
  mu_type : MemoryKind;
  mu_action : MemoryAction;
  mu_details : string;
  mu_memoryId : option string
}.

Record NormalizedLineItem := mkNormalizedLineItem {
  nli_sku : string;
  nli_description : string;
  nli_qty : Q;
  nli_unitPrice : Q;
  nli_amount : Q
}.

Record NormalizedInvoice := mkNormalizedInvoice {
  n_invoiceId : string;
  n_vendor : string;
  n_invoiceNumber : string;
  n_invoiceDate : string;
  n_serviceDate : option string;
  n_currency : string;
  n_poNumber : option string;
  n_netTotal : Q;
  n_taxRate : Q;
  n_taxTotal : Q;
  n_grossTotal : Q;
  n_lineItems : list NormalizedLineItem;
  n_discountTerms : option string
}.

Record ProposedCorrection := mkProposedCorrection {
  pc_field : string;
  pc_originalValue : JsValue;
  pc_proposedValue : JsValue;
  pc_confidence : Q;
  autoApplied : bool
}.

(** ** Decide (services/decide.ts) *)

Module Decide.

Definition AUTO_ACCEPT_THRESHOLD : Q := 0.85.
Definition AUTO_CORRECT_THRESHOLD : Q := 0.60.
Definition ESCALATE_THRESHOLD : Q := 0.40.

Record DecisionResult := mkDecisionResult {
  requiresHumanReview : bool;
  confidenceScore : Q;
  auditDetails : string;
  escalationReasons : list string
}.

Definition isApproved (r : ResolutionMemory) : bool :=
  match resolution r with approved => true | rejected => false end.

Definition isRejected (r : ResolutionMemory) : bool :=
  match resolution r with approved => false | rejected => true end.

Definition Qlen {A} (l : list A) : Q := inject_Z (Z.of_nat (length l)).

Definition hasConflictingMemories (memories : RecalledMemories) : bool :=
  let rs := resolutionMemories memories in
  let tooManyRejections :=
    if (3 <=? length rs)%nat then
      let approved := Qlen (filter (fun r => isApproved r = true) rs) in
      let rejected := Qlen (filter (fun r => isRejected r = true) rs) in
      Qltb 0.4 (rejected / (approved + rejected))
    else false in
  if tooManyRejections then true
  else
    let problematicCorrections :=
      filter (fun c => (successCount c <? failureCount c) = true)
             (correctionMemories memories) in
    (0 <? length problematicCorrections)%nat.

Definition hasCurrencyCorrection (corrections : list ProposedCorrection) : bool :=
  existsb (fun c => String.eqb (pc_field c) "currency") corrections.

Definition checkMissingFields (invoice : NormalizedInvoice)
    (corrections : list ProposedCorrection) : list string :=
  if negb (truthy (n_currency invoice)) && negb (hasCurrencyCorrection corrections)
  then ["currency"] else [].

Definition sumConfidence (cs : list ProposedCorrection) : Q :=
  fold_left (fun sum c => (sum + pc_confidence c)%Q) cs 0%Q.

Definition isNewVendor (memories : RecalledMemories) : bool :=
  match vendorMemory memories with
  | None => true
  | Some vm => vm_usageCount vm <? 2
  end.

Definition calculateOverallConfidence (originalConfidence : Q)
    (memories : RecalledMemories) (corrections : list ProposedCorrection) : Q :=
  let score := originalConfidence in
  let score :=
    match vendorMemory memories with
    | Some vm =>
        let memoryBoost := (vm_confidence vm * 0.1)%Q in
        Qmin 1.0 (score + memoryBoost)
    | None => score
    end in
  let autoAppliedCorrections := filter (fun c => autoApplied c = true) corrections in
  let score :=
    if (0 <? length autoAppliedCorrections)%nat then
      let avgCorrectionConfidence :=
        (sumConfidence autoAppliedCorrections / Qlen autoAppliedCorrections)%Q in
      ((score + avgCorrectionConfidence) / 2)%Q
    else score in
  let pendingCorrections := filter (fun c => autoApplied c = false) corrections in
  let score :=
    if (0 <? length pendingCorrections)%nat then (score * 0.9)%Q else score in
  let score :=
    match potentialDuplicate memories with
    | Some _ => (score * 0.5)%Q
    | None => score
    end in
  let score := if isNewVendor memories then (score * 0.8)%Q else score in
  Qmax 0.1 (Qmin 1.0 score).

(** The local [requiresHumanReview] flag and the two string accumulators
    ([escalationReasons], [details]) are threaded as a triple. *)
Definition Acc : Type := bool * list string * list string.

Definition reviewOf (acc : Acc) : bool := fst (fst acc).
Definition reasonsOf (acc : Acc) : list string := snd (fst acc).
Definition detailsOf (acc : Acc) : list string := snd acc.

Definition escalate (acc : Acc) (reasons : list string) (detail : string) : Acc :=
  (true, reasonsOf acc ++ reasons, detailsOf acc ++ [detail]).

(** 1. duplicates (always escalate) *)
Definition checkDuplicates (memories : RecalledMemories) (acc : Acc) : Acc :=
  match potentialDuplicate memories with
  | Some d =>
      escalate acc
        ["Potential duplicate detected: Invoice " +:+ pi_invoiceNumber d +:+
         " was already processed on " +:+ pretty (processedAt d)]
        "ESCALATE: Duplicate invoice detected"
  | None => acc
  end.

(** 2. new vendor (limited memory) *)
Definition checkNewVendor (memories : RecalledMemories) (acc : Acc) : Acc :=
  if isNewVendor memories then
    escalate acc
      ["New or low-history vendor - insufficient learning data for auto-decisions"]
      "ESCALATE: New vendor with limited history"
  else acc.

(** 3. low-confidence corrections *)
Definition checkLowConfidence (proposedCorrections : list ProposedCorrection)
    (acc : Acc) : Acc :=
  let lowConfidenceCorrections :=
    filter (fun c => Qltb (pc_confidence c) ESCALATE_THRESHOLD = true)
           proposedCorrections in
  if (0 <? length lowConfidenceCorrections)%nat then
    escalate acc
      (map (fun c => "Low confidence correction for " +:+ pc_field c +:+ ": " +:+
                     percent (pc_confidence c) +:+ "%")
           lowConfidenceCorrections)
      ("ESCALATE: " +:+ pretty (length lowConfidenceCorrections) +:+
       " low-confidence correction(s)")
  else acc.

(** 4. medium-confidence corrections that were not auto-applied *)
Definition checkPending (proposedCorrections : list ProposedCorrection)
    (acc : Acc) : Acc :=
  let pendingCorrections :=
    filter (fun c => negb (autoApplied c) &&
                     Qleb ESCALATE_THRESHOLD (pc_confidence c) = true)
           proposedCorrections in
  if (0 <? length pendingCorrections)%nat then
    escalate acc
      (map (fun c => "Pending correction for " +:+ pc_field c +:+
                     " needs review (confidence: " +:+
                     percent (pc_confidence c) +:+ "%)")
           pendingCorrections)
      ("REVIEW: " +:+ pretty (length pendingCorrections) +:+
       " correction(s) pending approval")
  else acc.

(** 5. conflicting memories *)
Definition checkConflicts (memories : RecalledMemories) (acc : Acc) : Acc :=
  if hasConflictingMemories memories then
    escalate acc
      ["Conflicting patterns detected in memory - human judgment required"]
      "ESCALATE: Conflicting memory patterns"
  else acc.

(** 6. missing critical fields *)
Definition checkMissing (normalizedInvoice : NormalizedInvoice)
    (proposedCorrections : list ProposedCorrection) (acc : Acc) : Acc :=
  let missingFields := checkMissingFields normalizedInvoice proposedCorrections in
  if (0 <? length missingFields)%nat then
    escalate acc
      (map (fun f => "Missing critical field: " +:+ f) missingFields)
      ("ESCALATE: Missing fields - " +:+ join ", " missingFields)
  else acc.

(** 8. final decision on the overall confidence *)
Definition decideOnScore (score : Q) (acc : Acc) : Acc :=
  if negb (reviewOf acc) then
    if Qleb AUTO_ACCEPT_THRESHOLD score then
      (reviewOf acc, reasonsOf acc,
       detailsOf acc ++ ["AUTO-ACCEPT: High confidence (" +:+ percent score +:+
                         "%) - no issues detected"])
    else if Qleb AUTO_CORRECT_THRESHOLD score then
      (reviewOf acc, reasonsOf acc,
       detailsOf acc ++ ["AUTO-CORRECT: Moderate confidence (" +:+ percent score +:+
                         "%) - corrections applied automatically"])
    else
      (true,
       reasonsOf acc ++ ["Overall confidence too low: " +:+ percent score +:+ "%"],
       detailsOf acc ++ ["ESCALATE: Confidence below threshold (" +:+
                         percent score +:+ "%)"])
  else acc.

(** [makeDecision]; the free-text [reasoning] and the time stamp of the audit
    entry are presentation and are left out. *)
Definition makeDecision (normalizedInvoice : NormalizedInvoice)
    (proposedCorrections : list ProposedCorrection)
    (memories : RecalledMemories) (originalConfidence : Q) : DecisionResult :=
  let acc : Acc := (false, [], []) in
  let acc := checkDuplicates memories acc in
  let acc := checkNewVendor memories acc in
  let acc := checkLowConfidence proposedCorrections acc in
  let acc := checkPending proposedCorrections acc in
  let acc := checkConflicts memories acc in
  let acc := checkMissing normalizedInvoice proposedCorrections acc in
  (* 7. overall confidence score *)
  let score :=
    calculateOverallConfidence originalConfidence memories proposedCorrections in
  let acc := decideOnScore score acc in
  {| requiresHumanReview := reviewOf acc;
     confidenceScore := score;
     auditDetails := join "; " (detailsOf acc);
     escalationReasons := reasonsOf acc |}.

End Decide.

(** ** Strings as the source uses them

    Characters are code units below 256. *)

Definition code (c : ascii) : Z := Z.of_N (N_of_ascii c).
Definition ofCode (n : Z) : ascii := ascii_of_N (Z.to_N n).

Definition isDigit (c : ascii) : bool := (48 <=? code c) && (code c <=? 57).
Definition isUpper (c : ascii) : bool := (65 <=? code c) && (code c <=? 90).
Definition isLower (c : ascii) : bool := (97 <=? code c) && (code c <=? 122).
Definition isLetter (c : ascii) : bool := isUpper c || isLower c.
(** [\w] and [\s] of a regular expression without the [u] flag. *)
Definition isWordChar (c : ascii) : bool :=
  isLetter c || isDigit c || (code c =? 95).
Definition isSpace (c : ascii) : bool :=
  ((9 <=? code c) && (code c <=? 13)) || (code c =? 32) || (code c =? 160).

Definition lowerChar (c : ascii) : ascii :=
  let n := code c in
  if isUpper c || ((192 <=? n) && (n <=? 222) && negb (n =? 215))
  then ofCode (n + 32) else c.

Definition upperChar (c : ascii) : ascii :=
  let n := code c in
  if isLower c || ((224 <=? n) && (n <=? 254) && negb (n =? 247))
  then ofCode (n - 32) else c.

Fixpoint mapString (f : ascii -> ascii) (s : string) : string :=
  match s with
  | EmptyString => EmptyString
  | String c rest => String (f c) (mapString f rest)
  end.

Definition toLowerCase : string -> string := mapString lowerChar.
Definition toUpperCase : string -> string := mapString upperChar.

(** [s.startsWith(p)] and [s.includes(sub)]. *)
Definition startsWith (s p : string) : bool := String.prefix p s.

Fixpoint includes (s sub : string) : bool :=
  String.prefix sub s ||
  match s with
  | EmptyString => false
  | String _ rest => includes rest sub
  end.

Fixpoint trimStart (s : string) : string :=
  match s with
  | String c rest => if isSpace c then trimStart rest else s
  | EmptyString => EmptyString
  end.

Definition trim (s : string) : string :=
  String.rev (trimStart (String.rev (trimStart s))).

(** What the host supplies: the decimal rendering of a number in a template
    literal; the hex MD5 digest of node's [crypto]; the text a TEXT column of
    the database keeps for a number bound to it; and the time zone, as the
    difference in milliseconds between UTC and local time at the local
    midnight that begins a day, the day counted from 1970-01-01 (what
    [getTimezoneOffset] reports in minutes; it changes with daylight
    saving). *)
Class JsRuntime := {
  numberToString : Q -> string;
  md5 : string -> string;
  columnText : Q -> string;
  timezoneOffset : Z -> Z
}.

(** [String(v)] for a value of unknown type, as a template literal does. *)
Definition render `{JsRuntime} (v : JsValue) : string :=
  match v with
  | VNull => "null"
  | VStr s => s
  | VNum q => numberToString q
  | VFromTo _ _ => "[object Object]"
  end.

(** [v ? JSON.stringify(v) : null] written to a column and read back with
    [JSON.parse]: a falsy value (null, the empty string, zero) is lost. *)
Definition truthyValue (v : JsValue) : bool :=
  match v with
  | VNull => false
  | VStr s => truthy s
  | VNum q => negb (Qeq_bool q 0)
  | VFromTo _ _ => true
  end.

Definition jsonColumn (v : JsValue) : JsValue :=
  if truthyValue v then v else VNull.

(** A cast [v as string] of a value that stays in the program: no conversion
    happens at run time; the typed contract is that [v] is a string, anything
    else is kept as absent. *)
Definition asString (v : JsValue) : option string :=
  match v with VStr s => Some s | _ => None end.

(** A cast [v as string] of a value bound to a TEXT column: what the column
    holds afterwards.  A string is kept, a number is kept as its text, null
    as NULL; an object is not a value the driver binds and is kept as
    NULL. *)
Definition columnValue `{JsRuntime} (v : JsValue) : option string :=
  match v with
  | VStr s => Some s
  | VNum q => Some (columnText q)
  | VNull => None
  | VFromTo _ _ => None
  end.

(** ** The knowledge store (db/connection.ts) *)

Record Database := mkDatabase {
  vendor_memories : gmap string VendorMemory;
  correction_memories : list CorrectionMemory;
  resolution_memories : list ResolutionMemory;
  processed_invoices : list ProcessedInvoice;
  nextId : nat
}.

Definition emptyDatabase : Database :=
  {| vendor_memories := ∅; correction_memories := [];
     resolution_memories := []; processed_invoices := []; nextId := 0 |}.

(** Store-passing computations. *)
Definition Db (A : Type) : Type := Database -> A * Database.

#[export] Instance db_ret : MRet Db := fun A a db => (a, db).
#[export] Instance db_bind : MBind Db :=
  fun A B k m db => let '(a, db') := m db in k a db'.

Definition ret {A} (a : A) : Db A := mret a.
Definition getDb : Db Database := fun db => (db, db).

Definition uuidv4 : Db string := fun db =>
  ("uuid-" +:+ pretty (nextId db),
   {| vendor_memories := vendor_memories db;
      correction_memories := correction_memories db;
      resolution_memories := resolution_memories db;
      processed_invoices := processed_invoices db;
      nextId := S (nextId db) |}).

Definition setVendorMemories (f : gmap string VendorMemory -> gmap string VendorMemory)
  : Db unit := fun db =>
  (tt, {| vendor_memories := f (vendor_memories db);
          correction_memories := correction_memories db;
          resolution_memories := resolution_memories db;
          processed_invoices := processed_invoices db;
          nextId := nextId db |}).

Definition setCorrectionMemories (f : list CorrectionMemory -> list CorrectionMemory)
  : Db unit := fun db =>
  (tt, {| vendor_memories := vendor_memories db;
          correction_memories := f (correction_memories db);
          resolution_memories := resolution_memories db;
          processed_invoices := processed_invoices db;
          nextId := nextId db |}).

Definition setResolutionMemories (f : list ResolutionMemory -> list ResolutionMemory)
  : Db unit := fun db =>
  (tt, {| vendor_memories := vendor_memories db;
          correction_memories := correction_memories db;
          resolution_memories := f (resolution_memories db);
          processed_invoices := processed_invoices db;
          nextId := nextId db |}).

Definition setProcessedInvoices (f : list ProcessedInvoice -> list ProcessedInvoice)
  : Db unit := fun db =>
  (tt, {| vendor_memories := vendor_memories db;
          correction_memories := correction_memories db;
          resolution_memories := resolution_memories db;
          processed_invoices := f (processed_invoices db);
          nextId := nextId db |}).

(** [ORDER BY key DESC]: a stable sort, rows with equal keys stay in table
    order. *)
Section OrderBy.
Context {A : Type} (geb : A -> A -> bool).

Fixpoint insertDesc (c : A) (l : list A) : list A :=
  match l with
  | [] => [c]
  | x :: rest => if geb c x then c :: l else x :: insertDesc c rest
  end.

Definition orderByDesc (l : list A) : list A := foldr insertDesc [] l.

End OrderBy.

(** ** Correction memory (memory/correctionMemory.ts) *)

Module CorrectionMem.

Definition getCorrectionMemoriesOf (vendorName : string) (db : Database)
  : list CorrectionMemory :=
  orderByDesc (fun a b => Qleb (cm_confidence b) (cm_confidence a))
    (filter (fun c => cm_vendorName c = vendorName) (correction_memories db)).

Definition getCorrectionMemories (vendorName : string) : Db (list CorrectionMemory) :=
  db ← getDb; ret (getCorrectionMemoriesOf vendorName db).

Definition matchesCorrection (fieldName' : string) (pat : option string)
    (c : CorrectionMemory) : bool :=
  if negb (String.eqb (fieldName c) fieldName') then false
  else
    match pat with
    | Some p =>
        if truthy p && truthy (pattern c) then
          includes (toLowerCase (pattern c)) (toLowerCase p) ||
          includes (toLowerCase p) (toLowerCase (pattern c))
        else true
    | None => true
    end.

Definition findMatchingCorrection (vendorName fieldName' : string)
    (pat : option string) : Db (option CorrectionMemory) :=
  corrections ← getCorrectionMemories vendorName;
  let matches :=
    filter (fun c => matchesCorrection fieldName' pat c = true) corrections in
  ret (head matches).

Definition calculateCorrectionConfidence (successCount failureCount : Z) : Q :=
  let total := successCount + failureCount in
  if total =? 0 then 0.5%Q
  else
    let observationFactor := Qmin 1.0 (inject_Z total / 3) in
    let adjustedRate :=
      (inject_Z successCount / (inject_Z successCount + inject_Z failureCount * 2))%Q in
    Qmin 0.95 (Qmax 0.1 (0.3 + adjustedRate * 0.65 * observationFactor)).

Definition lookupCorrection (correctionId : string) (db : Database)
  : option CorrectionMemory :=
  head (filter (fun c => cm_id c = correctionId) (correction_memories db)).

Definition updateCorrection (correctionId : string)
    (f : CorrectionMemory -> CorrectionMemory) : Db unit :=
  setCorrectionMemories
    (map (fun c => if decide (cm_id c = correctionId) then f c else c)).

Definition reinforceCorrection (now : Z) (correctionId : string) : Db unit :=
  db ← getDb;
  match lookupCorrection correctionId db with
  | None => ret tt
  | Some row =>
      let successCount' := successCount row + 1 in
      let failureCount' := failureCount row in
      let newConfidence := calculateCorrectionConfidence successCount' failureCount' in
      updateCorrection correctionId (fun c =>
        {| cm_id := cm_id c; cm_vendorName := cm_vendorName c;
           fieldName := fieldName c; pattern := pattern c;
           correctionType := correctionType c; correctionValue := correctionValue c;
           cm_confidence := newConfidence;
           successCount := successCount'; failureCount := failureCount c;
           cm_createdAt := cm_createdAt c; cm_updatedAt := now |})
  end.

Definition weakenCorrection (now : Z) (correctionId : string) : Db unit :=
  db ← getDb;
  match lookupCorrection correctionId db with
  | None => ret tt
  | Some row =>
      let successCount' := successCount row in
      let failureCount' := failureCount row + 1 in
      let newConfidence := calculateCorrectionConfidence successCount' failureCount' in
      updateCorrection correctionId (fun c =>
        {| cm_id := cm_id c; cm_vendorName := cm_vendorName c;
           fieldName := fieldName c; pattern := pattern c;
           correctionType := correctionType c; correctionValue := correctionValue c;
           cm_confidence := newConfidence;
           successCount := successCount c; failureCount := failureCount';
           cm_createdAt := cm_createdAt c; cm_updatedAt := now |})
  end.

Definition recordCorrection (now : Z) (vendorName fieldName' pattern' : string)
    (correctionType' : CorrectionType) (correctionValue' : JsValue)
  : Db CorrectionMemory :=
  id ← uuidv4;
  existing ← findMatchingCorrection vendorName fieldName' (Some pattern');
  match existing with
  | Some existing =>
      reinforceCorrection now (cm_id existing) ;;
      ret {| cm_id := cm_id existing; cm_vendorName := cm_vendorName existing;
             fieldName := fieldName existing; pattern := pattern existing;
             correctionType := correctionType existing;
             correctionValue := correctionValue existing;
             cm_confidence := cm_confidence existing;
             successCount := successCount existing + 1;
             failureCount := failureCount existing;
             cm_createdAt := cm_createdAt existing;
             cm_updatedAt := cm_updatedAt existing |}
  | None =>
      let memory :=
        {| cm_id := id; cm_vendorName := vendorName; fieldName := fieldName';
           pattern := pattern'; correctionType := correctionType';
           correctionValue := correctionValue';
           cm_confidence := 0.6%Q; successCount := 1; failureCount := 0;
           cm_createdAt := now; cm_updatedAt := now |} in
      (* the row written holds the value as the JSON column keeps it *)
      setCorrectionMemories (fun t => t ++
        [{| cm_id := id; cm_vendorName := vendorName; fieldName := fieldName';
            pattern := pattern'; correctionType := correctionType';
            correctionValue := jsonColumn correctionValue';
            cm_confidence := 0.6%Q; successCount := 1; failureCount := 0;
            cm_createdAt := now; cm_updatedAt := now |}]) ;;
      ret memory
  end.

End CorrectionMem.

(** ** Vendor memory (memory/vendorMemory.ts) *)

Module VendorMem.

Definition getVendorMemory (vendorName : string) : Db (option VendorMemory) :=
  db ← getDb; ret (vendor_memories db !! vendorName).

Definition createVendorMemory (now : Z) (vendorName : string) : Db VendorMemory :=
  id ← uuidv4;
  let memory :=
    {| vm_id := id; vm_vendorName := vendorName; fieldMappings := [];
       taxBehavior := None; defaultCurrency := None; skuMappings := [];
       paymentTerms := None; vm_confidence := 0.5%Q; vm_usageCount := 0;
       vm_lastUsed := now; vm_createdAt := now; vm_updatedAt := now |} in
  setVendorMemories (insert vendorName memory) ;;
  ret memory.

(** The recurring prologue: read the row, create it when absent. *)
Definition ensureVendorMemory (now : Z) (vendorName : string) : Db VendorMemory :=
  memory ← getVendorMemory vendorName;
  match memory with
  | Some m => ret m
  | None => createVendorMemory now vendorName
  end.

Definition calculateConfidence (successCount failureCount : Z) : Q :=
  let total := successCount + failureCount in
  if total =? 0 then 0.5%Q
  else
    let successRate := (inject_Z successCount / inject_Z total)%Q in
    let observationFactor := Qmin 1.0 (inject_Z total / 3) in
    Qmin 0.95 (0.3 + successRate * 0.65 * observationFactor).

Definition Qsum (l : list Q) : Q := fold_left Qplus l 0%Q.

(** The confidences [calculateOverallConfidence] collects, in its order. *)
Definition subConfidences (fms : list FieldMapping) (tb : option TaxBehavior)
    (sms : list SkuMapping) : list Q :=
  map fm_confidence fms ++
  match tb with Some t => [tb_confidence t] | None => [] end ++
  map sm_confidence sms.

Definition overallConfidenceOf (confidences : list Q) (usageCount : Z) : Q :=
  if (length confidences =? 0)%nat then 0.5%Q
  else
    let avg := (Qsum confidences / inject_Z (Z.of_nat (length confidences)))%Q in
    let usageFactor := Qmin 1.0 (inject_Z usageCount / 5) in
    (0.3 + avg * 0.7 * usageFactor)%Q.

Definition calculateOverallConfidence (memory : VendorMemory) : Q :=
  overallConfidenceOf
    (subConfidences (fieldMappings memory) (taxBehavior memory) (skuMappings memory))
    (vm_usageCount memory).

(** [UPDATE vendor_memories SET ... WHERE vendor_name = ?]. *)
Definition updateVendorRow (vendorName : string)
    (f : VendorMemory -> VendorMemory) : Db unit :=
  setVendorMemories (fun t =>
    match t !! vendorName with
    | Some row => <[vendorName := f row]> t
    | None => t
    end).

(** [array.find(p)] followed by an in-place change of the element found:
    the first element satisfying [p] is replaced; [None] when there is none. *)
Fixpoint updateFirst {A} (p : A -> bool) (f : A -> A) (l : list A)
  : option (list A) :=
  match l with
  | [] => None
  | x :: rest =>
      if p x then Some (f x :: rest)
      else match updateFirst p f rest with
           | Some rest' => Some (x :: rest')
           | None => None
           end
  end.

Definition updateFieldMapping (now : Z) (vendorName sourceLabel' targetField' : string)
    (success : bool) : Db unit :=
  memory ← ensureVendorMemory now vendorName;
  let same m :=
    String.eqb (toLowerCase (sourceLabel m)) (toLowerCase sourceLabel') &&
    String.eqb (targetField m) targetField' in
  let bump m :=
    let s := if success then fm_successCount m + 1 else fm_successCount m in
    let f := if success then fm_failureCount m else fm_failureCount m + 1 in
    {| sourceLabel := sourceLabel m; targetField := targetField m;
       fm_confidence := calculateConfidence s f;
       fm_successCount := s; fm_failureCount := f |} in
  let mappings :=
    match updateFirst same bump (fieldMappings memory) with
    | Some l => l
    | None =>
        fieldMappings memory ++
        [{| sourceLabel := sourceLabel'; targetField := targetField';
            fm_confidence := if success then 0.6%Q else 0.3%Q;
            fm_successCount := if success then 1 else 0;
            fm_failureCount := if success then 0 else 1 |}]
    end in
  let usageCount := vm_usageCount memory + 1 in
  let confidence :=
    overallConfidenceOf
      (subConfidences mappings (taxBehavior memory) (skuMappings memory)) usageCount in
  updateVendorRow vendorName (fun row =>
    {| vm_id := vm_id row; vm_vendorName := vm_vendorName row;
       fieldMappings := mappings; taxBehavior := taxBehavior row;
       defaultCurrency := defaultCurrency row; skuMappings := skuMappings row;
       paymentTerms := paymentTerms row; vm_confidence := confidence;
       vm_usageCount := usageCount; vm_lastUsed := now;
       vm_createdAt := vm_createdAt row; vm_updatedAt := now |}).

Definition updateTaxBehavior (now : Z) (vendorName : string) (isInclusive' : bool)
    (defaultRate' : Q) (success : bool) : Db unit :=
  memory ← ensureVendorMemory now vendorName;
  let tax :=
    match taxBehavior memory with
    | Some tb =>
        let newConfidence :=
          if success then Qmin 1.0 (addDouble (tb_confidence tb) 0.1)
          else Qmax (roundDouble 0.1) (subDouble (tb_confidence tb) 0.2) in
        {| isInclusive := isInclusive tb; defaultRate := defaultRate tb;
           tb_confidence := newConfidence |}
    | None =>
        {| isInclusive := isInclusive'; defaultRate := defaultRate';
           tb_confidence := if success then 0.6%Q else 0.3%Q |}
    end in
  let usageCount := vm_usageCount memory + 1 in
  let confidence :=
    overallConfidenceOf
      (subConfidences (fieldMappings memory) (Some tax) (skuMappings memory))
      usageCount in
  updateVendorRow vendorName (fun row =>
    {| vm_id := vm_id row; vm_vendorName := vm_vendorName row;
       fieldMappings := fieldMappings row; taxBehavior := Some tax;
       defaultCurrency := defaultCurrency row; skuMappings := skuMappings row;
       paymentTerms := paymentTerms row; vm_confidence := confidence;
       vm_usageCount := usageCount; vm_lastUsed := now;
       vm_createdAt := vm_createdAt row; vm_updatedAt := now |}).

Definition updateDefaultCurrency (now : Z) (vendorName : string)
    (currency' : option string) : Db unit :=
  memory ← ensureVendorMemory now vendorName;
  let usageCount := vm_usageCount memory + 1 in
  updateVendorRow vendorName (fun row =>
    {| vm_id := vm_id row; vm_vendorName := vm_vendorName row;
       fieldMappings := fieldMappings row; taxBehavior := taxBehavior row;
       defaultCurrency := currency'; skuMappings := skuMappings row;
       paymentTerms := paymentTerms row; vm_confidence := vm_confidence row;
       vm_usageCount := usageCount; vm_lastUsed := now;
       vm_createdAt := vm_createdAt row; vm_updatedAt := now |}).

Definition updateSkuMapping (now : Z) (vendorName description sku : string)
    (success : bool) : Db unit :=
  memory ← ensureVendorMemory now vendorName;
  let normalizedDesc := trim (toLowerCase description) in
  let same m :=
    includes (toLowerCase (sm_description m)) normalizedDesc ||
    includes normalizedDesc (toLowerCase (sm_description m)) in
  let bump m :=
    if success then
      {| sm_description := sm_description m; sm_sku := sm_sku m;
         sm_confidence := Qmin 1.0 (addDouble (sm_confidence m) 0.1);
         sm_usageCount := sm_usageCount m + 1 |}
    else
      {| sm_description := sm_description m; sm_sku := sm_sku m;
         sm_confidence := Qmax (roundDouble 0.1) (subDouble (sm_confidence m) 0.2);
         sm_usageCount := sm_usageCount m |} in
  let mappings :=
    match updateFirst same bump (skuMappings memory) with
    | Some l => l
    | None =>
        skuMappings memory ++
        [{| sm_description := normalizedDesc; sm_sku := sku;
            sm_confidence := if success then 0.6%Q else 0.3%Q;
            sm_usageCount := 1 |}]
    end in
  let usageCount := vm_usageCount memory + 1 in
  let confidence :=
    overallConfidenceOf
      (subConfidences (fieldMappings memory) (taxBehavior memory) mappings)
      usageCount in
  updateVendorRow vendorName (fun row =>
    {| vm_id := vm_id row; vm_vendorName := vm_vendorName row;
       fieldMappings := fieldMappings row; taxBehavior := taxBehavior row;
       defaultCurrency := defaultCurrency row; skuMappings := mappings;
       paymentTerms := paymentTerms row; vm_confidence := confidence;
       vm_usageCount := usageCount; vm_lastUsed := now;
       vm_createdAt := vm_createdAt row; vm_updatedAt := now |}).

Definition updatePaymentTerms (now : Z) (vendorName : string)
    (terms : option string) : Db unit :=
  memory ← ensureVendorMemory now vendorName;
  let usageCount := vm_usageCount memory + 1 in
  updateVendorRow vendorName (fun row =>
    {| vm_id := vm_id row; vm_vendorName := vm_vendorName row;
       fieldMappings := fieldMappings row; taxBehavior := taxBehavior row;
       defaultCurrency := defaultCurrency row; skuMappings := skuMappings row;
       paymentTerms := terms; vm_confidence := vm_confidence row;
       vm_usageCount := usageCount; vm_lastUsed := now;
       vm_createdAt := vm_createdAt row; vm_updatedAt := now |}).

Definition recordVendorUsage (now : Z) (vendorName : string) : Db unit :=
  memory ← getVendorMemory vendorName;
  match memory with
  | Some _ =>
      updateVendorRow vendorName (fun row =>
        {| vm_id := vm_id row; vm_vendorName := vm_vendorName row;
           fieldMappings := fieldMappings row; taxBehavior := taxBehavior row;
           defaultCurrency := defaultCurrency row; skuMappings := skuMappings row;
           paymentTerms := paymentTerms row; vm_confidence := vm_confidence row;
           vm_usageCount := vm_usageCount row + 1; vm_lastUsed := now;
           vm_createdAt := vm_createdAt row; vm_updatedAt := now |})
  | None => ret tt
  end.

End VendorMem.

(** ** Resolution memory (memory/resolutionMemory.ts) *)

Module ResolutionMem.

Definition getResolutionMemories (vendorName : string) : Db (list ResolutionMemory) :=
  db ← getDb;
  ret (orderByDesc (fun a b => rm_createdAt b <=? rm_createdAt a)
         (filter (fun r => rm_vendorName r = vendorName) (resolution_memories db))).

Definition recordResolution (now : Z) (invoiceId' vendorName discrepancyType' : string)
    (originalValue correctedValue' : JsValue) (resolution' : Verdict)
    (humanFeedback' : option string) : Db ResolutionMemory :=
  id ← uuidv4;
  let memory :=
    {| rm_id := id; rm_invoiceId := invoiceId'; rm_vendorName := vendorName;
       discrepancyType := discrepancyType'; rm_originalValue := originalValue;
       correctedValue := correctedValue'; resolution := resolution';
       humanFeedback := humanFeedback'; rm_createdAt := now |} in
  setResolutionMemories (fun t => t ++ [memory]) ;;
  ret memory.

End ResolutionMem.

(** ** Duplicate detection (utils/duplicateDetection.ts) *)

Module DuplicateDetection.

(** Days from 1970-01-01 to a civil date of the proleptic Gregorian
    calendar; [m] in 1..12. *)
Definition daysFromCivil (y m d : Z) : Z :=
  let y := if m <=? 2 then y - 1 else y in
  let era := y / 400 in
  let yoe := y - era * 400 in
  let mp := (m + 9) mod 12 in
  let doy := (153 * mp + 2) / 5 + d - 1 in
  let doe := yoe * 365 + yoe / 4 - yoe / 100 + doy in
  era * 146097 + doe - 719468.

Definition msPerDay : Z := 1000 * 60 * 60 * 24.

(** [parseInt] of a run of decimal digits matched by [\d]. *)
Definition digitsValue (cs : list ascii) : option Z :=
  if forallb isDigit cs then
    Some (fold_left (fun acc c => acc * 10 + (code c - 48)) cs 0)
  else None.

Section WithRuntime.
Context `{JsRuntime}.

(** [new Date(year, monthIndex, date).getTime()]: the local midnight that
    begins the day.  A two-digit year counts from 1900, months and days
    outside their range carry over. *)
Definition dateTime (year monthIndex date : Z) : Z :=
  let year := if (0 <=? year) && (year <=? 99) then 1900 + year else year in
  let ym := year + monthIndex / 12 in
  let mn := monthIndex mod 12 in
  let day := daysFromCivil ym (mn + 1) 1 + date - 1 in
  day * msPerDay + timezoneOffset day.

Definition parseDate (dateStr : string) : option Z :=
  if negb (truthy dateStr) then None
  else
    match list_ascii_of_string dateStr with
    | [c0; c1; c2; c3; c4; c5; c6; c7; c8; c9] =>
        (* DD<sep>MM<sep>YYYY *)
        let dayFirst (sep : ascii) :=
          if Ascii.eqb c2 sep && Ascii.eqb c5 sep then
            match digitsValue [c0; c1], digitsValue [c3; c4],
                  digitsValue [c6; c7; c8; c9] with
            | Some dd, Some mm, Some yyyy => Some (dateTime yyyy (mm - 1) dd)
            | _, _, _ => None
            end
          else None in
        (* YYYY-MM-DD *)
        let yearFirst :=
          if Ascii.eqb c4 "-"%char && Ascii.eqb c7 "-"%char then
            match digitsValue [c0; c1; c2; c3], digitsValue [c5; c6],
                  digitsValue [c8; c9] with
            | Some yyyy, Some mm, Some dd => Some (dateTime yyyy (mm - 1) dd)
            | _, _, _ => None
            end
          else None in
        match dayFirst "."%char with
        | Some t => Some t
        | None =>
            match dayFirst "-"%char with
            | Some t => Some t
            | None => yearFirst
            end
        end
    | _ => None
    end.

Definition generateInvoiceHash (invoice : Invoice) : string :=
  let hashData :=
    vendor invoice +:+ "|" +:+ invoiceNumber (fields invoice) +:+ "|" +:+
    numberToString (grossTotal (fields invoice)) in
  md5 hashData.

(** The rows of [SELECT * FROM processed_invoices WHERE vendor_name = ? AND
    invoice_number = ? ORDER BY processed_at DESC]. *)
Definition selectProcessed (vendorName number : string) (db : Database)
  : list ProcessedInvoice :=
  orderByDesc (fun a b => processedAt b <=? processedAt a)
    (filter (fun r => pi_vendorName r = vendorName ∧ pi_invoiceNumber r = number)
            (processed_invoices db)).

(** The two tests on the most recent matching row.  The two instants are
    whole numbers of milliseconds, so their quotient by the length of a day
    is at most 7 or at least [7 + 1/86400000], and the rounding of the
    division does not change the comparison with 7. *)
Definition withinSevenDays (existingInvoice : ProcessedInvoice) (invoice : Invoice)
  : bool :=
  match parseDate (pi_invoiceDate existingInvoice),
        parseDate (invoiceDate (fields invoice)) with
  | Some existingDate, Some newDate =>
      let daysDiff :=
        Qabs (inject_Z (newDate - existingDate) / inject_Z msPerDay) in
      Qleb daysDiff 7
  | _, _ => false
  end.

(** The difference and the tolerance are doubles computed from doubles. *)
Definition withinTolerance (existingInvoice : ProcessedInvoice) (invoice : Invoice)
  : bool :=
  let amountDiff :=
    Qabs (subDouble (pi_grossTotal existingInvoice) (grossTotal (fields invoice))) in
  let tolerance := mulDouble (pi_grossTotal existingInvoice) 0.01 in
  Qleb amountDiff tolerance.

Definition checkDuplicateIn (db : Database) (invoice : Invoice)
  : option ProcessedInvoice :=
  match selectProcessed (vendor invoice) (invoiceNumber (fields invoice)) db with
  | [] => None
  | existingInvoice :: _ =>
      if withinSevenDays existingInvoice invoice &&
         withinTolerance existingInvoice invoice
      then Some existingInvoice
      else
        let hash' := generateInvoiceHash invoice in
        if String.eqb (hash existingInvoice) hash' then Some existingInvoice
        else None
  end.

Definition checkDuplicate (invoice : Invoice) : Db (option ProcessedInvoice) :=
  db ← getDb; ret (checkDuplicateIn db invoice).

Definition recordProcessedInvoice (now : Z) (invoice : Invoice) : Db unit :=
  id ← uuidv4;
  let hash' := generateInvoiceHash invoice in
  setProcessedInvoices (fun t => t ++
    [{| pi_id := id;
        pi_invoiceNumber := invoiceNumber (fields invoice);
        pi_vendorName := vendor invoice;
        pi_invoiceDate := invoiceDate (fields invoice);
        pi_grossTotal := grossTotal (fields invoice);
        processedAt := now;
        hash := hash' |}]).

End WithRuntime.
End DuplicateDetection.

(** ** Recall (services/recall.ts) *)

Module Recall.

Section WithRuntime.
Context `{JsRuntime}.

Definition recallMemories (invoice : Invoice) : Db RecalledMemories :=
  let vendorName := vendor invoice in
  vendorMemory' ← VendorMem.getVendorMemory vendorName;
  correctionMemories' ← CorrectionMem.getCorrectionMemories vendorName;
  resolutionMemories' ← ResolutionMem.getResolutionMemories vendorName;
  potentialDuplicate' ← DuplicateDetection.checkDuplicate invoice;
  ret {| vendorMemory := vendorMemory';
         correctionMemories := correctionMemories';
         resolutionMemories := resolutionMemories';
         potentialDuplicate := potentialDuplicate' |}.

End WithRuntime.

(** [applyConfidenceDecay(confidence, lastUsed)], read at the instant [now];
    both instants are in milliseconds.  [Math.pow] with a fractional exponent
    leaves the rationals, so this one function is over the reals. *)
Definition daysSince (lastUsed now : Z) : R :=
  (IZR (now - lastUsed) / (1000 * 60 * 60 * 24))%R.

Definition applyConfidenceDecay (confidence : R) (lastUsed now : Z) : R :=
  let daysSinceLastUse := daysSince lastUsed now in
  let decayFactor := Rpower 0.99 daysSinceLastUse in
  Rmax 0.1 (confidence * decayFactor).

End Recall.

(** ** Apply (services/apply.ts) *)

Module Apply.

Definition AUTO_APPLY_THRESHOLD : Q := 0.85.

(** The raw-text extractors built on a regular expression assembled from a
    stored label, on [parseFloat], or on the discount-term patterns are
    taken as given functions of the raw text: what Apply does with their
    result is modelled, not how they scan. *)
Class Extractors := {
  extractFromRawText : string -> string -> option string;
  recalculateGrossFromRawText : string -> Q -> option Q;
  extractPaymentTerms : string -> option string
}.

(** *** [extractCurrencyFromRawText] *)

(** A literal matched under the [i] flag; the rest of the input on success. *)
Fixpoint matchLiteral (lit s : list ascii) : option (list ascii) :=
  match lit, s with
  | [], _ => Some s
  | p :: lit', c :: s' =>
      if Ascii.eqb (lowerChar c) (lowerChar p) then matchLiteral lit' s' else None
  | _ :: _, [] => None
  end.

Fixpoint dropWhile (p : ascii -> bool) (s : list ascii) : list ascii :=
  match s with
  | c :: rest => if p c then dropWhile p rest else s
  | [] => []
  end.

(** [/Currency[:\s]+([A-Z]{3})/i] anchored at the head of [s]. *)
Definition currencyLabelHere (s : list ascii) : option string :=
  match matchLiteral (list_ascii_of_string "Currency") s with
  | Some (c :: rest) =>
      if Ascii.eqb c ":"%char || isSpace c then
        match dropWhile (fun c => Ascii.eqb c ":"%char || isSpace c) rest with
        | x :: y :: z :: _ =>
            if isLetter x && isLetter y && isLetter z
            then Some (string_of_list_ascii [x; y; z]) else None
        | _ => None
        end
      else None
  | _ => None
  end.

Fixpoint searchCurrencyLabel (s : list ascii) : option string :=
  match currencyLabelHere s with
  | Some r => Some r
  | None => match s with [] => None | _ :: rest => searchCurrencyLabel rest end
  end.

(** [/\b(EUR|USD|GBP|CHF)\b/i]; [prevWord] tells whether the character before
    the head of [s] is a word character. *)
Definition currencyCodeHere (prevWord : bool) (s : list ascii) : option string :=
  match s with
  | x :: y :: z :: rest =>
      let w := toUpperCase (string_of_list_ascii [x; y; z]) in
      let known :=
        String.eqb w "EUR" || String.eqb w "USD" ||
        String.eqb w "GBP" || String.eqb w "CHF" in
      let endsWord := match rest with [] => true | c :: _ => negb (isWordChar c) end in
      if negb prevWord && known && endsWord
      then Some (string_of_list_ascii [x; y; z]) else None
  | _ => None
  end.

Fixpoint searchCurrencyCode (prevWord : bool) (s : list ascii) : option string :=
  match currencyCodeHere prevWord s with
  | Some r => Some r
  | None =>
      match s with
      | [] => None
      | c :: rest => searchCurrencyCode (isWordChar c) rest
      end
  end.

Definition extractCurrencyFromRawText (rawText : string) : option string :=
  let s := list_ascii_of_string rawText in
  match searchCurrencyLabel s with
  | Some m => Some (toUpperCase m)
  | None =>
      match searchCurrencyCode false s with
      | Some m => Some (toUpperCase m)
      | None => None
      end
  end.

(** *** Normalisation *)

Definition orElse (o : option string) (d : string) : string :=
  match orUndefined o with Some s => s | None => d end.

Definition normalizeLineItems (items : list LineItem) : list NormalizedLineItem :=
  map (fun item =>
         {| nli_sku := orElse (li_sku item) "UNKNOWN";
            nli_description := orElse (li_description item) "";
            nli_qty := li_qty item;
            nli_unitPrice := li_unitPrice item;
            nli_amount := (li_qty item * li_unitPrice item)%Q |})
      items.

(** The copy of the original fields Apply starts from. *)
Definition initialNormalized (invoice : Invoice) : NormalizedInvoice :=
  let f := fields invoice in
  {| n_invoiceId := invoiceId invoice;
     n_vendor := vendor invoice;
     n_invoiceNumber := invoiceNumber f;
     n_invoiceDate := invoiceDate f;
     n_serviceDate := orUndefined (serviceDate f);
     n_currency := orElse (currency f) "EUR";
     n_poNumber := orUndefined (poNumber f);
     n_netTotal := netTotal f;
     n_taxRate := taxRate f;
     n_taxTotal := taxTotal f;
     n_grossTotal := grossTotal f;
     n_lineItems := normalizeLineItems (lineItems f);
     n_discountTerms := orUndefined (discountTerms f) |}.

Definition setServiceDate (v : string) (n : NormalizedInvoice) : NormalizedInvoice :=
  {| n_invoiceId := n_invoiceId n; n_vendor := n_vendor n;
     n_invoiceNumber := n_invoiceNumber n; n_invoiceDate := n_invoiceDate n;
     n_serviceDate := Some v; n_currency := n_currency n;
     n_poNumber := n_poNumber n; n_netTotal := n_netTotal n;
     n_taxRate := n_taxRate n; n_taxTotal := n_taxTotal n;
     n_grossTotal := n_grossTotal n; n_lineItems := n_lineItems n;
     n_discountTerms := n_discountTerms n |}.

Definition setTotals (gross tax : Q) (n : NormalizedInvoice) : NormalizedInvoice :=
  {| n_invoiceId := n_invoiceId n; n_vendor := n_vendor n;
     n_invoiceNumber := n_invoiceNumber n; n_invoiceDate := n_invoiceDate n;
     n_serviceDate := n_serviceDate n; n_currency := n_currency n;
     n_poNumber := n_poNumber n; n_netTotal := n_netTotal n;
     n_taxRate := n_taxRate n; n_taxTotal := tax;
     n_grossTotal := gross; n_lineItems := n_lineItems n;
     n_discountTerms := n_discountTerms n |}.

Definition setCurrency (v : string) (n : NormalizedInvoice) : NormalizedInvoice :=
  {| n_invoiceId := n_invoiceId n; n_vendor := n_vendor n;
     n_invoiceNumber := n_invoiceNumber n; n_invoiceDate := n_invoiceDate n;
     n_serviceDate := n_serviceDate n; n_currency := v;
     n_poNumber := n_poNumber n; n_netTotal := n_netTotal n;
     n_taxRate := n_taxRate n; n_taxTotal := n_taxTotal n;
     n_grossTotal := n_grossTotal n; n_lineItems := n_lineItems n;
     n_discountTerms := n_discountTerms n |}.

Definition setLineItems (v : list NormalizedLineItem) (n : NormalizedInvoice)
  : NormalizedInvoice :=
  {| n_invoiceId := n_invoiceId n; n_vendor := n_vendor n;
     n_invoiceNumber := n_invoiceNumber n; n_invoiceDate := n_invoiceDate n;
     n_serviceDate := n_serviceDate n; n_currency := n_currency n;
     n_poNumber := n_poNumber n; n_netTotal := n_netTotal n;
     n_taxRate := n_taxRate n; n_taxTotal := n_taxTotal n;
     n_grossTotal := n_grossTotal n; n_lineItems := v;
     n_discountTerms := n_discountTerms n |}.

Definition setDiscountTerms (v : string) (n : NormalizedInvoice) : NormalizedInvoice :=
  {| n_invoiceId := n_invoiceId n; n_vendor := n_vendor n;
     n_invoiceNumber := n_invoiceNumber n; n_invoiceDate := n_invoiceDate n;
     n_serviceDate := n_serviceDate n; n_currency := n_currency n;
     n_poNumber := n_poNumber n; n_netTotal := n_netTotal n;
     n_taxRate := n_taxRate n; n_taxTotal := n_taxTotal n;
     n_grossTotal := n_grossTotal n; n_lineItems := n_lineItems n;
     n_discountTerms := Some v |}.

Definition setPoNumber (v : string) (n : NormalizedInvoice) : NormalizedInvoice :=
  {| n_invoiceId := n_invoiceId n; n_vendor := n_vendor n;
     n_invoiceNumber := n_invoiceNumber n; n_invoiceDate := n_invoiceDate n;
     n_serviceDate := n_serviceDate n; n_currency := n_currency n;
     n_poNumber := Some v; n_netTotal := n_netTotal n;
     n_taxRate := n_taxRate n; n_taxTotal := n_taxTotal n;
     n_grossTotal := n_grossTotal n; n_lineItems := n_lineItems n;
     n_discountTerms := n_discountTerms n |}.

Definition setSku (v : string) (i : NormalizedLineItem) : NormalizedLineItem :=
  {| nli_sku := v; nli_description := nli_description i; nli_qty := nli_qty i;
     nli_unitPrice := nli_unitPrice i; nli_amount := nli_amount i |}.

(** *** Purchase-order matching *)

Record POMatch := mkPOMatch {
  pm_poNumber : string;
  pm_confidence : Q
}.

Definition Qlen {A} (l : list A) : Q := inject_Z (Z.of_nat (length l)).

Definition matchPurchaseOrder (invoice : Invoice) (purchaseOrders : list PurchaseOrder)
  : option POMatch :=
  let vendorPOs := filter (fun po => po_vendor po = vendor invoice) purchaseOrders in
  if (length vendorPOs =? 0)%nat then None
  else
    let invoiceSKUs := omap (fun i => orUndefined (li_sku i)) (lineItems (fields invoice)) in
    let step (bestMatch : option POMatch) (po : PurchaseOrder) : option POMatch :=
      let poSKUs := map li_sku (po_lineItems po) in
      let matchingSKUs :=
        filter (fun sku => Some sku ∈ poSKUs) invoiceSKUs in
      if (0 <? length matchingSKUs)%nat then
        let skuMatchRatio :=
          (Qlen matchingSKUs / Qmax (Qlen invoiceSKUs) (Qlen poSKUs))%Q in
        let uniquenessBonus := if (length vendorPOs =? 1)%nat then 0.2%Q else 0%Q in
        let confidence := Qmin 0.95 (0.5 + skuMatchRatio * 0.3 + uniquenessBonus) in
        match bestMatch with
        | Some b =>
            if Qltb (pm_confidence b) confidence
            then Some {| pm_poNumber := po_poNumber po; pm_confidence := confidence |}
            else bestMatch
        | None => Some {| pm_poNumber := po_poNumber po; pm_confidence := confidence |}
        end
      else bestMatch in
    let bestMatch := fold_left step vendorPOs None in
    match bestMatch, vendorPOs with
    | None, [po] => Some {| pm_poNumber := po_poNumber po; pm_confidence := 0.6%Q |}
    | _, _ => bestMatch
    end.

(** *** The correction steps *)

Record ApplyResult := mkApplyResult {
  normalizedInvoice : NormalizedInvoice;
  proposedCorrections : list ProposedCorrection
}.

Definition State : Type := NormalizedInvoice * list ProposedCorrection.

Definition skuField (i : nat) : string := "lineItems[" +:+ pretty i +:+ "].sku".

Definition vatInclusiveIndicators : list string :=
  ["inkl."; "incl."; "included"; "inclusive"; "mwst. inkl"].

Section WithExtractors.
Context `{Extractors}.

(** 1. serviceDate from a learned field mapping. *)
Definition applyFieldMappings (invoice : Invoice) (vm : VendorMemory) (st : State)
  : State :=
  let '(normalized, corrections) := st in
  if isSet (n_serviceDate normalized) then st
  else
    match find (fun m => String.eqb (targetField m) "serviceDate") (fieldMappings vm) with
    | Some serviceDateMapping =>
        match orUndefined (extractFromRawText (rawText invoice)
                             (sourceLabel serviceDateMapping)) with
        | Some extractedDate =>
            let correction :=
              {| pc_field := "serviceDate";
                 pc_originalValue := VNull;
                 pc_proposedValue := VStr extractedDate;
                 pc_confidence := fm_confidence serviceDateMapping;
                 autoApplied :=
                   Qleb AUTO_APPLY_THRESHOLD (fm_confidence serviceDateMapping) |} in
            (if autoApplied correction
             then setServiceDate extractedDate normalized else normalized,
             corrections ++ [correction])
        | None => st
        end
    | None => st
    end.

(** 2. VAT-inclusive recalculation. *)
Definition applyTaxBehavior (invoice : Invoice) (vm : VendorMemory) (st : State)
  : State :=
  let '(normalized, corrections) := st in
  match taxBehavior vm with
  | Some tb =>
      if isInclusive tb then
        let hasVatInclusive :=
          existsb (fun ind => includes (toLowerCase (rawText invoice)) (toLowerCase ind))
                  vatInclusiveIndicators in
        if hasVatInclusive then
          match recalculateGrossFromRawText (rawText invoice) (n_grossTotal normalized) with
          | Some recalculatedGross =>
              if negb (Qeq_bool recalculatedGross 0) &&
                 negb (Qeq_bool recalculatedGross (n_grossTotal normalized)) then
                let recalculatedTax := (recalculatedGross - n_netTotal normalized)%Q in
                let correction :=
                  {| pc_field := "grossTotal";
                     pc_originalValue := VNum (n_grossTotal normalized);
                     pc_proposedValue := VNum recalculatedGross;
                     pc_confidence := tb_confidence tb;
                     autoApplied := Qleb AUTO_APPLY_THRESHOLD (tb_confidence tb) |} in
                let taxCorrection :=
                  {| pc_field := "taxTotal";
                     pc_originalValue := VNum (n_taxTotal normalized);
                     pc_proposedValue := VNum recalculatedTax;
                     pc_confidence := tb_confidence tb;
                     autoApplied := Qleb AUTO_APPLY_THRESHOLD (tb_confidence tb) |} in
                (if autoApplied correction
                 then setTotals recalculatedGross recalculatedTax normalized
                 else normalized,
                 corrections ++ [correction; taxCorrection])
              else st
          | None => st
          end
        else st
      else st
  | None => st
  end.

(** 3. currency from vendor memory, else from the raw text. *)
Definition applyCurrency (invoice : Invoice) (vm : VendorMemory) (st : State)
  : State :=
  let '(normalized, corrections) := st in
  if isSet (currency (fields invoice)) then st
  else
    match orUndefined (defaultCurrency vm) with
    | Some defaultCurrency' =>
        (normalized,
         corrections ++
         [{| pc_field := "currency"; pc_originalValue := VNull;
             pc_proposedValue := VStr defaultCurrency';
             pc_confidence := 0.75%Q; autoApplied := false |}])
    | None =>
        match orUndefined (extractCurrencyFromRawText (rawText invoice)) with
        | Some extractedCurrency =>
            (setCurrency extractedCurrency normalized,
             corrections ++
             [{| pc_field := "currency"; pc_originalValue := VNull;
                 pc_proposedValue := VStr extractedCurrency;
                 pc_confidence := 0.7%Q; autoApplied := false |}])
        | None => st
        end
    end.

(** 4. SKU mappings: the loop over [normalized.lineItems], from index [i]. *)
Fixpoint applySkuMappings (vm : VendorMemory) (i : nat)
    (items : list NormalizedLineItem)
  : list NormalizedLineItem * list ProposedCorrection :=
  match items with
  | [] => ([], [])
  | item :: rest =>
      let '(rest', cs) := applySkuMappings vm (S i) rest in
      if negb (truthy (nli_sku item)) || String.eqb (nli_sku item) "UNKNOWN" then
        match find (fun m =>
                 includes (toLowerCase (nli_description item))
                          (toLowerCase (sm_description m)) ||
                 includes (toLowerCase (sm_description m))
                          (toLowerCase (nli_description item)))
               (skuMappings vm) with
        | Some skuMapping =>
            let correction :=
              {| pc_field := skuField i;
                 pc_originalValue :=
                   if truthy (nli_sku item) then VStr (nli_sku item) else VNull;
                 pc_proposedValue := VStr (sm_sku skuMapping);
                 pc_confidence := sm_confidence skuMapping;
                 autoApplied :=
                   Qleb AUTO_APPLY_THRESHOLD (sm_confidence skuMapping) |} in
            ((if autoApplied correction
              then setSku (sm_sku skuMapping) item else item) :: rest',
             correction :: cs)
        | None => (item :: rest', cs)
        end
      else (item :: rest', cs)
  end.

Definition applySkus (vm : VendorMemory) (st : State) : State :=
  let '(normalized, corrections) := st in
  let '(items, cs) := applySkuMappings vm 0 (n_lineItems normalized) in
  (setLineItems items normalized, corrections ++ cs).

(** 5. known payment terms are written without a proposal. *)
Definition applyPaymentTerms (vm : VendorMemory) (st : State) : State :=
  let '(normalized, corrections) := st in
  match orUndefined (paymentTerms vm) with
  | Some terms =>
      if negb (isSet (n_discountTerms normalized))
      then (setDiscountTerms terms normalized, corrections) else st
  | None => st
  end.

(** 6. discount terms from the raw text. *)
Definition applyExtractedTerms (invoice : Invoice) (st : State) : State :=
  let '(normalized, corrections) := st in
  if isSet (n_discountTerms normalized) then st
  else
    match orUndefined (extractPaymentTerms (rawText invoice)) with
    | Some extractedTerms =>
        (setDiscountTerms extractedTerms normalized,
         corrections ++
         [{| pc_field := "discountTerms"; pc_originalValue := VNull;
             pc_proposedValue := VStr extractedTerms;
             pc_confidence := 0.8%Q; autoApplied := false |}])
    | None => st
    end.

(** 7. purchase-order match. *)
Definition applyPoMatch (invoice : Invoice)
    (purchaseOrders : option (list PurchaseOrder)) (st : State) : State :=
  let '(normalized, corrections) := st in
  match purchaseOrders with
  | Some pos =>
      if negb (isSet (n_poNumber normalized)) && (0 <? length pos)%nat then
        match matchPurchaseOrder invoice pos with
        | Some matchedPO =>
            let correction :=
              {| pc_field := "poNumber"; pc_originalValue := VNull;
                 pc_proposedValue := VStr (pm_poNumber matchedPO);
                 pc_confidence := pm_confidence matchedPO;
                 autoApplied := Qleb AUTO_APPLY_THRESHOLD (pm_confidence matchedPO) |} in
            (if autoApplied correction
             then setPoNumber (pm_poNumber matchedPO) normalized else normalized,
             corrections ++ [correction])
        | None => st
        end
      else st
  | None => st
  end.

Definition applyMemories (invoice : Invoice) (memories : RecalledMemories)
    (purchaseOrders : option (list PurchaseOrder)) : ApplyResult :=
  let st : State := (initialNormalized invoice, []) in
  let st :=
    match vendorMemory memories with
    | Some vm =>
        applyPaymentTerms vm
          (applySkus vm
             (applyCurrency invoice vm
                (applyTaxBehavior invoice vm
                   (applyFieldMappings invoice vm st))))
    | None => st
    end in
  let st := applyPoMatch invoice purchaseOrders (applyExtractedTerms invoice st) in
  {| normalizedInvoice := fst st; proposedCorrections := snd st |}.

End WithExtractors.
End Apply.

(** ** Learn (services/learn.ts) *)

Module Learn.

Import CorrectionMem VendorMem.

Definition quote : string := String (ascii_of_N 34) "".

Record LearnResult := mkLearnResult {
  memoryUpdates : list MemoryUpdate;
  auditDetails : string
}.

(** What one correction contributes: [{ updates, details }]. *)
Definition Outcome : Type := list MemoryUpdate * list string.

(** [field.match(/lineItems\[(\d+)\]/)] followed by [parseInt(match[1])]. *)
Fixpoint takeDigits (s : list ascii) : list ascii * list ascii :=
  match s with
  | c :: rest =>
      if isDigit c then let '(ds, tl) := takeDigits rest in (c :: ds, tl)
      else ([], s)
  | [] => ([], [])
  end.

Definition lineItemIndexHere (s : list ascii) : option Z :=
  if String.prefix "lineItems[" (string_of_list_ascii s) then
    match takeDigits (drop 10 s) with
    | (d :: ds, c :: _) =>
        if Ascii.eqb c "]"%char
        then DuplicateDetection.digitsValue (d :: ds) else None
    | _ => None
    end
  else None.

Fixpoint searchLineItemIndex (s : list ascii) : option Z :=
  match lineItemIndexHere s with
  | Some i => Some i
  | None => match s with [] => None | _ :: rest => searchLineItemIndex rest end
  end.

Definition lineItemMatch (field : string) : option Z :=
  searchLineItemIndex (list_ascii_of_string field).

Definition actionOf (isApproved : bool) : MemoryAction :=
  if isApproved then act_reinforce else act_weaken.

Definition verbOf (isApproved : bool) : string :=
  if isApproved then "Learned" else "Weakened".

Section WithRuntime.
Context `{JsRuntime}.

(** 1. serviceDate extracted from a label. *)
Definition learnServiceDate (now : Z) (vendorName : string) (c : FieldCorrection)
    (isApproved : bool) : Db Outcome :=
  if String.eqb (fc_field c) "serviceDate" &&
     includes (toLowerCase (fc_reason c)) "leistungsdatum" then
    updateFieldMapping now vendorName "Leistungsdatum" "serviceDate" isApproved ;;
    corrMem ← recordCorrection now vendorName "serviceDate" "Leistungsdatum"
                extract_from_rawtext (fc_to c);
    ret ([ {| mu_type := mk_vendor; mu_action := actionOf isApproved;
              mu_details := verbOf isApproved +:+ " field mapping: " +:+ quote +:+
                            "Leistungsdatum" +:+ quote +:+ " → serviceDate";
              mu_memoryId := None |};
           {| mu_type := mk_correction; mu_action := act_create;
              mu_details := "Recorded correction pattern: extract serviceDate from rawText";
              mu_memoryId := Some (cm_id corrMem) |} ],
         [ "Learned: " +:+ quote +:+ "Leistungsdatum" +:+ quote +:+
           " = serviceDate for " +:+ vendorName ])
  else ret ([], []).

(** 2. VAT-inclusive recalculation. *)
Definition learnTax (now : Z) (invoice : Invoice) (vendorName : string)
    (c : FieldCorrection) (isApproved : bool) : Db Outcome :=
  if (String.eqb (fc_field c) "taxTotal" || String.eqb (fc_field c) "grossTotal") &&
     (includes (toLowerCase (fc_reason c)) "vat" ||
      includes (toLowerCase (fc_reason c)) "mwst" ||
      includes (toLowerCase (fc_reason c)) "recalculated") then
    updateTaxBehavior now vendorName true (taxRate (fields invoice)) isApproved ;;
    recordCorrection now vendorName (fc_field c) "vat_inclusive" recalculate_tax
      (VFromTo (fc_from c) (fc_to c)) ;;
    ret ([ {| mu_type := mk_vendor; mu_action := actionOf isApproved;
              mu_details := verbOf isApproved +:+ " VAT behavior: prices include VAT";
              mu_memoryId := None |};
           {| mu_type := mk_correction; mu_action := act_create;
              mu_details := "Recorded tax recalculation pattern";
              mu_memoryId := None |} ],
         [ "Learned: " +:+ vendorName +:+ " uses VAT-inclusive pricing" ])
  else ret ([], []).

(** 3. currency. *)
Definition learnCurrency (now : Z) (vendorName : string) (c : FieldCorrection)
  : Db Outcome :=
  if String.eqb (fc_field c) "currency" then
    updateDefaultCurrency now vendorName (columnValue (fc_to c)) ;;
    recordCorrection now vendorName "currency" "missing_currency" set_currency
      (fc_to c) ;;
    ret ([ {| mu_type := mk_vendor; mu_action := act_reinforce;
              mu_details := "Learned default currency: " +:+ render (fc_to c);
              mu_memoryId := None |} ],
         [ "Learned: " +:+ vendorName +:+ " default currency = " +:+ render (fc_to c) ])
  else ret ([], []).

(** 4. purchase-order matching. *)
Definition learnPoNumber (now : Z) (vendorName : string) (c : FieldCorrection)
  : Db Outcome :=
  if String.eqb (fc_field c) "poNumber" then
    recordCorrection now vendorName "poNumber" (fc_reason c) match_po (fc_to c) ;;
    ret ([ {| mu_type := mk_correction; mu_action := act_create;
              mu_details := "Recorded PO matching pattern: " +:+ fc_reason c;
              mu_memoryId := None |} ],
         [ "Learned: PO matching strategy for " +:+ vendorName ])
  else ret ([], []).

(** 5. SKU mapping from the description of the line item addressed. *)
Definition learnSku (now : Z) (invoice : Invoice) (vendorName : string)
    (c : FieldCorrection) (isApproved : bool) : Db Outcome :=
  if includes (fc_field c) "sku" && includes (fc_field c) "lineItems" then
    match lineItemMatch (fc_field c) with
    | Some index =>
        match lineItems (fields invoice) !! Z.to_nat index with
        | Some lineItem =>
            match orUndefined (li_description lineItem) with
            | Some description =>
                updateSkuMapping now vendorName description
                  (default "" (asString (fc_to c))) isApproved ;;
                ret ([ {| mu_type := mk_vendor; mu_action := actionOf isApproved;
                          mu_details := verbOf isApproved +:+ " SKU mapping: " +:+
                                        quote +:+ description +:+ quote +:+ " → " +:+
                                        render (fc_to c);
                          mu_memoryId := None |} ],
                     [ "Learned: " +:+ quote +:+ description +:+ quote +:+ " = SKU " +:+
                       render (fc_to c) +:+ " for " +:+ vendorName ])
            | None => ret ([], [])
            end
        | None => ret ([], [])
        end
    | None => ret ([], [])
    end
  else ret ([], []).

(** 6. payment / discount terms. *)
Definition learnDiscountTerms (now : Z) (vendorName : string) (c : FieldCorrection)
  : Db Outcome :=
  if String.eqb (fc_field c) "discountTerms" then
    updatePaymentTerms now vendorName (columnValue (fc_to c)) ;;
    recordCorrection now vendorName "discountTerms" "skonto" set_payment_terms
      (fc_to c) ;;
    ret ([ {| mu_type := mk_vendor; mu_action := act_reinforce;
              mu_details := "Learned payment terms: " +:+ render (fc_to c);
              mu_memoryId := None |} ],
         [ "Learned: " +:+ vendorName +:+ " offers " +:+ render (fc_to c) ])
  else ret ([], []).

(** The closing step: reinforce or weaken the correction memory found for
    the vendor and the field. *)
Definition reinforceOrWeaken (now : Z) (vendorName : string) (c : FieldCorrection)
    (isApproved : bool) : Db Outcome :=
  existingCorrection ← findMatchingCorrection vendorName (fc_field c) None;
  match existingCorrection with
  | Some existing =>
      if isApproved then
        reinforceCorrection now (cm_id existing) ;;
        ret ([ {| mu_type := mk_correction; mu_action := act_reinforce;
                  mu_details := "Reinforced correction pattern for " +:+ fc_field c +:+
                                " (success count increased)";
                  mu_memoryId := Some (cm_id existing) |} ], [])
      else
        weakenCorrection now (cm_id existing) ;;
        ret ([ {| mu_type := mk_correction; mu_action := act_weaken;
                  mu_details := "Weakened correction pattern for " +:+ fc_field c +:+
                                " (failure count increased)";
                  mu_memoryId := Some (cm_id existing) |} ], [])
  | None => ret ([], [])
  end.

Definition plus (a b : Outcome) : Outcome := (fst a ++ fst b, snd a ++ snd b).

Definition processCorrection (now : Z) (invoice : Invoice) (vendorName : string)
    (correction : FieldCorrection) (decision : Verdict) : Db Outcome :=
  let isApproved := match decision with approved => true | rejected => false end in
  o1 ← learnServiceDate now vendorName correction isApproved;
  o2 ← learnTax now invoice vendorName correction isApproved;
  o3 ← learnCurrency now vendorName correction;
  o4 ← learnPoNumber now vendorName correction;
  o5 ← learnSku now invoice vendorName correction isApproved;
  o6 ← learnDiscountTerms now vendorName correction;
  o7 ← reinforceOrWeaken now vendorName correction isApproved;
  ret (plus o1 (plus o2 (plus o3 (plus o4 (plus o5 (plus o6 o7)))))).

(** The first loop of [learn]. *)
Fixpoint processCorrections (now : Z) (invoice : Invoice) (vendorName : string)
    (cs : list FieldCorrection) (decision : Verdict) : Db Outcome :=
  match cs with
  | [] => ret ([], [])
  | c :: rest =>
      o ← processCorrection now invoice vendorName c decision;
      os ← processCorrections now invoice vendorName rest decision;
      ret (plus o os)
  end.

(** The second loop of [learn]. *)
Fixpoint recordResolutions (now : Z) (invoice : Invoice) (vendorName : string)
    (cs : list FieldCorrection) (decision : Verdict) : Db unit :=
  match cs with
  | [] => ret tt
  | c :: rest =>
      ResolutionMem.recordResolution now (invoiceId invoice) vendorName (fc_field c)
        (fc_from c) (fc_to c) decision (orUndefined (Some (fc_reason c))) ;;
      recordResolutions now invoice vendorName rest decision
  end.

Definition learn (now : Z) (invoice : Invoice) (humanCorrection : HumanCorrection)
  : Db LearnResult :=
  let vendorName := vendor invoice in
  vendorMemory' ← getVendorMemory vendorName;
  created ←
    match vendorMemory' with
    | Some _ => ret ([], [])
    | None =>
        vm ← createVendorMemory now vendorName;
        ret ([ {| mu_type := mk_vendor; mu_action := act_create;
                  mu_details := "Created new vendor memory for " +:+ quote +:+
                                vendorName +:+ quote;
                  mu_memoryId := Some (vm_id vm) |} ],
             [ "Created vendor memory for " +:+ quote +:+ vendorName +:+ quote ])
    end;
  processed ← processCorrections now invoice vendorName
                (corrections humanCorrection) (finalDecision humanCorrection);
  recordResolutions now invoice vendorName
    (corrections humanCorrection) (finalDecision humanCorrection) ;;
  DuplicateDetection.recordProcessedInvoice now invoice ;;
  let '(updates, details) := plus created processed in
  let details := details ++ ["Recorded invoice " +:+ invoiceId invoice +:+ " as processed"] in
  ret {| memoryUpdates := updates; auditDetails := join "; " details |}.

End WithRuntime.
End Learn.

(** ** Vocabulary of the statements *)

(** [clamp lo hi x]: [x] confined to the interval from [lo] to [hi]. *)
Definition clamp (lo hi x : Q) : Q :=
  if Qltb x lo then lo else if Qltb hi x then hi else x.

Definition mean (l : list Q) : Q :=
  (fold_right Qplus 0 l / inject_Z (Z.of_nat (length l)))%Q.

(** The overall confidence as the specification words it, one named step
    after the other. *)
Module OverallConfidenceSpec.

Definition vendorBoost (memories : RecalledMemories) (score : Q) : Q :=
  match vendorMemory memories with
  | Some vm =>
      let boosted := (score + 0.1 * vm_confidence vm)%Q in
      if Qltb 1 boosted then 1%Q else boosted
  | None => score
  end.

Definition averageWithAutoApplied (cs : list ProposedCorrection) (score : Q) : Q :=
  if existsb autoApplied cs then
    ((score + mean (map pc_confidence (filter (fun c => autoApplied c = true) cs))) / 2)%Q
  else score.

Definition pendingPenalty (cs : list ProposedCorrection) (score : Q) : Q :=
  if existsb (fun c => negb (autoApplied c)) cs then (score * 0.9)%Q else score.

Definition duplicatePenalty (memories : RecalledMemories) (score : Q) : Q :=
  match potentialDuplicate memories with
  | Some _ => (score * 0.5)%Q
  | None => score
  end.

Definition lowHistory (memories : RecalledMemories) : Prop :=
  vendorMemory memories = None \/
  exists vm, vendorMemory memories = Some vm /\ vm_usageCount vm < 2.

Definition lowHistoryPenalty (memories : RecalledMemories) (score : Q) : Q :=
  match vendorMemory memories with
  | None => (score * 0.8)%Q
  | Some vm => if vm_usageCount vm <? 2 then (score * 0.8)%Q else score
  end.

Definition overallConfidence (baseConfidence : Q) (memories : RecalledMemories)
    (cs : list ProposedCorrection) : Q :=
  clamp 0.1 1.0
    (lowHistoryPenalty memories
       (duplicatePenalty memories
          (pendingPenalty cs
             (averageWithAutoApplied cs
                (vendorBoost memories baseConfidence))))).

End OverallConfidenceSpec.

(** ** Sample data used to instantiate the statements *)

Module Samples.

Definition item1 : LineItem :=
  {| li_sku := None; li_description := Some "Seefracht"; li_qty := 1;
     li_unitPrice := 100 |}.

Definition fields1 : InvoiceFields :=
  {| invoiceNumber := "INV-2024-001"; invoiceDate := "2024-01-01";
     serviceDate := None; currency := None; poNumber := None;
     netTotal := 100; taxRate := 0.19; taxTotal := 19; grossTotal := 119;
     lineItems := [item1]; discountTerms := Some "2% Skonto" |}.

Definition invoice1 : Invoice :=
  {| invoiceId := "INV-A-001"; vendor := "Supplier GmbH"; fields := fields1;
     inv_confidence := 0.8; rawText := "Rechnung. Currency: USD" |}.

Definition noMemories : RecalledMemories :=
  {| vendorMemory := None; correctionMemories := [];
     resolutionMemories := []; potentialDuplicate := None |}.

Definition normalized1 : NormalizedInvoice :=
  {| n_invoiceId := "INV-A-001"; n_vendor := "Supplier GmbH";
     n_invoiceNumber := "INV-2024-001"; n_invoiceDate := "2024-01-01";
     n_serviceDate := None; n_currency := "EUR"; n_poNumber := None;
     n_netTotal := 100; n_taxRate := 0.19; n_taxTotal := 19;
     n_grossTotal := 119; n_lineItems := []; n_discountTerms := None |}.

(** A vendor known from two earlier documents, with nothing learned about
    its currency. *)
Definition vendorMemory1 : VendorMemory :=
  {| vm_id := "uuid-0"; vm_vendorName := "Supplier GmbH"; fieldMappings := [];
     taxBehavior := None; defaultCurrency := None; skuMappings := [];
     paymentTerms := None; vm_confidence := 0.5; vm_usageCount := 2;
     vm_lastUsed := 0; vm_createdAt := 0; vm_updatedAt := 0 |}.

Definition memories1 : RecalledMemories :=
  {| vendorMemory := Some vendorMemory1; correctionMemories := [];
     resolutionMemories := []; potentialDuplicate := None |}.

(** The correction Apply proposes for [invoice1] under [memories1]. *)
Definition currencyFromRawText : ProposedCorrection :=
  {| pc_field := "currency"; pc_originalValue := VNull;
     pc_proposedValue := VStr "USD"; pc_confidence := 0.7;
     autoApplied := false |}.

(** A human correction of the currency, and a rejected batch holding it. *)
Definition currencyCorrection : FieldCorrection :=
  {| fc_field := "currency"; fc_from := VNull; fc_to := VStr "EUR";
     fc_reason := "currency missing" |}.

Definition rejectedBatch : HumanCorrection :=
  {| hc_invoiceId := "INV-A-001"; hc_vendor := "Supplier GmbH";
     corrections := [currencyCorrection]; finalDecision := rejected |}.

(** A correction addressing a line item the invoice does not have. *)
Definition strayCorrection : FieldCorrection :=
  {| fc_field := "lineItems[5].sku"; fc_from := VNull; fc_to := VStr "FREIGHT";
     fc_reason := "map freight" |}.

Definition batchOf (cs : list FieldCorrection) : HumanCorrection :=
  {| hc_invoiceId := "INV-A-001"; hc_vendor := "Supplier GmbH";
     corrections := cs; finalDecision := approved |}.

End Samples.

(** The correction-memory confidence as the specification words it. *)
Module CorrectionConfidenceSpec.

Definition adjustedRate (successCount failureCount : Z) : Q :=
  (inject_Z successCount / inject_Z (successCount + 2 * failureCount))%Q.

Definition observationFactor (successCount failureCount : Z) : Q :=
  Qmin 1 (inject_Z (successCount + failureCount) / 3).

Definition confidence (successCount failureCount : Z) : Q :=
  clamp 0.1 0.95
    (0.3 + adjustedRate successCount failureCount * 0.65 *
           observationFactor successCount failureCount).

End CorrectionConfidenceSpec.

(** The operations on the correction-memory table, and their runs from the
    empty store. *)
Inductive MemoryOp :=
  | Create (now : Z) (vendorName fieldName pattern : string)
           (type : CorrectionType) (value : JsValue)
  | Reinforce (now : Z) (correctionId : string)
  | Weaken (now : Z) (correctionId : string).

Definition runOp (db : Database) (op : MemoryOp) : Database :=
  match op with
  | Create now v f p t x => snd (CorrectionMem.recordCorrection now v f p t x db)
  | Reinforce now id => snd (CorrectionMem.reinforceCorrection now id db)
  | Weaken now id => snd (CorrectionMem.weakenCorrection now id db)
  end.

Definition runOps (ops : list MemoryOp) (db : Database) : Database :=
  fold_left runOp ops db.

(** Identifiers handed out so far. *)
Definition uuid (k : nat) : string := "uuid-" +:+ pretty k.

Definition idsIssued (db : Database) : Prop :=
  forall c, c ∈ correction_memories db ->
    exists k, (k < nextId db)%nat /\ cm_id c = uuid k.

(** The primary key of [correction_memories]. *)
Definition wellKeyed (db : Database) : Prop :=
  NoDup (map cm_id (correction_memories db)) /\ idsIssued db.

(** What the stored confidence of a correction memory is, given its stored
    counters. *)
Definition storedConfidence (successCount failureCount : Z) : Q :=
  if (successCount =? 1) && (failureCount =? 0) then 0.6%Q
  else CorrectionMem.calculateCorrectionConfidence successCount failureCount.

Definition confidenceDerived (c : CorrectionMemory) : Prop :=
  1 <= successCount c /\ 0 <= failureCount c /\
  cm_confidence c = storedConfidence (successCount c) (failureCount c).

(** The stored aggregate of a vendor memory agrees with its stored
    sub-memories and usage count. *)
Definition aggregateConsistent (vm : VendorMemory) : Prop :=
  (vm_confidence vm == VendorMem.calculateOverallConfidence vm)%Q.

(** ** Vocabulary of the proofs *)

(** Each of the six checks can only raise the review flag. *)
Definition raises (check : Decide.Acc -> Decide.Acc) : Prop :=
  forall acc, Decide.reviewOf acc = true -> Decide.reviewOf (check acc) = true.

(** The effect of the three operations, spelled out. *)
Definition withCorrections (t : list CorrectionMemory) (db : Database) : Database :=
  {| vendor_memories := vendor_memories db; correction_memories := t;
     resolution_memories := resolution_memories db;
     processed_invoices := processed_invoices db; nextId := nextId db |}.

Definition reinforced (now : Z) (row c : CorrectionMemory) : CorrectionMemory :=
  {| cm_id := cm_id c; cm_vendorName := cm_vendorName c;
     fieldName := fieldName c; pattern := pattern c;
     correctionType := correctionType c; correctionValue := correctionValue c;
     cm_confidence :=
       CorrectionMem.calculateCorrectionConfidence (successCount row + 1) (failureCount row);
     successCount := successCount row + 1; failureCount := failureCount c;
     cm_createdAt := cm_createdAt c; cm_updatedAt := now |}.

Definition weakened (now : Z) (row c : CorrectionMemory) : CorrectionMemory :=
  {| cm_id := cm_id c; cm_vendorName := cm_vendorName c;
     fieldName := fieldName c; pattern := pattern c;
     correctionType := correctionType c; correctionValue := correctionValue c;
     cm_confidence :=
       CorrectionMem.calculateCorrectionConfidence (successCount row) (failureCount row + 1);
     successCount := successCount c; failureCount := failureCount row + 1;
     cm_createdAt := cm_createdAt c; cm_updatedAt := now |}.

Definition updateRows (id : string) (f : CorrectionMemory -> CorrectionMemory)
    (t : list CorrectionMemory) : list CorrectionMemory :=
  map (fun c => if decide (cm_id c = id) then f c else c) t.

Definition bumpId (db : Database) : Database :=
  {| vendor_memories := vendor_memories db;
     correction_memories := correction_memories db;
     resolution_memories := resolution_memories db;
     processed_invoices := processed_invoices db; nextId := S (nextId db) |}.

Definition freshMemory (now : Z) (id v f p : string) (t : CorrectionType)
    (x : JsValue) : CorrectionMemory :=
  {| cm_id := id; cm_vendorName := v; fieldName := f; pattern := p;
     correctionType := t; correctionValue := jsonColumn x; cm_confidence := 0.6%Q;
     successCount := 1; failureCount := 0;
     cm_createdAt := now; cm_updatedAt := now |}.

(** The invariant of every run. *)
Definition storeInvariant (db : Database) : Prop :=
  wellKeyed db /\ Forall confidenceDerived (correction_memories db).

Definition freshVendor (now : Z) (id vendorName : string) : VendorMemory :=
  {| vm_id := id; vm_vendorName := vendorName; fieldMappings := [];
     taxBehavior := None; defaultCurrency := None; skuMappings := [];
     paymentTerms := None; vm_confidence := 0.5%Q; vm_usageCount := 0;
     vm_lastUsed := now; vm_createdAt := now; vm_updatedAt := now |}.


(** A stand-in for the host in the closed examples: a number prints as its
    reduced fraction in a template literal; a whole number is kept by a TEXT
    column as its decimal digits, any other as its reduced fraction; the
    digest is the identity, and local time is UTC. *)
Definition sampleRuntime : JsRuntime :=
  {| numberToString q :=
       pretty (Qnum (Qred q)) +:+ "/" +:+ pretty (Zpos (Qden (Qred q)));
     md5 s := s;
     columnText q :=
       if Pos.eqb (Qden (Qred q)) 1 then pretty (Qnum (Qred q))
       else pretty (Qnum (Qred q)) +:+ "/" +:+ pretty (Zpos (Qden (Qred q)));
     timezoneOffset _ := 0 |}.

(** A stand-in for a host in Europe/Berlin during 2024: summer time from
    the midnight of 1 April to that of 27 October. *)
Definition berlin2024 : JsRuntime :=
  {| numberToString := @numberToString sampleRuntime;
     md5 := @md5 sampleRuntime;
     columnText := @columnText sampleRuntime;
     timezoneOffset day :=
       if (19814 <=? day) && (day <=? 20023) then -7200000 else -3600000 |}.






(** The ledger entry [recordProcessedInvoice] writes. *)
Definition ledgerEntry `{JsRuntime} (now : Z) (id : string) (invoice : Invoice)
  : ProcessedInvoice :=
  {| pi_id := id;
     pi_invoiceNumber := invoiceNumber (fields invoice);
     pi_vendorName := vendor invoice;
     pi_invoiceDate := invoiceDate (fields invoice);
     pi_grossTotal := grossTotal (fields invoice);
     processedAt := now;
     hash := DuplicateDetection.generateInvoiceHash invoice |}.

Definition redated (date : string) (total : Q) (invoice : Invoice) : Invoice :=
  let f := fields invoice in
  {| invoiceId := invoiceId invoice; vendor := vendor invoice;
     fields :=
       {| invoiceNumber := invoiceNumber f; invoiceDate := date;
          serviceDate := serviceDate f; currency := currency f;
          poNumber := poNumber f; netTotal := netTotal f; taxRate := taxRate f;
          taxTotal := taxTotal f; grossTotal := total;
          lineItems := lineItems f; discountTerms := discountTerms f |};
     inv_confidence := inv_confidence invoice; rawText := rawText invoice |}.

(** Vocabulary of Apply: the value a correction's field name denotes in a
    normalized invoice. *)
Definition optValue (o : option string) : JsValue :=
  match o with Some s => VStr s | None => VNull end.

Definition skuIndexOf (count : nat) (field : string) : option nat :=
  find (fun i => String.eqb field (Apply.skuField i)) (seq 0 count).

Definition readField (n : NormalizedInvoice) (field : string) : JsValue :=
  if String.eqb field "serviceDate" then optValue (n_serviceDate n)
  else if String.eqb field "grossTotal" then VNum (n_grossTotal n)
  else if String.eqb field "taxTotal" then VNum (n_taxTotal n)
  else if String.eqb field "currency" then VStr (n_currency n)
  else if String.eqb field "discountTerms" then optValue (n_discountTerms n)
  else if String.eqb field "poNumber" then optValue (n_poNumber n)
  else
    match skuIndexOf (length (n_lineItems n)) field with
    | Some i =>
        match n_lineItems n !! i with
        | Some item => VStr (nli_sku item)
        | None => VNull
        end
    | None => VNull
    end.

Definition writtenInto (n : NormalizedInvoice) (c : ProposedCorrection) : Prop :=
  readField n (pc_field c) = pc_proposedValue c.

Definition leftUnchanged (before after : NormalizedInvoice)
    (c : ProposedCorrection) : Prop :=
  readField after (pc_field c) = readField before (pc_field c).

(** The two corrections Apply recovers from the raw text of the document
    itself: the currency (confidence 0.7) and the discount terms. *)
Definition rawTextRecovery (c : ProposedCorrection) : bool :=
  (String.eqb (pc_field c) "currency" && Qeq_bool (pc_confidence c) 0.7) ||
  String.eqb (pc_field c) "discountTerms".

(** Extractors that find nothing, for the closed examples that never reach
    them. *)
Definition silentExtractors : Apply.Extractors :=
  {| Apply.extractFromRawText _ _ := None;
     Apply.recalculateGrossFromRawText _ _ := None;
     Apply.extractPaymentTerms _ := None |}.

(** The well-formedness of the result of Apply with respect to one
    correction. *)
Definition correctionOk (initial final : NormalizedInvoice)
    (c : ProposedCorrection) : Prop :=
  autoApplied c = Qleb Apply.AUTO_APPLY_THRESHOLD (pc_confidence c) /\
  (autoApplied c = true -> writtenInto final c) /\
  (autoApplied c = false -> rawTextRecovery c = false ->
   leftUnchanged initial final c) /\
  (rawTextRecovery c = true -> autoApplied c = false /\ writtenInto final c).

Definition Fields : Type := string -> Prop.

(** The invariant of the steps of Apply: [corrected] bounds the fields that
    carry a correction, [modified] the fields that were written. *)
Definition applyInvariant (initial : NormalizedInvoice)
    (corrected modified : Fields) (st : Apply.State) : Prop :=
  (forall c, c ∈ snd st -> corrected (pc_field c) /\ correctionOk initial (fst st) c) /\
  (forall f, ~ modified f -> readField (fst st) f = readField initial f).

Definition isSkuField (f : string) : Prop := exists i, f = Apply.skuField i.

(** No step of Apply empties the currency. *)
Definition keepsCurrency (step : Apply.State -> Apply.State) : Prop :=
  forall st, truthy (n_currency (fst st)) = true ->
             truthy (n_currency (fst (step st))) = true.

(** The reasons the other checks of Decide add are not the missing-currency
    reason. *)
Definition silentOnCurrency (acc : Decide.Acc) : Prop :=
  "Missing critical field: currency" ∉ Decide.reasonsOf acc.

(** Vocabulary of Learn. *)
Definition hasMemoryFor (vendorName field : string) (db : Database) : Prop :=
  exists m, m ∈ correction_memories db /\
            cm_vendorName m = vendorName /\ fieldName m = field.

Definition isApprovedDecision (decision : Verdict) : bool :=
  match decision with approved => true | rejected => false end.

(** The update the closing step of [processCorrection] reports. *)
Definition closingUpdate (decision : Verdict) (field id : string) : MemoryUpdate :=
  match decision with
  | approved =>
      {| mu_type := mk_correction; mu_action := act_reinforce;
         mu_details := "Reinforced correction pattern for " +:+ field +:+
                       " (success count increased)";
         mu_memoryId := Some id |}
  | rejected =>
      {| mu_type := mk_correction; mu_action := act_weaken;
         mu_details := "Weakened correction pattern for " +:+ field +:+
                       " (failure count increased)";
         mu_memoryId := Some id |}
  end.

(** The field names the rules of Learn answer to, and under which they file
    correction memories. *)
Definition ruleFields : list string :=
  ["serviceDate"; "taxTotal"; "grossTotal"; "currency"; "poNumber"; "discountTerms"].

Definition ruleFieldsOnly (db : Database) : Prop :=
  forall m, m ∈ correction_memories db -> fieldName m ∈ ruleFields.

(** A malformed field correction: its field addresses a line-item SKU but
    names no index or an index outside the line items of the invoice, or its
    field is no name any rule answers to. *)
Definition malformed (invoice : Invoice) (c : FieldCorrection) : bool :=
  let field := fc_field c in
  if includes field "sku" && includes field "lineItems" then
    match Learn.lineItemMatch field with
    | Some index =>
        match lineItems (fields invoice) !! Z.to_nat index with
        | Some _ => false
        | None => true
        end
    | None => true
    end
  else negb (existsb (String.eqb field) ruleFields).

(** A batch with its corrections replaced. *)
Definition withBatch (hc : HumanCorrection) (cs : list FieldCorrection)
  : HumanCorrection :=
  {| hc_invoiceId := hc_invoiceId hc; hc_vendor := hc_vendor hc;
     corrections := cs; finalDecision := finalDecision hc |}.

(** A property of the store that a computation maintains. *)
Definition preserves {A} (P : Database -> Prop) (m : Db A) : Prop :=
  forall db, P db -> P (snd (m db)).

(** The opening of [learn]: the vendor memory is created when absent. *)
Definition learnPrologue (now : Z) (vendorName : string) : Db Learn.Outcome :=
  vendorMemory' ← VendorMem.getVendorMemory vendorName;
  match vendorMemory' with
  | Some _ => ret ([], [])
  | None =>
      vm ← VendorMem.createVendorMemory now vendorName;
      ret ([ {| mu_type := mk_vendor; mu_action := act_create;
                mu_details := "Created new vendor memory for " +:+ Learn.quote +:+
                              vendorName +:+ Learn.quote;
                mu_memoryId := Some (vm_id vm) |} ],
           [ "Created vendor memory for " +:+ Learn.quote +:+ vendorName +:+
             Learn.quote ])
  end.

(** What [learn] returns, from what its opening and its first loop
    produced. *)
Definition learnResultOf (invoice : Invoice) (created processed : Learn.Outcome)
  : Learn.LearnResult :=
  let '(updates, details) := Learn.plus created processed in
  {| Learn.memoryUpdates := updates;
     Learn.auditDetails :=
       join "; " (details ++ ["Recorded invoice " +:+ invoiceId invoice +:+
                              " as processed"]) |}.

(** A property of the correction table alone survives the vendor updates. *)
Definition onCorrections (P : Database -> Prop) : Prop :=
  forall db db', correction_memories db' = correction_memories db -> P db -> P db'.


(** ** Vocabulary of the further properties *)

Definition isSome {A} (o : option A) : bool :=
  match o with Some _ => true | None => false end.

(** The conditions under which the checks of [makeDecision] escalate. *)
Definition hasLowConfidence (cs : list ProposedCorrection) : bool :=
  existsb (fun c => Qltb (pc_confidence c) Decide.ESCALATE_THRESHOLD) cs.

Definition hasPending (cs : list ProposedCorrection) : bool :=
  existsb (fun c => negb (autoApplied c) &&
                    Qleb Decide.ESCALATE_THRESHOLD (pc_confidence c)) cs.

Definition currencyMissing (n : NormalizedInvoice) (cs : list ProposedCorrection)
  : bool :=
  negb (truthy (n_currency n)) && negb (Decide.hasCurrencyCorrection cs).

(** How many of the recalled resolutions were approved, and how many
    rejected. *)
Definition approvals (rs : list ResolutionMemory) : Z :=
  Z.of_nat (length (filter (fun r => Decide.isApproved r = true) rs)).

Definition rejections (rs : list ResolutionMemory) : Z :=
  Z.of_nat (length (filter (fun r => Decide.isRejected r = true) rs)).

(** The operations on the vendor-memory table, and their runs.  The last
    one is the opening of Learn and of every update: read the row, create it
    when absent. *)
Inductive VendorOp :=
  | UpdateFieldMapping (now : Z) (vendorName label target : string) (success : bool)
  | UpdateTaxBehavior (now : Z) (vendorName : string) (inclusive : bool) (rate : Q)
                      (success : bool)
  | UpdateDefaultCurrency (now : Z) (vendorName : string) (code : option string)
  | UpdateSkuMapping (now : Z) (vendorName description sku : string) (success : bool)
  | UpdatePaymentTerms (now : Z) (vendorName : string) (terms : option string)
  | RecordVendorUsage (now : Z) (vendorName : string)
  | EnsureVendorMemory (now : Z) (vendorName : string).

Definition runVendorOp (db : Database) (op : VendorOp) : Database :=
  match op with
  | UpdateFieldMapping now v l t ok => snd (VendorMem.updateFieldMapping now v l t ok db)
  | UpdateTaxBehavior now v i r ok => snd (VendorMem.updateTaxBehavior now v i r ok db)
  | UpdateDefaultCurrency now v c => snd (VendorMem.updateDefaultCurrency now v c db)
  | UpdateSkuMapping now v d s ok => snd (VendorMem.updateSkuMapping now v d s ok db)
  | UpdatePaymentTerms now v t => snd (VendorMem.updatePaymentTerms now v t db)
  | RecordVendorUsage now v => snd (VendorMem.recordVendorUsage now v db)
  | EnsureVendorMemory now v => snd (VendorMem.ensureVendorMemory now v db)
  end.

Definition runVendorOps (ops : list VendorOp) (db : Database) : Database :=
  fold_left runVendorOp ops db.

Definition vendorOf (op : VendorOp) : string :=
  match op with
  | UpdateFieldMapping _ v _ _ _ | UpdateTaxBehavior _ v _ _ _
  | UpdateDefaultCurrency _ v _ | UpdateSkuMapping _ v _ _ _
  | UpdatePaymentTerms _ v _ | RecordVendorUsage _ v | EnsureVendorMemory _ v => v
  end.

Definition timeOf (op : VendorOp) : Z :=
  match op with
  | UpdateFieldMapping now _ _ _ _ | UpdateTaxBehavior now _ _ _ _
  | UpdateDefaultCurrency now _ _ | UpdateSkuMapping now _ _ _ _
  | UpdatePaymentTerms now _ _ | RecordVendorUsage now _
  | EnsureVendorMemory now _ => now
  end.

(** The row an update works on: the stored one, or the one it creates. *)
Definition rowOrFresh (now : Z) (v : string) (db : Database) : VendorMemory :=
  default (freshVendor now (uuid (nextId db)) v) (vendor_memories db !! v).

(** The ranges the stored confidences and counters of a vendor row stay
    in. *)
Definition within (lo hi x : Q) : Prop := (lo <= x <= hi)%Q.

Definition fieldMappingOk (m : FieldMapping) : Prop :=
  0 <= fm_successCount m /\ 0 <= fm_failureCount m /\
  1 <= fm_successCount m + fm_failureCount m /\
  within 0.3 0.95 (fm_confidence m).

Definition vendorWellFormed (vm : VendorMemory) : Prop :=
  0 <= vm_usageCount vm /\
  within 0.3 1 (vm_confidence vm) /\
  Forall fieldMappingOk (fieldMappings vm) /\
  (forall tb, taxBehavior vm = Some tb -> within 0.1 1 (tb_confidence tb)) /\
  Forall (fun m => within 0.1 1 (sm_confidence m)) (skuMappings vm).

(** The key under which [updateFieldMapping] looks a mapping up. *)
Definition fieldMappingKey (m : FieldMapping) : string * string :=
  (toLowerCase (sourceLabel m), targetField m).

Definition vendorWellKeyed (v : string) (vm : VendorMemory) : Prop :=
  vm_vendorName vm = v /\ NoDup (map fieldMappingKey (fieldMappings vm)).


(** What an operation does to the usage count of the row it addresses:
    the five updates and [recordVendorUsage] count one use, the opening
    counts none. *)
Definition usesOf (op : VendorOp) : Z :=
  match op with EnsureVendorMemory _ _ => 0 | _ => 1 end.

(** ** Further queries of the memory modules

    [getResolutionStats], [findSimilarResolutions] (memory/resolutionMemory.ts)
    and [getAllProcessedInvoices] (utils/duplicateDetection.ts). *)

#[export] Instance Verdict_eq_dec : EqDecision Verdict.
Proof. solve_decision. Defined.

Module Queries.

Record ResolutionStats := mkResolutionStats {
  approvedCount : nat;
  rejectedCount : nat;
  approvalRate : Q
}.

Definition getResolutionStats (vendorName discrepancyType' : string)
  : Db ResolutionStats :=
  resolutions ← ResolutionMem.getResolutionMemories vendorName;
  let filtered := filter (fun r => discrepancyType r = discrepancyType') resolutions in
  let approvedCount' := length (filter (fun r => resolution r = approved) filtered) in
  let rejectedCount' := length (filter (fun r => resolution r = rejected) filtered) in
  let total := (approvedCount' + rejectedCount')%nat in
  ret {| approvedCount := approvedCount';
         rejectedCount := rejectedCount';
         approvalRate :=
           if (0 <? total)%nat
           then (inject_Z (Z.of_nat approvedCount') / inject_Z (Z.of_nat total))%Q
           else 0.5%Q |}.

(** [array.slice(0, end)] for an integer [end]: a negative [end] counts from
    the end of the array. *)
Definition slice0 {A} (l : list A) (end_ : Z) : list A :=
  let len := Z.of_nat (length l) in
  let final := if end_ <? 0 then Z.max (len + end_) 0 else Z.min end_ len in
  take (Z.to_nat final) l.

(** The parameter [limit] defaults to 5. *)
Definition findSimilarResolutions (vendorName discrepancyType' : string)
    (limit : option Z) : Db (list ResolutionMemory) :=
  resolutions ← ResolutionMem.getResolutionMemories vendorName;
  ret (slice0 (filter (fun r => discrepancyType r = discrepancyType') resolutions)
              (default 5 limit)).

Definition getAllProcessedInvoices : Db (list ProcessedInvoice) :=
  db ← getDb;
  ret (orderByDesc (fun a b => processedAt b <=? processedAt a)
         (processed_invoices db)).

End Queries.

(** The rows of the resolution table a query is about. *)
Definition resolutionsOf (vendorName : string) (db : Database)
  : list ResolutionMemory :=
  filter (fun r => rm_vendorName r = vendorName) (resolution_memories db).

Definition resolutionsOfType (vendorName type : string) (db : Database)
  : list ResolutionMemory :=
  filter (fun r => discrepancyType r = type) (resolutionsOf vendorName db).

(** Newest first, and highest confidence first. *)
Definition newestFirst (l : list ResolutionMemory) : Prop :=
  StronglySorted (fun a b => rm_createdAt b <= rm_createdAt a) l.

Definition bestFirst (l : list CorrectionMemory) : Prop :=
  StronglySorted (fun a b => (cm_confidence b <= cm_confidence a)%Q) l.

Definition latestFirst (l : list ProcessedInvoice) : Prop :=
  StronglySorted (fun a b => processedAt b <= processedAt a) l.

(** The ledger rows that carry the vendor and the invoice number of a
    document. *)
Definition sameDocument (invoice : Invoice) (r : ProcessedInvoice) : Prop :=
  pi_vendorName r = vendor invoice /\
  pi_invoiceNumber r = invoiceNumber (fields invoice).

(** Vocabulary of Apply, continued. *)
Definition proposesNothingFor (field : string) (cs : list ProposedCorrection)
  : Prop :=
  Forall (fun c => pc_field c <> field) cs.

(** The SKU a line item of the document states: one that is neither empty
    nor the placeholder of the normalized form. *)
Definition statedSku (item : LineItem) : option string :=
  match orUndefined (li_sku item) with
  | Some s => if String.eqb s "UNKNOWN" then None else Some s
  | None => None
  end.

(** A normalized line item has no SKU of its own. *)
Definition skuUnknown (item : NormalizedLineItem) : bool :=
  negb (truthy (nli_sku item)) || String.eqb (nli_sku item) "UNKNOWN".

(** What Apply leaves alone: the values the document states, and no
    proposal about them. *)
Definition respectsDocument (invoice : Invoice) (st : Apply.State) : Prop :=
  let doc := fields invoice in
  (forall s, orUndefined (serviceDate doc) = Some s ->
     n_serviceDate (fst st) = Some s /\ proposesNothingFor "serviceDate" (snd st)) /\
  (forall s, orUndefined (currency doc) = Some s ->
     n_currency (fst st) = s /\ proposesNothingFor "currency" (snd st)) /\
  (forall s, orUndefined (poNumber doc) = Some s ->
     n_poNumber (fst st) = Some s /\ proposesNothingFor "poNumber" (snd st)) /\
  (forall s, orUndefined (discountTerms doc) = Some s ->
     n_discountTerms (fst st) = Some s /\
     proposesNothingFor "discountTerms" (snd st)) /\
  (forall k item s, lineItems doc !! k = Some item -> statedSku item = Some s ->
     (exists ni, n_lineItems (fst st) !! k = Some ni /\ nli_sku ni = s) /\
     proposesNothingFor (Apply.skuField k) (snd st)).

(** The part of a normalized line item that is copied from the document. *)
Definition lineOf (item : NormalizedLineItem) : string * Q * Q * Q :=
  (nli_description item, nli_qty item, nli_unitPrice item, nli_amount item).

Definition lineOfDocument (item : LineItem) : string * Q * Q * Q :=
  (Apply.orElse (li_description item) "", li_qty item, li_unitPrice item,
   (li_qty item * li_unitPrice item)%Q).

(** The part of a normalized invoice that identifies the document. *)
Definition identityOf (n : NormalizedInvoice)
  : string * string * string * string * Q * Q * list (string * Q * Q * Q) :=
  (n_invoiceId n, n_vendor n, n_invoiceNumber n, n_invoiceDate n,
   n_netTotal n, n_taxRate n, map lineOf (n_lineItems n)).

(** The purchase orders of the vendor of a document. *)
Definition vendorOrders (invoice : Invoice) (purchaseOrders : list PurchaseOrder)
  : list PurchaseOrder :=
  filter (fun po => po_vendor po = vendor invoice) purchaseOrders.

(** What holds of a purchase-order match. *)
Definition soundMatch (invoice : Invoice) (purchaseOrders : list PurchaseOrder)
    (m : Apply.POMatch) : Prop :=
  (exists po, po ∈ vendorOrders invoice purchaseOrders /\
              po_poNumber po = Apply.pm_poNumber m) /\
  (0.5 <= Apply.pm_confidence m <= 0.95)%Q /\
  ((Apply.AUTO_APPLY_THRESHOLD <= Apply.pm_confidence m)%Q ->
   length (vendorOrders invoice purchaseOrders) = 1%nat).

(** The four currency codes Apply recognises without a label. *)
Definition knownCurrencies : list string := ["EUR"; "USD"; "GBP"; "CHF"].

(** Three upper-case letters. *)
Definition isCurrencyCode (s : string) : bool :=
  match list_ascii_of_string s with
  | [x; y; z] => isUpper x && isUpper y && isUpper z
  | _ => false
  end.

(** ** The entry points (index.ts) *)

Module Index.

(** [ProcessingResult]; the free-text [reasoning] and the [auditTrail] are
    presentation and are left out, as in [makeDecision]. *)
Record ProcessingResult := mkProcessingResult {
  normalizedInvoice : NormalizedInvoice;
  proposedCorrections : list ProposedCorrection;
  requiresHumanReview : bool;
  confidenceScore : Q;
  memoryUpdates : list MemoryUpdate
}.

Section WithRuntime.
Context `{JsRuntime} `{Apply.Extractors}.

Definition processInvoice (invoice : Invoice)
    (purchaseOrders : option (list PurchaseOrder)) : Db ProcessingResult :=
  (* Step 1: recall *)
  memories ← Recall.recallMemories invoice;
  (* Step 2: apply *)
  let applyResult := Apply.applyMemories invoice memories purchaseOrders in
  (* Step 3: decide *)
  let decisionResult :=
    Decide.makeDecision (Apply.normalizedInvoice applyResult)
      (Apply.proposedCorrections applyResult) memories (inv_confidence invoice) in
  ret {| normalizedInvoice := Apply.normalizedInvoice applyResult;
         proposedCorrections := Apply.proposedCorrections applyResult;
         requiresHumanReview := Decide.requiresHumanReview decisionResult;
         confidenceScore := Decide.confidenceScore decisionResult;
         memoryUpdates := [] |}.

Definition applyHumanCorrection (now : Z) (invoice : Invoice)
    (correction : HumanCorrection) : Db (list MemoryUpdate) :=
  learnResult ← Learn.learn now invoice correction;
  ret (Learn.memoryUpdates learnResult).

End WithRuntime.
End Index.

(** ** [learnFromBatch] (services/learn.ts) *)

Section Batch.
Context `{JsRuntime}.

(** Each correction comes with the instant at which it is learned. *)
Fixpoint learnFromBatch (invoices : list Invoice)
    (corrections : list (Z * HumanCorrection)) : Db (list Learn.LearnResult) :=
  match corrections with
  | [] => ret []
  | (now, correction) :: rest =>
      match find (fun inv => String.eqb (invoiceId inv) (hc_invoiceId correction))
                 invoices with
      | Some invoice =>
          result ← Learn.learn now invoice correction;
          results ← learnFromBatch invoices rest;
          ret (result :: results)
      | None => learnFromBatch invoices rest
      end
  end.

End Batch.

(** A correction of a batch that names an invoice of the list. *)
Definition namesInvoice (invoices : list Invoice) (c : Z * HumanCorrection) : bool :=
  existsb (fun inv => String.eqb (invoiceId inv) (hc_invoiceId (snd c))) invoices.

(** ** Vocabulary of the properties of Learn *)

(** The resolution rows the second loop of [learn] writes, the first of
    them under the identifier number [n]. *)
Definition resolutionRow (now : Z) (invoice : Invoice) (decision : Verdict)
    (id : string) (c : FieldCorrection) : ResolutionMemory :=
  {| rm_id := id; rm_invoiceId := invoiceId invoice;
     rm_vendorName := vendor invoice; discrepancyType := fc_field c;
     rm_originalValue := fc_from c; correctedValue := fc_to c;
     resolution := decision; humanFeedback := orUndefined (Some (fc_reason c));
     rm_createdAt := now |}.

Fixpoint resolutionRows (now : Z) (invoice : Invoice) (decision : Verdict)
    (n : nat) (cs : list FieldCorrection) : list ResolutionMemory :=
  match cs with
  | [] => []
  | c :: rest =>
      resolutionRow now invoice decision (uuid n) c ::
      resolutionRows now invoice decision (S n) rest
  end.

(** A relation between the store before and the store after that a
    computation maintains. *)
Definition relates {A} (R : Database -> Database -> Prop) (m : Db A) : Prop :=
  forall db, R db (snd (m db)).

(** What the first loop of [learn] may change while it works on the vendor
    [v]: nothing of the resolution table and of the ledger, no vendor row
    and no correction memory of another vendor; and it removes no vendor
    row. *)
Definition learnsAbout (v : string) (db db' : Database) : Prop :=
  resolution_memories db' = resolution_memories db /\
  processed_invoices db' = processed_invoices db /\
  (forall v', v' <> v -> vendor_memories db' !! v' = vendor_memories db !! v') /\
  (is_Some (vendor_memories db !! v) -> is_Some (vendor_memories db' !! v)) /\
  (wellKeyed db ->
   wellKeyed db' /\
   forall v', v' <> v ->
     filter (fun c => cm_vendorName c = v') (correction_memories db') =
     filter (fun c => cm_vendorName c = v') (correction_memories db)).

(** No ledger row of the document's vendor and number is as late as [now]. *)
Definition laterThanLedger (now : Z) (invoice : Invoice) (db : Database) : Prop :=
  forall r, r ∈ processed_invoices db ->
    pi_vendorName r = vendor invoice ->
    pi_invoiceNumber r = invoiceNumber (fields invoice) ->
    processedAt r < now.

(** A document of a second vendor, for the closed examples. *)
Definition invoice2 : Invoice :=
  {| invoiceId := "INV-B-001"; vendor := "Parts AG"; fields := Samples.fields1;
     inv_confidence := 0.8; rawText := "" |}.

(** The default currency stored for a vendor, if any. *)
Definition storedCurrency (v : string) (db : Database) : option string :=
  match vendor_memories db !! v with
  | Some vm => defaultCurrency vm
  | None => None
  end.

(** The default currency a batch of corrections leaves: the value of its
    last correction of the field [currency], as the TEXT column keeps it,
    else the one before. *)
Definition learnedCurrency `{JsRuntime} (cs : list FieldCorrection)
    (before : option string) : option string :=
  fold_left (fun cur c =>
               if String.eqb (fc_field c) "currency" then columnValue (fc_to c)
               else cur)
            cs before.

Definition hasDefaultCurrency (v : string) (cur : option string) (db : Database)
  : Prop :=
  exists vm, vendor_memories db !! v = Some vm /\ defaultCurrency vm = cur.

(** The proposal Apply makes from a vendor's default currency. *)
Definition currencyProposal (cur : string) : ProposedCorrection :=
  {| pc_field := "currency"; pc_originalValue := VNull;
     pc_proposedValue := VStr cur; pc_confidence := 0.75%Q;
     autoApplied := false |}.

(** A step of Apply that drops no proposal. *)
Definition keepsProposals (step : Apply.State -> Apply.State) : Prop :=
  forall st c, c ∈ snd st -> c ∈ snd (step st).

(** Pre- and postcondition of a computation on the store. *)
Definition hoare {A} (P : Database -> Prop) (m : Db A) (Q : Database -> Prop) : Prop :=
  forall db, P db -> Q (snd (m db)).

(** A correction of the currency that carries a number. *)
Definition numericCurrencyCorrection : FieldCorrection :=
  {| fc_field := "currency"; fc_from := VNull; fc_to := VNum 978;
     fc_reason := "currency code" |}.


(** * Properties *)

(** ** Binary64 rounding *)

Lemma roundHalfEven_error (x : Q) :
  (Qabs (inject_Z (roundHalfEven x) - x) <= 1 # 2)%Q.
Proof.
  unfold roundHalfEven. cbv zeta.
  pose proof (Qfloor_le x) as Hlo. pose proof (Qlt_floor x) as Hhi.
  rewrite inject_Z_plus in Hhi. change (inject_Z 1) with 1%Q in Hhi.
  destruct (x - inject_Z (Qfloor x) ?= 1 # 2)%Q eqn:Hcmp.
  - apply Qeq_alt in Hcmp. destruct (Z.even (Qfloor x)).
    + apply Qabs_Qle_condition. split; lra.
    + rewrite inject_Z_plus. change (inject_Z 1) with 1%Q.
      apply Qabs_Qle_condition. split; lra.
  - apply Qlt_alt in Hcmp. apply Qabs_Qle_condition. split; lra.
  - apply Qgt_alt in Hcmp. rewrite inject_Z_plus. change (inject_Z 1) with 1%Q.
    apply Qabs_Qle_condition. split; lra.
Qed.

Lemma pow2_pos (e : Z) : (0 < 2 ^ e)%Q.
Proof. by apply Qpower_0_lt. Qed.

Lemma pow2_plus (a b : Z) : (2 ^ (a + b) == 2 ^ a * 2 ^ b)%Q.
Proof. by apply Qpower_plus. Qed.

Lemma pow2_nonneg_Z (a : Z) : 0 <= a -> (2 ^ a == inject_Z (2 ^ a))%Q.
Proof. intros Ha. by rewrite Zpower_Qpower. Qed.

Lemma Qabs_fraction (x : Q) :
  (Qabs x * inject_Z (Zpos (Qden x)) == inject_Z (Z.abs (Qnum x)))%Q.
Proof.
  destruct x as [n d]. unfold Qabs, Qeq, Qmult, inject_Z. simpl. lia.
Qed.

(** The nearest double has at least 53 significant bits. *)
Lemma lastPlace_below (x : Q) : ~ (x == 0)%Q -> (2 ^ (lastPlace x + 52) <= Qabs x)%Q.
Proof.
  intros Hx. unfold lastPlace.
  set (n := Z.abs (Qnum x)). set (d := Zpos (Qden x)).
  set (k := Z.log2 n - Z.log2 d).
  destruct (Qle_bool (2 ^ k) (Qabs x)) eqn:Hk.
  - apply Qle_bool_iff in Hk. by replace (k - 52 + 52) with k by lia.
  - replace (k - 1 - 52 + 52) with (Z.log2 n + - (Z.log2 d + 1)) by (subst k; lia).
    assert (Hn : 0 < n).
    { subst n. destruct x as [[|p|p] q]; simpl; try lia. exfalso. by apply Hx. }
    assert (Hd : 0 < d) by (subst d; lia).
    pose proof (Z.log2_spec n Hn) as [Hnlo _].
    pose proof (Z.log2_spec d Hd) as [_ Hdhi].
    pose proof (Z.log2_nonneg n) as Hln. pose proof (Z.log2_nonneg d) as Hld.
    rewrite pow2_plus, Qpower_opp, !pow2_nonneg_Z by lia.
    pose proof (Qabs_fraction x) as Hfrac. fold n d in Hfrac.
    rewrite Zle_Qle in Hnlo. rewrite Zlt_Qlt in Hdhi.
    replace (Z.succ (Z.log2 d)) with (Z.log2 d + 1) in Hdhi by lia.
    assert (Hdq : (inject_Z 0 < inject_Z d)%Q) by (rewrite <- Zlt_Qlt; exact Hd).
    change (inject_Z 0) with 0%Q in Hdq.
    set (A := inject_Z (2 ^ Z.log2 n)) in *.
    set (B := inject_Z (2 ^ (Z.log2 d + 1))) in *.
    assert (HB : (0 < B)%Q) by lra.
    assert (HA : (inject_Z 0 <= A)%Q).
    { subst A. rewrite <- Zle_Qle. apply Z.pow_nonneg. lia. }
    change (inject_Z 0) with 0%Q in HA.
    set (r := (/ B)%Q).
    assert (Hr : (r * B == 1)%Q) by (subst r; field; lra).
    assert (Hr0 : (0 < r)%Q) by (subst r; by apply Qinv_lt_0_compat).
    clear Hk. set (ax := Qabs x) in *. set (nq := inject_Z n) in *.
    set (dq := inject_Z d) in *. clearbody r A B ax nq dq.
    assert (H1 : (0 <= A * r)%Q) by nra.
    assert (H2 : (A * r * dq <= A * r * B)%Q) by nra.
    assert (H3 : (A * r * B == A)%Q) by nra.
    assert (H4 : ((ax - A * r) * dq >= 0)%Q) by nra.
    nra.
Qed.

Lemma roundDouble_facts (x : Q) :
  ~ (x == 0)%Q ->
  exists (m p : Q),
    (0 < p)%Q /\ (p * 2 ^ 52 <= Qabs x)%Q /\
    (Qabs (m * p - Qabs x) <= p * (1 # 2))%Q /\
    (roundDouble x == (if Qle_bool 0 x then 1 else -1) * m * p)%Q.
Proof.
  intros Hx. unfold roundDouble.
  destruct (Qeq_bool x 0) eqn:Hz; [by apply Qeq_bool_iff in Hz |]. cbv zeta.
  pose proof (lastPlace_below x Hx) as Hlow. rewrite pow2_plus in Hlow.
  pose proof (pow2_pos (lastPlace x)) as Hp.
  pose proof (roundHalfEven_error (Qabs x / 2 ^ lastPlace x)) as Hm.
  set (p := (2 ^ lastPlace x)%Q) in *.
  set (m := inject_Z (roundHalfEven (Qabs x / p))) in *.
  exists m, p. split; [done |]. split; [done |]. split; [| apply Qred_correct].
  assert (Hy : (Qabs x / p * p == Qabs x)%Q) by (field; lra).
  set (y := (Qabs x / p)%Q) in *. clearbody m y p.
  apply Qabs_Qle_condition in Hm as [Hm1 Hm2].
  apply Qabs_Qle_condition. split; nra.
Qed.

(** The relative error of a rounding is at most [2^-53]. *)
Lemma roundDouble_error (x : Q) :
  (Qabs (roundDouble x - x) <= unitRoundoff * Qabs x)%Q.
Proof.
  destruct (Qeq_dec x 0) as [Hx|Hx].
  - assert (Hr : (roundDouble x == 0)%Q).
    { unfold roundDouble. apply Qeq_bool_iff in Hx. by rewrite Hx. }
    rewrite Hr, Hx. vm_compute. discriminate.
  - destruct (roundDouble_facts x Hx) as (m & p & Hp & Hlow & Hm & ->).
    change (2 ^ 52)%Q with (4503599627370496 # 1)%Q in Hlow.
    change unitRoundoff with (1 # 9007199254740992)%Q.
    apply Qabs_Qle_condition in Hm as [Hm1 Hm2].
    destruct (Qle_bool 0 x) eqn:Hs.
    + apply Qle_bool_iff in Hs. rewrite (Qabs_pos x) in * by done.
      apply Qabs_Qle_condition. split; lra.
    + assert (Hneg : (x < 0)%Q).
      { apply Qnot_le_lt. intros Hle. apply Qle_bool_iff in Hle. congruence. }
      rewrite (Qabs_neg x) in * by lra.
      apply Qabs_Qle_condition. split; lra.
Qed.

(** A rounding keeps the sign. *)
Lemma roundDouble_neg (x : Q) : (x < 0)%Q -> (roundDouble x < 0)%Q.
Proof.
  intros Hneg. assert (Hx : ~ (x == 0)%Q) by lra.
  destruct (roundDouble_facts x Hx) as (m & p & Hp & Hlow & Hm & ->).
  change (2 ^ 52)%Q with (4503599627370496 # 1)%Q in Hlow.
  apply Qabs_Qle_condition in Hm as [Hm1 Hm2].
  destruct (Qle_bool 0 x) eqn:Hs; [apply Qle_bool_iff in Hs; lra |].
  rewrite (Qabs_neg x) in * by lra. nra.
Qed.

Lemma Qabs_cases (x : Q) :
  (0 <= x /\ Qabs x == x)%Q \/ (x <= 0 /\ Qabs x == - x)%Q.
Proof.
  destruct (Qlt_le_dec x 0) as [Hx|Hx].
  - right. split; [lra |]. apply Qabs_neg. lra.
  - left. split; [done |]. by apply Qabs_pos.
Qed.

(** Absolute values are replaced by their two cases before linear
    arithmetic takes over. *)
Ltac qabs :=
  repeat match goal with
  | H : (Qabs ?x <= ?y)%Q |- _ => apply Qabs_Qle_condition in H
  end;
  repeat match goal with
  | |- context [Qabs ?x] =>
      pose proof (Qabs_cases x); generalize dependent (Qabs x); intros
  | H : context [Qabs ?x] |- _ =>
      pose proof (Qabs_cases x); generalize dependent (Qabs x); intros
  end;
  repeat match goal with
  | H : _ \/ _ |- _ => destruct H as [[? ?] | [? ?]]
  end.

Lemma double_001 :
  roundDouble 0.01 = (5764607523034235 # 576460752303423488)%Q.
Proof. vm_compute. reflexivity. Qed.

Lemma double_01 : roundDouble 0.1 = (3602879701896397 # 36028797018963968)%Q.
Proof. vm_compute. reflexivity. Qed.

Lemma double_02 : roundDouble 0.2 = (3602879701896397 # 18014398509481984)%Q.
Proof. vm_compute. reflexivity. Qed.

(** The steps by which a tax or SKU confidence moves stay between 0.1
    and 1. *)
Lemma addDouble_step_range (c : Q) :
  (0.1 <= c <= 1)%Q -> (0.1 <= Qmin 1.0 (addDouble c 0.1) <= 1)%Q.
Proof.
  intros Hc. unfold addDouble. rewrite double_01.
  pose proof (roundDouble_error c) as Hc'.
  pose proof (roundDouble_error
                (roundDouble c + (3602879701896397 # 36028797018963968))) as Hs.
  change unitRoundoff with (1 # 9007199254740992)%Q in *.
  set (c' := roundDouble c) in *.
  set (s := roundDouble (c' + (3602879701896397 # 36028797018963968))) in *.
  clearbody c' s.
  pose proof (Q.min_spec 1.0 s) as Hmin. set (r := Qmin 1.0 s) in *. clearbody r.
  destruct Hmin as [[? ?] | [? ?]]; qabs; lra.
Qed.

Lemma subDouble_step_range (c : Q) :
  (0.1 <= c <= 1)%Q ->
  (0.1 <= Qmax (roundDouble 0.1) (subDouble c 0.2) <= 1)%Q.
Proof.
  intros Hc. unfold subDouble. rewrite double_01, double_02.
  pose proof (roundDouble_error c) as Hc'.
  pose proof (roundDouble_error
                (roundDouble c - (3602879701896397 # 18014398509481984))) as Hs.
  change unitRoundoff with (1 # 9007199254740992)%Q in *.
  set (c' := roundDouble c) in *.
  set (s := roundDouble (c' - (3602879701896397 # 18014398509481984))) in *.
  clearbody c' s.
  pose proof (Q.max_spec (3602879701896397 # 36028797018963968) s) as Hmax.
  set (r := Qmax (3602879701896397 # 36028797018963968) s) in *. clearbody r.
  destruct Hmax as [[? ?] | [? ?]]; qabs; lra.
Qed.

(** ** Arithmetic on rationals *)

Lemma Qleb_le a b : Qleb a b = true <-> (a <= b)%Q.
Proof. apply Qle_bool_iff. Qed.

Lemma Qltb_lt a b : Qltb a b = true <-> (a < b)%Q.
Proof.
  unfold Qltb. rewrite negb_true_iff, <- not_true_iff_false, Qle_bool_iff.
  split; [apply Qnot_le_lt | apply Qlt_not_le].
Qed.

Lemma Qltb_ge a b : Qltb a b = false <-> (b <= a)%Q.
Proof. unfold Qltb. rewrite negb_false_iff. apply Qle_bool_iff. Qed.

Lemma Qdiv_2 x : (x / 2 == x * (1 # 2))%Q.
Proof. field. Qed.

Lemma Qdiv_3 x : (x / 3 == x * (1 # 3))%Q.
Proof. field. Qed.

Lemma Qdiv_5 x : (x / 5 == x * (1 # 5))%Q.
Proof. field. Qed.

(** [Qmin], [Qmax] and the divisions by a literal are replaced by their
    characterisations before linear arithmetic takes over. *)
Ltac name_term t H := pose proof H; generalize dependent t; intros.

Ltac name_minmax :=
  repeat match goal with
  | |- context [Qmax ?a ?b] => name_term (Qmax a b) (Q.max_spec a b)
  | |- context [Qmin ?a ?b] => name_term (Qmin a b) (Q.min_spec a b)
  | H : context [Qmax ?a ?b] |- _ => name_term (Qmax a b) (Q.max_spec a b)
  | H : context [Qmin ?a ?b] |- _ => name_term (Qmin a b) (Q.min_spec a b)
  | |- context [(?x / 2)%Q] => name_term (x / 2)%Q (Qdiv_2 x)
  | |- context [(?x / 3)%Q] => name_term (x / 3)%Q (Qdiv_3 x)
  | |- context [(?x / 5)%Q] => name_term (x / 5)%Q (Qdiv_5 x)
  | H : context [(?x / 2)%Q] |- _ => name_term (x / 2)%Q (Qdiv_2 x)
  | H : context [(?x / 3)%Q] |- _ => name_term (x / 3)%Q (Qdiv_3 x)
  | H : context [(?x / 5)%Q] |- _ => name_term (x / 5)%Q (Qdiv_5 x)
  end.

Ltac qminmax :=
  name_minmax;
  repeat match goal with
  | H : _ \/ _ |- _ => destruct H as [[? ?] | [? ?]]
  end; lra.

Ltac qcases :=
  repeat match goal with
  | |- context [Qltb ?a ?b] =>
      let E := fresh "E" in
      destruct (Qltb a b) eqn:E; [apply Qltb_lt in E | apply Qltb_ge in E]
  | |- context [Qleb ?a ?b] =>
      let E := fresh "E" in
      destruct (Qleb a b) eqn:E;
      [apply Qleb_le in E | apply not_true_iff_false in E; rewrite Qleb_le in E]
  end.

Lemma clamp_min_max lo hi x :
  (lo <= hi)%Q -> (Qmax lo (Qmin hi x) == clamp lo hi x)%Q.
Proof. intros Hlh. unfold clamp. qcases; qminmax. Qed.

Lemma clamp_max_min lo hi x :
  (lo <= hi)%Q -> (Qmin hi (Qmax lo x) == clamp lo hi x)%Q.
Proof. intros Hlh. unfold clamp. qcases; qminmax. Qed.

(** ** Decide *)

Section DecideFacts.
Import Decide.

Lemma reviewOf_escalate acc rs d : reviewOf (escalate acc rs d) = true.
Proof. reflexivity. Qed.

Lemma checkDuplicates_raises m : raises (checkDuplicates m).
Proof. intros acc Hacc. unfold checkDuplicates. by destruct (potentialDuplicate m). Qed.

Lemma checkLowConfidence_raises cs : raises (checkLowConfidence cs).
Proof. intros acc Hacc. unfold checkLowConfidence. by case_match. Qed.

Lemma checkPending_raises cs : raises (checkPending cs).
Proof. intros acc Hacc. unfold checkPending. by case_match. Qed.

Lemma checkConflicts_raises m : raises (checkConflicts m).
Proof. intros acc Hacc. unfold checkConflicts. by case_match. Qed.

Lemma checkMissing_raises n cs : raises (checkMissing n cs).
Proof. intros acc Hacc. unfold checkMissing. by case_match. Qed.

Lemma decideOnScore_raises score : raises (decideOnScore score).
Proof. intros acc Hacc. unfold decideOnScore. by rewrite Hacc. Qed.

Lemma isNewVendor_lowHistory m :
  isNewVendor m = true <-> OverallConfidenceSpec.lowHistory m.
Proof.
  unfold isNewVendor, OverallConfidenceSpec.lowHistory.
  destruct (vendorMemory m) as [vm|]; split; intros Hm; try done; auto.
  - right. exists vm. split; [done | lia].
  - destruct Hm as [? | (vm' & [= <-] & ?)]; [done | lia].
Qed.

(** C1.  Whenever the recalled memories hold no vendor memory, or one whose
    usage count is below 2, [makeDecision] requires human review, whatever
    the normalized invoice, the proposed corrections and the base
    confidence are. *)
Theorem C1_new_vendor_requires_review
    (normalizedInvoice : NormalizedInvoice)
    (proposedCorrections : list ProposedCorrection)
    (memories : RecalledMemories) (baseConfidence : Q) :
  vendorMemory memories = None \/
    (exists vm, vendorMemory memories = Some vm /\ vm_usageCount vm < 2) ->
  requiresHumanReview
    (makeDecision normalizedInvoice proposedCorrections memories baseConfidence)
  = true.
Proof.
  intros Hnew. apply isNewVendor_lowHistory in Hnew.
  unfold makeDecision. cbn [requiresHumanReview].
  apply decideOnScore_raises, checkMissing_raises, checkConflicts_raises,
    checkPending_raises, checkLowConfidence_raises.
  unfold checkNewVendor. rewrite Hnew. apply reviewOf_escalate.
Qed.

End DecideFacts.

Lemma C1_new_vendor_requires_review_witness :
  (vendorMemory Samples.noMemories = None \/
     (exists vm, vendorMemory Samples.noMemories = Some vm /\ vm_usageCount vm < 2)) /\
  Decide.requiresHumanReview
    (Decide.makeDecision Samples.normalized1 [] Samples.noMemories 0.95) = true.
Proof.
  split; [left; reflexivity |].
  apply (C1_new_vendor_requires_review Samples.normalized1 [] Samples.noMemories 0.95).
  left; reflexivity.
Defined.

Section OverallConfidence.
Import Decide OverallConfidenceSpec.

Lemma filter_nonempty_existsb {A} (p : A -> bool) (l : list A) :
  (0 <? length (filter (fun x => p x = true) l))%nat = existsb p l.
Proof.
  induction l as [|x l IH]; [done |].
  rewrite filter_cons. simpl. destruct (p x) eqn:E.
  - by rewrite decide_True.
  - by rewrite decide_False by congruence.
Qed.

Lemma filter_false_negb {A} (p : A -> bool) (l : list A) :
  filter (fun x => p x = false) l = filter (fun x => negb (p x) = true) l.
Proof.
  apply list_filter_iff. intros x. by rewrite negb_true_iff.
Qed.

Lemma sumConfidence_mean (l : list ProposedCorrection) :
  (sumConfidence l / Qlen l == mean (map pc_confidence l))%Q.
Proof.
  unfold sumConfidence, mean, Qlen. rewrite length_map.
  assert (Hs : forall a, (fold_left (fun sum c => sum + pc_confidence c) l a ==
                          a + fold_right Qplus 0 (map pc_confidence l))%Q).
  { induction l as [|x l IH]; intros a; simpl; [lra | rewrite IH; lra]. }
  rewrite Hs. apply Qdiv_comp; [lra | reflexivity].
Qed.

(** C4.  The confidence score returned by [makeDecision] is the base
    confidence put through, in this order: the vendor-memory boost capped at
    1.0, the averaging with the mean confidence of the auto-applied
    corrections, the 0.9 pending penalty, the 0.5 duplicate penalty, the 0.8
    low-history penalty, and the final clamp to [0.1, 1.0]. *)
Theorem C4_overall_confidence_order
    (normalizedInvoice : NormalizedInvoice)
    (proposedCorrections : list ProposedCorrection)
    (memories : RecalledMemories) (baseConfidence : Q) :
  (confidenceScore
     (makeDecision normalizedInvoice proposedCorrections memories baseConfidence)
   == overallConfidence baseConfidence memories proposedCorrections)%Q.
Proof.
  unfold makeDecision. cbn [confidenceScore].
  unfold calculateOverallConfidence, overallConfidence. cbv zeta.
  rewrite <- clamp_min_max by lra.
  rewrite filter_false_negb, !filter_nonempty_existsb.
  pose proof (sumConfidence_mean
    (filter (fun c => autoApplied c = true) proposedCorrections)) as Hmean.
  unfold vendorBoost, averageWithAutoApplied, pendingPenalty, duplicatePenalty,
    lowHistoryPenalty, isNewVendor.
  set (auto := filter (fun c => autoApplied c = true) proposedCorrections) in *.
  generalize dependent (mean (map pc_confidence auto)).
  generalize (sumConfidence auto / Qlen auto)%Q.
  intros a b Hab.
  destruct (existsb autoApplied proposedCorrections),
    (existsb (fun c => negb (autoApplied c)) proposedCorrections),
    (potentialDuplicate memories) as [d|], (vendorMemory memories) as [vm|];
    simpl; try destruct (vm_usageCount vm <? 2); qcases; qminmax.
Qed.

End OverallConfidence.

(** ** Recall: confidence decay *)

Section Decay.
Import Recall.
Local Open Scope R_scope.

Lemma ln_099_neg : ln 0.99 < 0.
Proof. rewrite <- ln_1. apply ln_increasing; Lra.lra. Qed.

Lemma Rpower_099_pos d : 0 < Rpower 0.99 d.
Proof. unfold Rpower. apply exp_pos. Qed.

Lemma Rpower_099_decreasing d1 d2 :
  d1 < d2 -> Rpower 0.99 d2 < Rpower 0.99 d1.
Proof.
  intros Hd. unfold Rpower. apply exp_increasing.
  pose proof ln_099_neg. Lra.nra.
Qed.

Lemma daysSince_same t : daysSince t t = 0.
Proof. unfold daysSince. rewrite Z.sub_diag. simpl. Lra.lra. Qed.

Lemma decay_same_instant c t : applyConfidenceDecay c t t = Rmax 0.1 c.
Proof.
  unfold applyConfidenceDecay. rewrite daysSince_same, Rpower_O by Lra.lra.
  f_equal. Lra.lra.
Qed.

(** C8, as the code has it.  The decayed confidence is
    [max(0.1, c * 0.99^d)] with [d] the days elapsed; it does not increase
    when more days have elapsed; and with no time elapsed it is
    [max(0.1, c)], which is [c] itself exactly when [c] is at least 0.1. *)
Theorem C8_decay_floor_and_monotone
    (c : R) (lastUsed now lastUsed' now' : Z) :
  applyConfidenceDecay c lastUsed now
    = Rmax 0.1 (c * Rpower 0.99 (daysSince lastUsed now)) /\
  (daysSince lastUsed now < daysSince lastUsed' now' ->
   applyConfidenceDecay c lastUsed' now' <= applyConfidenceDecay c lastUsed now) /\
  applyConfidenceDecay c now now = Rmax 0.1 c /\
  (0.1 <= c <-> applyConfidenceDecay c now now = c).
Proof.
  split; [reflexivity |]. split; [| split].
  - intros Hd. unfold applyConfidenceDecay.
    pose proof (Rpower_099_decreasing _ _ Hd) as Hp.
    pose proof (Rpower_099_pos (daysSince lastUsed' now')) as Hpos.
    destruct (Rle_or_lt 0 c) as [Hc | Hc].
    + apply Rmax_lub; [apply Rmax_l |].
      eapply Rle_trans; [| apply Rmax_r]. Lra.nra.
    + apply Rmax_lub; [apply Rmax_l |].
      eapply Rle_trans; [| apply Rmax_l]. Lra.nra.
  - apply decay_same_instant.
  - rewrite decay_same_instant. split; intros Hc.
    + apply Rmax_right, Hc.
    + rewrite <- Hc. apply Rmax_l.
Qed.

Lemma C8_decay_floor_and_monotone_witness :
  daysSince 0 86400000 < daysSince 0 172800000 /\
  applyConfidenceDecay 0.5 0 172800000 <= applyConfidenceDecay 0.5 0 86400000.
Proof.
  assert (Hd : daysSince 0 86400000 < daysSince 0 172800000)
    by (unfold daysSince; rewrite !Z.sub_0_r; Lra.lra).
  split; [exact Hd |].
  exact (proj1 (proj2 (C8_decay_floor_and_monotone
                         0.5 0 86400000 0 172800000)) Hd).
Defined.

(** C8, as stated, fails below the floor: a confidence of 0.05 read with no
    time elapsed comes back as 0.1. *)
Lemma C8_counterexample_below_floor :
  applyConfidenceDecay 0.05 0 0 = 0.1 /\ applyConfidenceDecay 0.05 0 0 <> 0.05.
Proof.
  assert (H : applyConfidenceDecay 0.05 0 0 = 0.1).
  { rewrite decay_same_instant. apply Rmax_left. Lra.lra. }
  split; [exact H | rewrite H; Lra.lra].
Qed.

End Decay.

(** ** Correction memory *)

Section CorrectionMemoryFacts.
Import CorrectionMem.

Lemma uuid_inj a b : uuid a = uuid b -> a = b.
Proof.
  unfold uuid. intros Heq. apply (inj pretty).
  by simplify_eq/=.
Qed.

Lemma head_filter_Some {A} (P : A -> Prop) `{forall x, Decision (P x)}
    (l : list A) (x : A) :
  head (filter P l) = Some x -> x ∈ l /\ P x.
Proof.
  intros Hh. apply head_Some_elem_of in Hh.
  by apply list_elem_of_filter in Hh as [? ?].
Qed.

Lemma lookupCorrection_Some id db row :
  lookupCorrection id db = Some row ->
  row ∈ correction_memories db /\ cm_id row = id.
Proof. intros Hl. by apply head_filter_Some in Hl as [? ?]. Qed.

Lemma NoDup_key_inj (l : list CorrectionMemory) x y :
  NoDup (map cm_id l) -> x ∈ l -> y ∈ l -> cm_id x = cm_id y -> x = y.
Proof.
  intros Hnd Hx Hy Hid.
  apply list_elem_of_lookup in Hx as [i Hi], Hy as [j Hj].
  assert (i = j) as ->; [| congruence].
  eapply NoDup_lookup; [exact Hnd | |].
  - rewrite list_lookup_fmap, Hi. reflexivity.
  - rewrite list_lookup_fmap, Hj. simpl. by rewrite Hid.
Qed.

Lemma reinforceCorrection_eq now id db :
  reinforceCorrection now id db =
  match lookupCorrection id db with
  | Some row =>
      (tt, withCorrections
             (updateRows id (reinforced now row) (correction_memories db)) db)
  | None => (tt, db)
  end.
Proof.
  unfold reinforceCorrection, mbind, db_bind, getDb.
  by destruct (lookupCorrection id db).
Qed.

Lemma weakenCorrection_eq now id db :
  weakenCorrection now id db =
  match lookupCorrection id db with
  | Some row =>
      (tt, withCorrections
             (updateRows id (weakened now row) (correction_memories db)) db)
  | None => (tt, db)
  end.
Proof.
  unfold weakenCorrection, mbind, db_bind, getDb.
  by destruct (lookupCorrection id db).
Qed.

Lemma recordCorrection_db now v f p t x db :
  snd (recordCorrection now v f p t x db) =
  match fst (findMatchingCorrection v f (Some p) (bumpId db)) with
  | Some existing => snd (reinforceCorrection now (cm_id existing) (bumpId db))
  | None =>
      withCorrections
        (correction_memories db ++ [freshMemory now (uuid (nextId db)) v f p t x])
        (bumpId db)
  end.
Proof.
  unfold recordCorrection, mbind, db_bind, uuidv4. fold (bumpId db).
  unfold findMatchingCorrection, getCorrectionMemories, mbind, db_bind, getDb.
  simpl. case_match; [| reflexivity].
  by destruct (reinforceCorrection _ _ _) as [[] ?].
Qed.

Lemma updateRows_ids id f t :
  (forall c, cm_id (f c) = cm_id c) ->
  map cm_id (updateRows id f t) = map cm_id t.
Proof.
  intros Hf. unfold updateRows. rewrite <- list_fmap_compose.
  apply list_fmap_ext. intros i c _. simpl. by case_decide.
Qed.

Lemma wellKeyed_updateRows id f db :
  (forall c, cm_id (f c) = cm_id c) ->
  wellKeyed db ->
  wellKeyed (withCorrections (updateRows id f (correction_memories db)) db).
Proof.
  intros Hf [Hnd Hids]. split; simpl.
  - by rewrite updateRows_ids.
  - intros c Hc. unfold updateRows in Hc.
    apply list_elem_of_fmap in Hc as (c0 & -> & Hc0).
    destruct (Hids c0 Hc0) as (k & Hk & Hid). exists k. split; [done |].
    case_decide; by rewrite ?Hf.
Qed.

Lemma wellKeyed_bumpId db : wellKeyed db -> wellKeyed (bumpId db).
Proof.
  intros [Hnd Hids]. split; [done |]. intros c Hc.
  destruct (Hids c Hc) as (k & Hk & Hid). exists k. simpl. split; [lia | done].
Qed.

Lemma wellKeyed_reinforce now id db :
  wellKeyed db -> wellKeyed (snd (reinforceCorrection now id db)).
Proof.
  intros Hk. rewrite reinforceCorrection_eq.
  destruct (lookupCorrection id db); [| done].
  by apply wellKeyed_updateRows.
Qed.

Lemma wellKeyed_weaken now id db :
  wellKeyed db -> wellKeyed (snd (weakenCorrection now id db)).
Proof.
  intros Hk. rewrite weakenCorrection_eq.
  destruct (lookupCorrection id db); [| done].
  by apply wellKeyed_updateRows.
Qed.

Lemma wellKeyed_record now v f p t x db :
  wellKeyed db -> wellKeyed (snd (recordCorrection now v f p t x db)).
Proof.
  intros Hk. rewrite recordCorrection_db.
  case_match; [by apply wellKeyed_reinforce, wellKeyed_bumpId |].
  destruct Hk as [Hnd Hids]. split; simpl.
  - rewrite fmap_app. apply NoDup_app. split; [done |]. split; [| apply NoDup_singleton].
    intros id Hid Hin. apply list_elem_of_singleton in Hin. subst id.
    apply list_elem_of_fmap in Hid as (c & Hc & Hcin).
    destruct (Hids c Hcin) as (k & Hlt & Hck). simpl in Hc.
    rewrite Hck in Hc. apply uuid_inj in Hc. subst k.
    by apply Nat.lt_irrefl in Hlt.
  - intros c Hc. apply elem_of_app in Hc as [Hc | Hc].
    + destruct (Hids c Hc) as (k & Hlt & Hck). exists k. simpl. split; [lia | done].
    + apply list_elem_of_singleton in Hc. subst c. exists (nextId db). simpl.
      split; [lia | done].
Qed.

Lemma storedConfidence_after s f :
  1 <= s -> 0 <= f -> (s =? 1) && (f =? 0) = false ->
  calculateCorrectionConfidence s f = storedConfidence s f.
Proof. intros _ _ Hne. unfold storedConfidence. by rewrite Hne. Qed.

Lemma derived_reinforce now id db :
  wellKeyed db ->
  Forall confidenceDerived (correction_memories db) ->
  Forall confidenceDerived (correction_memories (snd (reinforceCorrection now id db))).
Proof.
  intros [Hnd _] Hall. rewrite reinforceCorrection_eq.
  destruct (lookupCorrection id db) as [row|] eqn:Hrow; [| done].
  apply lookupCorrection_Some in Hrow as [Hin Hid]. simpl.
  unfold updateRows. apply Forall_fmap, Forall_forall.
  intros c Hc. simpl. pose proof (proj1 (Forall_forall _ _) Hall c Hc) as Hd.
  case_decide as Hcid; [| done].
  assert (c = row) as -> by (eapply NoDup_key_inj; eauto; congruence).
  destruct Hd as (Hs & Hf & _). unfold confidenceDerived, reinforced; simpl.
  split; [lia |]. split; [done |].
  apply storedConfidence_after; [lia | done |].
  apply andb_false_iff. left. apply Z.eqb_neq. lia.
Qed.

Lemma derived_weaken now id db :
  wellKeyed db ->
  Forall confidenceDerived (correction_memories db) ->
  Forall confidenceDerived (correction_memories (snd (weakenCorrection now id db))).
Proof.
  intros [Hnd _] Hall. rewrite weakenCorrection_eq.
  destruct (lookupCorrection id db) as [row|] eqn:Hrow; [| done].
  apply lookupCorrection_Some in Hrow as [Hin Hid]. simpl.
  unfold updateRows. apply Forall_fmap, Forall_forall.
  intros c Hc. simpl. pose proof (proj1 (Forall_forall _ _) Hall c Hc) as Hd.
  case_decide as Hcid; [| done].
  assert (c = row) as -> by (eapply NoDup_key_inj; eauto; congruence).
  destruct Hd as (Hs & Hf & _). unfold confidenceDerived, weakened; simpl.
  split; [done |]. split; [lia |].
  apply storedConfidence_after; [done | lia |].
  apply andb_false_iff. right. apply Z.eqb_neq. lia.
Qed.

Lemma derived_record now v f p t x db :
  wellKeyed db ->
  Forall confidenceDerived (correction_memories db) ->
  Forall confidenceDerived
    (correction_memories (snd (recordCorrection now v f p t x db))).
Proof.
  intros Hk Hall. rewrite recordCorrection_db.
  case_match.
  - apply derived_reinforce; [by apply wellKeyed_bumpId | done].
  - simpl. apply Forall_app. split; [done |]. apply Forall_singleton.
    unfold confidenceDerived, freshMemory; simpl. by repeat split.
Qed.

Lemma storeInvariant_empty : storeInvariant emptyDatabase.
Proof.
  split; [split |]; simpl; [apply NoDup_nil_2 | | constructor].
  intros c Hc. by apply elem_of_nil in Hc.
Qed.

Lemma storeInvariant_runOp db op : storeInvariant db -> storeInvariant (runOp db op).
Proof.
  intros [Hk Hd]. destruct op; simpl; split;
    auto using wellKeyed_record, wellKeyed_reinforce, wellKeyed_weaken,
      derived_record, derived_reinforce, derived_weaken.
Qed.

Lemma storeInvariant_runOps ops db :
  storeInvariant db -> storeInvariant (runOps ops db).
Proof.
  revert db. induction ops as [|op ops IH]; intros db Hdb; [done |].
  simpl. by apply IH, storeInvariant_runOp.
Qed.

End CorrectionMemoryFacts.

Section CorrectionConfidence.
Import CorrectionMem.

Lemma calculateCorrectionConfidence_spec s f :
  s + f <> 0 ->
  (calculateCorrectionConfidence s f == CorrectionConfidenceSpec.confidence s f)%Q.
Proof.
  intros Hne. unfold calculateCorrectionConfidence.
  rewrite (proj2 (Z.eqb_neq _ _) Hne).
  unfold CorrectionConfidenceSpec.confidence,
    CorrectionConfidenceSpec.adjustedRate,
    CorrectionConfidenceSpec.observationFactor.
  rewrite <- clamp_max_min by lra.
  assert (Hden : (inject_Z s + inject_Z f * 2 == inject_Z (s + 2 * f))%Q).
  { rewrite inject_Z_plus, inject_Z_mult. ring. }
  assert (Hrate : (inject_Z s / (inject_Z s + inject_Z f * 2)
                   == inject_Z s / inject_Z (s + 2 * f))%Q)
    by (apply Qdiv_comp; [reflexivity | exact Hden]).
  assert (Hobs : (Qmin 1.0 (inject_Z (s + f) / 3) == Qmin 1 (inject_Z (s + f) / 3))%Q)
    by (apply Q.min_compat; reflexivity).
  assert (Hx : (0.3 + inject_Z s / (inject_Z s + inject_Z f * 2) * 0.65 *
                      Qmin 1.0 (inject_Z (s + f) / 3)
                == 0.3 + inject_Z s / inject_Z (s + 2 * f) * 0.65 *
                         Qmin 1 (inject_Z (s + f) / 3))%Q)
    by (rewrite Hrate, Hobs; reflexivity).
  revert Hx. generalize (0.3 + inject_Z s / (inject_Z s + inject_Z f * 2) * 0.65 *
                      Qmin 1.0 (inject_Z (s + f) / 3))%Q.
  generalize (0.3 + inject_Z s / inject_Z (s + 2 * f) * 0.65 *
                         Qmin 1 (inject_Z (s + f) / 3))%Q.
  intros x y Hxy. qminmax.
Qed.

Lemma calculateCorrectionConfidence_bounds s f :
  (0.1 <= calculateCorrectionConfidence s f <= 0.95)%Q.
Proof.
  unfold calculateCorrectionConfidence. destruct (s + f =? 0); [lra |].
  generalize (0.3 + inject_Z s / (inject_Z s + inject_Z f * 2) * 0.65 *
                      Qmin 1.0 (inject_Z (s + f) / 3))%Q.
  intros x. split; qminmax.
Qed.

(** C6, as the code has it.  After any run of create / reinforce / weaken
    operations from the empty store, the stored confidence of every
    correction memory is determined by its stored counters: it is the
    literal 0.6 for the counters (1, 0) of a memory just created, and
    [clamp(0.1, 0.95, 0.3 + adjustedRate * 0.65 * observationFactor)] for
    every other pair; in both cases it lies between 0.1 and 0.95. *)
Theorem C6_confidence_from_counters (ops : list MemoryOp) (c : CorrectionMemory) :
  c ∈ correction_memories (runOps ops emptyDatabase) ->
  (cm_confidence c ==
     if (successCount c =? 1) && (failureCount c =? 0) then 0.6
     else CorrectionConfidenceSpec.confidence (successCount c) (failureCount c))%Q
  /\ (0.1 <= cm_confidence c <= 0.95)%Q.
Proof.
  intros Hc.
  destruct (storeInvariant_runOps ops emptyDatabase storeInvariant_empty)
    as [_ Hall].
  destruct (proj1 (Forall_forall _ _) Hall c Hc) as (Hs & Hf & Hconf).
  rewrite Hconf. unfold storedConfidence.
  destruct ((successCount c =? 1) && (failureCount c =? 0)).
  - split; [reflexivity | lra].
  - split; [apply calculateCorrectionConfidence_spec; lia |].
    apply calculateCorrectionConfidence_bounds.
Qed.

Lemma C6_confidence_from_counters_witness :
  let ops := [Create 0 "Supplier GmbH" "currency" "missing_currency"
                set_currency (VStr "EUR");
              Weaken 1 "uuid-0"] in
  let c := {| cm_id := "uuid-0"; cm_vendorName := "Supplier GmbH";
              fieldName := "currency"; pattern := "missing_currency";
              correctionType := set_currency; correctionValue := VStr "EUR";
              cm_confidence := CorrectionMem.calculateCorrectionConfidence 1 1;
              successCount := 1; failureCount := 1;
              cm_createdAt := 0; cm_updatedAt := 1 |} in
  c ∈ correction_memories (runOps ops emptyDatabase) /\
  ((cm_confidence c ==
      if (successCount c =? 1) && (failureCount c =? 0) then 0.6
      else CorrectionConfidenceSpec.confidence (successCount c) (failureCount c))%Q
   /\ (0.1 <= cm_confidence c <= 0.95)%Q).
Proof.
  intros ops c.
  assert (Hc : c ∈ correction_memories (runOps ops emptyDatabase))
    by (vm_compute; left).
  split; [exact Hc | exact (C6_confidence_from_counters ops c Hc)].
Defined.

(** C6, as stated, fails for a memory just created: its stored confidence is
    the literal 0.6, while the formula gives 31/60 for one success and no
    failure. *)
Lemma C6_counterexample_fresh_memory :
  let db := runOps [Create 0 "Supplier GmbH" "currency" "missing_currency"
                      set_currency (VStr "EUR")] emptyDatabase in
  exists c, c ∈ correction_memories db /\
    successCount c = 1 /\ failureCount c = 0 /\
    (cm_confidence c == 0.6)%Q /\
    (CorrectionConfidenceSpec.confidence (successCount c) (failureCount c)
       == 31 # 60)%Q /\
    ~ (cm_confidence c ==
       CorrectionConfidenceSpec.confidence (successCount c) (failureCount c))%Q.
Proof.
  eexists. split; [vm_compute; left |].
  repeat split; try reflexivity.
  intros Heq. vm_compute in Heq. discriminate Heq.
Qed.

End CorrectionConfidence.

(** ** Vendor memory *)

Section VendorMemoryFacts.
Import VendorMem.

(** After the prologue the row read is the row stored. *)
Lemma ensureVendorMemory_stored now v db :
  let '(m, db') := ensureVendorMemory now v db in
  vendor_memories db' !! v = Some m /\
  correction_memories db' = correction_memories db /\
  (forall v', v' <> v -> vendor_memories db' !! v' = vendor_memories db !! v') /\
  (vendor_memories db !! v = None -> m = freshVendor now (uuid (nextId db)) v) /\
  (forall m0, vendor_memories db !! v = Some m0 -> m = m0 /\ db' = db).
Proof.
  unfold ensureVendorMemory, getVendorMemory, createVendorMemory,
    mbind, db_bind, getDb, uuidv4, setVendorMemories. simpl.
  destruct (vendor_memories db !! v) as [m0|] eqn:Hm; simpl.
  - repeat split; auto; try congruence; by intros ? [= <-].
  - repeat split; auto; try congruence.
    + apply lookup_insert_eq.
    + intros v' Hv'. by apply lookup_insert_ne.
Qed.

Lemma updateVendorRow_stored v f db m :
  vendor_memories db !! v = Some m ->
  vendor_memories (snd (updateVendorRow v f db)) !! v = Some (f m).
Proof.
  intros Hm. unfold updateVendorRow, setVendorMemories. simpl.
  rewrite Hm. apply lookup_insert_eq.
Qed.

(** The three updates of a confidence-bearing sub-memory recompute the
    aggregate from what they store. *)
Lemma updateFieldMapping_consistent now v label target ok db vm :
  vendor_memories (snd (updateFieldMapping now v label target ok db)) !! v = Some vm ->
  aggregateConsistent vm.
Proof.
  unfold updateFieldMapping, mbind, db_bind.
  pose proof (ensureVendorMemory_stored now v db) as Hens.
  destruct (ensureVendorMemory now v db) as [m db'].
  destruct Hens as (Hm & _). intros Hvm.
  rewrite (updateVendorRow_stored _ _ _ _ Hm) in Hvm. injection Hvm as <-.
  unfold aggregateConsistent, calculateOverallConfidence. simpl. reflexivity.
Qed.

Lemma updateTaxBehavior_consistent now v incl rate ok db vm :
  vendor_memories (snd (updateTaxBehavior now v incl rate ok db)) !! v = Some vm ->
  aggregateConsistent vm.
Proof.
  unfold updateTaxBehavior, mbind, db_bind.
  pose proof (ensureVendorMemory_stored now v db) as Hens.
  destruct (ensureVendorMemory now v db) as [m db'].
  destruct Hens as (Hm & _). intros Hvm.
  rewrite (updateVendorRow_stored _ _ _ _ Hm) in Hvm. injection Hvm as <-.
  unfold aggregateConsistent, calculateOverallConfidence. simpl. reflexivity.
Qed.

Lemma updateSkuMapping_consistent now v description sku ok db vm :
  vendor_memories (snd (updateSkuMapping now v description sku ok db)) !! v = Some vm ->
  aggregateConsistent vm.
Proof.
  unfold updateSkuMapping, mbind, db_bind.
  pose proof (ensureVendorMemory_stored now v db) as Hens.
  destruct (ensureVendorMemory now v db) as [m db'].
  destruct Hens as (Hm & _). intros Hvm.
  rewrite (updateVendorRow_stored _ _ _ _ Hm) in Hvm. injection Hvm as <-.
  unfold aggregateConsistent, calculateOverallConfidence. simpl. reflexivity.
Qed.

(** [updateDefaultCurrency] stores the currency and the incremented usage
    count, and writes back the aggregate it read. *)
Lemma updateDefaultCurrency_row now v cur db m :
  vendor_memories db !! v = Some m ->
  exists vm,
    vendor_memories (snd (updateDefaultCurrency now v cur db)) !! v = Some vm /\
    defaultCurrency vm = cur /\
    vm_usageCount vm = vm_usageCount m + 1 /\
    vm_confidence vm = vm_confidence m /\
    fieldMappings vm = fieldMappings m /\
    taxBehavior vm = taxBehavior m /\
    skuMappings vm = skuMappings m.
Proof.
  intros Hm0. unfold updateDefaultCurrency, mbind, db_bind.
  pose proof (ensureVendorMemory_stored now v db) as Hens.
  destruct (ensureVendorMemory now v db) as [m' db'].
  destruct Hens as (Hm & _ & _ & _ & Hsame).
  destruct (Hsame m Hm0) as [-> ->].
  eexists. split; [by apply updateVendorRow_stored |]. by simpl.
Qed.

(** C7 at the failing input.  A vendor row whose aggregate agrees with its
    one field mapping (confidence 0.6) and usage count 1 goes through
    [updateDefaultCurrency]: the usage count becomes 2, the stored aggregate
    stays 0.384, and the aggregate of what is now stored would be 0.468. *)
Theorem C7_updateDefaultCurrency_stale_aggregate :
  let db1 := snd (updateFieldMapping 0 "Supplier GmbH" "Leistungsdatum"
                    "serviceDate" true emptyDatabase) in
  let db2 := snd (updateDefaultCurrency 1 "Supplier GmbH" (Some "EUR") db1) in
  (exists vm1, vendor_memories db1 !! "Supplier GmbH" = Some vm1 /\
     vm_usageCount vm1 = 1 /\ (vm_confidence vm1 == 0.384)%Q /\
     aggregateConsistent vm1) /\
  (exists vm2, vendor_memories db2 !! "Supplier GmbH" = Some vm2 /\
     vm_usageCount vm2 = 2 /\ (vm_confidence vm2 == 0.384)%Q /\
     (calculateOverallConfidence vm2 == 0.468)%Q /\
     ~ aggregateConsistent vm2).
Proof.
  split.
  - eexists. split; [vm_compute; reflexivity |].
    split; [reflexivity |]. split; [reflexivity |].
    apply (updateFieldMapping_consistent 0 "Supplier GmbH" "Leistungsdatum"
             "serviceDate" true emptyDatabase).
    vm_compute. reflexivity.
  - eexists. split; [vm_compute; reflexivity |].
    split; [reflexivity |]. split; [reflexivity |]. split; [reflexivity |].
    intros Hc. vm_compute in Hc. discriminate Hc.
Qed.

End VendorMemoryFacts.

(** ** Duplicate detection *)

Section DuplicateFacts.
Import DuplicateDetection.
Context `{JsRuntime}.

Lemma orderByDesc_latest {A} (geb : A -> A -> bool) (l : list A) (e : A) :
  (forall x, x ∈ l -> geb x e = false) ->
  exists rest, orderByDesc geb (l ++ [e]) = e :: rest.
Proof.
  unfold orderByDesc. rewrite foldr_app. simpl.
  induction l as [|x l IH]; intros Hl; simpl; [by eexists |].
  destruct IH as [rest ->]; [intros y Hy; apply Hl; by right |].
  simpl. rewrite Hl by left. by eexists.
Qed.

Lemma recordProcessedInvoice_db now invoice db :
  snd (recordProcessedInvoice now invoice db) =
  {| vendor_memories := vendor_memories db;
     correction_memories := correction_memories db;
     resolution_memories := resolution_memories db;
     processed_invoices :=
       processed_invoices db ++ [ledgerEntry now (uuid (nextId db)) invoice];
     nextId := S (nextId db) |}.
Proof. reflexivity. Qed.

Lemma selectProcessed_latest now recorded db :
  (forall r, r ∈ processed_invoices db ->
     pi_vendorName r = vendor recorded ->
     pi_invoiceNumber r = invoiceNumber (fields recorded) ->
     processedAt r < now) ->
  exists rest,
    selectProcessed (vendor recorded) (invoiceNumber (fields recorded))
      (snd (recordProcessedInvoice now recorded db))
    = ledgerEntry now (uuid (nextId db)) recorded :: rest.
Proof.
  intros Hfresh. rewrite recordProcessedInvoice_db. unfold selectProcessed. simpl.
  rewrite filter_app, filter_cons, filter_nil.
  rewrite decide_True by done.
  apply orderByDesc_latest. intros x Hx.
  apply list_elem_of_filter in Hx as [[Hv Hn] Hx]. simpl.
  apply Z.leb_gt. by apply Hfresh.
Qed.






(** What [checkDuplicate] answers right after a document was recorded. *)
Lemma checkDuplicate_after_record now recorded incoming db :
  vendor incoming = vendor recorded ->
  invoiceNumber (fields incoming) = invoiceNumber (fields recorded) ->
  (forall r, r ∈ processed_invoices db ->
     pi_vendorName r = vendor recorded ->
     pi_invoiceNumber r = invoiceNumber (fields recorded) ->
     processedAt r < now) ->
  let entry := ledgerEntry now (uuid (nextId db)) recorded in
  checkDuplicateIn (snd (recordProcessedInvoice now recorded db)) incoming =
  if withinSevenDays entry incoming && withinTolerance entry incoming
  then Some entry
  else if String.eqb (generateInvoiceHash recorded) (generateInvoiceHash incoming)
       then Some entry else None.
Proof.
  intros Hv Hn Hfresh entry. unfold checkDuplicateIn. rewrite Hv, Hn.
  destruct (selectProcessed_latest now recorded db Hfresh) as [rest ->].
  reflexivity.
Qed.


End DuplicateFacts.



(** At the bound itself the roundings decide.  The double nearest to 333.3
    lies above it, so a total of 333.3 against a recorded 330 is not within
    the tolerance the code computes, although 3.3 is 1% of 330. *)
Example amount_test_at_the_bound :
  let recorded := redated "2024-01-01" 330 Samples.invoice1 in
  let incoming := redated "2024-01-02" 333.3 Samples.invoice1 in
  (Qabs (330 - 333.3) <= 330 * 0.01)%Q /\
  fst (@DuplicateDetection.checkDuplicate sampleRuntime incoming
         (snd (@DuplicateDetection.recordProcessedInvoice sampleRuntime 1000
                 recorded emptyDatabase)))
  = None.
Proof.
  intros recorded incoming. split; [vm_compute; discriminate |].
  vm_compute. reflexivity.
Qed.

(** The days are counted between local midnights.  In Berlin the week from
    24 to 31 October 2024 holds the end of summer time and lasts 7 days and
    one hour, so the two dates are not within 7 days; under UTC they are. *)
Example daylight_saving_week :
  let recorded := redated "24.10.2024" 119 Samples.invoice1 in
  let incoming := redated "31.10.2024" 119.5 Samples.invoice1 in
  fst (@DuplicateDetection.checkDuplicate berlin2024 incoming
         (snd (@DuplicateDetection.recordProcessedInvoice berlin2024 1000
                 recorded emptyDatabase)))
  = None /\
  fst (@DuplicateDetection.checkDuplicate sampleRuntime incoming
         (snd (@DuplicateDetection.recordProcessedInvoice sampleRuntime 1000
                 recorded emptyDatabase)))
  = Some (@ledgerEntry sampleRuntime 1000 "uuid-0" recorded).
Proof.
  intros recorded incoming. split; vm_compute; reflexivity.
Qed.

(** ** Apply *)

Section ApplyFacts.
Import Apply.

Lemma string_length_app (s t : string) :
  String.length (s +:+ t) = (String.length s + String.length t)%nat.
Proof. induction s as [|c s IH]; simpl; [done | by rewrite IH]. Qed.

Lemma string_app_inj_r (t s1 s2 : string) : s1 +:+ t = s2 +:+ t -> s1 = s2.
Proof.
  revert s2. induction s1 as [|c s1 IH]; intros [|c2 s2] Heq; simpl in Heq.
  - done.
  - apply (f_equal String.length) in Heq. simpl in Heq.
    rewrite !string_length_app in Heq. simpl in Heq. lia.
  - apply (f_equal String.length) in Heq. simpl in Heq.
    rewrite !string_length_app in Heq. simpl in Heq. lia.
  - injection Heq as -> Heq. f_equal. by apply IH.
Qed.

Lemma skuField_inj i j : skuField i = skuField j -> i = j.
Proof.
  unfold skuField. intros Heq. apply (inj (String.app _)) in Heq.
  apply string_app_inj_r in Heq. by apply (inj pretty).
Qed.

Lemma skuField_eqb i j : String.eqb (skuField i) (skuField j) = bool_decide (i = j).
Proof.
  case_bool_decide as Hij; [subst; apply String.eqb_refl |].
  apply String.eqb_neq. intros Heq. by apply skuField_inj in Heq.
Qed.

Lemma find_seq_first (p : nat -> bool) (a n j : nat) :
  (a <= j < a + n)%nat -> p j = true ->
  (forall i, (a <= i < j)%nat -> p i = false) ->
  find p (seq a n) = Some j.
Proof.
  revert a. induction n as [|n IH]; intros a Hj Hp Hfirst; [lia |].
  simpl. destruct (decide (a = j)) as [-> | Hne].
  - by rewrite Hp.
  - rewrite Hfirst by lia. apply IH; [lia | done |]. intros i Hi. apply Hfirst. lia.
Qed.

Lemma find_seq_none (p : nat -> bool) (a n : nat) :
  (forall i, p i = false) -> find p (seq a n) = None.
Proof.
  intros Hp. revert a. induction n as [|n IH]; intros a; [done |].
  simpl. by rewrite Hp.
Qed.

Lemma skuIndexOf_skuField count j :
  (j < count)%nat -> skuIndexOf count (skuField j) = Some j.
Proof.
  intros Hj. unfold skuIndexOf. apply find_seq_first; [lia | apply String.eqb_refl |].
  intros i Hi. rewrite skuField_eqb. apply bool_decide_eq_false. lia.
Qed.

Lemma skuIndexOf_other count f :
  ~ isSkuField f -> skuIndexOf count f = None.
Proof.
  intros Hf. apply find_seq_none. intros i. apply String.eqb_neq.
  intros ->. apply Hf. by exists i.
Qed.

(** A SKU field name is none of the six top-level names. *)
Lemma skuField_head i : exists rest, skuField i = String "l" rest.
Proof. by eexists. Qed.

Lemma readField_sku n i :
  readField n (skuField i) =
  match n_lineItems n !! i with
  | Some item => VStr (nli_sku item)
  | None => VNull
  end.
Proof.
  unfold readField. destruct (skuField_head i) as [rest Hr]. rewrite Hr. simpl.
  rewrite <- Hr. destruct (n_lineItems n !! i) as [item|] eqn:Hi.
  - rewrite skuIndexOf_skuField by (by eapply lookup_lt_Some). by rewrite Hi.
  - unfold skuIndexOf. destruct (find _ _) as [k|] eqn:Hk; [| done].
    apply find_some in Hk as [_ Hk]. apply String.eqb_eq, skuField_inj in Hk.
    subst k. by rewrite Hi.
Qed.

Lemma readField_not_sku n n' f :
  ~ isSkuField f ->
  n_serviceDate n' = n_serviceDate n -> n_grossTotal n' = n_grossTotal n ->
  n_taxTotal n' = n_taxTotal n -> n_currency n' = n_currency n ->
  n_discountTerms n' = n_discountTerms n -> n_poNumber n' = n_poNumber n ->
  readField n' f = readField n f.
Proof.
  intros Hf H1 H2 H3 H4 H5 H6. unfold readField.
  rewrite H1, H2, H3, H4, H5, H6, !skuIndexOf_other by done. reflexivity.
Qed.

End ApplyFacts.

Section ApplySteps.
Import Apply.
Context `{Extractors}.

Lemma correctionOk_ext initial n n' c :
  readField n' (pc_field c) = readField n (pc_field c) ->
  correctionOk initial n c -> correctionOk initial n' c.
Proof.
  unfold correctionOk, writtenInto, leftUnchanged. intros ->. tauto.
Qed.

Lemma applyInvariant_initial n0 : applyInvariant n0 (fun _ => False) (fun _ => False) (n0, []).
Proof. split; [intros c Hc; by apply elem_of_nil in Hc | done]. Qed.

(** One step: it touches the fields [T], none of which carries a correction
    yet, and appends corrections on fields of [T] that are in order. *)
Lemma applyInvariant_step n0 (C M T : Fields) (st st' : State) :
  applyInvariant n0 C M st ->
  (forall f, C f -> ~ T f) ->
  (forall f, ~ T f -> readField (fst st') f = readField (fst st) f) ->
  (exists new, snd st' = snd st ++ new /\
     forall c, c ∈ new -> T (pc_field c) /\ correctionOk n0 (fst st') c) ->
  applyInvariant n0 (fun f => C f \/ T f) (fun f => M f \/ T f) st'.
Proof.
  intros [Hcs Hfr] Hdisj Hframe (new & Hnew & Hok). split.
  - intros c Hc. rewrite Hnew in Hc. apply elem_of_app in Hc as [Hc | Hc].
    + destruct (Hcs c Hc) as [HC Hc_ok]. split; [by left |].
      eapply correctionOk_ext; [| exact Hc_ok]. apply Hframe. by apply Hdisj.
    + destruct (Hok c Hc). split; [by right | done].
  - intros f Hf. rewrite Hframe by tauto. apply Hfr. tauto.
Qed.

Ltac other_field :=
  unfold readField; simpl;
  repeat match goal with
  | Hne : ?f <> ?s |- context [String.eqb ?f ?s] =>
      rewrite (proj2 (String.eqb_neq f s) Hne)
  end; reflexivity.

Lemma readField_setServiceDate v n f :
  f <> "serviceDate" -> readField (setServiceDate v n) f = readField n f.
Proof. intros Hne. other_field. Qed.

Lemma readField_setTotals g t n f :
  f <> "grossTotal" -> f <> "taxTotal" -> readField (setTotals g t n) f = readField n f.
Proof. intros Hne1 Hne2. other_field. Qed.

Lemma readField_setCurrency v n f :
  f <> "currency" -> readField (setCurrency v n) f = readField n f.
Proof. intros Hne. other_field. Qed.

Lemma readField_setDiscountTerms v n f :
  f <> "discountTerms" -> readField (setDiscountTerms v n) f = readField n f.
Proof.
  intros Hne. unfold readField; simpl.
  rewrite (proj2 (String.eqb_neq _ _) Hne). reflexivity.
Qed.

Lemma readField_setPoNumber v n f :
  f <> "poNumber" -> readField (setPoNumber v n) f = readField n f.
Proof.
  intros Hne. unfold readField; simpl.
  rewrite (proj2 (String.eqb_neq _ _) Hne). reflexivity.
Qed.

Lemma readField_setLineItems items n f :
  ~ isSkuField f -> readField (setLineItems items n) f = readField n f.
Proof. intros Hf. by apply readField_not_sku. Qed.

(** A correction on a top-level field, either written because it is
    auto-applied or left pending with the field as it was. *)
Lemma gated_correction_ok n0 n n' c :
  autoApplied c = Qleb AUTO_APPLY_THRESHOLD (pc_confidence c) ->
  rawTextRecovery c = false ->
  (autoApplied c = true -> readField n' (pc_field c) = pc_proposedValue c) ->
  (autoApplied c = false -> readField n' (pc_field c) = readField n (pc_field c)) ->
  readField n (pc_field c) = readField n0 (pc_field c) ->
  correctionOk n0 n' c.
Proof.
  intros Hauto Hraw Hw Hu Hn. unfold correctionOk, writtenInto, leftUnchanged.
  split; [done |]. split; [done |]. split; [| by rewrite Hraw].
  intros Hf _. rewrite Hu by done. exact Hn.
Qed.

Ltac no_new_corrections :=
  exists []; split; [by rewrite app_nil_r | by intros ? ?%elem_of_nil].

Ltac one_new_correction n0 n :=
  eexists; split; [reflexivity |];
  intros c ->%list_elem_of_singleton; split; [simpl; auto |];
  apply (gated_correction_ok n0 n); simpl; try done; try (intros; congruence).

(** 1. *)
Lemma applyFieldMappings_invariant n0 (C M : Fields) invoice vm st :
  applyInvariant n0 C M st ->
  ~ C "serviceDate" -> ~ M "serviceDate" ->
  applyInvariant n0 (fun f => C f \/ f = "serviceDate")
    (fun f => M f \/ f = "serviceDate") (applyFieldMappings invoice vm st).
Proof.
  intros Hinv HC HM.
  apply (applyInvariant_step n0 C M (fun f => f = "serviceDate") st); [done | ..].
  - intros f Hf ->. done.
  - intros f Hf. destruct st as [n cs]. unfold applyFieldMappings.
    cbn [autoApplied]. repeat case_match; try reflexivity.
    simpl. by apply readField_setServiceDate.
  - destruct st as [n cs]. unfold applyFieldMappings.
    destruct Hinv as [_ Hfr]. specialize (Hfr "serviceDate" HM). simpl in Hfr.
    cbn [autoApplied]. repeat case_match; try no_new_corrections.
    all: one_new_correction n0 n.
Qed.

(** 2. *)
Lemma applyTaxBehavior_invariant n0 (C M : Fields) invoice vm st :
  applyInvariant n0 C M st ->
  ~ C "grossTotal" -> ~ M "grossTotal" -> ~ C "taxTotal" -> ~ M "taxTotal" ->
  applyInvariant n0 (fun f => C f \/ (f = "grossTotal" \/ f = "taxTotal"))
    (fun f => M f \/ (f = "grossTotal" \/ f = "taxTotal"))
    (applyTaxBehavior invoice vm st).
Proof.
  intros Hinv HCg HMg HCt HMt.
  apply (applyInvariant_step n0 C M
           (fun f => f = "grossTotal" \/ f = "taxTotal") st); [done | ..].
  - intros f Hf [-> | ->]; done.
  - intros f Hf. destruct st as [n cs]. unfold applyTaxBehavior.
    cbn [autoApplied]. repeat case_match; try reflexivity.
    simpl. apply readField_setTotals; intros ->; apply Hf; auto.
  - destruct st as [n cs]. unfold applyTaxBehavior.
    destruct Hinv as [_ Hfr].
    pose proof (Hfr "grossTotal" HMg) as Hg. pose proof (Hfr "taxTotal" HMt) as Ht.
    simpl in Hg, Ht.
    cbn [autoApplied]. repeat case_match; try no_new_corrections.
    all: eexists; split; [reflexivity |];
      intros c [-> | ->%list_elem_of_singleton]%elem_of_cons;
      (split; [simpl; auto |]);
      apply (gated_correction_ok n0 n); simpl; try done; try (intros; congruence).
Qed.

(** 3. *)
Lemma applyCurrency_invariant n0 (C M : Fields) invoice vm st :
  applyInvariant n0 C M st ->
  ~ C "currency" -> ~ M "currency" ->
  applyInvariant n0 (fun f => C f \/ f = "currency")
    (fun f => M f \/ f = "currency") (applyCurrency invoice vm st).
Proof.
  intros Hinv HC HM.
  apply (applyInvariant_step n0 C M (fun f => f = "currency") st); [done | ..].
  - intros f Hf ->. done.
  - intros f Hf. destruct st as [n cs]. unfold applyCurrency.
    repeat case_match; try reflexivity.
    simpl. by apply readField_setCurrency.
  - destruct st as [n cs]. unfold applyCurrency.
    destruct Hinv as [_ Hfr]. specialize (Hfr "currency" HM). simpl in Hfr.
    repeat case_match; try no_new_corrections.
    + one_new_correction n0 n.
    + eexists; split; [reflexivity |].
      intros c ->%list_elem_of_singleton. split; [done |].
      unfold correctionOk, writtenInto, leftUnchanged. simpl.
      repeat split; done.
Qed.

(** 4. *)
Lemma applySkuMappings_spec vm i items items' cs :
  applySkuMappings vm i items = (items', cs) ->
  length items' = length items /\
  forall c, c ∈ cs ->
    exists k item m,
      items !! k = Some item /\
      pc_field c = skuField (i + k) /\
      autoApplied c = Qleb AUTO_APPLY_THRESHOLD (pc_confidence c) /\
      pc_proposedValue c = VStr (sm_sku m) /\
      items' !! k = Some (if autoApplied c then setSku (sm_sku m) item else item).
Proof.
  revert i items' cs. induction items as [|item rest IH]; intros i items' cs Heq.
  - injection Heq as <- <-. split; [done |]. by intros c ?%elem_of_nil.
  - simpl in Heq. destruct (applySkuMappings vm (S i) rest) as [rest' cs'] eqn:Hrest.
    destruct (IH _ _ _ Hrest) as [Hlen Hcs].
    assert (Hlater : forall c, c ∈ cs' ->
              exists k item0 m,
                (item :: rest) !! k = Some item0 /\
                pc_field c = skuField (i + k) /\
                autoApplied c = Qleb AUTO_APPLY_THRESHOLD (pc_confidence c) /\
                pc_proposedValue c = VStr (sm_sku m) /\
                forall head, (head :: rest') !! k
                  = Some (if autoApplied c then setSku (sm_sku m) item0 else item0)).
    { intros c Hc. destruct (Hcs c Hc) as (k & item0 & m & Hk & Hf & Ha & Hp & Hk').
      exists (S k), item0, m. repeat split; try done.
      by rewrite Hf, Nat.add_succ_comm. }
    cbn [autoApplied] in Heq.
    destruct (negb (truthy (nli_sku item)) || String.eqb (nli_sku item) "UNKNOWN");
      [destruct (find _ (skuMappings vm)) as [m|] |];
      injection Heq as <- <-; (split; [simpl; by rewrite Hlen |]); intros c Hc.
    + apply elem_of_cons in Hc as [-> | Hc].
      * exists 0%nat, item, m. rewrite Nat.add_0_r. simpl. done.
      * destruct (Hlater c Hc) as (k & item0 & m0 & ? & ? & ? & ? & ?).
        by exists k, item0, m0.
    + destruct (Hlater c Hc) as (k & item0 & m0 & ? & ? & ? & ? & ?).
      by exists k, item0, m0.
    + destruct (Hlater c Hc) as (k & item0 & m0 & ? & ? & ? & ? & ?).
      by exists k, item0, m0.
Qed.

Lemma isSkuField_rawTextRecovery c : isSkuField (pc_field c) -> rawTextRecovery c = false.
Proof.
  intros [i Hi]. unfold rawTextRecovery. rewrite Hi.
  destruct (skuField_head i) as [rest ->]. reflexivity.
Qed.

Lemma applySkus_invariant n0 (C M : Fields) vm st :
  applyInvariant n0 C M st ->
  (forall f, isSkuField f -> ~ C f /\ ~ M f) ->
  applyInvariant n0 (fun f => C f \/ isSkuField f)
    (fun f => M f \/ isSkuField f) (applySkus vm st).
Proof.
  intros Hinv Hsku.
  apply (applyInvariant_step n0 C M isSkuField st); [done | ..].
  - intros f Hf Hs. by destruct (Hsku f Hs).
  - intros f Hf. destruct st as [n cs]. unfold applySkus.
    destruct (applySkuMappings vm 0 (n_lineItems n)) as [items' cs'].
    simpl. by apply readField_setLineItems.
  - destruct st as [n cs]. unfold applySkus.
    destruct (applySkuMappings vm 0 (n_lineItems n)) as [items' cs'] eqn:Hs.
    apply applySkuMappings_spec in Hs as [Hlen Hcs].
    exists cs'. split; [done |]. intros c Hc.
    destruct (Hcs c Hc) as (k & item & m & Hk & Hf & Ha & Hp & Hk').
    simpl in Hf. split; [by exists k |].
    destruct Hinv as [_ Hfr].
    assert (Hn0 : readField n (pc_field c) = readField n0 (pc_field c)).
    { apply Hfr. apply Hsku. by exists k. }
    apply (gated_correction_ok n0 n); simpl; try done.
    + apply isSkuField_rawTextRecovery. by exists k.
    + intros Hauto. rewrite Hf, readField_sku. simpl. rewrite Hk', Hauto, Hp. done.
    + intros Hauto. rewrite Hf, !readField_sku. simpl. by rewrite Hk', Hauto, Hk.
Qed.

(** A step that writes fields of [T] and proposes nothing. *)
Lemma applyInvariant_touch n0 (C M T : Fields) (st st' : State) :
  applyInvariant n0 C M st ->
  (forall f, C f -> ~ T f) ->
  (forall f, ~ T f -> readField (fst st') f = readField (fst st) f) ->
  snd st' = snd st ->
  applyInvariant n0 C (fun f => M f \/ T f) st'.
Proof.
  intros [Hcs Hfr] Hdisj Hframe Hsame. split.
  - intros c Hc. rewrite Hsame in Hc. destruct (Hcs c Hc) as [HC Hok].
    split; [done |]. eapply correctionOk_ext; [| exact Hok].
    apply Hframe. by apply Hdisj.
  - intros f Hf. rewrite Hframe by tauto. apply Hfr. tauto.
Qed.

(** 5. *)
Lemma applyPaymentTerms_invariant n0 (C M : Fields) vm st :
  applyInvariant n0 C M st ->
  ~ C "discountTerms" ->
  applyInvariant n0 C (fun f => M f \/ f = "discountTerms") (applyPaymentTerms vm st).
Proof.
  intros Hinv HC.
  apply (applyInvariant_touch n0 C M (fun f => f = "discountTerms") st); [done | ..].
  - intros f Hf ->. done.
  - intros f Hf. destruct st as [n cs]. unfold applyPaymentTerms.
    repeat case_match; try reflexivity. simpl. by apply readField_setDiscountTerms.
  - destruct st as [n cs]. unfold applyPaymentTerms. by repeat case_match.
Qed.

(** 6. *)
Lemma applyExtractedTerms_invariant n0 (C M : Fields) invoice st :
  applyInvariant n0 C M st ->
  ~ C "discountTerms" ->
  applyInvariant n0 (fun f => C f \/ f = "discountTerms")
    (fun f => M f \/ f = "discountTerms") (applyExtractedTerms invoice st).
Proof.
  intros Hinv HC.
  apply (applyInvariant_step n0 C M (fun f => f = "discountTerms") st); [done | ..].
  - intros f Hf ->. done.
  - intros f Hf. destruct st as [n cs]. unfold applyExtractedTerms.
    repeat case_match; try reflexivity. simpl. by apply readField_setDiscountTerms.
  - destruct st as [n cs]. unfold applyExtractedTerms.
    repeat case_match; try no_new_corrections.
    eexists; split; [reflexivity |].
    intros c ->%list_elem_of_singleton. split; [done |].
    unfold correctionOk, writtenInto, leftUnchanged. simpl.
    repeat split; done.
Qed.

(** 7. *)
Lemma applyPoMatch_invariant n0 (C M : Fields) invoice pos st :
  applyInvariant n0 C M st ->
  ~ C "poNumber" -> ~ M "poNumber" ->
  applyInvariant n0 (fun f => C f \/ f = "poNumber")
    (fun f => M f \/ f = "poNumber") (applyPoMatch invoice pos st).
Proof.
  intros Hinv HC HM.
  apply (applyInvariant_step n0 C M (fun f => f = "poNumber") st); [done | ..].
  - intros f Hf ->. done.
  - intros f Hf. destruct st as [n cs]. unfold applyPoMatch.
    cbn [autoApplied]. repeat case_match; try reflexivity.
    simpl. by apply readField_setPoNumber.
  - destruct st as [n cs]. unfold applyPoMatch.
    destruct Hinv as [_ Hfr]. specialize (Hfr "poNumber" HM). simpl in Hfr.
    cbn [autoApplied]. repeat case_match; try no_new_corrections.
    all: one_new_correction n0 n.
Qed.

Ltac not_that_field :=
  let Hx := fresh in
  intros Hx;
  repeat match type of Hx with
         | _ \/ _ => destruct Hx as [Hx | Hx]
         end;
  try done;
  match type of Hx with
  | isSkuField _ =>
      let i := fresh in let r := fresh in
      destruct Hx as [i Hx]; destruct (skuField_head i) as [r ?]; congruence
  end.

Lemma applyMemories_corrections_ok invoice memories pos c :
  c ∈ proposedCorrections (applyMemories invoice memories pos) ->
  correctionOk (initialNormalized invoice)
    (normalizedInvoice (applyMemories invoice memories pos)) c.
Proof.
  unfold applyMemories. cbn [proposedCorrections normalizedInvoice].
  set (n0 := initialNormalized invoice).
  pose proof (applyInvariant_initial n0) as H0.
  assert (Hmem : exists C M : Fields,
            applyInvariant n0 C M
              match vendorMemory memories with
              | Some vm =>
                  applyPaymentTerms vm
                    (applySkus vm
                       (applyCurrency invoice vm
                          (applyTaxBehavior invoice vm
                             (applyFieldMappings invoice vm (n0, [])))))
              | None => (n0, [])
              end /\
            ~ C "discountTerms" /\ ~ C "poNumber" /\ ~ M "poNumber").
  { destruct (vendorMemory memories) as [vm|];
      [| exists (fun _ => False), (fun _ => False); split; [exact H0 | tauto]].
    pose proof (applyFieldMappings_invariant n0 _ _ invoice vm _ H0
                  ltac:(tauto) ltac:(tauto)) as H1.
    pose proof (applyTaxBehavior_invariant n0 _ _ invoice vm _ H1
                  ltac:(not_that_field) ltac:(not_that_field)
                  ltac:(not_that_field) ltac:(not_that_field)) as H2.
    pose proof (applyCurrency_invariant n0 _ _ invoice vm _ H2
                  ltac:(not_that_field) ltac:(not_that_field)) as H3.
    assert (Hsku : forall f, isSkuField f ->
              ~ (((False \/ f = "serviceDate") \/ f = "grossTotal" \/ f = "taxTotal")
                 \/ f = "currency") /\
              ~ (((False \/ f = "serviceDate") \/ f = "grossTotal" \/ f = "taxTotal")
                 \/ f = "currency")).
    { intros f [i ->]. destruct (skuField_head i) as [r Hr].
      split; intros Hx; repeat destruct Hx as [Hx | Hx]; try done; congruence. }
    pose proof (applySkus_invariant n0 _ _ vm _ H3 Hsku) as H4.
    pose proof (applyPaymentTerms_invariant n0 _ _ vm _ H4
                  ltac:(not_that_field)) as H5.
    eexists _, _. split; [exact H5 |].
    split; [| split]; not_that_field. }
  destruct Hmem as (C & M & Hinv & HCd & HCp & HMp).
  apply (applyExtractedTerms_invariant n0 C M invoice) in Hinv; [| done].
  apply (applyPoMatch_invariant n0 _ _ invoice pos) in Hinv;
    [| intros [? | ?]; done | intros [? | ?]; done].
  intros Hc. by destruct (proj1 Hinv c Hc).
Qed.

End ApplySteps.

Section ApplyClaims.
Import Apply.
Context `{Extractors}.

(** C3, as the code has it.  For every correction Apply proposes: its
    auto-applied flag is set exactly when its confidence is at least 0.85; an
    auto-applied correction has its proposed value in the normalized
    document; a correction that is not auto-applied leaves its field as it
    was in the initial copy, unless it is one of the two raw-text recoveries
    (currency at confidence 0.7, discount terms at 0.8), which are written
    into the normalized document although they are below 0.85 and not
    flagged auto-applied. *)
Theorem C3_auto_apply_threshold (invoice : Invoice) (memories : RecalledMemories)
    (purchaseOrders : option (list PurchaseOrder)) (c : ProposedCorrection) :
  c ∈ proposedCorrections (applyMemories invoice memories purchaseOrders) ->
  let initial := initialNormalized invoice in
  let final := normalizedInvoice (applyMemories invoice memories purchaseOrders) in
  (autoApplied c = true <-> (0.85 <= pc_confidence c)%Q) /\
  (autoApplied c = true -> writtenInto final c) /\
  (autoApplied c = false -> rawTextRecovery c = false ->
   leftUnchanged initial final c) /\
  (rawTextRecovery c = true ->
   autoApplied c = false /\ (pc_confidence c < 0.85)%Q /\ writtenInto final c).
Proof.
  intros Hc initial final.
  destruct (applyMemories_corrections_ok invoice memories purchaseOrders c Hc)
    as (Hauto & Hwritten & Hleft & Hraw).
  assert (Hiff : autoApplied c = true <-> (0.85 <= pc_confidence c)%Q)
    by (rewrite Hauto; apply Qleb_le).
  split; [exact Hiff |]. split; [exact Hwritten |]. split; [exact Hleft |].
  intros Hr. destruct (Hraw Hr) as [Hf Hw]. split; [exact Hf |]. split; [| exact Hw].
  apply Qnot_le_lt. intros Hle. apply Hiff in Hle. congruence.
Qed.

Lemma orUndefined_truthy o s : orUndefined o = Some s -> truthy s = true.
Proof.
  unfold orUndefined. destruct o as [x|]; [| done].
  destruct (truthy x) eqn:Hx; [| done]. by intros [= <-].
Qed.

Lemma truthy_nonempty s : truthy s = true <-> s <> "".
Proof.
  unfold truthy. rewrite negb_true_iff. apply String.eqb_neq.
Qed.

Lemma initialNormalized_currency invoice :
  truthy (n_currency (initialNormalized invoice)) = true.
Proof.
  unfold initialNormalized, orElse. simpl.
  destruct (orUndefined (currency (fields invoice))) as [s|] eqn:Hs; [| done].
  by eapply orUndefined_truthy.
Qed.

Lemma applyFieldMappings_keepsCurrency invoice vm :
  keepsCurrency (applyFieldMappings invoice vm).
Proof.
  intros [n cs] Hn. unfold applyFieldMappings. cbn [autoApplied].
  by repeat case_match.
Qed.

Lemma applyTaxBehavior_keepsCurrency invoice vm :
  keepsCurrency (applyTaxBehavior invoice vm).
Proof.
  intros [n cs] Hn. unfold applyTaxBehavior. cbn [autoApplied].
  by repeat case_match.
Qed.

Lemma applyCurrency_keepsCurrency invoice vm :
  keepsCurrency (applyCurrency invoice vm).
Proof.
  intros [n cs] Hn. unfold applyCurrency.
  repeat case_match; try done. simpl. by eapply orUndefined_truthy.
Qed.

Lemma applySkus_keepsCurrency vm : keepsCurrency (applySkus vm).
Proof.
  intros [n cs] Hn. unfold applySkus.
  by destruct (applySkuMappings vm 0 (n_lineItems n)).
Qed.

Lemma applyPaymentTerms_keepsCurrency vm : keepsCurrency (applyPaymentTerms vm).
Proof. intros [n cs] Hn. unfold applyPaymentTerms. by repeat case_match. Qed.

Lemma applyExtractedTerms_keepsCurrency invoice :
  keepsCurrency (applyExtractedTerms invoice).
Proof. intros [n cs] Hn. unfold applyExtractedTerms. by repeat case_match. Qed.

Lemma applyPoMatch_keepsCurrency invoice pos : keepsCurrency (applyPoMatch invoice pos).
Proof.
  intros [n cs] Hn. unfold applyPoMatch. cbn [autoApplied].
  by repeat case_match.
Qed.

Lemma applyMemories_currency invoice memories pos :
  truthy (n_currency (normalizedInvoice (applyMemories invoice memories pos))) = true.
Proof.
  unfold applyMemories. cbn [normalizedInvoice].
  apply applyPoMatch_keepsCurrency, applyExtractedTerms_keepsCurrency.
  destruct (vendorMemory memories) as [vm|]; [| apply initialNormalized_currency].
  apply applyPaymentTerms_keepsCurrency, applySkus_keepsCurrency,
    applyCurrency_keepsCurrency, applyTaxBehavior_keepsCurrency,
    applyFieldMappings_keepsCurrency, initialNormalized_currency.
Qed.

Lemma escalate_silentOnCurrency acc rs d :
  silentOnCurrency acc ->
  (forall r, r ∈ rs -> exists ch rest, r = String ch rest /\ ch <> "M"%char) ->
  silentOnCurrency (Decide.escalate acc rs d).
Proof.
  unfold silentOnCurrency. intros Hacc Hrs. simpl.
  intros [Hin | Hin]%elem_of_app; [done |].
  destruct (Hrs _ Hin) as (ch & rest & Heq & Hch). by simplify_eq.
Qed.

Ltac other_reason :=
  let Hr := fresh "Hr" in
  intros ? Hr;
  lazymatch type of Hr with
  | _ ∈ [_] => apply list_elem_of_singleton in Hr
  | _ ∈ map _ _ => apply list_elem_of_fmap in Hr as (? & Hr & _)
  | _ ∈ _ <$> _ => apply list_elem_of_fmap in Hr as (? & Hr & _)
  end;
  rewrite Hr; simpl; eexists _, _; split; [reflexivity | discriminate].

Lemma decide_reasons_silentOnCurrency n cs memories score :
  Decide.checkMissingFields n cs = [] ->
  silentOnCurrency
    (Decide.decideOnScore score
       (Decide.checkMissing n cs
          (Decide.checkConflicts memories
             (Decide.checkPending cs
                (Decide.checkLowConfidence cs
                   (Decide.checkNewVendor memories
                      (Decide.checkDuplicates memories (false, [], [])))))))).
Proof.
  intros Hmissing.
  assert (H0 : silentOnCurrency (false, [], [])) by (by intros ?%elem_of_nil).
  assert (H1 : silentOnCurrency (Decide.checkDuplicates memories (false, [], []))).
  { unfold Decide.checkDuplicates. case_match; [| done].
    apply escalate_silentOnCurrency; [done | other_reason]. }
  revert H1. generalize (Decide.checkDuplicates memories (false, [], [])).
  intros acc1 H1.
  assert (H2 : silentOnCurrency (Decide.checkNewVendor memories acc1)).
  { unfold Decide.checkNewVendor. case_match; [| done].
    apply escalate_silentOnCurrency; [done | other_reason]. }
  revert H2. generalize (Decide.checkNewVendor memories acc1). intros acc2 H2.
  assert (H3 : silentOnCurrency (Decide.checkLowConfidence cs acc2)).
  { unfold Decide.checkLowConfidence. cbv zeta. case_match; [| done].
    apply escalate_silentOnCurrency; [done | other_reason]. }
  revert H3. generalize (Decide.checkLowConfidence cs acc2). intros acc3 H3.
  assert (H4 : silentOnCurrency (Decide.checkPending cs acc3)).
  { unfold Decide.checkPending. cbv zeta. case_match; [| done].
    apply escalate_silentOnCurrency; [done | other_reason]. }
  revert H4. generalize (Decide.checkPending cs acc3). intros acc4 H4.
  assert (H5 : silentOnCurrency (Decide.checkConflicts memories acc4)).
  { unfold Decide.checkConflicts. case_match; [| done].
    apply escalate_silentOnCurrency; [done | other_reason]. }
  revert H5. generalize (Decide.checkConflicts memories acc4). intros acc5 H5.
  assert (H6 : silentOnCurrency (Decide.checkMissing n cs acc5)).
  { unfold Decide.checkMissing. cbv zeta. by rewrite Hmissing. }
  revert H6. generalize (Decide.checkMissing n cs acc5). intros acc6 H6.
  unfold Decide.decideOnScore. repeat case_match; try done.
  unfold silentOnCurrency. simpl. intros [Hin | Hin]%elem_of_app; [done |].
  apply list_elem_of_singleton in Hin. discriminate Hin.
Qed.

(** C10.  The normalized invoice Apply returns has a non-empty currency: an
    absent currency is initialised to "EUR" in the copy Apply starts from,
    and the only later assignment stores a non-empty extracted value.  Hence
    the missing-currency check of Decide finds nothing to report on it. *)
Theorem C10_currency_never_missing (invoice : Invoice) (memories : RecalledMemories)
    (purchaseOrders : option (list PurchaseOrder)) :
  let final := normalizedInvoice (applyMemories invoice memories purchaseOrders) in
  n_currency final <> "" /\
  (orUndefined (currency (fields invoice)) = None ->
   n_currency (initialNormalized invoice) = "EUR") /\
  (forall corrections, Decide.checkMissingFields final corrections = []) /\
  (forall corrections recalled baseConfidence,
     "Missing critical field: currency" ∉
       Decide.escalationReasons
         (Decide.makeDecision final corrections recalled baseConfidence)).
Proof.
  intros final.
  pose proof (applyMemories_currency invoice memories purchaseOrders) as Hcur.
  fold final in Hcur.
  assert (Hmissing : forall corrections,
            Decide.checkMissingFields final corrections = []).
  { intros corrections. unfold Decide.checkMissingFields. by rewrite Hcur. }
  split; [by apply truthy_nonempty |]. split; [| split; [exact Hmissing |]].
  - intros Habsent. unfold initialNormalized, orElse. simpl. by rewrite Habsent.
  - intros corrections recalled baseConfidence. unfold Decide.makeDecision.
    cbn [Decide.escalationReasons].
    by apply decide_reasons_silentOnCurrency.
Qed.

End ApplyClaims.

Lemma C3_auto_apply_threshold_witness :
  let result :=
    @Apply.applyMemories silentExtractors Samples.invoice1 Samples.memories1 None in
  let c := Samples.currencyFromRawText in
  c ∈ Apply.proposedCorrections result /\
  rawTextRecovery c = true /\
  (autoApplied c = false /\ (pc_confidence c < 0.85)%Q /\
   writtenInto (Apply.normalizedInvoice result) c).
Proof.
  intros result c.
  assert (Hc : c ∈ Apply.proposedCorrections result) by (vm_compute; left).
  split; [exact Hc |]. split; [reflexivity |].
  exact (proj2 (proj2 (proj2
           (@C3_auto_apply_threshold silentExtractors Samples.invoice1
              Samples.memories1 None c Hc))) eq_refl).
Defined.

(** C3, as stated, fails for the currency recovered from the raw text: the
    correction has confidence 0.7 and is not flagged auto-applied, yet its
    value replaces the "EUR" of the initial copy in the normalized
    document. *)
Lemma C3_counterexample_raw_text_currency :
  let result :=
    @Apply.applyMemories silentExtractors Samples.invoice1 Samples.memories1 None in
  let c := Samples.currencyFromRawText in
  Apply.proposedCorrections result = [c] /\
  (pc_confidence c < 0.85)%Q /\
  autoApplied c = false /\
  readField (Apply.initialNormalized Samples.invoice1) (pc_field c) = VStr "EUR" /\
  readField (Apply.normalizedInvoice result) (pc_field c) = VStr "USD" /\
  writtenInto (Apply.normalizedInvoice result) c /\
  ~ leftUnchanged (Apply.initialNormalized Samples.invoice1)
      (Apply.normalizedInvoice result) c.
Proof.
  intros result c.
  split; [vm_compute; reflexivity |]. split; [reflexivity |].
  split; [reflexivity |]. split; [vm_compute; reflexivity |].
  split; [vm_compute; reflexivity |]. split; [vm_compute; reflexivity |].
  unfold leftUnchanged. vm_compute. discriminate.
Qed.

Lemma C10_currency_never_missing_witness :
  let final :=
    Apply.normalizedInvoice
      (@Apply.applyMemories silentExtractors Samples.invoice1 Samples.memories1 None) in
  orUndefined (currency (fields Samples.invoice1)) = None /\
  n_currency (Apply.initialNormalized Samples.invoice1) = "EUR" /\
  n_currency final = "USD" /\
  Decide.checkMissingFields final [] = [].
Proof.
  intros final.
  pose proof (@C10_currency_never_missing silentExtractors Samples.invoice1
                Samples.memories1 None) as (_ & Hinit & Hmissing & _).
  split; [reflexivity |]. split; [exact (Hinit eq_refl) |].
  split; [vm_compute; reflexivity | exact (Hmissing [])].
Defined.

(** ** Learn *)

Section LearnFacts.
Import CorrectionMem VendorMem Learn.
Context `{JsRuntime}.

Lemma bind_ret {A B} (a : A) (k : A -> Db B) : (x ← ret a; k x) = k a.
Proof. reflexivity. Qed.

Lemma insertDesc_elem_of {A} (geb : A -> A -> bool) (c : A) (t : list A) (y : A) :
  y ∈ insertDesc geb c t <-> y = c \/ y ∈ t.
Proof.
  induction t as [|z t IH]; simpl.
  - rewrite list_elem_of_singleton, elem_of_nil. tauto.
  - destruct (geb c z); rewrite !elem_of_cons; [tauto |]. rewrite IH. tauto.
Qed.

Lemma orderByDesc_elem_of {A} (geb : A -> A -> bool) (l : list A) (x : A) :
  x ∈ orderByDesc geb l <-> x ∈ l.
Proof.
  unfold orderByDesc. induction l as [|z l IH]; simpl; [done |].
  rewrite insertDesc_elem_of, elem_of_cons, IH. tauto.
Qed.

Lemma getCorrectionMemoriesOf_elem_of v db m :
  m ∈ getCorrectionMemoriesOf v db <->
  m ∈ correction_memories db /\ cm_vendorName m = v.
Proof.
  unfold getCorrectionMemoriesOf.
  rewrite orderByDesc_elem_of, list_elem_of_filter. tauto.
Qed.

Lemma findMatchingCorrection_eq v f pat db :
  findMatchingCorrection v f pat db =
  (head (filter (fun c => matchesCorrection f pat c = true)
           (getCorrectionMemoriesOf v db)), db).
Proof. reflexivity. Qed.

Lemma matchesCorrection_field f pat c :
  matchesCorrection f pat c = true -> fieldName c = f.
Proof.
  unfold matchesCorrection. destruct (String.eqb_spec (fieldName c) f); done.
Qed.

Lemma findMatchingCorrection_Some v f pat db m :
  fst (findMatchingCorrection v f pat db) = Some m ->
  m ∈ correction_memories db /\ cm_vendorName m = v /\ fieldName m = f.
Proof.
  rewrite findMatchingCorrection_eq. simpl. intros Hm.
  apply head_filter_Some in Hm as [Hin Hmatch].
  apply getCorrectionMemoriesOf_elem_of in Hin as [Hin Hv].
  by apply matchesCorrection_field in Hmatch.
Qed.

Lemma findMatchingCorrection_None v f db :
  fst (findMatchingCorrection v f None db) = None -> ~ hasMemoryFor v f db.
Proof.
  rewrite findMatchingCorrection_eq. simpl. intros Hnone (m & Hin & Hv & Hf).
  apply head_None in Hnone.
  assert (Hm : m ∈ filter (fun c => matchesCorrection f None c = true)
                  (getCorrectionMemoriesOf v db)).
  { apply list_elem_of_filter. split.
    - unfold matchesCorrection. by rewrite Hf, String.eqb_refl.
    - by apply getCorrectionMemoriesOf_elem_of. }
  rewrite Hnone in Hm. by apply elem_of_nil in Hm.
Qed.

Lemma findMatchingCorrection_found v f db :
  hasMemoryFor v f db ->
  exists m, fst (findMatchingCorrection v f None db) = Some m.
Proof.
  intros Hhas. destruct (fst (findMatchingCorrection v f None db)) eqn:Hm; [by eexists |].
  by apply findMatchingCorrection_None in Hm.
Qed.

Lemma lookupCorrection_member m db :
  m ∈ correction_memories db -> exists row, lookupCorrection (cm_id m) db = Some row.
Proof.
  intros Hin. unfold lookupCorrection.
  destruct (head _) eqn:Hh; [by eexists |]. apply head_None in Hh.
  assert (Hm : m ∈ filter (fun c => cm_id c = cm_id m) (correction_memories db))
    by (by apply list_elem_of_filter).
  rewrite Hh in Hm. by apply elem_of_nil in Hm.
Qed.

Lemma lookupCorrection_updateRows id f db row :
  (forall c, cm_id (f c) = cm_id c) ->
  lookupCorrection id db = Some row ->
  lookupCorrection id
    (withCorrections (updateRows id f (correction_memories db)) db)
  = Some (f row).
Proof.
  intros Hf. unfold lookupCorrection, withCorrections, updateRows. simpl.
  induction (correction_memories db) as [|c t IH]; [done |].
  rewrite filter_cons. simpl. rewrite filter_cons.
  destruct (decide (cm_id c = id)) as [Hc | Hc].
  - rewrite decide_True by (by rewrite Hf). simpl. by intros [= ->].
  - by rewrite decide_False.
Qed.

Lemma hasMemoryFor_updateRows v f id g db :
  (forall c, cm_vendorName (g c) = cm_vendorName c /\ fieldName (g c) = fieldName c) ->
  hasMemoryFor v f db ->
  hasMemoryFor v f (withCorrections (updateRows id g (correction_memories db)) db).
Proof.
  intros Hg (m & Hin & Hv & Hf).
  exists (if decide (cm_id m = id) then g m else m). split.
  - unfold updateRows. simpl. apply list_elem_of_fmap. by exists m.
  - case_decide; [| done]. destruct (Hg m) as [-> ->]. done.
Qed.

Lemma hasMemoryFor_reinforce now id v f db :
  hasMemoryFor v f db -> hasMemoryFor v f (snd (reinforceCorrection now id db)).
Proof.
  intros Hhas. rewrite reinforceCorrection_eq.
  destruct (lookupCorrection id db); [| done]. by apply hasMemoryFor_updateRows.
Qed.

Lemma recordCorrection_hasMemory now v f p t x db :
  hasMemoryFor v f (snd (recordCorrection now v f p t x db)).
Proof.
  rewrite recordCorrection_db.
  destruct (fst (findMatchingCorrection v f (Some p) (bumpId db))) as [m|] eqn:Hm.
  - apply findMatchingCorrection_Some in Hm as (Hin & Hv & Hf).
    apply hasMemoryFor_reinforce. by exists m.
  - eexists. split; [apply elem_of_app; right; by left |]. done.
Qed.

(** The correction-memory operations leave the vendor table alone. *)
Lemma reinforceCorrection_vendors now id db :
  vendor_memories (snd (reinforceCorrection now id db)) = vendor_memories db.
Proof. rewrite reinforceCorrection_eq. by destruct (lookupCorrection id db). Qed.

Lemma weakenCorrection_vendors now id db :
  vendor_memories (snd (weakenCorrection now id db)) = vendor_memories db.
Proof. rewrite weakenCorrection_eq. by destruct (lookupCorrection id db). Qed.

Lemma recordCorrection_vendors now v f p t x db :
  vendor_memories (snd (recordCorrection now v f p t x db)) = vendor_memories db.
Proof.
  rewrite recordCorrection_db. case_match; [| done].
  by rewrite reinforceCorrection_vendors.
Qed.

Lemma updateDefaultCurrency_sets now v cur db :
  exists vm,
    vendor_memories (snd (updateDefaultCurrency now v cur db)) !! v = Some vm /\
    defaultCurrency vm = cur.
Proof.
  unfold updateDefaultCurrency, mbind, db_bind.
  pose proof (ensureVendorMemory_stored now v db) as Hens.
  destruct (ensureVendorMemory now v db) as [m db'].
  destruct Hens as (Hm & _).
  eexists. split; [by apply updateVendorRow_stored |]. done.
Qed.

(** The closing step. *)
Lemma reinforceOrWeaken_eq now v c decision db m :
  fst (findMatchingCorrection v (fc_field c) None db) = Some m ->
  reinforceOrWeaken now v c (isApprovedDecision decision) db =
  (([closingUpdate decision (fc_field c) (cm_id m)], []),
   snd (match decision with
        | approved => reinforceCorrection now (cm_id m) db
        | rejected => weakenCorrection now (cm_id m) db
        end)).
Proof.
  intros Hm. unfold reinforceOrWeaken, mbind, db_bind.
  rewrite findMatchingCorrection_eq in Hm |- *. simpl in Hm. rewrite Hm.
  destruct decision; simpl.
  - by destruct (reinforceCorrection now (cm_id m) db) as [[] ?].
  - by destruct (weakenCorrection now (cm_id m) db) as [[] ?].
Qed.

Lemma reinforceOrWeaken_none now v c ok db :
  fst (findMatchingCorrection v (fc_field c) None db) = None ->
  reinforceOrWeaken now v c ok db = (([], []), db).
Proof.
  intros Hm. unfold reinforceOrWeaken, mbind, db_bind.
  rewrite findMatchingCorrection_eq in Hm |- *. simpl in Hm. by rewrite Hm.
Qed.

End LearnFacts.

Section CurrencyCorrections.
Import CorrectionMem VendorMem Learn.
Context `{JsRuntime}.

(** When a rule does not answer to a correction it contributes nothing. *)
Lemma learnServiceDate_skip now v c ok :
  String.eqb (fc_field c) "serviceDate" = false ->
  learnServiceDate now v c ok = ret ([], []).
Proof. intros Hf. unfold learnServiceDate. by rewrite Hf. Qed.

Lemma learnTax_skip now invoice v c ok :
  String.eqb (fc_field c) "taxTotal" = false ->
  String.eqb (fc_field c) "grossTotal" = false ->
  learnTax now invoice v c ok = ret ([], []).
Proof. intros Hf1 Hf2. unfold learnTax. by rewrite Hf1, Hf2. Qed.

Lemma learnCurrency_skip now v c :
  String.eqb (fc_field c) "currency" = false ->
  learnCurrency now v c = ret ([], []).
Proof. intros Hf. unfold learnCurrency. by rewrite Hf. Qed.

Lemma learnPoNumber_skip now v c :
  String.eqb (fc_field c) "poNumber" = false ->
  learnPoNumber now v c = ret ([], []).
Proof. intros Hf. unfold learnPoNumber. by rewrite Hf. Qed.

Lemma learnDiscountTerms_skip now v c :
  String.eqb (fc_field c) "discountTerms" = false ->
  learnDiscountTerms now v c = ret ([], []).
Proof. intros Hf. unfold learnDiscountTerms. by rewrite Hf. Qed.

Lemma learnSku_skip_field now invoice v c ok :
  includes (fc_field c) "sku" && includes (fc_field c) "lineItems" = false ->
  learnSku now invoice v c ok = ret ([], []).
Proof. intros Hf. unfold learnSku. by rewrite Hf. Qed.

(** No other rule answers to the field name "currency". *)
Lemma processCorrection_currency now invoice v c decision db :
  fc_field c = "currency" ->
  processCorrection now invoice v c decision db =
  let '(o3, mid) := learnCurrency now v c db in
  let '(o7, db') := reinforceOrWeaken now v c (isApprovedDecision decision) mid in
  ((fst o3 ++ fst o7, snd o3 ++ snd o7), db').
Proof.
  intros Hf. unfold processCorrection.
  rewrite learnServiceDate_skip, learnTax_skip, learnPoNumber_skip,
    learnSku_skip_field, learnDiscountTerms_skip by (by rewrite Hf).
  rewrite !bind_ret. unfold mbind, db_bind.
  destruct (learnCurrency now v c db) as [o3 mid].
  fold (isApprovedDecision decision).
  unfold ret, mret, db_ret. cbn beta iota.
  destruct (reinforceOrWeaken now v c (isApprovedDecision decision) mid) as [o7 db'].
  reflexivity.
Qed.

Lemma learnCurrency_eq now v c db :
  fc_field c = "currency" ->
  learnCurrency now v c db =
  (([ {| mu_type := mk_vendor; mu_action := act_reinforce;
         mu_details := "Learned default currency: " +:+ render (fc_to c);
         mu_memoryId := None |} ],
    [ "Learned: " +:+ v +:+ " default currency = " +:+ render (fc_to c) ]),
   snd (recordCorrection now v "currency" "missing_currency" set_currency (fc_to c)
          (snd (updateDefaultCurrency now v (columnValue (fc_to c)) db)))).
Proof.
  intros Hf. unfold learnCurrency. rewrite Hf, String.eqb_refl.
  unfold mbind, db_bind.
  destruct (updateDefaultCurrency now v (columnValue (fc_to c)) db) as [[] db1].
  cbn [snd].
  by destruct (recordCorrection now v "currency" "missing_currency" set_currency
                 (fc_to c) db1) as [? db2].
Qed.

(** What the currency rule's [recordCorrection] does to the table: it
    reinforces the best memory of the vendor for the field whose pattern
    matches, or appends a new one. *)
Lemma recordCorrection_table now v f p t x db :
  match fst (findMatchingCorrection v f (Some p) db) with
  | Some existing =>
      exists row,
        lookupCorrection (cm_id existing) db = Some row /\
        correction_memories (snd (recordCorrection now v f p t x db)) =
          updateRows (cm_id existing) (reinforced now row) (correction_memories db) /\
        lookupCorrection (cm_id existing) (snd (recordCorrection now v f p t x db)) =
          Some (reinforced now row row)
  | None =>
      correction_memories (snd (recordCorrection now v f p t x db)) =
        correction_memories db ++ [freshMemory now (uuid (nextId db)) v f p t x]
  end.
Proof.
  rewrite recordCorrection_db.
  change (fst (findMatchingCorrection v f (Some p) (bumpId db)))
    with (fst (findMatchingCorrection v f (Some p) db)).
  destruct (fst (findMatchingCorrection v f (Some p) db)) as [existing|] eqn:Hfind;
    [| done].
  apply findMatchingCorrection_Some in Hfind as (Hin & _ & _).
  destruct (lookupCorrection_member _ _ Hin) as [row Hrow].
  exists row. split; [exact Hrow |].
  rewrite reinforceCorrection_eq.
  change (lookupCorrection (cm_id existing) (bumpId db))
    with (lookupCorrection (cm_id existing) db).
  rewrite Hrow. split; [reflexivity |].
  by apply (lookupCorrection_updateRows (cm_id existing) (reinforced now row) (bumpId db)).
Qed.

Lemma updateDefaultCurrency_table now v cur db :
  correction_memories (snd (updateDefaultCurrency now v cur db)) = correction_memories db.
Proof.
  unfold updateDefaultCurrency, mbind, db_bind.
  pose proof (ensureVendorMemory_stored now v db) as Hens.
  destruct (ensureVendorMemory now v db) as [m db1].
  by destruct Hens as (_ & Hc & _).
Qed.

Lemma findMatchingCorrection_table v f pat db db' :
  correction_memories db' = correction_memories db ->
  fst (findMatchingCorrection v f pat db') = fst (findMatchingCorrection v f pat db).
Proof.
  intros Heq. rewrite !findMatchingCorrection_eq. simpl.
  unfold getCorrectionMemoriesOf. by rewrite Heq.
Qed.

Lemma lookupCorrection_table id db db' :
  correction_memories db' = correction_memories db ->
  lookupCorrection id db' = lookupCorrection id db.
Proof. intros Heq. unfold lookupCorrection. by rewrite Heq. Qed.

(** C5, as the code has it.  [processCorrection] on a field correction with
    field = 'currency', in any store and under either decision:
    - the vendor's default currency is set to the corrected value, as the
      TEXT column keeps it (a string as it is, a number as its text);
    - the currency rule creates or reinforces, whatever the decision: when
      no correction memory of the vendor for the field matches the pattern
      [missing_currency], it appends a memory of type [set_currency] with
      that pattern, one success, no failure and confidence 0.6; otherwise it
      adds one success to the best matching memory and recomputes its
      confidence;
    - the closing step then acts on the memory it finds for the vendor and
      the field according to the decision - one more success when approved,
      one more failure when rejected, the confidence recomputed from the new
      counters - and reports that update. *)
Theorem C5_currency_correction_follows_decision
    (now : Z) (invoice : Invoice) (vendorName : string)
    (c : FieldCorrection) (decision : Verdict) (db : Database) :
  fc_field c = "currency" ->
  let start := snd (updateDefaultCurrency now vendorName (columnValue (fc_to c)) db) in
  let mid := snd (learnCurrency now vendorName c db) in
  let result := processCorrection now invoice vendorName c decision db in
  (exists vm, vendor_memories (snd result) !! vendorName = Some vm /\
              defaultCurrency vm = columnValue (fc_to c)) /\
  match fst (findMatchingCorrection vendorName "currency" (Some "missing_currency") db)
  with
  | Some existing =>
      exists row,
        lookupCorrection (cm_id existing) db = Some row /\
        correction_memories mid =
          updateRows (cm_id existing) (reinforced now row) (correction_memories db) /\
        exists row',
          lookupCorrection (cm_id existing) mid = Some row' /\
          successCount row' = successCount row + 1 /\
          failureCount row' = failureCount row /\
          cm_confidence row' =
            calculateCorrectionConfidence (successCount row + 1) (failureCount row)
  | None =>
      correction_memories mid =
        correction_memories db ++
        [freshMemory now (uuid (nextId start)) vendorName "currency"
           "missing_currency" set_currency (fc_to c)]
  end /\
  hasMemoryFor vendorName "currency" mid /\
  exists m row row',
    fst (findMatchingCorrection vendorName "currency" None mid) = Some m /\
    lookupCorrection (cm_id m) mid = Some row /\
    lookupCorrection (cm_id m) (snd result) = Some row' /\
    match decision with
    | approved =>
        successCount row' = successCount row + 1 /\
        failureCount row' = failureCount row
    | rejected =>
        successCount row' = successCount row /\
        failureCount row' = failureCount row + 1
    end /\
    cm_confidence row' =
      calculateCorrectionConfidence (successCount row') (failureCount row') /\
    closingUpdate decision "currency" (cm_id m) ∈ fst (fst result).
Proof.
  intros Hf start mid result.
  assert (Hmid : hasMemoryFor vendorName "currency" mid).
  { subst mid. rewrite learnCurrency_eq by done. simpl.
    apply recordCorrection_hasMemory. }
  destruct (findMatchingCorrection_found _ _ _ Hmid) as [m Hm].
  pose proof (findMatchingCorrection_Some _ _ _ _ _ Hm) as (Hin & _ & _).
  destruct (lookupCorrection_member _ _ Hin) as [row Hrow].
  assert (Hresult : result =
            ((fst (fst (learnCurrency now vendorName c db)) ++
                [closingUpdate decision "currency" (cm_id m)],
              snd (fst (learnCurrency now vendorName c db)) ++ []),
             snd (match decision with
                  | approved => reinforceCorrection now (cm_id m) mid
                  | rejected => weakenCorrection now (cm_id m) mid
                  end))).
  { subst result mid. rewrite processCorrection_currency by done.
    destruct (learnCurrency now vendorName c db) as [o3 mid] eqn:Hl. simpl in *.
    rewrite <- Hf in Hm. rewrite (reinforceOrWeaken_eq now _ c decision mid m Hm).
    by rewrite Hf. }
  assert (Hvendors : vendor_memories (snd result) = vendor_memories mid).
  { rewrite Hresult. simpl. destruct decision;
      [apply reinforceCorrection_vendors | apply weakenCorrection_vendors]. }
  assert (Hstart : correction_memories start = correction_memories db)
    by apply updateDefaultCurrency_table.
  split; [| split; [| split; [exact Hmid |]]].
  - rewrite Hvendors. subst mid. rewrite learnCurrency_eq by done. simpl.
    rewrite recordCorrection_vendors. apply updateDefaultCurrency_sets.
  - assert (Hmid_eq : mid = snd (recordCorrection now vendorName "currency"
                                   "missing_currency" set_currency (fc_to c) start))
      by (subst mid start; by rewrite learnCurrency_eq).
    pose proof (recordCorrection_table now vendorName "currency" "missing_currency"
                  set_currency (fc_to c) start) as Hrule.
    rewrite (findMatchingCorrection_table _ _ _ db start Hstart) in Hrule.
    rewrite <- Hmid_eq in Hrule.
    destruct (fst (findMatchingCorrection vendorName "currency"
                     (Some "missing_currency") db)) as [existing|].
    + destruct Hrule as (row0 & Hrow0 & Htable & Hafter).
      rewrite (lookupCorrection_table _ db start Hstart) in Hrow0.
      rewrite Hstart in Htable.
      exists row0. split; [exact Hrow0 |]. split; [exact Htable |].
      exists (reinforced now row0 row0). by split.
    + by rewrite Hstart in Hrule.
  - exists m, row.
    exists (match decision with
            | approved => reinforced now row row
            | rejected => weakened now row row
            end).
    split; [exact Hm |]. split; [exact Hrow |]. split; [| split; [| split]].
    + rewrite Hresult. simpl. destruct decision.
      * rewrite reinforceCorrection_eq, Hrow. simpl.
        by apply lookupCorrection_updateRows.
      * rewrite weakenCorrection_eq, Hrow. simpl.
        by apply lookupCorrection_updateRows.
    + by destruct decision.
    + by destruct decision.
    + rewrite Hresult. simpl. apply elem_of_app. right. by left.
Qed.

End CurrencyCorrections.

Lemma C5_currency_correction_follows_decision_witness :
  let c := Samples.currencyCorrection in
  let mid := snd (@Learn.learnCurrency sampleRuntime 1000 "Supplier GmbH" c
                    emptyDatabase) in
  let result := @Learn.processCorrection sampleRuntime 1000 Samples.invoice1
                  "Supplier GmbH" c rejected emptyDatabase in
  fc_field c = "currency" /\
  exists m row row',
    fst (CorrectionMem.findMatchingCorrection "Supplier GmbH" "currency" None mid)
      = Some m /\
    CorrectionMem.lookupCorrection (cm_id m) mid = Some row /\
    CorrectionMem.lookupCorrection (cm_id m) (snd result) = Some row' /\
    (successCount row' = successCount row /\
     failureCount row' = failureCount row + 1) /\
    cm_confidence row' =
      CorrectionMem.calculateCorrectionConfidence (successCount row')
        (failureCount row') /\
    closingUpdate rejected "currency" (cm_id m) ∈ fst (fst result).
Proof.
  intros c mid result. split; [reflexivity |].
  exact (proj2 (proj2 (proj2 (@C5_currency_correction_follows_decision sampleRuntime
                         1000 Samples.invoice1 "Supplier GmbH" c rejected
                         emptyDatabase eq_refl)))).
Defined.

(** C5, as stated, fails under a rejected batch: the set_currency memory the
    currency rule has just created is weakened by the closing step, ending
    with one failure and a confidence of 4/9, below the 0.6 it was created
    with, and Learn reports the weakening. *)
Lemma C5_counterexample_rejected_currency :
  let r := @Learn.learn sampleRuntime 1000 Samples.invoice1 Samples.rejectedBatch
             emptyDatabase in
  exists m,
    correction_memories (snd r) = [m] /\
    correctionType m = set_currency /\
    successCount m = 1 /\ failureCount m = 1 /\
    (cm_confidence m == 4 # 9)%Q /\ (cm_confidence m < 0.6)%Q /\
    closingUpdate rejected "currency" (cm_id m) ∈ Learn.memoryUpdates (fst r).
Proof.
  eexists. split; [vm_compute; reflexivity |].
  repeat split; try reflexivity.
  vm_compute. right. right. left.
Qed.

Section MalformedCorrections.
Import CorrectionMem VendorMem Learn.
Context `{JsRuntime}.

(** *** Preservation through the store monad *)

Lemma preserves_ret {A} P (a : A) : preserves P (ret a).
Proof. by intros db Hdb. Qed.

Lemma preserves_bind {A B} P (m : Db A) (k : A -> Db B) :
  preserves P m -> (forall a, preserves P (k a)) -> preserves P (x ← m; k x).
Proof.
  intros Hm Hk db Hdb. unfold mbind, db_bind.
  specialize (Hm db Hdb). destruct (m db) as [a db']. by apply Hk.
Qed.

Lemma preserves_if {A} P (b : bool) (m1 m2 : Db A) :
  preserves P m1 -> preserves P m2 -> preserves P (if b then m1 else m2).
Proof. by destruct b. Qed.

Lemma ruleFieldsOnly_onCorrections : onCorrections ruleFieldsOnly.
Proof. intros db db' Heq Hdb m Hm. apply Hdb. by rewrite <- Heq. Qed.

Lemma ensureVendorMemory_corrections now v db :
  correction_memories (snd (ensureVendorMemory now v db)) = correction_memories db.
Proof.
  pose proof (ensureVendorMemory_stored now v db) as Hens.
  destruct (ensureVendorMemory now v db) as [m db']. by destruct Hens as (_ & ? & _).
Qed.

Lemma vendor_update_corrections now v (k : VendorMemory -> Db unit) db :
  (forall m db0, correction_memories (snd (k m db0)) = correction_memories db0) ->
  correction_memories (snd ((memory ← ensureVendorMemory now v; k memory) db))
  = correction_memories db.
Proof.
  intros Hk. unfold mbind, db_bind.
  pose proof (ensureVendorMemory_corrections now v db) as Hens.
  destruct (ensureVendorMemory now v db) as [m db']. simpl in Hens. cbn beta iota.
  by rewrite Hk.
Qed.

Lemma updateFieldMapping_corrections now v l t ok db :
  correction_memories (snd (updateFieldMapping now v l t ok db)) = correction_memories db.
Proof. unfold updateFieldMapping. by apply vendor_update_corrections. Qed.

Lemma updateTaxBehavior_corrections now v i r ok db :
  correction_memories (snd (updateTaxBehavior now v i r ok db)) = correction_memories db.
Proof. unfold updateTaxBehavior. by apply vendor_update_corrections. Qed.

Lemma updateDefaultCurrency_corrections now v cur db :
  correction_memories (snd (updateDefaultCurrency now v cur db)) = correction_memories db.
Proof. unfold updateDefaultCurrency. by apply vendor_update_corrections. Qed.

Lemma updateSkuMapping_corrections now v d s ok db :
  correction_memories (snd (updateSkuMapping now v d s ok db)) = correction_memories db.
Proof. unfold updateSkuMapping. by apply vendor_update_corrections. Qed.

Lemma updatePaymentTerms_corrections now v t db :
  correction_memories (snd (updatePaymentTerms now v t db)) = correction_memories db.
Proof. unfold updatePaymentTerms. by apply vendor_update_corrections. Qed.

(** *** Correction memories carry rule field names only *)

Lemma ruleFieldsOnly_updateRows id g db :
  (forall c, fieldName (g c) = fieldName c) ->
  ruleFieldsOnly db ->
  ruleFieldsOnly (withCorrections (updateRows id g (correction_memories db)) db).
Proof.
  intros Hg Hdb m Hm. simpl in Hm. unfold updateRows in Hm.
  apply list_elem_of_fmap in Hm as (c & -> & Hc).
  case_decide; rewrite ?Hg; by apply Hdb.
Qed.

Lemma reinforceCorrection_ruleFields now id :
  preserves ruleFieldsOnly (reinforceCorrection now id).
Proof.
  intros db Hdb. rewrite reinforceCorrection_eq.
  destruct (lookupCorrection id db); [| done]. by apply ruleFieldsOnly_updateRows.
Qed.

Lemma weakenCorrection_ruleFields now id :
  preserves ruleFieldsOnly (weakenCorrection now id).
Proof.
  intros db Hdb. rewrite weakenCorrection_eq.
  destruct (lookupCorrection id db); [| done]. by apply ruleFieldsOnly_updateRows.
Qed.

Lemma recordCorrection_ruleFields now v f p t x :
  f ∈ ruleFields -> preserves ruleFieldsOnly (recordCorrection now v f p t x).
Proof.
  intros Hf db Hdb. rewrite recordCorrection_db. case_match.
  - by apply reinforceCorrection_ruleFields.
  - intros m [Hm | Hm]%elem_of_app; [by apply Hdb |].
    apply list_elem_of_singleton in Hm. by subst m.
Qed.

Lemma preserves_vendor_update {A} P (m : Db A) :
  onCorrections P ->
  (forall db, correction_memories (snd (m db)) = correction_memories db) ->
  preserves P m.
Proof. intros HP Hm db Hdb. apply (HP db); [apply Hm | exact Hdb]. Qed.

Ltac in_ruleFields := unfold ruleFields; set_solver.

Ltac chain :=
  apply preserves_bind; [| intros ?; first [apply preserves_ret | chain]].

Lemma processCorrection_ruleFields now invoice v c decision :
  preserves ruleFieldsOnly (processCorrection now invoice v c decision).
Proof.
  pose proof ruleFieldsOnly_onCorrections as Hon.
  unfold processCorrection. chain.
  - unfold learnServiceDate. apply preserves_if; [| apply preserves_ret].
    apply preserves_bind; [| intros ?].
    { apply preserves_vendor_update; [done |]. apply updateFieldMapping_corrections. }
    apply preserves_bind; [| intros ?; apply preserves_ret].
    apply recordCorrection_ruleFields. in_ruleFields.
  - unfold learnTax.
    destruct (String.eqb (fc_field c) "taxTotal" || String.eqb (fc_field c) "grossTotal")
      eqn:Hf; [| apply preserves_ret].
    apply preserves_if; [| apply preserves_ret].
    apply preserves_bind; [| intros ?].
    { apply preserves_vendor_update; [done |]. apply updateTaxBehavior_corrections. }
    apply preserves_bind; [| intros ?; apply preserves_ret].
    apply recordCorrection_ruleFields.
    apply orb_true_iff in Hf as [Hf | Hf]; apply String.eqb_eq in Hf; rewrite Hf;
      in_ruleFields.
  - unfold learnCurrency. apply preserves_if; [| apply preserves_ret].
    apply preserves_bind; [| intros ?].
    { apply preserves_vendor_update; [done |]. apply updateDefaultCurrency_corrections. }
    apply preserves_bind; [| intros ?; apply preserves_ret].
    apply recordCorrection_ruleFields. in_ruleFields.
  - unfold learnPoNumber. apply preserves_if; [| apply preserves_ret].
    apply preserves_bind; [| intros ?; apply preserves_ret].
    apply recordCorrection_ruleFields. in_ruleFields.
  - unfold learnSku. apply preserves_if; [| apply preserves_ret].
    repeat case_match; try apply preserves_ret.
    all: apply preserves_bind; [| intros ?; apply preserves_ret].
    all: apply preserves_vendor_update; [done |]; apply updateSkuMapping_corrections.
  - unfold learnDiscountTerms. apply preserves_if; [| apply preserves_ret].
    apply preserves_bind; [| intros ?].
    { apply preserves_vendor_update; [done |]. apply updatePaymentTerms_corrections. }
    apply preserves_bind; [| intros ?; apply preserves_ret].
    apply recordCorrection_ruleFields. in_ruleFields.
  - unfold reinforceOrWeaken.
    apply preserves_bind; [intros db Hdb; by rewrite findMatchingCorrection_eq |].
    intros [existing|]; [| apply preserves_ret].
    apply preserves_if; (apply preserves_bind; [| intros ?; apply preserves_ret]).
    + apply reinforceCorrection_ruleFields.
    + apply weakenCorrection_ruleFields.
Qed.

(** *** A malformed correction is passed over *)

Lemma malformed_not_rule invoice c :
  malformed invoice c = true -> fc_field c ∉ ruleFields.
Proof.
  unfold malformed. cbv zeta.
  destruct (includes (fc_field c) "sku" && includes (fc_field c) "lineItems") eqn:Hsku.
  - intros _ Hin. apply andb_true_iff in Hsku as [Hsku _].
    unfold ruleFields in Hin.
    repeat (apply elem_of_cons in Hin as [Hin | Hin];
            [rewrite Hin in Hsku; discriminate Hsku |]).
    by apply elem_of_nil in Hin.
  - rewrite negb_true_iff. intros Hex Hin.
    apply not_true_iff_false in Hex. apply Hex, existsb_exists.
    exists (fc_field c). split; [by apply list_elem_of_In | apply String.eqb_refl].
Qed.

Lemma not_rule_eqb f name :
  f ∉ ruleFields -> name ∈ ruleFields -> String.eqb f name = false.
Proof. intros Hf Hn. apply String.eqb_neq. by intros ->. Qed.

Lemma malformed_learnSku now invoice v c ok :
  malformed invoice c = true -> learnSku now invoice v c ok = ret ([], []).
Proof.
  unfold malformed. cbv zeta. intros Hm.
  destruct (includes (fc_field c) "sku" && includes (fc_field c) "lineItems") eqn:Hsku;
    [| by apply learnSku_skip_field].
  unfold learnSku. rewrite Hsku.
  destruct (lineItemMatch (fc_field c)) as [index|]; [| done].
  by destruct (lineItems (fields invoice) !! Z.to_nat index).
Qed.

Lemma processCorrection_malformed now invoice v c decision db :
  ruleFieldsOnly db -> malformed invoice c = true ->
  processCorrection now invoice v c decision db = (([], []), db).
Proof.
  intros Hdb Hm. pose proof (malformed_not_rule _ _ Hm) as Hf.
  unfold processCorrection.
  rewrite learnServiceDate_skip, learnTax_skip, learnCurrency_skip,
    learnPoNumber_skip, (malformed_learnSku now invoice v c _ Hm),
    learnDiscountTerms_skip
    by (apply not_rule_eqb; [done | unfold ruleFields; set_solver]).
  rewrite !bind_ret. unfold mbind, db_bind.
  rewrite reinforceOrWeaken_none; [done |].
  destruct (fst (findMatchingCorrection v (fc_field c) None db)) as [m|] eqn:Hfind;
    [| done].
  apply findMatchingCorrection_Some in Hfind as (Hin & _ & Hname).
  exfalso. apply Hf. rewrite <- Hname. by apply Hdb.
Qed.

Lemma plus_nil (o : Outcome) : plus ([], []) o = o.
Proof. by destruct o. Qed.

Lemma processCorrections_ruleFields now invoice v cs decision :
  preserves ruleFieldsOnly (processCorrections now invoice v cs decision).
Proof.
  induction cs as [|c cs IH]; simpl; [apply preserves_ret |].
  apply preserves_bind; [apply processCorrection_ruleFields |]. intros o.
  apply preserves_bind; [exact IH | intros ?; apply preserves_ret].
Qed.

Lemma processCorrections_skip now invoice v decision pre bad post db :
  ruleFieldsOnly db -> malformed invoice bad = true ->
  processCorrections now invoice v (pre ++ bad :: post) decision db =
  processCorrections now invoice v (pre ++ post) decision db.
Proof.
  intros Hdb Hm. revert db Hdb. induction pre as [|c pre IH]; intros db Hdb.
  - simpl. unfold mbind, db_bind.
    rewrite (processCorrection_malformed now invoice v bad decision db Hdb Hm).
    destruct (processCorrections now invoice v post decision db) as [os db'].
    simpl. by rewrite plus_nil.
  - simpl. unfold mbind, db_bind.
    pose proof (processCorrection_ruleFields now invoice v c decision db Hdb) as Hdb1.
    destruct (processCorrection now invoice v c decision db) as [o db1].
    simpl in Hdb1. by rewrite (IH db1 Hdb1).
Qed.

(** *** The later phases of [learn] *)

Lemma recordResolutions_tables now invoice v cs decision db :
  let db' := snd (recordResolutions now invoice v cs decision db) in
  vendor_memories db' = vendor_memories db /\
  correction_memories db' = correction_memories db /\
  (forall r, r ∈ resolution_memories db -> r ∈ resolution_memories db') /\
  (forall c, c ∈ cs ->
     exists r, r ∈ resolution_memories db' /\
               discrepancyType r = fc_field c /\ correctedValue r = fc_to c /\
               resolution r = decision).
Proof.
  revert db. induction cs as [|c cs IH]; intros db; simpl.
  - repeat split; try done. by intros c ?%elem_of_nil.
  - unfold mbind, db_bind, ResolutionMem.recordResolution, uuidv4,
      setResolutionMemories. simpl.
    match goal with |- context [recordResolutions _ _ _ _ _ ?d] =>
      destruct (IH d) as (Hv & Hc & Hr & Hcs) end.
    simpl in *. split; [done |]. split; [done |]. split.
    + intros r Hin. apply Hr. apply elem_of_app. by left.
    + intros c' [-> | Hin]%elem_of_cons; [| by apply Hcs].
      eexists. split; [apply Hr; apply elem_of_app; right; by left |]. done.
Qed.

Lemma learn_eq now invoice hc db :
  learn now invoice hc db =
  let '(created, db1) := learnPrologue now (vendor invoice) db in
  let '(processed, db2) :=
    processCorrections now invoice (vendor invoice) (corrections hc)
      (finalDecision hc) db1 in
  let db3 := snd (recordResolutions now invoice (vendor invoice) (corrections hc)
                    (finalDecision hc) db2) in
  (learnResultOf invoice created processed,
   snd (DuplicateDetection.recordProcessedInvoice now invoice db3)).
Proof.
  unfold learn, learnPrologue, learnResultOf, mbind, db_bind. simpl.
  destruct (vendor_memories db !! vendor invoice); simpl.
  all: destruct (processCorrections _ _ _ _ _ _) as [processed db2]; simpl.
  all: destruct (recordResolutions _ _ _ _ _ _) as [[] db3]; simpl.
  all: by destruct processed as [updates details].
Qed.

Lemma learnPrologue_corrections now v db :
  correction_memories (snd (learnPrologue now v db)) = correction_memories db.
Proof.
  unfold learnPrologue, getVendorMemory, createVendorMemory, mbind, db_bind. simpl.
  by destruct (vendor_memories db !! v).
Qed.

Lemma learn_ruleFieldsOnly now invoice hc : preserves ruleFieldsOnly (learn now invoice hc).
Proof.
  intros db Hdb. rewrite learn_eq.
  pose proof (learnPrologue_corrections now (vendor invoice) db) as Hpro.
  destruct (learnPrologue now (vendor invoice) db) as [created db1]. simpl in Hpro.
  assert (Hdb1 : ruleFieldsOnly db1)
    by (by apply (ruleFieldsOnly_onCorrections db)).
  pose proof (processCorrections_ruleFields now invoice (vendor invoice)
                (corrections hc) (finalDecision hc) db1 Hdb1) as Hdb2.
  destruct (processCorrections _ _ _ _ _ db1) as [processed db2]. simpl in Hdb2.
  cbv zeta. cbn [snd]. rewrite recordProcessedInvoice_db.
  apply (ruleFieldsOnly_onCorrections db2); [| done]. simpl.
  apply recordResolutions_tables.
Qed.

(** C9, as the code has it.  A malformed field correction in a Learn batch
    does not abort the batch and is passed over silently: Learn returns the
    very memory updates and the very audit note it returns for the batch
    without that correction, and leaves the same vendor and correction
    memories; the only trace is the resolution-memory entry recorded for
    it. *)
Theorem C9_malformed_correction_skipped_silently
    (now : Z) (invoice : Invoice) (hc : HumanCorrection)
    (pre post : list FieldCorrection) (bad : FieldCorrection) (db : Database) :
  corrections hc = pre ++ bad :: post ->
  malformed invoice bad = true ->
  ruleFieldsOnly db ->
  let withBad := learn now invoice hc db in
  let withoutBad := learn now invoice (withBatch hc (pre ++ post)) db in
  memoryUpdates (fst withBad) = memoryUpdates (fst withoutBad) /\
  auditDetails (fst withBad) = auditDetails (fst withoutBad) /\
  vendor_memories (snd withBad) = vendor_memories (snd withoutBad) /\
  correction_memories (snd withBad) = correction_memories (snd withoutBad) /\
  exists r, r ∈ resolution_memories (snd withBad) /\
            discrepancyType r = fc_field bad /\ correctedValue r = fc_to bad.
Proof.
  intros Hcs Hbad Hdb withBad withoutBad. subst withBad withoutBad.
  rewrite !learn_eq. cbn [withBatch corrections finalDecision]. rewrite Hcs.
  pose proof (learnPrologue_corrections now (vendor invoice) db) as Hpro.
  destruct (learnPrologue now (vendor invoice) db) as [created db1]. simpl in Hpro.
  assert (Hdb1 : ruleFieldsOnly db1)
    by (by apply (ruleFieldsOnly_onCorrections db)).
  rewrite (processCorrections_skip now invoice (vendor invoice) (finalDecision hc)
             pre bad post db1 Hdb1 Hbad).
  destruct (processCorrections now invoice (vendor invoice) (pre ++ post)
              (finalDecision hc) db1) as [processed db2].
  cbv zeta. cbn [fst snd]. rewrite !recordProcessedInvoice_db. cbn.
  destruct (recordResolutions_tables now invoice (vendor invoice)
              (pre ++ bad :: post) (finalDecision hc) db2) as (Hv & Hc & _ & Hr).
  destruct (recordResolutions_tables now invoice (vendor invoice)
              (pre ++ post) (finalDecision hc) db2) as (Hv' & Hc' & _ & _).
  cbv zeta in Hv, Hc, Hr, Hv', Hc'.
  split; [done |]. split; [done |].
  split; [by rewrite Hv, Hv' |]. split; [by rewrite Hc, Hc' |].
  destruct (Hr bad) as (r & Hin & Hd & Hcv & _); [set_solver |].
  by exists r.
Qed.

End MalformedCorrections.

Lemma ruleFieldsOnly_empty : ruleFieldsOnly emptyDatabase.
Proof. by intros m ?%elem_of_nil. Qed.

Lemma C9_malformed_correction_skipped_silently_witness :
  let hc := Samples.batchOf [Samples.currencyCorrection; Samples.strayCorrection] in
  let withBad := @Learn.learn sampleRuntime 1000 Samples.invoice1 hc emptyDatabase in
  let withoutBad :=
    @Learn.learn sampleRuntime 1000 Samples.invoice1
      (withBatch hc ([Samples.currencyCorrection] ++ [])) emptyDatabase in
  corrections hc = [Samples.currencyCorrection] ++ Samples.strayCorrection :: [] /\
  malformed Samples.invoice1 Samples.strayCorrection = true /\
  ruleFieldsOnly emptyDatabase /\
  Learn.memoryUpdates (fst withBad) = Learn.memoryUpdates (fst withoutBad) /\
  Learn.auditDetails (fst withBad) = Learn.auditDetails (fst withoutBad).
Proof.
  intros hc withBad withoutBad.
  pose proof (@C9_malformed_correction_skipped_silently sampleRuntime 1000
                Samples.invoice1 hc [Samples.currencyCorrection] []
                Samples.strayCorrection emptyDatabase eq_refl eq_refl
                ruleFieldsOnly_empty) as (Hu & Ha & _).
  split; [reflexivity |]. split; [reflexivity |].
  split; [exact ruleFieldsOnly_empty |]. split; [exact Hu | exact Ha].
Defined.

(** C9, as stated, fails in its last part: the audit note of a batch whose
    only correction addresses line item 5 of a one-item invoice is the note
    of the empty batch; it names neither the correction nor its field. *)
Lemma C9_counterexample_skipped_not_in_audit_note :
  let withBad := @Learn.learn sampleRuntime 1000 Samples.invoice1
                   (Samples.batchOf [Samples.strayCorrection]) emptyDatabase in
  let empty := @Learn.learn sampleRuntime 1000 Samples.invoice1
                 (Samples.batchOf []) emptyDatabase in
  malformed Samples.invoice1 Samples.strayCorrection = true /\
  Learn.auditDetails (fst withBad) = Learn.auditDetails (fst empty) /\
  Learn.auditDetails (fst withBad) =
    "Created vendor memory for " +:+ Learn.quote +:+ "Supplier GmbH" +:+
    Learn.quote +:+ "; Recorded invoice INV-A-001 as processed" /\
  includes (Learn.auditDetails (fst withBad)) "lineItems" = false /\
  includes (Learn.auditDetails (fst withBad)) "sku" = false.
Proof.
  intros withBad empty. repeat split; vm_compute; reflexivity.
Qed.

(** ** Decide: when an invoice is escalated *)

Section DecideConditions.
Import Decide.

Lemma length_pos_existsb {A} (p : A -> bool) (l : list A) :
  (0 <? length (filter (fun x => p x = true) l))%nat = existsb p l.
Proof.
  induction l as [|x l IH]; [done |].
  rewrite filter_cons. simpl. destruct (p x) eqn:E.
  - by rewrite decide_True.
  - by rewrite decide_False by congruence.
Qed.

(** Each check leaves the flag as it found it or raises it, and raises it
    exactly under its own condition. *)
Lemma reviewOf_checkDuplicates m acc :
  reviewOf (checkDuplicates m acc) = reviewOf acc || isSome (potentialDuplicate m).
Proof.
  unfold checkDuplicates. destruct (potentialDuplicate m); simpl;
    [by rewrite orb_true_r | by rewrite orb_false_r].
Qed.

Lemma reviewOf_checkNewVendor m acc :
  reviewOf (checkNewVendor m acc) = reviewOf acc || isNewVendor m.
Proof.
  unfold checkNewVendor. destruct (isNewVendor m); simpl;
    [by rewrite orb_true_r | by rewrite orb_false_r].
Qed.

Lemma reviewOf_checkLowConfidence cs acc :
  reviewOf (checkLowConfidence cs acc) = reviewOf acc || hasLowConfidence cs.
Proof.
  unfold checkLowConfidence, hasLowConfidence. cbv zeta.
  rewrite length_pos_existsb. destruct (existsb _ cs); simpl;
    [by rewrite orb_true_r | by rewrite orb_false_r].
Qed.

Lemma reviewOf_checkPending cs acc :
  reviewOf (checkPending cs acc) = reviewOf acc || hasPending cs.
Proof.
  unfold checkPending, hasPending. cbv zeta.
  rewrite length_pos_existsb. destruct (existsb _ cs); simpl;
    [by rewrite orb_true_r | by rewrite orb_false_r].
Qed.

Lemma reviewOf_checkConflicts m acc :
  reviewOf (checkConflicts m acc) = reviewOf acc || hasConflictingMemories m.
Proof.
  unfold checkConflicts. destruct (hasConflictingMemories m); simpl;
    [by rewrite orb_true_r | by rewrite orb_false_r].
Qed.

Lemma reviewOf_checkMissing n cs acc :
  reviewOf (checkMissing n cs acc) = reviewOf acc || currencyMissing n cs.
Proof.
  unfold checkMissing, checkMissingFields, currencyMissing. cbv zeta.
  destruct (negb (truthy (n_currency n)) && negb (hasCurrencyCorrection cs)); simpl;
    [by rewrite orb_true_r | by rewrite orb_false_r].
Qed.

Lemma reviewOf_decideOnScore score acc :
  reviewOf (decideOnScore score acc) =
  reviewOf acc || negb (Qleb AUTO_CORRECT_THRESHOLD score).
Proof.
  unfold decideOnScore. destruct (reviewOf acc) eqn:Hacc; simpl; [done |].
  destruct (Qleb AUTO_ACCEPT_THRESHOLD score) eqn:Hhi; simpl.
  - apply Qleb_le in Hhi. symmetry. apply negb_false_iff, Qleb_le.
    unfold AUTO_ACCEPT_THRESHOLD in Hhi. unfold AUTO_CORRECT_THRESHOLD. lra.
  - by destruct (Qleb AUTO_CORRECT_THRESHOLD score).
Qed.

Lemma makeDecision_review n cs m q :
  requiresHumanReview (makeDecision n cs m q) =
  isSome (potentialDuplicate m) || isNewVendor m || hasLowConfidence cs ||
  hasPending cs || hasConflictingMemories m || currencyMissing n cs ||
  negb (Qleb AUTO_CORRECT_THRESHOLD (confidenceScore (makeDecision n cs m q))).
Proof.
  unfold makeDecision. cbn [requiresHumanReview confidenceScore].
  rewrite reviewOf_decideOnScore, reviewOf_checkMissing, reviewOf_checkConflicts,
    reviewOf_checkPending, reviewOf_checkLowConfidence, reviewOf_checkNewVendor,
    reviewOf_checkDuplicates.
  reflexivity.
Qed.

(** The flag and the list of reasons move together. *)
Lemma escalate_reasons acc rs d :
  rs <> [] -> reasonsOf (escalate acc rs d) <> [].
Proof. intros Hrs. unfold escalate, reasonsOf. simpl. by destruct (snd (fst acc)), rs. Qed.

Lemma filter_pos_nonempty {A} (P : A -> Prop) `{forall x, Decision (P x)}
    {B} (f : A -> B) (l : list A) :
  (0 <? length (filter P l))%nat = true -> map f (filter P l) <> [].
Proof. by destruct (filter P l). Qed.

Ltac sync_step :=
  intros [Hto Hfrom];
  match goal with
  | |- context [if ?b then _ else _] => destruct b eqn:?
  | |- context [match ?o with Some _ => _ | None => _ end] => destruct o eqn:?
  end;
  [split; [intros _; apply escalate_reasons;
            first [by apply filter_pos_nonempty | done]
          | intros _; apply reviewOf_escalate]
  | by split].

Lemma checkDuplicates_sync m acc :
  (reviewOf acc = true <-> reasonsOf acc <> []) ->
  (reviewOf (checkDuplicates m acc) = true <-> reasonsOf (checkDuplicates m acc) <> []).
Proof. unfold checkDuplicates. sync_step. Qed.

Lemma checkNewVendor_sync m acc :
  (reviewOf acc = true <-> reasonsOf acc <> []) ->
  (reviewOf (checkNewVendor m acc) = true <-> reasonsOf (checkNewVendor m acc) <> []).
Proof. unfold checkNewVendor. sync_step. Qed.

Lemma checkLowConfidence_sync cs acc :
  (reviewOf acc = true <-> reasonsOf acc <> []) ->
  (reviewOf (checkLowConfidence cs acc) = true <->
   reasonsOf (checkLowConfidence cs acc) <> []).
Proof. unfold checkLowConfidence. cbv zeta. sync_step. Qed.

Lemma checkPending_sync cs acc :
  (reviewOf acc = true <-> reasonsOf acc <> []) ->
  (reviewOf (checkPending cs acc) = true <-> reasonsOf (checkPending cs acc) <> []).
Proof. unfold checkPending. cbv zeta. sync_step. Qed.

Lemma checkConflicts_sync m acc :
  (reviewOf acc = true <-> reasonsOf acc <> []) ->
  (reviewOf (checkConflicts m acc) = true <-> reasonsOf (checkConflicts m acc) <> []).
Proof. unfold checkConflicts. sync_step. Qed.

Lemma checkMissing_sync n cs acc :
  (reviewOf acc = true <-> reasonsOf acc <> []) ->
  (reviewOf (checkMissing n cs acc) = true <-> reasonsOf (checkMissing n cs acc) <> []).
Proof.
  unfold checkMissing, checkMissingFields. cbv zeta.
  destruct (negb (truthy (n_currency n)) && negb (hasCurrencyCorrection cs)); simpl;
    [| done].
  intros _. split; [intros _; by apply escalate_reasons | done].
Qed.

Lemma decideOnScore_sync score acc :
  (reviewOf acc = true <-> reasonsOf acc <> []) ->
  (reviewOf (decideOnScore score acc) = true <->
   reasonsOf (decideOnScore score acc) <> []).
Proof.
  destruct acc as [[review reasons] details]. unfold decideOnScore, reviewOf, reasonsOf.
  simpl. intros Hsync. destruct review; simpl; [done |].
  destruct (Qleb AUTO_ACCEPT_THRESHOLD score); [done |].
  destruct (Qleb AUTO_CORRECT_THRESHOLD score); [done |].
  simpl. split; [intros _ | done]. by destruct reasons.
Qed.

(** X1.  [makeDecision] requires human review exactly when it gives at least
    one escalation reason: no check raises the flag without naming a reason,
    and none names a reason without raising the flag. *)
Theorem review_flag_matches_reasons
    (normalizedInvoice : NormalizedInvoice)
    (proposedCorrections : list ProposedCorrection)
    (memories : RecalledMemories) (originalConfidence : Q) :
  requiresHumanReview
    (makeDecision normalizedInvoice proposedCorrections memories originalConfidence)
    = true <->
  escalationReasons
    (makeDecision normalizedInvoice proposedCorrections memories originalConfidence)
    <> [].
Proof.
  unfold makeDecision. cbn [requiresHumanReview escalationReasons].
  apply decideOnScore_sync, checkMissing_sync, checkConflicts_sync,
    checkPending_sync, checkLowConfidence_sync, checkNewVendor_sync,
    checkDuplicates_sync.
  by split.
Qed.

Lemma existsb_false_forall {A} (p : A -> bool) (l : list A) :
  existsb p l = false <-> forall x, x ∈ l -> p x = false.
Proof.
  rewrite <- not_true_iff_false, existsb_exists. split.
  - intros Hno x Hx. apply not_true_iff_false. intros Hp. apply Hno.
    exists x. split; [by apply list_elem_of_In | done].
  - intros Hall (x & Hx & Hp). apply list_elem_of_In in Hx.
    rewrite (Hall x Hx) in Hp. discriminate.
Qed.

Lemma hasCurrencyCorrection_spec cs :
  hasCurrencyCorrection cs = true <-> exists c, c ∈ cs /\ pc_field c = "currency".
Proof.
  unfold hasCurrencyCorrection. rewrite existsb_exists. split.
  - intros (c & Hc & Hf). exists c. split; [by apply list_elem_of_In |].
    by apply String.eqb_eq.
  - intros (c & Hc & Hf). exists c. split; [by apply list_elem_of_In |].
    by apply String.eqb_eq.
Qed.

(** X2.  [makeDecision] lets an invoice through without human review
    exactly when all of these hold: no potential duplicate was recalled; the
    vendor memory exists and has a usage count of at least 2; every proposed
    correction was auto-applied and has a confidence of at least 0.4; the
    recalled memories do not conflict; the currency is present or a correction
    proposes one; and the overall confidence score is at least 0.6. *)
Theorem auto_processing_conditions
    (normalizedInvoice : NormalizedInvoice)
    (proposedCorrections : list ProposedCorrection)
    (memories : RecalledMemories) (originalConfidence : Q) :
  let decision :=
    makeDecision normalizedInvoice proposedCorrections memories originalConfidence in
  requiresHumanReview decision = false <->
    potentialDuplicate memories = None /\
    (exists vm, vendorMemory memories = Some vm /\ 2 <= vm_usageCount vm) /\
    (forall c, c ∈ proposedCorrections ->
       autoApplied c = true /\ (0.4 <= pc_confidence c)%Q) /\
    hasConflictingMemories memories = false /\
    (n_currency normalizedInvoice <> "" \/
     exists c, c ∈ proposedCorrections /\ pc_field c = "currency") /\
    (0.6 <= confidenceScore decision)%Q.
Proof.
  intros decision. subst decision. rewrite makeDecision_review.
  rewrite !orb_false_iff, negb_false_iff, Qleb_le.
  unfold hasLowConfidence, hasPending, currencyMissing, isNewVendor.
  rewrite !existsb_false_forall, andb_false_iff, !negb_false_iff,
    hasCurrencyCorrection_spec, truthy_nonempty.
  unfold AUTO_CORRECT_THRESHOLD, ESCALATE_THRESHOLD.
  split.
  - intros ((((((Hdup & Hnew) & Hlow) & Hpend) & Hconf) & Hcur) & Hscore).
    split; [by destruct (potentialDuplicate memories) |].
    split.
    { destruct (vendorMemory memories) as [vm|]; [| done].
      exists vm. split; [done |]. by apply Z.ltb_ge. }
    split; [| split; [done | split; [done | lra]]].
    intros c Hc. specialize (Hlow c Hc). specialize (Hpend c Hc).
    apply Qltb_ge in Hlow. split; [| lra].
    apply andb_false_iff in Hpend as [Ha | Hb].
    + by apply negb_false_iff in Ha.
    + apply not_true_iff_false in Hb. by rewrite Qleb_le in Hb.
  - intros (Hdup & (vm & Hvm & Huse) & Hall & Hconf & Hcur & Hscore).
    rewrite Hdup, Hvm. repeat split; try done.
    + by apply Z.ltb_ge.
    + intros c Hc. apply Qltb_ge. destruct (Hall c Hc) as [_ Hc4]. lra.
    + intros c Hc. destruct (Hall c Hc) as [-> _]. done.
    + lra.
Qed.

Lemma resolutions_partition (rs : list ResolutionMemory) :
  approvals rs + rejections rs = Z.of_nat (length rs).
Proof.
  unfold approvals, rejections. induction rs as [|r rs IH]; [done |].
  rewrite !filter_cons. unfold isApproved, isRejected in *.
  destruct (resolution r); simpl;
    rewrite ?decide_True, ?decide_False by done; simpl length; lia.
Qed.

(** X3.  [hasConflictingMemories] answers true exactly when at least three
    resolutions were recalled and the rejected ones outnumber the approved
    ones by more than two to three, or some recalled correction memory has
    more failures than successes.  The rejection rate is only computed over a
    non-empty list, so its division is never by zero. *)
Theorem conflicting_memories_conditions (memories : RecalledMemories) :
  let rs := resolutionMemories memories in
  hasConflictingMemories memories = true <->
    ((3 <= length rs)%nat /\ 2 * approvals rs < 3 * rejections rs) \/
    (exists c, c ∈ correctionMemories memories /\ successCount c < failureCount c).
Proof.
  intros rs. unfold hasConflictingMemories. fold rs. cbv zeta.
  assert (Hproblem :
    Nat.ltb 0 (length (filter (fun c => (successCount c <? failureCount c) = true)
                              (correctionMemories memories))) = true <->
    exists c, c ∈ correctionMemories memories /\ successCount c < failureCount c).
  { rewrite length_pos_existsb, existsb_exists. split.
    - intros (c & Hc & Hlt). exists c. split; [by apply list_elem_of_In | lia].
    - intros (c & Hc & Hlt). exists c. split; [by apply list_elem_of_In | lia]. }
  destruct (3 <=? length rs)%nat eqn:Hlen.
  - apply Nat.leb_le in Hlen.
    pose proof (resolutions_partition rs) as Hpart.
    assert (Hq : Qltb 0.4 (Qlen (filter (fun r => isRejected r = true) rs) /
                   (Qlen (filter (fun r => isApproved r = true) rs) +
                    Qlen (filter (fun r => isRejected r = true) rs)))%Q = true <->
                 2 * approvals rs < 3 * rejections rs).
    { rewrite Qltb_lt. unfold Qlen. fold (approvals rs) (rejections rs).
      set (a := approvals rs) in *. set (r := rejections rs) in *.
      assert (Hpos : (0 < inject_Z a + inject_Z r)%Q).
      { rewrite <- inject_Z_plus. change 0%Q with (inject_Z 0).
        rewrite <- Zlt_Qlt. lia. }
      assert (Hz : 2 * a < 3 * r <-> (0.4 * (inject_Z a + inject_Z r) < inject_Z r)%Q).
      { rewrite Zlt_Qlt, !inject_Z_mult. change (inject_Z 2) with 2%Q.
        change (inject_Z 3) with 3%Q. split; intros Hlt; lra. }
      rewrite Hz. split.
      - intros Hlt. apply (Qmult_lt_r _ _ _ Hpos) in Hlt.
        assert (Heq : (inject_Z r / (inject_Z a + inject_Z r) *
                       (inject_Z a + inject_Z r) == inject_Z r)%Q)
          by (field; lra).
        by rewrite Heq in Hlt.
      - intros Hlt. by apply Qlt_shift_div_l. }
    destruct (Qltb 0.4 _) eqn:Hrate.
    + split; [intros _ | done]. left. split; [done |]. by apply Hq.
    + rewrite Hproblem. split; [by right |].
      intros [[_ Hlt] | Hex]; [| done]. apply Hq in Hlt. discriminate.
  - apply Nat.leb_gt in Hlen. rewrite Hproblem. split; [by right |].
    intros [[Hge _] | Hex]; [lia | done].
Qed.

End DecideConditions.

(** ** Vendor memory: ranges, usage and keys *)

Section VendorMemoryRanges.
Import VendorMem.

Lemma inject_Z_nonneg z : 0 <= z -> (0 <= inject_Z z)%Q.
Proof. intros Hz. change 0%Q with (inject_Z 0). by rewrite <- Zle_Qle. Qed.

(** The two factors of [calculateConfidence], for a mapping observed at
    least once. *)
Lemma successRate_facts s f :
  0 <= s -> 0 <= f -> s + f <> 0 ->
  let r := (inject_Z s / inject_Z (s + f))%Q in
  (r * inject_Z (s + f) == inject_Z s)%Q /\ (0 <= r <= 1)%Q.
Proof.
  intros Hs Hf Htot r.
  pose proof (inject_Z_nonneg s Hs) as HS.
  assert (HT : (0 < inject_Z (s + f))%Q).
  { change 0%Q with (inject_Z 0). rewrite <- Zlt_Qlt. lia. }
  assert (HST : (inject_Z s <= inject_Z (s + f))%Q) by (rewrite <- Zle_Qle; lia).
  assert (Hr : (r * inject_Z (s + f) == inject_Z s)%Q) by (subst r; field; lra).
  clearbody r. split; [done |]. split; nra.
Qed.

Lemma observationFactor_facts t :
  0 <= t ->
  let o := Qmin 1.0 (inject_Z t / 3) in
  (0 <= o <= 1)%Q /\ (o <= inject_Z t * (1 # 3))%Q /\ (3 <= t -> (o == 1)%Q).
Proof.
  intros Ht o. pose proof (inject_Z_nonneg t Ht) as HT.
  pose proof (Q.min_spec 1.0 (inject_Z t / 3)) as Ho. fold o in Ho.
  pose proof (Qdiv_3 (inject_Z t)) as Hd.
  assert (H3 : 3 <= t -> (3 <= inject_Z t)%Q).
  { intros Hge. change 3%Q with (inject_Z 3). by rewrite <- Zle_Qle. }
  clearbody o. generalize dependent (inject_Z t / 3)%Q. intros d Ho Hd.
  split; [| split].
  - destruct Ho as [[? ?] | [? ?]]; lra.
  - destruct Ho as [[? ?] | [? ?]]; lra.
  - intros Hge. specialize (H3 Hge). destruct Ho as [[? ?] | [? ?]]; lra.
Qed.

Lemma calculateConfidence_range s f :
  0 <= s -> 0 <= f -> within 0.3 0.95 (calculateConfidence s f).
Proof.
  intros Hs Hf. unfold within, calculateConfidence.
  destruct (s + f =? 0) eqn:Htot; [lra |]. apply Z.eqb_neq in Htot.
  destruct (successRate_facts s f Hs Hf Htot) as (_ & Hr).
  destruct (observationFactor_facts (s + f) ltac:(lia)) as (Ho & _).
  cbv zeta in Hr, Ho.
  set (r := (inject_Z s / inject_Z (s + f))%Q) in *.
  set (o := Qmin 1.0 (inject_Z (s + f) / 3)) in *. clearbody r o.
  assert (Hp : (0 <= r * 0.65 * o)%Q) by nra.
  set (p := (r * 0.65 * o)%Q) in *. clearbody p.
  split; qminmax.
Qed.

(** X4.  The confidence [calculateConfidence] gives a field mapping with
    [s] successes and [f] failures lies between 0.3 and 0.95, and it reaches
    the threshold at which Apply writes a value without review (0.85)
    exactly when there are at least three observations and at most two
    failures for every eleven successes. *)
Theorem field_mapping_reaches_auto_apply (s f : Z) :
  0 <= s -> 0 <= f ->
  within 0.3 0.95 (calculateConfidence s f) /\
  ((Apply.AUTO_APPLY_THRESHOLD <= calculateConfidence s f)%Q <->
   3 <= s + f /\ 11 * f <= 2 * s).
Proof.
  intros Hs Hf. split; [by apply calculateConfidence_range |].
  unfold calculateConfidence, Apply.AUTO_APPLY_THRESHOLD.
  destruct (s + f =? 0) eqn:Htot.
  { apply Z.eqb_eq in Htot. split; [intros ?; lra | lia]. }
  apply Z.eqb_neq in Htot.
  destruct (successRate_facts s f Hs Hf Htot) as (Hr & Hr01).
  destruct (observationFactor_facts (s + f) ltac:(lia)) as (Ho & Hod & Ho1).
  cbv zeta in Hr, Hr01, Ho, Hod, Ho1.
  assert (HT : (inject_Z (s + f) == inject_Z s + inject_Z f)%Q)
    by (rewrite inject_Z_plus; reflexivity).
  pose proof (inject_Z_nonneg s Hs) as HS.
  pose proof (inject_Z_nonneg f Hf) as HF.
  assert (Hz : 11 * f <= 2 * s <-> (11 * inject_Z f <= 2 * inject_Z s)%Q).
  { rewrite Zle_Qle, !inject_Z_mult. reflexivity. }
  assert (Hs2 : s + f < 3 -> (inject_Z s <= 2)%Q).
  { intros Hfew. change 2%Q with (inject_Z 2). rewrite <- Zle_Qle. lia. }
  assert (Ht3 : 3 <= s + f -> (3 <= inject_Z (s + f))%Q).
  { intros Hmany. change 3%Q with (inject_Z 3). by rewrite <- Zle_Qle. }
  set (r := (inject_Z s / inject_Z (s + f))%Q) in *.
  set (o := Qmin 1.0 (inject_Z (s + f) / 3)) in *. clearbody r o.
  rewrite Hz.
  destruct (Z_lt_le_dec (s + f) 3) as [Hfew | Hmany].
  - specialize (Hs2 Hfew). split; [| lia]. intros Hhigh. exfalso.
    assert (Hp : (r * 0.65 * o <= 0.65 * (2 # 3))%Q) by nra.
    set (p := (r * 0.65 * o)%Q) in *. clearbody p.
    revert Hhigh. qminmax.
  - specialize (Ho1 Hmany). specialize (Ht3 Hmany).
    assert (Hp : (r * 0.65 * o == r * 0.65)%Q) by (rewrite Ho1; ring).
    set (p := (r * 0.65 * o)%Q) in *. clearbody p.
    split.
    + intros Hhigh. split; [done |].
      assert (Hr85 : (0.85 <= 0.3 + r * 0.65)%Q) by (revert Hhigh; qminmax).
      nra.
    + intros [_ Hratio]. assert (Hr85 : (0.85 <= 0.3 + r * 0.65)%Q) by nra.
      revert Hr85. qminmax.
Qed.

End VendorMemoryRanges.

Lemma field_mapping_reaches_auto_apply_witness :
  (0 <= 3 /\ 0 <= 0) /\
  within 0.3 0.95 (VendorMem.calculateConfidence 3 0) /\
  ((Apply.AUTO_APPLY_THRESHOLD <= VendorMem.calculateConfidence 3 0)%Q <->
   3 <= 3 + 0 /\ 11 * 0 <= 2 * 3).
Proof.
  split; [lia |].
  apply (field_mapping_reaches_auto_apply 3 0); lia.
Defined.

Section VendorMemoryRuns.
Import VendorMem.

(** An update reads the row, creating it when absent, and writes one row
    back: what a lookup finds afterwards. *)
Lemma vendor_update_lookup now v (k : VendorMemory -> VendorMemory -> VendorMemory)
    db v' :
  vendor_memories
    (snd ((memory ← ensureVendorMemory now v; updateVendorRow v (k memory)) db)) !! v'
  = if decide (v' = v)
    then Some (k (rowOrFresh now v db) (rowOrFresh now v db))
    else vendor_memories db !! v'.
Proof.
  unfold mbind, db_bind, rowOrFresh.
  pose proof (ensureVendorMemory_stored now v db) as Hens.
  destruct (ensureVendorMemory now v db) as [m db1].
  destruct Hens as (Hm & _ & Hother & Hnew & Hold).
  unfold updateVendorRow, setVendorMemories. simpl. rewrite Hm.
  case_decide as Hv.
  - subst v'. rewrite lookup_insert_eq.
    destruct (vendor_memories db !! v) as [m0|] eqn:Hm0; simpl.
    + by destruct (Hold m0 eq_refl) as [-> _].
    + by rewrite (Hnew eq_refl).
  - rewrite lookup_insert_ne by done. by apply Hother.
Qed.

Lemma ensureVendorMemory_lookup now v db v' :
  vendor_memories (snd (ensureVendorMemory now v db)) !! v'
  = if decide (v' = v) then Some (rowOrFresh now v db) else vendor_memories db !! v'.
Proof.
  unfold rowOrFresh.
  pose proof (ensureVendorMemory_stored now v db) as Hens.
  destruct (ensureVendorMemory now v db) as [m db1].
  destruct Hens as (Hm & _ & Hother & Hnew & Hold). simpl.
  case_decide as Hv.
  - subst v'. rewrite Hm.
    destruct (vendor_memories db !! v) as [m0|] eqn:Hm0; simpl.
    + by destruct (Hold m0 eq_refl) as [-> _].
    + by rewrite (Hnew eq_refl).
  - by apply Hother.
Qed.

Lemma recordVendorUsage_lookup now v db v' :
  vendor_memories (snd (recordVendorUsage now v db)) !! v'
  = if decide (v' = v)
    then match vendor_memories db !! v with
         | Some row =>
             Some {| vm_id := vm_id row; vm_vendorName := vm_vendorName row;
                     fieldMappings := fieldMappings row;
                     taxBehavior := taxBehavior row;
                     defaultCurrency := defaultCurrency row;
                     skuMappings := skuMappings row;
                     paymentTerms := paymentTerms row;
                     vm_confidence := vm_confidence row;
                     vm_usageCount := vm_usageCount row + 1; vm_lastUsed := now;
                     vm_createdAt := vm_createdAt row; vm_updatedAt := now |}
         | None => None
         end
    else vendor_memories db !! v'.
Proof.
  unfold recordVendorUsage, getVendorMemory, mbind, db_bind, getDb,
    updateVendorRow, setVendorMemories. simpl.
  destruct (vendor_memories db !! v) as [row|] eqn:Hrow; simpl.
  - rewrite Hrow. case_decide as Hv.
    + subst v'. by rewrite lookup_insert_eq.
    + by rewrite lookup_insert_ne.
  - case_decide as Hv; [by subst v' | done].
Qed.

(** What a lookup finds after any of the operations: the addressed row is a
    function of the row the operation worked on, every other row is as it
    was. *)
Ltac lookup_after op :=
  destruct op; unfold runVendorOp;
  [ unfold updateFieldMapping | unfold updateTaxBehavior
  | unfold updateDefaultCurrency | unfold updateSkuMapping
  | unfold updatePaymentTerms | | ];
  cbv zeta;
  first [rewrite vendor_update_lookup | rewrite recordVendorUsage_lookup
        | rewrite ensureVendorMemory_lookup].

(** *** Ranges *)

Lemma Qsum_from (l : list Q) (a : Q) :
  Forall (within 0 1) l ->
  (a <= fold_left Qplus l a <= a + inject_Z (Z.of_nat (length l)))%Q.
Proof.
  revert a. induction l as [|x l IH]; intros a Hall.
  - simpl. change (inject_Z (Z.of_nat 0)) with 0%Q. lra.
  - apply Forall_cons in Hall as [Hx Hl]. simpl fold_left.
    specialize (IH (a + x)%Q Hl). unfold within in Hx.
    assert (Hlen : (inject_Z (Z.of_nat (length (x :: l)))
                    == inject_Z (Z.of_nat (length l)) + 1)%Q).
    { simpl length. rewrite Nat2Z.inj_succ, <- Z.add_1_r, inject_Z_plus. reflexivity. }
    rewrite Hlen. lra.
Qed.

Lemma overallConfidenceOf_range (confidences : list Q) (usageCount : Z) :
  Forall (within 0 1) confidences -> 0 <= usageCount ->
  within 0.3 1 (overallConfidenceOf confidences usageCount).
Proof.
  intros Hall Huse. unfold within, overallConfidenceOf. cbv zeta.
  destruct (length confidences =? 0)%nat eqn:Hlen; [lra |].
  apply Nat.eqb_neq in Hlen.
  pose proof (Qsum_from confidences 0 Hall) as Hsum. fold (Qsum confidences) in Hsum.
  assert (Hn : (0 < inject_Z (Z.of_nat (length confidences)))%Q).
  { change 0%Q with (inject_Z 0). rewrite <- Zlt_Qlt. lia. }
  assert (Havg : (Qsum confidences / inject_Z (Z.of_nat (length confidences)) *
                  inject_Z (Z.of_nat (length confidences)) == Qsum confidences)%Q)
    by (field; lra).
  set (avg := (Qsum confidences / inject_Z (Z.of_nat (length confidences)))%Q) in *.
  clearbody avg.
  assert (Havg01 : (0 <= avg <= 1)%Q) by (split; nra).
  pose proof (inject_Z_nonneg usageCount Huse) as HU.
  pose proof (Q.min_spec 1.0 (inject_Z usageCount / 5)) as Hu.
  pose proof (Qdiv_5 (inject_Z usageCount)) as Hd.
  set (d := (inject_Z usageCount / 5)%Q) in *. clearbody d.
  set (u := Qmin 1.0 d) in *. clearbody u.
  assert (Hu01 : (0 <= u <= 1)%Q) by (destruct Hu as [[? ?] | [? ?]]; lra).
  split; nra.
Qed.

Lemma subConfidences_range fms tb sms :
  Forall fieldMappingOk fms ->
  (forall t, tb = Some t -> within 0.1 1 (tb_confidence t)) ->
  Forall (fun m => within 0.1 1 (sm_confidence m)) sms ->
  Forall (within 0 1) (subConfidences fms tb sms).
Proof.
  intros Hf Ht Hs. unfold subConfidences. rewrite !Forall_app. split; [| split].
  - apply Forall_fmap. eapply Forall_impl; [exact Hf |].
    intros m (_ & _ & _ & Hc). unfold within in *. simpl. lra.
  - destruct tb as [t|]; [| constructor]. apply Forall_singleton.
    specialize (Ht t eq_refl). unfold within in *. lra.
  - apply Forall_fmap. eapply Forall_impl; [exact Hs |].
    intros m Hc. unfold within in *. simpl. lra.
Qed.

Lemma updateFirst_Forall {A} (P : A -> Prop) (p : A -> bool) (f : A -> A) l l' :
  Forall P l -> (forall x, P x -> P (f x)) -> updateFirst p f l = Some l' ->
  Forall P l'.
Proof.
  intros Hall Hf. revert l'. induction Hall as [|x l Hx Hl IH]; intros l' Hup.
  - discriminate.
  - simpl in Hup. destruct (p x).
    + injection Hup as <-. constructor; [by apply Hf | done].
    + destruct (updateFirst p f l) as [rest'|]; [| discriminate].
      injection Hup as <-. constructor; [done | by apply IH].
Qed.

Lemma freshVendor_wellFormed now id v : vendorWellFormed (freshVendor now id v).
Proof.
  unfold vendorWellFormed, within. simpl.
  split; [lia |]. split; [lra |]. split; [constructor |]. split; [done | constructor].
Qed.

Lemma rowOrFresh_wellFormed now v db :
  (forall v' vm, vendor_memories db !! v' = Some vm -> vendorWellFormed vm) ->
  vendorWellFormed (rowOrFresh now v db).
Proof.
  intros Hdb. unfold rowOrFresh.
  destruct (vendor_memories db !! v) as [m|] eqn:Hm; simpl;
    [by eapply Hdb | apply freshVendor_wellFormed].
Qed.

Lemma bumpedMapping_ok (success : bool) (m : FieldMapping) :
  fieldMappingOk m ->
  fieldMappingOk
    {| sourceLabel := sourceLabel m; targetField := targetField m;
       fm_confidence :=
         calculateConfidence
           (if success then fm_successCount m + 1 else fm_successCount m)
           (if success then fm_failureCount m else fm_failureCount m + 1);
       fm_successCount := if success then fm_successCount m + 1 else fm_successCount m;
       fm_failureCount := if success then fm_failureCount m else fm_failureCount m + 1 |}.
Proof.
  intros (Hs & Hf & Ht & _). unfold fieldMappingOk. simpl.
  destruct success; (repeat split; try lia); apply calculateConfidence_range; lia.
Qed.

Lemma runVendorOp_wellFormed db op :
  (forall v vm, vendor_memories db !! v = Some vm -> vendorWellFormed vm) ->
  forall v vm, vendor_memories (runVendorOp db op) !! v = Some vm -> vendorWellFormed vm.
Proof.
  intros Hdb v vm.
  pose proof (rowOrFresh_wellFormed (timeOf op) (vendorOf op) db Hdb) as Hrow.
  lookup_after op; simpl in Hrow;
    (case_decide as Hv; [| by apply Hdb]).
  - (* updateFieldMapping *)
    intros [= <-]. destruct Hrow as (Hu & Hc & Hfm & Htb & Hsm).
    assert (Hmappings : Forall fieldMappingOk
      match updateFirst
              (fun m => String.eqb (toLowerCase (sourceLabel m)) (toLowerCase label) &&
                        String.eqb (targetField m) target)
              (fun m =>
                 {| sourceLabel := sourceLabel m; targetField := targetField m;
                    fm_confidence :=
                      calculateConfidence
                        (if success then fm_successCount m + 1 else fm_successCount m)
                        (if success then fm_failureCount m else fm_failureCount m + 1);
                    fm_successCount :=
                      if success then fm_successCount m + 1 else fm_successCount m;
                    fm_failureCount :=
                      if success then fm_failureCount m else fm_failureCount m + 1 |})
              (fieldMappings (rowOrFresh now vendorName db)) with
      | Some l => l
      | None =>
          fieldMappings (rowOrFresh now vendorName db) ++
          [{| sourceLabel := label; targetField := target;
              fm_confidence := if success then 0.6%Q else 0.3%Q;
              fm_successCount := if success then 1 else 0;
              fm_failureCount := if success then 0 else 1 |}]
      end).
    { destruct (updateFirst _ _ _) as [l|] eqn:Hup.
      - eapply updateFirst_Forall; [exact Hfm | | exact Hup].
        intros m. apply bumpedMapping_ok.
      - apply Forall_app. split; [done |]. apply Forall_singleton.
        unfold fieldMappingOk, within. simpl. destruct success; repeat split; lia || lra. }
    unfold vendorWellFormed. simpl. split; [lia |]. split; [| done].
    apply overallConfidenceOf_range; [| lia]. by apply subConfidences_range.
  - (* updateTaxBehavior *)
    intros [= <-]. destruct Hrow as (Hu & Hc & Hfm & Htb & Hsm).
    assert (Htax : forall t,
      Some match taxBehavior (rowOrFresh now vendorName db) with
           | Some tb =>
               {| isInclusive := isInclusive tb; defaultRate := defaultRate tb;
                  tb_confidence :=
                    if success then Qmin 1.0 (addDouble (tb_confidence tb) 0.1)
                    else Qmax (roundDouble 0.1) (subDouble (tb_confidence tb) 0.2) |}
           | None =>
               {| isInclusive := inclusive; defaultRate := rate;
                  tb_confidence := if success then 0.6%Q else 0.3%Q |}
           end = Some t -> within 0.1 1 (tb_confidence t)).
    { intros t [= <-]. destruct (taxBehavior _) as [tb|] eqn:Hsome; simpl.
      - specialize (Htb tb eq_refl). unfold within in *.
        destruct success;
          [by apply addDouble_step_range | by apply subDouble_step_range].
      - unfold within. destruct success; lra. }
    unfold vendorWellFormed. simpl. split; [lia |]. split; [| done].
    apply overallConfidenceOf_range; [| lia]. by apply subConfidences_range.
  - (* updateDefaultCurrency *)
    intros [= <-]. destruct Hrow as (Hu & Hc & Hfm & Htb & Hsm).
    unfold vendorWellFormed. simpl. split; [lia | done].
  - (* updateSkuMapping *)
    intros [= <-]. destruct Hrow as (Hu & Hc & Hfm & Htb & Hsm).
    assert (Hmappings : Forall (fun m => within 0.1 1 (sm_confidence m))
      match updateFirst
              (fun m =>
                 includes (toLowerCase (sm_description m))
                   (trim (toLowerCase description)) ||
                 includes (trim (toLowerCase description))
                   (toLowerCase (sm_description m)))
              (fun m =>
                 if success
                 then {| sm_description := sm_description m; sm_sku := sm_sku m;
                         sm_confidence := Qmin 1.0 (addDouble (sm_confidence m) 0.1);
                         sm_usageCount := sm_usageCount m + 1 |}
                 else {| sm_description := sm_description m; sm_sku := sm_sku m;
                         sm_confidence :=
                           Qmax (roundDouble 0.1) (subDouble (sm_confidence m) 0.2);
                         sm_usageCount := sm_usageCount m |})
              (skuMappings (rowOrFresh now vendorName db)) with
      | Some l => l
      | None =>
          skuMappings (rowOrFresh now vendorName db) ++
          [{| sm_description := trim (toLowerCase description); sm_sku := sku;
              sm_confidence := if success then 0.6%Q else 0.3%Q;
              sm_usageCount := 1 |}]
      end).
    { destruct (updateFirst _ _ _) as [l|] eqn:Hup.
      - eapply updateFirst_Forall; [exact Hsm | | exact Hup].
        intros m Hm. unfold within in *. destruct success; simpl;
          [by apply addDouble_step_range | by apply subDouble_step_range].
      - apply Forall_app. split; [done |]. apply Forall_singleton.
        unfold within. simpl. destruct success; lra. }
    unfold vendorWellFormed. simpl. split; [lia |]. split; [| done].
    apply overallConfidenceOf_range; [| lia]. by apply subConfidences_range.
  - (* updatePaymentTerms *)
    intros [= <-]. destruct Hrow as (Hu & Hc & Hfm & Htb & Hsm).
    unfold vendorWellFormed. simpl. split; [lia | done].
  - (* recordVendorUsage *)
    subst v. destruct (vendor_memories db !! vendorName) as [row|] eqn:Hr; [| done].
    intros [= <-]. destruct (Hdb _ _ Hr) as (Hu & Hc & Hfm & Htb & Hsm).
    unfold vendorWellFormed. simpl. split; [lia | done].
  - (* the opening *)
    by intros [= <-].
Qed.

Lemma runVendorOps_wellFormed ops db :
  (forall v vm, vendor_memories db !! v = Some vm -> vendorWellFormed vm) ->
  forall v vm, vendor_memories (runVendorOps ops db) !! v = Some vm ->
               vendorWellFormed vm.
Proof.
  revert db. induction ops as [|op ops IH]; intros db Hdb; [exact Hdb |].
  simpl. apply IH. by apply runVendorOp_wellFormed.
Qed.

(** X5.  After any run of vendor-memory operations from the empty store,
    every vendor row has a usage count that is not negative, an aggregate
    confidence between 0.3 and 1, field mappings observed at least once with
    confidences between 0.3 and 0.95, and tax and SKU confidences between 0.1
    and 1. *)
Theorem vendor_rows_stay_in_range (ops : list VendorOp) (v : string)
    (vm : VendorMemory) :
  vendor_memories (runVendorOps ops emptyDatabase) !! v = Some vm ->
  vendorWellFormed vm.
Proof.
  apply runVendorOps_wellFormed. intros v' vm' Hempty.
  simpl in Hempty. by rewrite lookup_empty in Hempty.
Qed.

End VendorMemoryRuns.

Lemma vendor_rows_stay_in_range_witness :
  exists vm,
    vendor_memories
      (runVendorOps
         [UpdateFieldMapping 0 "Supplier GmbH" "Leistungsdatum" "serviceDate" true;
          UpdateTaxBehavior 1 "Supplier GmbH" true 0.19 false]
         emptyDatabase) !! "Supplier GmbH" = Some vm /\
    vendorWellFormed vm.
Proof.
  eexists. split; [vm_compute; reflexivity |].
  apply (vendor_rows_stay_in_range
           [UpdateFieldMapping 0 "Supplier GmbH" "Leistungsdatum" "serviceDate" true;
            UpdateTaxBehavior 1 "Supplier GmbH" true 0.19 false]
           "Supplier GmbH").
  vm_compute. reflexivity.
Defined.

Section VendorMemoryUsage.
Import VendorMem.

(** X6.  Each of the five updates and [recordVendorUsage] counts exactly one
    use of the vendor it addresses and stamps the row with its time; the
    updates create the row when the vendor is unknown, [recordVendorUsage]
    then does nothing; the identifier and the creation time of a row never
    change; and no operation touches the row of another vendor. *)
Theorem vendor_operation_counts_one_use (op : VendorOp) (db : Database) :
  let v := vendorOf op in
  let db' := runVendorOp db op in
  (forall v', v' <> v -> vendor_memories db' !! v' = vendor_memories db !! v') /\
  match vendor_memories db !! v with
  | Some row =>
      exists row', vendor_memories db' !! v = Some row' /\
        vm_usageCount row' = vm_usageCount row + usesOf op /\
        vm_id row' = vm_id row /\ vm_createdAt row' = vm_createdAt row /\
        (usesOf op = 1 -> vm_lastUsed row' = timeOf op /\ vm_updatedAt row' = timeOf op)
  | None =>
      match op with
      | RecordVendorUsage _ _ => vendor_memories db' !! v = None
      | _ =>
          exists row', vendor_memories db' !! v = Some row' /\
            vm_usageCount row' = usesOf op /\
            vm_id row' = uuid (nextId db) /\ vm_createdAt row' = timeOf op
      end
  end.
Proof.
  intros v db'. subst v db'. split.
  - intros v' Hv'.
    destruct op; unfold runVendorOp;
      [ unfold updateFieldMapping | unfold updateTaxBehavior
      | unfold updateDefaultCurrency | unfold updateSkuMapping
      | unfold updatePaymentTerms | | ];
      cbv zeta;
      first [rewrite vendor_update_lookup | rewrite recordVendorUsage_lookup
            | rewrite ensureVendorMemory_lookup];
      by rewrite decide_False.
  - destruct op; unfold runVendorOp;
      [ unfold updateFieldMapping | unfold updateTaxBehavior
      | unfold updateDefaultCurrency | unfold updateSkuMapping
      | unfold updatePaymentTerms | | ];
      cbv zeta;
      first [rewrite vendor_update_lookup | rewrite recordVendorUsage_lookup
            | rewrite ensureVendorMemory_lookup];
      simpl; rewrite decide_True by done; unfold rowOrFresh;
      destruct (vendor_memories db !! vendorName) as [row|]; simpl;
      try done; eexists; (split; [reflexivity |]); simpl; repeat split; lia.
Qed.

(** *** Keys *)

Lemma updateFirst_keys {A K} (key : A -> K) (p : A -> bool) (f : A -> A) l l' :
  (forall x, key (f x) = key x) -> updateFirst p f l = Some l' ->
  map key l' = map key l.
Proof.
  intros Hf. revert l'. induction l as [|x l IH]; intros l' Hup; [discriminate |].
  simpl in Hup. destruct (p x).
  - injection Hup as <-. simpl. by rewrite Hf.
  - destruct (updateFirst p f l) as [rest'|]; [| discriminate].
    injection Hup as <-. simpl. by rewrite (IH rest').
Qed.

Lemma updateFirst_None {A} (p : A -> bool) (f : A -> A) l :
  updateFirst p f l = None -> forall x, x ∈ l -> p x = false.
Proof.
  induction l as [|y l IH]; intros Hup x Hx; [by apply elem_of_nil in Hx |].
  simpl in Hup. destruct (p y) eqn:Hy; [discriminate |].
  destruct (updateFirst p f l); [discriminate |].
  apply elem_of_cons in Hx as [-> | Hx]; [done | by apply IH].
Qed.

Lemma rowOrFresh_wellKeyed now v db :
  (forall v' vm, vendor_memories db !! v' = Some vm -> vendorWellKeyed v' vm) ->
  vendorWellKeyed v (rowOrFresh now v db).
Proof.
  intros Hdb. unfold rowOrFresh.
  destruct (vendor_memories db !! v) as [m|] eqn:Hm; simpl; [by apply Hdb |].
  split; [done | apply NoDup_nil_2].
Qed.

Lemma runVendorOp_wellKeyed db op :
  (forall v vm, vendor_memories db !! v = Some vm -> vendorWellKeyed v vm) ->
  forall v vm, vendor_memories (runVendorOp db op) !! v = Some vm -> vendorWellKeyed v vm.
Proof.
  intros Hdb v vm.
  pose proof (rowOrFresh_wellKeyed (timeOf op) (vendorOf op) db Hdb) as Hrow.
  destruct op; unfold runVendorOp;
    [ unfold updateFieldMapping | unfold updateTaxBehavior
    | unfold updateDefaultCurrency | unfold updateSkuMapping
    | unfold updatePaymentTerms | | ];
    cbv zeta;
    first [rewrite vendor_update_lookup | rewrite recordVendorUsage_lookup
          | rewrite ensureVendorMemory_lookup];
    simpl in Hrow; (case_decide as Hv; [subst v | by apply Hdb]).
  - (* updateFieldMapping *)
    intros [= <-]. destruct Hrow as [Hname Hkeys]. split; [done |]. simpl.
    destruct (updateFirst _ _ _) as [l|] eqn:Hup.
    + apply (updateFirst_keys fieldMappingKey) in Hup; [by rewrite Hup | done].
    + rewrite fmap_app. apply NoDup_app. split; [done |].
      split; [| apply NoDup_singleton].
      intros key Hin Hnew. apply list_elem_of_singleton in Hnew. subst key.
      apply list_elem_of_fmap in Hin as (m & Hkey & Hm).
      pose proof (updateFirst_None _ _ _ Hup m Hm) as Hsame.
      unfold fieldMappingKey in Hkey. simpl in Hkey. injection Hkey as Hl Ht.
      cbv beta in Hsame.
      rewrite <- Hl, <- Ht, !String.eqb_refl in Hsame. discriminate.
  - intros [= <-]. by destruct Hrow.
  - intros [= <-]. by destruct Hrow.
  - intros [= <-]. by destruct Hrow.
  - intros [= <-]. by destruct Hrow.
  - destruct (vendor_memories db !! vendorName) as [row|] eqn:Hr; [| done].
    intros [= <-]. by destruct (Hdb _ _ Hr).
  - by intros [= <-].
Qed.

Lemma runVendorOps_wellKeyed ops db :
  (forall v vm, vendor_memories db !! v = Some vm -> vendorWellKeyed v vm) ->
  forall v vm, vendor_memories (runVendorOps ops db) !! v = Some vm ->
               vendorWellKeyed v vm.
Proof.
  revert db. induction ops as [|op ops IH]; intros db Hdb; [exact Hdb |].
  simpl. apply IH. by apply runVendorOp_wellKeyed.
Qed.

(** X7.  After any run of vendor-memory operations from the empty store,
    every vendor row is filed under the vendor name it carries, and no two of
    its field mappings have the same target field and the same source label
    up to letter case: [updateFieldMapping] reinforces or weakens the mapping
    it finds and adds one only when it finds none. *)
Theorem vendor_field_mappings_stay_distinct (ops : list VendorOp) (v : string)
    (vm : VendorMemory) :
  vendor_memories (runVendorOps ops emptyDatabase) !! v = Some vm ->
  vendorWellKeyed v vm.
Proof.
  apply runVendorOps_wellKeyed. intros v' vm' Hempty.
  simpl in Hempty. by rewrite lookup_empty in Hempty.
Qed.

End VendorMemoryUsage.

Lemma vendor_field_mappings_stay_distinct_witness :
  exists vm,
    vendor_memories
      (runVendorOps
         [UpdateFieldMapping 0 "Supplier GmbH" "Leistungsdatum" "serviceDate" true;
          UpdateFieldMapping 1 "Supplier GmbH" "LEISTUNGSDATUM" "serviceDate" true]
         emptyDatabase) !! "Supplier GmbH" = Some vm /\
    length (fieldMappings vm) = 1%nat /\
    vendorWellKeyed "Supplier GmbH" vm.
Proof.
  eexists. split; [vm_compute; reflexivity |]. split; [reflexivity |].
  apply (vendor_field_mappings_stay_distinct
           [UpdateFieldMapping 0 "Supplier GmbH" "Leistungsdatum" "serviceDate" true;
            UpdateFieldMapping 1 "Supplier GmbH" "LEISTUNGSDATUM" "serviceDate" true]
           "Supplier GmbH").
  vm_compute. reflexivity.
Defined.

(** ** Ordered queries *)

Section OrderByFacts.
Context {A : Type} (geb : A -> A -> bool).

Lemma insertDesc_Permutation (c : A) (l : list A) : insertDesc geb c l ≡ₚ c :: l.
Proof.
  induction l as [|x l IH]; simpl; [done |].
  destruct (geb c x); [done |]. rewrite IH. apply Permutation_swap.
Qed.

Lemma orderByDesc_Permutation (l : list A) : orderByDesc geb l ≡ₚ l.
Proof.
  unfold orderByDesc. induction l as [|x l IH]; simpl; [done |].
  by rewrite insertDesc_Permutation, IH.
Qed.

Hypothesis geb_total : forall a b, geb a b = true \/ geb b a = true.
Hypothesis geb_trans : forall a b c, geb a b = true -> geb b c = true -> geb a c = true.

Lemma insertDesc_sorted (c : A) (l : list A) :
  StronglySorted (fun a b => geb a b = true) l ->
  StronglySorted (fun a b => geb a b = true) (insertDesc geb c l).
Proof.
  induction 1 as [|x l Hl IH Hx]; simpl.
  - repeat constructor.
  - destruct (geb c x) eqn:Hcx.
    + constructor; [by constructor |]. constructor; [done |].
      eapply Forall_impl; [exact Hx |]. intros y Hy. by eapply geb_trans.
    + constructor; [done |]. apply Forall_forall. intros y Hy.
      apply insertDesc_elem_of in Hy as [-> | Hy].
      * destruct (geb_total c x) as [Hc | Hc]; [congruence | done].
      * by apply (proj1 (Forall_forall _ _) Hx).
Qed.

Lemma orderByDesc_sorted (l : list A) :
  StronglySorted (fun a b => geb a b = true) (orderByDesc geb l).
Proof.
  unfold orderByDesc. induction l as [|x l IH]; simpl; [constructor |].
  by apply insertDesc_sorted.
Qed.

End OrderByFacts.

Lemma StronglySorted_filter {A} (R : A -> A -> Prop) (P : A -> Prop)
    `{forall x, Decision (P x)} (l : list A) :
  StronglySorted R l -> StronglySorted R (filter P l).
Proof.
  induction 1 as [|x l Hl IH Hx]; [constructor |].
  rewrite filter_cons. case_decide; [| done].
  constructor; [done |]. apply Forall_forall. intros y Hy.
  apply list_elem_of_filter in Hy as [_ Hy]. by apply (proj1 (Forall_forall _ _) Hx).
Qed.

Lemma head_sorted_first {A} (R : A -> A -> Prop) (l : list A) (x y : A) :
  StronglySorted R l -> head l = Some x -> y ∈ l -> y = x \/ R x y.
Proof.
  intros Hs Hh Hy. destruct l as [|z l]; [discriminate |]. injection Hh as ->.
  apply elem_of_cons in Hy as [-> | Hy]; [by left | right].
  apply StronglySorted_inv in Hs as [_ Hall].
  by apply (proj1 (Forall_forall _ _) Hall).
Qed.

Lemma Qleb_total a b : Qleb a b = true \/ Qleb b a = true.
Proof.
  destruct (Qlt_le_dec b a) as [Hlt | Hle].
  - right. apply Qleb_le. lra.
  - left. by apply Qleb_le.
Qed.

Lemma Qleb_trans a b c : Qleb b a = true -> Qleb c b = true -> Qleb c a = true.
Proof. rewrite !Qleb_le. intros. lra. Qed.

(** ** Correction memory: lookup and repeated recording *)

Section CorrectionLookup.
Import CorrectionMem.

Lemma getCorrectionMemoriesOf_sorted v db :
  StronglySorted (fun a b => Qleb (cm_confidence b) (cm_confidence a) = true)
    (getCorrectionMemoriesOf v db).
Proof.
  unfold getCorrectionMemoriesOf.
  apply (orderByDesc_sorted (fun a b => Qleb (cm_confidence b) (cm_confidence a))).
  - intros a b. apply Qleb_total.
  - intros a b c. apply Qleb_trans.
Qed.

Lemma findMatchingCorrection_spec (vendorName field : string)
    (pat : option string) (db : Database) :
  match fst (findMatchingCorrection vendorName field pat db) with
  | Some m =>
      m ∈ correction_memories db /\ cm_vendorName m = vendorName /\
      matchesCorrection field pat m = true /\
      forall m', m' ∈ correction_memories db -> cm_vendorName m' = vendorName ->
                 matchesCorrection field pat m' = true ->
                 (cm_confidence m' <= cm_confidence m)%Q
  | None =>
      forall m', m' ∈ correction_memories db -> cm_vendorName m' = vendorName ->
                 matchesCorrection field pat m' = false
  end.
Proof.
  rewrite findMatchingCorrection_eq. cbn [fst snd].
  destruct (head _) as [m|] eqn:Hhead.
  - pose proof (head_filter_Some _ _ _ Hhead) as [Hin Hmatch].
    apply getCorrectionMemoriesOf_elem_of in Hin as [Hin Hv].
    split; [done |]. split; [done |]. split; [done |].
    intros m' Hin' Hv' Hmatch'.
    pose proof (StronglySorted_filter _
                  (fun c => matchesCorrection field pat c = true) _
                  (getCorrectionMemoriesOf_sorted vendorName db)) as Hsorted.
    destruct (head_sorted_first _ _ m m' Hsorted Hhead) as [-> | Hle].
    + apply list_elem_of_filter. split; [done |].
      by apply getCorrectionMemoriesOf_elem_of.
    + lra.
    + by apply Qleb_le.
  - intros m' Hin' Hv'. apply not_true_iff_false. intros Hmatch'.
    apply head_None in Hhead.
    assert (Hm : m' ∈ filter (fun c => matchesCorrection field pat c = true)
                   (getCorrectionMemoriesOf vendorName db)).
    { apply list_elem_of_filter. split; [done |].
      by apply getCorrectionMemoriesOf_elem_of. }
    rewrite Hhead in Hm. by apply elem_of_nil in Hm.
Qed.

(** X8.  [findMatchingCorrection] reads the store without changing it.
    What it returns is a stored correction memory of the vendor that matches
    the field and the pattern and whose confidence no other matching memory
    of the vendor exceeds; it returns none only when no memory of the vendor
    matches. *)
Theorem findMatchingCorrection_best (vendorName field : string)
    (pat : option string) (db : Database) :
  snd (findMatchingCorrection vendorName field pat db) = db /\
  match fst (findMatchingCorrection vendorName field pat db) with
  | Some m =>
      m ∈ correction_memories db /\ cm_vendorName m = vendorName /\
      matchesCorrection field pat m = true /\
      forall m', m' ∈ correction_memories db -> cm_vendorName m' = vendorName ->
                 matchesCorrection field pat m' = true ->
                 (cm_confidence m' <= cm_confidence m)%Q
  | None =>
      forall m', m' ∈ correction_memories db -> cm_vendorName m' = vendorName ->
                 matchesCorrection field pat m' = false
  end.
Proof.
  split; [by rewrite findMatchingCorrection_eq |]. apply findMatchingCorrection_spec.
Qed.

Lemma prefix_refl (s : string) : String.prefix s s = true.
Proof.
  induction s as [|c s IH]; [done |]. simpl.
  destruct (Ascii.ascii_dec c c); [done | congruence].
Qed.

Lemma includes_refl (s : string) : includes s s = true.
Proof. destruct s; simpl; [done |]. rewrite prefix_refl. by destruct (ascii_dec a a). Qed.

Lemma matchesCorrection_own now id v f p t x :
  matchesCorrection f (Some p) (freshMemory now id v f p t x) = true.
Proof.
  unfold matchesCorrection, freshMemory. simpl. rewrite String.eqb_refl. simpl.
  destruct (truthy p && truthy p); [| done]. by rewrite includes_refl.
Qed.

(** A memory of the vendor that matches the field and the pattern is in
    the store after [recordCorrection]. *)
Lemma recordCorrection_leaves_match now v f p t x db :
  exists m, m ∈ correction_memories (snd (recordCorrection now v f p t x db)) /\
            cm_vendorName m = v /\ matchesCorrection f (Some p) m = true.
Proof.
  rewrite recordCorrection_db.
  pose proof (findMatchingCorrection_spec v f (Some p) (bumpId db)) as Hbest.
  destruct (fst (findMatchingCorrection v f (Some p) (bumpId db))) as [e|].
  - destruct Hbest as (Hin & Hv & Hmatch & _).
    rewrite reinforceCorrection_eq.
    destruct (lookupCorrection (cm_id e) (bumpId db)) as [row|]; [| by exists e].
    exists (if decide (cm_id e = cm_id e) then reinforced now row e else e).
    split; [simpl; unfold updateRows; apply list_elem_of_fmap; by exists e |].
    by rewrite decide_True.
  - exists (freshMemory now (uuid (nextId db)) v f p t x).
    split; [simpl; apply elem_of_app; right; by left |].
    split; [done | apply matchesCorrection_own].
Qed.

Lemma reinforceCorrection_ids now id db :
  map cm_id (correction_memories (snd (reinforceCorrection now id db)))
  = map cm_id (correction_memories db).
Proof.
  rewrite reinforceCorrection_eq. destruct (lookupCorrection id db); [| done].
  simpl. by apply updateRows_ids.
Qed.

(** X9.  [recordCorrection] adds at most one row to the correction-memory
    table, and a second call for the same vendor, field and pattern adds
    none, whatever correction type and value it is given: it finds a
    matching memory and reinforces it - the rows with the identifier of that
    memory get one more success and the confidence recomputed from the new
    counters, every other row is left as it was. *)
Theorem recordCorrection_repeat_adds_no_row
    (now now' : Z) (vendorName field pat : string)
    (type type' : CorrectionType) (value value' : JsValue) (db : Database) :
  let db1 := snd (recordCorrection now vendorName field pat type value db) in
  let db2 := snd (recordCorrection now' vendorName field pat type' value' db1) in
  (length (correction_memories db1) <= length (correction_memories db) + 1)%nat /\
  map cm_id (correction_memories db2) = map cm_id (correction_memories db1) /\
  exists m row,
    fst (findMatchingCorrection vendorName field (Some pat) db1) = Some m /\
    lookupCorrection (cm_id m) db1 = Some row /\
    correction_memories db2 =
      updateRows (cm_id m) (reinforced now' row) (correction_memories db1) /\
    exists row',
      lookupCorrection (cm_id m) db2 = Some row' /\
      successCount row' = successCount row + 1 /\
      failureCount row' = failureCount row /\
      cm_confidence row' =
        calculateCorrectionConfidence (successCount row + 1) (failureCount row).
Proof.
  intros db1 db2.
  assert (Hfound : exists m,
            fst (findMatchingCorrection vendorName field (Some pat) db1) = Some m).
  { pose proof (findMatchingCorrection_spec vendorName field (Some pat) db1)
      as Hbest.
    destruct (fst (findMatchingCorrection vendorName field (Some pat) db1)) as [m|];
      [by exists m |].
    destruct (recordCorrection_leaves_match now vendorName field pat type value db)
      as (m & Hin & Hv & Hmatch).
    fold db1 in Hin. rewrite (Hbest m Hin Hv) in Hmatch. discriminate. }
  split; [| split].
  - subst db1. rewrite recordCorrection_db.
    destruct (fst (findMatchingCorrection vendorName field (Some pat) (bumpId db))).
    + pose proof (reinforceCorrection_ids now (cm_id c) (bumpId db)) as Hids.
      apply (f_equal length) in Hids. rewrite !length_map in Hids.
      rewrite Hids. simpl. lia.
    + simpl. rewrite length_app. simpl. lia.
  - subst db2. rewrite recordCorrection_db.
    destruct Hfound as [m Hm].
    assert (Hm' : fst (findMatchingCorrection vendorName field (Some pat) (bumpId db1))
                  = Some m) by exact Hm.
    rewrite Hm'. by rewrite reinforceCorrection_ids.
  - destruct Hfound as [m Hm].
    pose proof (recordCorrection_table now' vendorName field pat type' value' db1)
      as Hrule.
    rewrite Hm in Hrule. destruct Hrule as (row & Hrow & Htable & Hafter).
    exists m, row. split; [exact Hm |]. split; [exact Hrow |].
    split; [exact Htable |].
    exists (reinforced now' row row). by split.
Qed.

End CorrectionLookup.

(** ** Correction memory: the direction of reinforcing and weakening *)

Section CorrectionDirection.
Import CorrectionMem.

(** The adjusted rate, for a memory with at least one success. *)
Lemma adjustedRate_facts s f :
  1 <= s -> 0 <= f ->
  let a := (inject_Z s / (inject_Z s + inject_Z f * 2))%Q in
  (a * (inject_Z s + inject_Z f * 2) == inject_Z s)%Q /\ (0 <= a <= 1)%Q.
Proof.
  intros Hs Hf a.
  assert (HS : (1 <= inject_Z s)%Q).
  { change 1%Q with (inject_Z 1). by rewrite <- Zle_Qle. }
  pose proof (inject_Z_nonneg f Hf) as HF.
  assert (Ha : (a * (inject_Z s + inject_Z f * 2) == inject_Z s)%Q)
    by (subst a; field; lra).
  clearbody a. split; [done |]. split; nra.
Qed.

Lemma adjustedRate_more_successes s f :
  1 <= s -> 0 <= f ->
  (inject_Z s / (inject_Z s + inject_Z f * 2)
   <= inject_Z (s + 1) / (inject_Z (s + 1) + inject_Z f * 2))%Q.
Proof.
  intros Hs Hf.
  destruct (adjustedRate_facts s f Hs Hf) as [Ha Ha01]. cbv zeta in Ha, Ha01.
  assert (HS : (1 <= inject_Z s)%Q).
  { change 1%Q with (inject_Z 1). by rewrite <- Zle_Qle. }
  pose proof (inject_Z_nonneg f Hf) as HF.
  rewrite (inject_Z_plus s 1). change (inject_Z 1) with 1%Q.
  set (a := (inject_Z s / (inject_Z s + inject_Z f * 2))%Q) in *. clearbody a.
  apply Qle_shift_div_l; [lra | nra].
Qed.

Lemma adjustedRate_more_failures s f :
  1 <= s -> 0 <= f ->
  (inject_Z s / (inject_Z s + inject_Z (f + 1) * 2)
   <= inject_Z s / (inject_Z s + inject_Z f * 2))%Q.
Proof.
  intros Hs Hf.
  destruct (adjustedRate_facts s f Hs Hf) as [Ha Ha01]. cbv zeta in Ha, Ha01.
  assert (HS : (1 <= inject_Z s)%Q).
  { change 1%Q with (inject_Z 1). by rewrite <- Zle_Qle. }
  pose proof (inject_Z_nonneg f Hf) as HF.
  rewrite (inject_Z_plus f 1). change (inject_Z 1) with 1%Q.
  set (a := (inject_Z s / (inject_Z s + inject_Z f * 2))%Q) in *. clearbody a.
  apply Qle_shift_div_r; [lra | nra].
Qed.

(** With three observations or more the observation factor is 1. *)
Lemma calculateCorrectionConfidence_many s f :
  1 <= s -> 0 <= f -> 3 <= s + f ->
  (calculateCorrectionConfidence s f ==
   Qmin 0.95 (Qmax 0.1 (0.3 + inject_Z s / (inject_Z s + inject_Z f * 2) * 0.65)))%Q.
Proof.
  intros Hs Hf Hmany. unfold calculateCorrectionConfidence.
  rewrite (proj2 (Z.eqb_neq (s + f) 0)) by lia. cbv zeta.
  destruct (observationFactor_facts (s + f) ltac:(lia)) as (_ & _ & Ho).
  cbv zeta in Ho. specialize (Ho Hmany).
  set (o := Qmin 1.0 (inject_Z (s + f) / 3)) in *. clearbody o.
  set (a := (inject_Z s / (inject_Z s + inject_Z f * 2))%Q). clearbody a.
  assert (Hx : (0.3 + a * 0.65 * o == 0.3 + a * 0.65)%Q) by (rewrite Ho; ring).
  set (x := (0.3 + a * 0.65 * o)%Q) in *. set (y := (0.3 + a * 0.65)%Q) in *.
  clearbody x y. qminmax.
Qed.

Lemma storedConfidence_direction s f :
  1 <= s -> 0 <= f ->
  (storedConfidence s f <= calculateCorrectionConfidence (s + 1) f)%Q /\
  (calculateCorrectionConfidence s (f + 1) <= storedConfidence s f)%Q.
Proof.
  intros Hs Hf.
  destruct (Z_lt_le_dec (s + f) 3) as [Hfew | Hmany].
  - assert (Hcases : (s = 1 /\ f = 0) \/ (s = 2 /\ f = 0) \/ (s = 1 /\ f = 1)) by lia.
    destruct Hcases as [[-> ->] | [[-> ->] | [-> ->]]];
      split; vm_compute; discriminate.
  - assert (Hstored : storedConfidence s f = calculateCorrectionConfidence s f).
    { unfold storedConfidence.
      destruct ((s =? 1) && (f =? 0)) eqn:Hone; [| done].
      apply andb_true_iff in Hone as [H1 H0]. lia. }
    rewrite Hstored.
    rewrite (calculateCorrectionConfidence_many s f),
      (calculateCorrectionConfidence_many (s + 1) f),
      (calculateCorrectionConfidence_many s (f + 1)) by lia.
    pose proof (adjustedRate_more_successes s f Hs Hf) as Hup.
    pose proof (adjustedRate_more_failures s f Hs Hf) as Hdown.
    set (a := (inject_Z s / (inject_Z s + inject_Z f * 2))%Q) in *.
    set (b := (inject_Z (s + 1) / (inject_Z (s + 1) + inject_Z f * 2))%Q) in *.
    set (c := (inject_Z s / (inject_Z s + inject_Z (f + 1) * 2))%Q) in *.
    clearbody a b c. split; qminmax.
Qed.

(** X10.  In every store reached from the empty one by create / reinforce /
    weaken operations, [reinforceCorrection] never lowers the stored
    confidence of the memory it addresses, and [weakenCorrection] never raises
    it. *)
Theorem reinforce_raises_weaken_lowers (ops : list MemoryOp) (now : Z)
    (correctionId : string) (row : CorrectionMemory) :
  let db := runOps ops emptyDatabase in
  lookupCorrection correctionId db = Some row ->
  (exists up,
     lookupCorrection correctionId (snd (reinforceCorrection now correctionId db))
       = Some up /\
     successCount up = successCount row + 1 /\
     (cm_confidence row <= cm_confidence up)%Q) /\
  (exists down,
     lookupCorrection correctionId (snd (weakenCorrection now correctionId db))
       = Some down /\
     failureCount down = failureCount row + 1 /\
     (cm_confidence down <= cm_confidence row)%Q).
Proof.
  intros db Hrow.
  destruct (storeInvariant_runOps ops emptyDatabase storeInvariant_empty)
    as [_ Hall]. fold db in Hall.
  pose proof (lookupCorrection_Some _ _ _ Hrow) as [Hin _].
  destruct (proj1 (Forall_forall _ _) Hall row Hin) as (Hs & Hf & Hconf).
  destruct (storedConfidence_direction _ _ Hs Hf) as [Hup Hdown].
  split.
  - exists (reinforced now row row).
    split; [| split; [done |]].
    + rewrite reinforceCorrection_eq, Hrow. simpl.
      by apply lookupCorrection_updateRows.
    + simpl. by rewrite Hconf.
  - exists (weakened now row row).
    split; [| split; [done |]].
    + rewrite weakenCorrection_eq, Hrow. simpl.
      by apply lookupCorrection_updateRows.
    + simpl. by rewrite Hconf.
Qed.

End CorrectionDirection.

Lemma reinforce_raises_weaken_lowers_witness :
  let ops := [Create 0 "Supplier GmbH" "currency" "missing_currency"
                set_currency (VStr "EUR")] in
  let row := freshMemory 0 "uuid-0" "Supplier GmbH" "currency" "missing_currency"
               set_currency (VStr "EUR") in
  CorrectionMem.lookupCorrection "uuid-0" (runOps ops emptyDatabase) = Some row /\
  (exists down,
     CorrectionMem.lookupCorrection "uuid-0"
       (snd (CorrectionMem.weakenCorrection 1 "uuid-0" (runOps ops emptyDatabase)))
       = Some down /\
     failureCount down = failureCount row + 1 /\
     (cm_confidence down <= cm_confidence row)%Q).
Proof.
  intros ops row.
  assert (Hrow : CorrectionMem.lookupCorrection "uuid-0" (runOps ops emptyDatabase)
                 = Some row) by (vm_compute; reflexivity).
  split; [exact Hrow |].
  exact (proj2 (reinforce_raises_weaken_lowers ops 1 "uuid-0" row Hrow)).
Defined.

(** ** Resolution memory and the ordered queries *)

Section ResolutionQueries.
Import ResolutionMem Queries.

Lemma Zleb_total a b : (a <=? b) = true \/ (b <=? a) = true.
Proof. destruct (Z.leb_spec a b); [by left | right; apply Z.leb_le; lia]. Qed.

Lemma StronglySorted_impl {A} (R S : A -> A -> Prop) (l : list A) :
  (forall a b, R a b -> S a b) -> StronglySorted R l -> StronglySorted S l.
Proof.
  intros HRS. induction 1 as [|x l Hl IH Hx]; constructor; [done |].
  eapply Forall_impl; [exact Hx | by intros; apply HRS].
Qed.

Lemma getResolutionMemories_eq v db :
  getResolutionMemories v db =
  (orderByDesc (fun a b => rm_createdAt b <=? rm_createdAt a) (resolutionsOf v db), db).
Proof. reflexivity. Qed.

Lemma getResolutionMemories_newestFirst v db :
  newestFirst (fst (getResolutionMemories v db)).
Proof.
  rewrite getResolutionMemories_eq. simpl. unfold newestFirst.
  apply (StronglySorted_impl (fun a b => (rm_createdAt b <=? rm_createdAt a) = true)).
  { intros a b. apply Z.leb_le. }
  apply (orderByDesc_sorted (fun a b => rm_createdAt b <=? rm_createdAt a)).
  - intros a b. apply Zleb_total.
  - intros a b c. rewrite !Z.leb_le. lia.
Qed.

(** X11.  [getResolutionMemories], [getCorrectionMemories] and
    [getAllProcessedInvoices] leave the store as it is and return every row
    they select exactly once: the resolutions of the vendor newest first, the
    correction memories of the vendor by descending confidence, the ledger
    latest first. *)
Theorem ordered_queries_are_complete (vendorName : string) (db : Database) :
  (snd (getResolutionMemories vendorName db) = db /\
   fst (getResolutionMemories vendorName db) ≡ₚ resolutionsOf vendorName db /\
   newestFirst (fst (getResolutionMemories vendorName db))) /\
  (snd (CorrectionMem.getCorrectionMemories vendorName db) = db /\
   fst (CorrectionMem.getCorrectionMemories vendorName db) ≡ₚ
     filter (fun c => cm_vendorName c = vendorName) (correction_memories db) /\
   bestFirst (fst (CorrectionMem.getCorrectionMemories vendorName db))) /\
  (snd (getAllProcessedInvoices db) = db /\
   fst (getAllProcessedInvoices db) ≡ₚ processed_invoices db /\
   latestFirst (fst (getAllProcessedInvoices db))).
Proof.
  split; [| split].
  - split; [done |]. split; [| apply getResolutionMemories_newestFirst].
    rewrite getResolutionMemories_eq. apply orderByDesc_Permutation.
  - split; [done |]. split; [apply orderByDesc_Permutation |].
    unfold bestFirst.
    apply (StronglySorted_impl
             (fun a b => Qleb (cm_confidence b) (cm_confidence a) = true)).
    { intros a b. apply Qleb_le. }
    apply getCorrectionMemoriesOf_sorted.
  - split; [done |]. split; [apply orderByDesc_Permutation |].
    unfold latestFirst.
    apply (StronglySorted_impl (fun a b => (processedAt b <=? processedAt a) = true)).
    { intros a b. apply Z.leb_le. }
    apply (orderByDesc_sorted (fun a b => processedAt b <=? processedAt a)).
    + intros a b. apply Zleb_total.
    + intros a b c. rewrite !Z.leb_le. lia.
Qed.

Lemma filtered_resolutions v t db :
  filter (fun r => discrepancyType r = t) (fst (getResolutionMemories v db))
  ≡ₚ resolutionsOfType v t db.
Proof.
  rewrite getResolutionMemories_eq. simpl. unfold resolutionsOfType.
  by rewrite orderByDesc_Permutation.
Qed.

Lemma verdict_partition (rows : list ResolutionMemory) :
  (length (filter (fun r => resolution r = approved) rows) +
   length (filter (fun r => resolution r = rejected) rows) = length rows)%nat.
Proof.
  induction rows as [|r rows IH]; [done |].
  rewrite !filter_cons. destruct (resolution r) eqn:Hr;
    rewrite ?decide_True, ?decide_False by done; simpl; lia.
Qed.

(** X12.  [getResolutionStats] counts every resolution of the vendor and
    the discrepancy type exactly once, as approved or as rejected; the
    approval rate it reports is the approved share of them, a number between
    0 and 1, and is 0.5 when there is none. *)
Theorem getResolutionStats_counts (vendorName type : string) (db : Database) :
  let stats := fst (getResolutionStats vendorName type db) in
  let rows := resolutionsOfType vendorName type db in
  snd (getResolutionStats vendorName type db) = db /\
  approvedCount stats = length (filter (fun r => resolution r = approved) rows) /\
  rejectedCount stats = length (filter (fun r => resolution r = rejected) rows) /\
  (approvedCount stats + rejectedCount stats = length rows)%nat /\
  (0 <= approvalRate stats <= 1)%Q /\
  (approvalRate stats * inject_Z (Z.of_nat (length rows)) ==
     if (0 <? length rows)%nat then inject_Z (Z.of_nat (approvedCount stats))
     else 0)%Q /\
  (rows = [] -> approvalRate stats = 0.5%Q).
Proof.
  intros stats rows. subst stats.
  unfold getResolutionStats, mbind, db_bind, ret, mret, db_ret.
  rewrite getResolutionMemories_eq. cbn [fst snd approvedCount rejectedCount approvalRate].
  pose proof (filtered_resolutions vendorName type db) as Hperm.
  rewrite getResolutionMemories_eq in Hperm. cbn [fst] in Hperm. fold rows in Hperm.
  set (filtered := filter (fun r => discrepancyType r = type) _) in *.
  assert (Ha : length (filter (fun r => resolution r = approved) filtered)
               = length (filter (fun r => resolution r = approved) rows))
    by (by rewrite Hperm).
  assert (Hr : length (filter (fun r => resolution r = rejected) filtered)
               = length (filter (fun r => resolution r = rejected) rows))
    by (by rewrite Hperm).
  rewrite Ha, Hr. pose proof (verdict_partition rows) as Hpart.
  set (a := length (filter (fun r => resolution r = approved) rows)) in *.
  set (r := length (filter (fun r => resolution r = rejected) rows)) in *.
  split; [done |]. split; [done |]. split; [done |]. split; [done |].
  rewrite Hpart.
  destruct (0 <? length rows)%nat eqn:Hpos.
  - apply Nat.ltb_lt in Hpos.
    assert (Hn : (0 < inject_Z (Z.of_nat (length rows)))%Q).
    { change 0%Q with (inject_Z 0). rewrite <- Zlt_Qlt. lia. }
    assert (Hle : (inject_Z (Z.of_nat a) <= inject_Z (Z.of_nat (length rows)))%Q)
      by (rewrite <- Zle_Qle; lia).
    pose proof (inject_Z_nonneg (Z.of_nat a) ltac:(lia)) as Ha0.
    assert (Hrate : (inject_Z (Z.of_nat a) / inject_Z (Z.of_nat (length rows)) *
                     inject_Z (Z.of_nat (length rows)) == inject_Z (Z.of_nat a))%Q)
      by (field; lra).
    set (rate := (inject_Z (Z.of_nat a) / inject_Z (Z.of_nat (length rows)))%Q) in *.
    clearbody rate.
    split; [split; nra |]. split; [done |].
    intros Hnil. rewrite Hnil in Hpos. simpl in Hpos. lia.
  - apply Nat.ltb_ge in Hpos.
    assert (Hlen : length rows = 0%nat) by lia. rewrite Hlen.
    split; [lra |]. split; [| done].
    change (inject_Z (Z.of_nat 0)) with 0%Q. ring.
Qed.

Lemma slice0_length {A} (l : list A) (n : Z) :
  Z.of_nat (length (slice0 l n)) =
  if n <? 0 then Z.max (Z.of_nat (length l) + n) 0 else Z.min n (Z.of_nat (length l)).
Proof.
  unfold slice0. cbv zeta. rewrite length_take.
  destruct (n <? 0) eqn:Hn; [apply Z.ltb_lt in Hn | apply Z.ltb_ge in Hn]; lia.
Qed.

Lemma StronglySorted_take {A} (R : A -> A -> Prop) (l : list A) (n : nat) :
  StronglySorted R l -> StronglySorted R (take n l).
Proof.
  intros Hs. revert n. induction Hs as [|x l Hl IH Hx]; intros [|n]; simpl;
    try constructor; [apply IH |].
  apply Forall_forall. intros y Hy.
  apply (proj1 (Forall_forall _ _) Hx).
  eapply elem_of_prefix; [exact Hy | apply prefix_take].
Qed.

Lemma StronglySorted_app_order {A} (R : A -> A -> Prop) (l1 l2 : list A) :
  StronglySorted R (l1 ++ l2) ->
  forall x y, x ∈ l1 -> y ∈ l2 -> R x y.
Proof.
  induction l1 as [|a l1 IH]; intros Hs x y Hx Hy; [by apply elem_of_nil in Hx |].
  simpl in Hs. apply StronglySorted_inv in Hs as [Hs Ha].
  apply elem_of_cons in Hx as [-> | Hx]; [| by apply IH].
  apply (proj1 (Forall_forall _ _) Ha). apply elem_of_app. by right.
Qed.

(** X13.  [findSimilarResolutions] returns resolutions of the vendor and
    the discrepancy type only, newest first, and as many of them as the
    limit allows: all of them when there are no more than the limit, the
    [limit] newest otherwise (5 when no limit is given); a negative limit
    drops that many of the oldest instead.  The rows it leaves out are the
    oldest: together with the rows returned they are the resolutions of the
    vendor and the type, each once, and none of them is newer than a row
    returned. *)
Theorem findSimilarResolutions_limit (vendorName type : string)
    (limit : option Z) (db : Database) :
  let found := fst (findSimilarResolutions vendorName type limit db) in
  let available := Z.of_nat (length (resolutionsOfType vendorName type db)) in
  let n := default 5 limit in
  snd (findSimilarResolutions vendorName type limit db) = db /\
  (forall r, r ∈ found ->
     r ∈ resolution_memories db /\ rm_vendorName r = vendorName /\
     discrepancyType r = type) /\
  newestFirst found /\
  Z.of_nat (length found) =
    (if n <? 0 then Z.max (available + n) 0 else Z.min n available) /\
  exists leftOut,
    found ++ leftOut ≡ₚ resolutionsOfType vendorName type db /\
    newestFirst (found ++ leftOut) /\
    (forall r r', r ∈ found -> r' ∈ leftOut -> rm_createdAt r' <= rm_createdAt r).
Proof.
  intros found available n. subst found available n.
  unfold findSimilarResolutions, mbind, db_bind, ret, mret, db_ret.
  pose proof (filtered_resolutions vendorName type db) as Hperm.
  pose proof (getResolutionMemories_newestFirst vendorName db) as Hsorted.
  destruct (getResolutionMemories vendorName db) as [resolutions db'] eqn:Hget.
  assert (Hdb : db' = db) by (by rewrite getResolutionMemories_eq in Hget; injection Hget).
  subst db'. cbn [fst snd] in *.
  assert (Hall : newestFirst (filter (fun r => discrepancyType r = type) resolutions))
    by (by apply StronglySorted_filter).
  split; [done |]. split; [| split; [| split]].
  - intros r Hr.
    assert (Hin : r ∈ filter (fun r => discrepancyType r = type) resolutions).
    { eapply elem_of_prefix; [exact Hr |]. unfold slice0. apply prefix_take. }
    rewrite Hperm in Hin. unfold resolutionsOfType, resolutionsOf in Hin.
    apply list_elem_of_filter in Hin as [Ht Hin].
    by apply list_elem_of_filter in Hin as [Hv Hin].
  - unfold slice0, newestFirst. by apply StronglySorted_take.
  - rewrite slice0_length. apply Permutation_length in Hperm. by rewrite Hperm.
  - unfold slice0. cbv zeta.
    set (k := Z.to_nat _).
    exists (drop k (filter (fun r => discrepancyType r = type) resolutions)).
    rewrite take_drop. split; [exact Hperm |]. split; [exact Hall |].
    intros r r' Hr Hr'.
    rewrite <- (take_drop k (filter _ resolutions)) in Hall.
    exact (StronglySorted_app_order _ _ _ Hall r r' Hr Hr').
Qed.

End ResolutionQueries.

(** ** Duplicate detection, continued *)

Section DuplicateMore.
Import DuplicateDetection.
Context `{JsRuntime}.

Lemma selectProcessed_elem_of invoice db r :
  r ∈ selectProcessed (vendor invoice) (invoiceNumber (fields invoice)) db <->
  r ∈ processed_invoices db /\ sameDocument invoice r.
Proof.
  unfold selectProcessed, sameDocument.
  rewrite orderByDesc_elem_of, list_elem_of_filter. tauto.
Qed.

Lemma selectProcessed_sorted v n db :
  StronglySorted (fun a b => (processedAt b <=? processedAt a) = true)
    (selectProcessed v n db).
Proof.
  unfold selectProcessed.
  apply (orderByDesc_sorted (fun a b => processedAt b <=? processedAt a)).
  - intros a b. apply Zleb_total.
  - intros a b c. rewrite !Z.leb_le. lia.
Qed.

Lemma checkDuplicateIn_reports (invoice : Invoice) (db : Database) :
  match checkDuplicateIn db invoice with
  | Some r =>
      r ∈ processed_invoices db /\ sameDocument invoice r /\
      (forall r', r' ∈ processed_invoices db -> sameDocument invoice r' ->
                  processedAt r' <= processedAt r) /\
      (withinSevenDays r invoice && withinTolerance r invoice = true \/
       hash r = generateInvoiceHash invoice)
  | None => True
  end /\
  ((forall r, r ∈ processed_invoices db -> sameDocument invoice r -> False) ->
   checkDuplicateIn db invoice = None).
Proof.
  unfold checkDuplicateIn.
  pose proof (selectProcessed_sorted (vendor invoice) (invoiceNumber (fields invoice)) db)
    as Hsorted.
  pose proof (selectProcessed_elem_of invoice db) as Hmem.
  destruct (selectProcessed _ _ db) as [|existing rest] eqn:Hsel; [done |].
  assert (Hfirst : existing ∈ processed_invoices db /\ sameDocument invoice existing)
    by (apply Hmem; left).
  destruct Hfirst as [Hin Hsame].
  assert (Hlatest : forall r', r' ∈ processed_invoices db -> sameDocument invoice r' ->
            processedAt r' <= processedAt existing).
  { intros r' Hin' Hsame'.
    destruct (head_sorted_first _ _ existing r' Hsorted eq_refl) as [-> | Hle].
    - by apply Hmem.
    - done.
    - by apply Z.leb_le. }
  split; [| intros Hnone; by destruct (Hnone _ Hin Hsame)].
  destruct (withinSevenDays existing invoice && withinTolerance existing invoice)
    eqn:Hnear.
  - split; [done |]. split; [done |]. split; [done |]. left. by rewrite Hnear.
  - destruct (String.eqb_spec (hash existing) (generateInvoiceHash invoice));
      [| done].
    split; [done |]. split; [done |]. split; [done |]. by right.
Qed.

(** X14.  [checkDuplicate] reads the store without changing it.  The entry
    it reports is a ledger entry with the vendor and the invoice number of
    the document, the one processed last among those, and it either passes
    the date and amount tests or carries the fingerprint of the document.  A
    document whose vendor and invoice number are not in the ledger is never
    reported. *)
Theorem checkDuplicate_reports_latest_entry (invoice : Invoice) (db : Database) :
  snd (checkDuplicate invoice db) = db /\
  match fst (checkDuplicate invoice db) with
  | Some r =>
      r ∈ processed_invoices db /\ sameDocument invoice r /\
      (forall r', r' ∈ processed_invoices db -> sameDocument invoice r' ->
                  processedAt r' <= processedAt r) /\
      (withinSevenDays r invoice && withinTolerance r invoice = true \/
       hash r = generateInvoiceHash invoice)
  | None => True
  end /\
  ((forall r, r ∈ processed_invoices db -> sameDocument invoice r -> False) ->
   fst (checkDuplicate invoice db) = None).
Proof.
  split; [done |]. apply checkDuplicateIn_reports.
Qed.

Lemma withinTolerance_negative existing invoice :
  (pi_grossTotal existing < 0)%Q -> withinTolerance existing invoice = false.
Proof.
  intros Hneg. unfold withinTolerance, mulDouble. cbv zeta.
  apply not_true_iff_false. rewrite Qleb_le. intros Hle.
  pose proof (Qabs_nonneg
                (subDouble (pi_grossTotal existing) (grossTotal (fields invoice)))).
  pose proof (roundDouble_neg _ Hneg) as Hneg'.
  rewrite double_001 in Hle.
  assert (Hprod : (roundDouble (pi_grossTotal existing) *
                   (5764607523034235 # 576460752303423488) < 0)%Q) by lra.
  apply roundDouble_neg in Hprod. lra.
Qed.

(** X15.  The amount test compares the difference of the two gross totals
    with one percent of the recorded total, sign included.  When the ledger
    entries of a document's vendor and invoice number have negative gross
    totals, as the entries of credit notes have, that test never passes, and
    [checkDuplicate] reports an entry only when its fingerprint is that of
    the document. *)
Theorem negative_totals_match_by_fingerprint_only (invoice : Invoice)
    (db : Database) (r : ProcessedInvoice) :
  (forall r', r' ∈ processed_invoices db -> sameDocument invoice r' ->
              (pi_grossTotal r' < 0)%Q) ->
  fst (checkDuplicate invoice db) = Some r ->
  withinTolerance r invoice = false /\ hash r = generateInvoiceHash invoice.
Proof.
  intros Hneg Hfound.
  pose proof (checkDuplicateIn_reports invoice db) as (Hsound & _).
  change (checkDuplicateIn db invoice = Some r) in Hfound.
  rewrite Hfound in Hsound. destruct Hsound as (Hin & Hsame & _ & Hwhy).
  pose proof (withinTolerance_negative r invoice (Hneg r Hin Hsame)) as Htol.
  split; [done |]. destruct Hwhy as [Hnear | Hhash]; [| done].
  rewrite Htol, andb_false_r in Hnear. discriminate.
Qed.

End DuplicateMore.

Lemma negative_totals_match_by_fingerprint_only_witness :
  let creditNote := redated "2024-01-01" (-119) Samples.invoice1 in
  let db := snd (@DuplicateDetection.recordProcessedInvoice sampleRuntime 1000
                   creditNote emptyDatabase) in
  let entry := @ledgerEntry sampleRuntime 1000 "uuid-0" creditNote in
  fst (@DuplicateDetection.checkDuplicate sampleRuntime creditNote db) = Some entry /\
  DuplicateDetection.withinTolerance entry creditNote = false /\
  hash entry = @DuplicateDetection.generateInvoiceHash sampleRuntime creditNote.
Proof.
  intros creditNote db entry.
  assert (Hfound : fst (@DuplicateDetection.checkDuplicate sampleRuntime creditNote db)
                   = Some entry) by (vm_compute; reflexivity).
  split; [exact Hfound |].
  apply (@negative_totals_match_by_fingerprint_only sampleRuntime creditNote db entry);
    [| exact Hfound].
  intros r' Hin _. apply list_elem_of_singleton in Hin. subst r'. reflexivity.
Defined.

Section ParseDate.
Import DuplicateDetection.
Context `{JsRuntime}.

Lemma length_list_ascii_of_string (s : string) :
  length (list_ascii_of_string s) = String.length s.
Proof. induction s as [|c s IH]; simpl; [done | by rewrite IH]. Qed.

Lemma isDigit_not_dot c : isDigit c = true -> Ascii.eqb c "."%char = false.
Proof.
  intros Hd. destruct (Ascii.eqb_spec c "."%char) as [-> |]; [| done].
  vm_compute in Hd. discriminate.
Qed.

Lemma isDigit_not_dash c : isDigit c = true -> Ascii.eqb c "-"%char = false.
Proof.
  intros Hd. destruct (Ascii.eqb_spec c "-"%char) as [-> |]; [| done].
  vm_compute in Hd. discriminate.
Qed.

Lemma digitsValue_Some (cs : list ascii) :
  forallb isDigit cs = true ->
  digitsValue cs = Some (fold_left (fun acc c => acc * 10 + (code c - 48)) cs 0).
Proof. intros Hd. unfold digitsValue. by rewrite Hd. Qed.

(** X16.  [parseDate] accepts strings of exactly ten characters only, and it
    reads the three spellings DD.MM.YYYY, DD-MM-YYYY and YYYY-MM-DD of the
    same digits as the same instant.  It checks digits, not calendar ranges:
    any two digits are taken as a day and as a month and are handed to the
    date constructor. *)
Theorem parseDate_spellings_agree :
  (forall s t, parseDate s = Some t -> String.length s = 10%nat) /\
  (forall d1 d2 m1 m2 y1 y2 y3 y4 : ascii,
     forallb isDigit [d1; d2; m1; m2; y1; y2; y3; y4] = true ->
     exists dd mm yyyy,
       digitsValue [d1; d2] = Some dd /\
       digitsValue [m1; m2] = Some mm /\
       digitsValue [y1; y2; y3; y4] = Some yyyy /\
       parseDate (string_of_list_ascii
                    [d1; d2; "."%char; m1; m2; "."%char; y1; y2; y3; y4])
         = Some (dateTime yyyy (mm - 1) dd) /\
       parseDate (string_of_list_ascii
                    [d1; d2; "-"%char; m1; m2; "-"%char; y1; y2; y3; y4])
         = Some (dateTime yyyy (mm - 1) dd) /\
       parseDate (string_of_list_ascii
                    [y1; y2; y3; y4; "-"%char; m1; m2; "-"%char; d1; d2])
         = Some (dateTime yyyy (mm - 1) dd)).
Proof.
  split.
  - intros s t. unfold parseDate. rewrite <- length_list_ascii_of_string.
    destruct (negb (truthy s)); [done |].
    destruct (list_ascii_of_string s) as [|c0 [|c1 [|c2 [|c3 [|c4 [|c5 [|c6 [|c7
      [|c8 [|c9 [|c10 rest]]]]]]]]]]]; done.
  - intros d1 d2 m1 m2 y1 y2 y3 y4 Hd. cbn [forallb] in Hd.
    apply andb_true_iff in Hd as [Hd1 Hd]. apply andb_true_iff in Hd as [Hd2 Hd].
    apply andb_true_iff in Hd as [Hm1 Hd]. apply andb_true_iff in Hd as [Hm2 Hd].
    apply andb_true_iff in Hd as [Hy1 Hd]. apply andb_true_iff in Hd as [Hy2 Hd].
    apply andb_true_iff in Hd as [Hy3 Hd]. apply andb_true_iff in Hd as [Hy4 _].
    assert (Hdd : forallb isDigit [d1; d2] = true)
      by (cbn [forallb]; by rewrite Hd1, Hd2).
    assert (Hmm : forallb isDigit [m1; m2] = true)
      by (cbn [forallb]; by rewrite Hm1, Hm2).
    assert (Hyy : forallb isDigit [y1; y2; y3; y4] = true)
      by (cbn [forallb]; by rewrite Hy1, Hy2, Hy3, Hy4).
    eexists _, _, _.
    split; [by apply digitsValue_Some |]. split; [by apply digitsValue_Some |].
    split; [by apply digitsValue_Some |].
    unfold parseDate.
    cbn [string_of_list_ascii list_ascii_of_string truthy negb String.eqb].
    cbv zeta.
    rewrite !(isDigit_not_dot y3), !(isDigit_not_dash y3) by done.
    rewrite !(digitsValue_Some _ Hdd), !(digitsValue_Some _ Hmm),
      !(digitsValue_Some _ Hyy).
    done.
Qed.

End ParseDate.

(** ** Apply: what it leaves alone *)

Section ApplyFrames.
Import Apply.
Context `{Extractors}.

Lemma isSet_Some s : truthy s = true -> isSet (Some s) = true.
Proof. intros Hs. unfold isSet, orUndefined. by rewrite Hs. Qed.

Lemma orUndefined_isSet o s : orUndefined o = Some s -> isSet o = true.
Proof. intros Ho. unfold isSet. by rewrite Ho. Qed.

Lemma skuField_not f i :
  (exists c rest, f = String c rest /\ c <> "l"%char) -> skuField i <> f.
Proof.
  intros (c & rest & -> & Hc) Heq. destruct (skuField_head i) as [r Hr].
  rewrite Hr in Heq. by injection Heq as <-.
Qed.

Ltac other_name :=
  match goal with
  | |- skuField _ <> _ => apply skuField_not; eexists _, _; split; [reflexivity | done]
  | |- _ <> skuField _ =>
      apply not_eq_sym, skuField_not; eexists _, _; split; [reflexivity | done]
  | |- _ => done
  end.

(** What the SKU loop does to an item whose SKU is known, and which items
    its proposals are about. *)
Lemma applySkuMappings_known vm i items items' cs :
  applySkuMappings vm i items = (items', cs) ->
  map lineOf items' = map lineOf items /\
  (forall k ni, items !! k = Some ni -> skuUnknown ni = false ->
                items' !! k = Some ni) /\
  (forall c, c ∈ cs ->
     exists k ni, items !! k = Some ni /\ pc_field c = skuField (i + k) /\
                  skuUnknown ni = true).
Proof.
  revert i items' cs. induction items as [|item rest IH]; intros i items' cs Heq.
  - injection Heq as <- <-. split; [done |]. split; [done |].
    by intros c ?%elem_of_nil.
  - simpl in Heq. destruct (applySkuMappings vm (S i) rest) as [rest' cs'] eqn:Hrest.
    destruct (IH _ _ _ Hrest) as (Hlines & Hknown & Hcs).
    assert (Hlater : forall c, c ∈ cs' ->
              exists k ni, (item :: rest) !! k = Some ni /\
                           pc_field c = skuField (i + k) /\ skuUnknown ni = true).
    { intros c Hc. destruct (Hcs c Hc) as (k & ni & Hk & Hf & Hu).
      exists (S k), ni. split; [done |]. split; [| done].
      by rewrite Hf, Nat.add_succ_comm. }
    cbn [autoApplied] in Heq. fold (skuUnknown item) in Heq.
    destruct (skuUnknown item) eqn:Hunknown;
      [destruct (find _ (skuMappings vm)) as [m|] |];
      injection Heq as <- <-.
    + split; [| split].
      * simpl. rewrite Hlines. by destruct (Qleb _ _).
      * intros [|k] ni Hk Hu; simpl in Hk |- *; [| by apply Hknown].
        injection Hk as <-. congruence.
      * intros c [-> | Hc]%elem_of_cons; [| by apply Hlater].
        exists 0%nat, item. rewrite Nat.add_0_r. done.
    + split; [by simpl; rewrite Hlines | split; [| done]].
      intros [|k] ni Hk Hu; simpl in Hk |- *; [done | by apply Hknown].
    + split; [by simpl; rewrite Hlines | split; [| done]].
      intros [|k] ni Hk Hu; simpl in Hk |- *; [done | by apply Hknown].
Qed.

Lemma statedSku_known item s :
  statedSku item = Some s -> truthy s = true /\ String.eqb s "UNKNOWN" = false.
Proof.
  unfold statedSku. destruct (orUndefined (li_sku item)) as [x|] eqn:Hx; [| done].
  destruct (String.eqb x "UNKNOWN") eqn:Hu; [done |]. intros [= <-].
  split; [by eapply orUndefined_truthy | done].
Qed.

Lemma skuUnknown_stated ni s :
  nli_sku ni = s -> truthy s = true -> String.eqb s "UNKNOWN" = false ->
  skuUnknown ni = false.
Proof. intros Hs Ht Hu. unfold skuUnknown. by rewrite Hs, Ht, Hu. Qed.

Lemma respectsDocument_initial invoice :
  respectsDocument invoice (initialNormalized invoice, []).
Proof.
  unfold respectsDocument, initialNormalized, proposesNothingFor. simpl.
  split; [| split; [| split; [| split]]].
  - intros s Hs. by split.
  - intros s Hs. unfold orElse. rewrite Hs. by split.
  - intros s Hs. by split.
  - intros s Hs. by split.
  - intros k item s Hk Hs. split; [| done].
    unfold normalizeLineItems. rewrite list_lookup_fmap, Hk. simpl.
    eexists. split; [reflexivity |]. simpl. unfold orElse, statedSku in *.
    destruct (orUndefined (li_sku item)) as [x|]; [| done].
    destruct (String.eqb x "UNKNOWN"); [done |]. by injection Hs.
Qed.

(** A step that appends corrections on [fields] and changes only what
    [changed] allows keeps the invariant, when the stated values rule that
    out. *)
Lemma respectsDocument_step invoice (st st' : State) :
  respectsDocument invoice st ->
  (forall s, n_serviceDate (fst st) = Some s -> truthy s = true ->
     n_serviceDate (fst st') = Some s /\
     forall c, c ∈ snd st' -> c ∈ snd st \/ pc_field c <> "serviceDate") ->
  (forall s, orUndefined (currency (fields invoice)) = Some s ->
     n_currency (fst st) = s ->
     n_currency (fst st') = s /\
     forall c, c ∈ snd st' -> c ∈ snd st \/ pc_field c <> "currency") ->
  (forall s, n_poNumber (fst st) = Some s -> truthy s = true ->
     n_poNumber (fst st') = Some s /\
     forall c, c ∈ snd st' -> c ∈ snd st \/ pc_field c <> "poNumber") ->
  (forall s, n_discountTerms (fst st) = Some s -> truthy s = true ->
     n_discountTerms (fst st') = Some s /\
     forall c, c ∈ snd st' -> c ∈ snd st \/ pc_field c <> "discountTerms") ->
  (forall k ni, n_lineItems (fst st) !! k = Some ni -> skuUnknown ni = false ->
     n_lineItems (fst st') !! k = Some ni /\
     forall c, c ∈ snd st' -> c ∈ snd st \/ pc_field c <> skuField k) ->
  respectsDocument invoice st'.
Proof.
  intros (H1 & H2 & H3 & H4 & H5) S1 S2 S3 S4 S5.
  assert (Hkeep : forall f, proposesNothingFor f (snd st) ->
            (forall c, c ∈ snd st' -> c ∈ snd st \/ pc_field c <> f) ->
            proposesNothingFor f (snd st')).
  { intros f Hcs Hnew. apply Forall_forall. intros c Hc.
    destruct (Hnew c Hc) as [Hold | Hne]; [| done].
    by apply (proj1 (Forall_forall _ _) Hcs). }
  split; [| split; [| split; [| split]]].
  - intros s Hs. destruct (H1 s Hs) as [Hn Hcs].
    destruct (S1 s Hn (orUndefined_truthy _ _ Hs)) as [Hn' Hnew]. eauto.
  - intros s Hs. destruct (H2 s Hs) as [Hn Hcs].
    destruct (S2 s Hs Hn) as [Hn' Hnew]. eauto.
  - intros s Hs. destruct (H3 s Hs) as [Hn Hcs].
    destruct (S3 s Hn (orUndefined_truthy _ _ Hs)) as [Hn' Hnew]. eauto.
  - intros s Hs. destruct (H4 s Hs) as [Hn Hcs].
    destruct (S4 s Hn (orUndefined_truthy _ _ Hs)) as [Hn' Hnew]. eauto.
  - intros k item s Hk Hs. destruct (H5 k item s Hk Hs) as [(ni & Hni & Hsku) Hcs].
    destruct (statedSku_known _ _ Hs) as [Ht Hu].
    destruct (S5 k ni Hni (skuUnknown_stated _ _ Hsku Ht Hu)) as [Hn' Hnew].
    split; [by exists ni | eauto].
Qed.

(** The corrections of a state after a step that appended [new]. *)
Ltac appended :=
  let c := fresh "c" in let Hc := fresh "Hc" in
  intros c Hc; simpl in Hc;
  repeat (apply elem_of_app in Hc as [Hc | Hc]; [by left |]);
  repeat (apply elem_of_cons in Hc as [-> | Hc]; [right; simpl; other_name |]);
  first [by apply elem_of_nil in Hc | by left].

Ltac settle :=
  simpl in *;
  first
    [ split; [first [done | congruence] | appended]
    | exfalso; congruence ].

Lemma applyFieldMappings_respects invoice vm st :
  respectsDocument invoice st ->
  respectsDocument invoice (applyFieldMappings invoice vm st).
Proof.
  intros Hinv. apply (respectsDocument_step invoice st); [done | ..];
    destruct st as [n cs]; unfold applyFieldMappings; cbn [autoApplied].
  - intros s Hn Hs. simpl in Hn. rewrite Hn, (isSet_Some s Hs). by split; [| left].
  - intros s Hs Hn. repeat case_match; settle.
  - intros s Hn Hs. repeat case_match; settle.
  - intros s Hn Hs. repeat case_match; settle.
  - intros k ni Hk Hu. repeat case_match; settle.
Qed.

Lemma applyTaxBehavior_respects invoice vm st :
  respectsDocument invoice st ->
  respectsDocument invoice (applyTaxBehavior invoice vm st).
Proof.
  intros Hinv. apply (respectsDocument_step invoice st); [done | ..];
    destruct st as [n cs]; unfold applyTaxBehavior; cbn [autoApplied].
  - intros s Hn Hs. repeat case_match; settle.
  - intros s Hs Hn. repeat case_match; settle.
  - intros s Hn Hs. repeat case_match; settle.
  - intros s Hn Hs. repeat case_match; settle.
  - intros k ni Hk Hu. repeat case_match; settle.
Qed.

Lemma applyCurrency_respects invoice vm st :
  respectsDocument invoice st ->
  respectsDocument invoice (applyCurrency invoice vm st).
Proof.
  intros Hinv. apply (respectsDocument_step invoice st); [done | ..];
    destruct st as [n cs]; unfold applyCurrency.
  - intros s Hn Hs. repeat case_match; settle.
  - intros s Hs Hn. rewrite (orUndefined_isSet _ _ Hs). by split; [| left].
  - intros s Hn Hs. repeat case_match; settle.
  - intros s Hn Hs. repeat case_match; settle.
  - intros k ni Hk Hu. repeat case_match; settle.
Qed.

Lemma applySkus_respects invoice vm st :
  respectsDocument invoice st ->
  respectsDocument invoice (applySkus vm st).
Proof.
  intros Hinv. apply (respectsDocument_step invoice st); [done | ..];
    destruct st as [n cs]; unfold applySkus;
    destruct (applySkuMappings vm 0 (n_lineItems n)) as [items' cs'] eqn:Hsku;
    destruct (applySkuMappings_known _ _ _ _ _ Hsku) as (_ & Hknown & Hcs).
  1-4: intros s Hn Hs; (split; [done |]); intros c Hc; simpl in Hc;
       apply elem_of_app in Hc as [Hc | Hc]; [by left |];
       destruct (Hcs c Hc) as (k & ni & _ & -> & _); right; other_name.
  intros k ni Hk Hu. split; [by apply Hknown |].
  intros c Hc. simpl in Hc. apply elem_of_app in Hc as [Hc | Hc]; [by left |].
  destruct (Hcs c Hc) as (k' & ni' & Hk' & -> & Hu'). right.
  intros Heq. apply skuField_inj in Heq. simpl in Heq, Hk. subst k'.
  rewrite Hk in Hk'. injection Hk' as ->. congruence.
Qed.

Lemma applyPaymentTerms_respects invoice vm st :
  respectsDocument invoice st ->
  respectsDocument invoice (applyPaymentTerms vm st).
Proof.
  intros Hinv. apply (respectsDocument_step invoice st); [done | ..];
    destruct st as [n cs]; unfold applyPaymentTerms.
  - intros s Hn Hs. repeat case_match; settle.
  - intros s Hs Hn. repeat case_match; settle.
  - intros s Hn Hs. repeat case_match; settle.
  - intros s Hn Hs. simpl in Hn. rewrite Hn, (isSet_Some s Hs). simpl.
    case_match; by split; [| left].
  - intros k ni Hk Hu. repeat case_match; settle.
Qed.

Lemma applyExtractedTerms_respects invoice st :
  respectsDocument invoice st ->
  respectsDocument invoice (applyExtractedTerms invoice st).
Proof.
  intros Hinv. apply (respectsDocument_step invoice st); [done | ..];
    destruct st as [n cs]; unfold applyExtractedTerms.
  - intros s Hn Hs. repeat case_match; settle.
  - intros s Hs Hn. repeat case_match; settle.
  - intros s Hn Hs. repeat case_match; settle.
  - intros s Hn Hs. simpl in Hn. rewrite Hn, (isSet_Some s Hs). by split; [| left].
  - intros k ni Hk Hu. repeat case_match; settle.
Qed.

Lemma applyPoMatch_respects invoice pos st :
  respectsDocument invoice st ->
  respectsDocument invoice (applyPoMatch invoice pos st).
Proof.
  intros Hinv. apply (respectsDocument_step invoice st); [done | ..];
    destruct st as [n cs]; unfold applyPoMatch; cbn [autoApplied].
  - intros s Hn Hs. repeat case_match; settle.
  - intros s Hs Hn. repeat case_match; settle.
  - intros s Hn Hs. simpl in Hn. rewrite Hn, (isSet_Some s Hs). simpl.
    case_match; by split; [| left].
  - intros s Hn Hs. repeat case_match; settle.
  - intros k ni Hk Hu. repeat case_match; settle.
Qed.

(** X17.  Apply never replaces a value the document states and never
    proposes a correction for it: a non-empty service date, currency,
    purchase-order number or discount terms, and the SKU of a line item that
    is neither empty nor the placeholder, reach the normalized invoice
    unchanged, and no proposed correction names their field.  (Gross and tax
    totals are the exception: they can be recalculated.) *)
Theorem applyMemories_respects_stated_values (invoice : Invoice)
    (memories : RecalledMemories) (purchaseOrders : option (list PurchaseOrder)) :
  let doc := fields invoice in
  let result := applyMemories invoice memories purchaseOrders in
  let final := normalizedInvoice result in
  let proposed := proposedCorrections result in
  (forall s, orUndefined (serviceDate doc) = Some s ->
     n_serviceDate final = Some s /\ proposesNothingFor "serviceDate" proposed) /\
  (forall s, orUndefined (currency doc) = Some s ->
     n_currency final = s /\ proposesNothingFor "currency" proposed) /\
  (forall s, orUndefined (poNumber doc) = Some s ->
     n_poNumber final = Some s /\ proposesNothingFor "poNumber" proposed) /\
  (forall s, orUndefined (discountTerms doc) = Some s ->
     n_discountTerms final = Some s /\ proposesNothingFor "discountTerms" proposed) /\
  (forall k item s, lineItems doc !! k = Some item -> statedSku item = Some s ->
     (exists ni, n_lineItems final !! k = Some ni /\ nli_sku ni = s) /\
     proposesNothingFor (skuField k) proposed).
Proof.
  intros doc result final proposed. subst doc result final proposed.
  unfold applyMemories. cbn [normalizedInvoice proposedCorrections].
  pose proof (respectsDocument_initial invoice) as H0.
  apply applyPoMatch_respects, applyExtractedTerms_respects.
  destruct (vendorMemory memories) as [vm|]; [| done].
  by apply applyPaymentTerms_respects, applySkus_respects, applyCurrency_respects,
    applyTaxBehavior_respects, applyFieldMappings_respects.
Qed.

Lemma identityOf_initial invoice :
  identityOf (initialNormalized invoice) =
  (invoiceId invoice, vendor invoice, invoiceNumber (fields invoice),
   invoiceDate (fields invoice), netTotal (fields invoice), taxRate (fields invoice),
   map lineOfDocument (lineItems (fields invoice))).
Proof.
  unfold identityOf, initialNormalized, normalizeLineItems. simpl.
  by rewrite <- list_fmap_compose.
Qed.

Ltac same_identity :=
  let n := fresh "n" in let cs := fresh "cs" in
  intros [n cs]; cbn [autoApplied]; repeat case_match; reflexivity.

Lemma applyFieldMappings_identity invoice vm st :
  identityOf (fst (applyFieldMappings invoice vm st)) = identityOf (fst st).
Proof. revert st. unfold applyFieldMappings. same_identity. Qed.

Lemma applyTaxBehavior_identity invoice vm st :
  identityOf (fst (applyTaxBehavior invoice vm st)) = identityOf (fst st).
Proof. revert st. unfold applyTaxBehavior. same_identity. Qed.

Lemma applyCurrency_identity invoice vm st :
  identityOf (fst (applyCurrency invoice vm st)) = identityOf (fst st).
Proof. revert st. unfold applyCurrency. same_identity. Qed.

Lemma applySkus_identity vm st :
  identityOf (fst (applySkus vm st)) = identityOf (fst st).
Proof.
  destruct st as [n cs]. unfold applySkus.
  destruct (applySkuMappings vm 0 (n_lineItems n)) as [items' cs'] eqn:Hsku.
  destruct (applySkuMappings_known _ _ _ _ _ Hsku) as (Hlines & _).
  unfold identityOf. simpl. by rewrite Hlines.
Qed.

Lemma applyPaymentTerms_identity vm st :
  identityOf (fst (applyPaymentTerms vm st)) = identityOf (fst st).
Proof. revert st. unfold applyPaymentTerms. same_identity. Qed.

Lemma applyExtractedTerms_identity invoice st :
  identityOf (fst (applyExtractedTerms invoice st)) = identityOf (fst st).
Proof. revert st. unfold applyExtractedTerms. same_identity. Qed.

Lemma applyPoMatch_identity invoice pos st :
  identityOf (fst (applyPoMatch invoice pos st)) = identityOf (fst st).
Proof. revert st. unfold applyPoMatch. same_identity. Qed.

(** X18.  Apply hands the identifying part of the document on unchanged:
    the normalized invoice has the invoice id, vendor, invoice number,
    invoice date, net total and tax rate of the document, and one line item
    per line item of the document, in the same order, with its description
    (empty when absent), quantity and unit price, and with the product of
    quantity and unit price as its amount. *)
Theorem applyMemories_keeps_identity (invoice : Invoice)
    (memories : RecalledMemories) (purchaseOrders : option (list PurchaseOrder)) :
  identityOf (normalizedInvoice (applyMemories invoice memories purchaseOrders)) =
  (invoiceId invoice, vendor invoice, invoiceNumber (fields invoice),
   invoiceDate (fields invoice), netTotal (fields invoice), taxRate (fields invoice),
   map lineOfDocument (lineItems (fields invoice))).
Proof.
  unfold applyMemories. cbn [normalizedInvoice].
  rewrite applyPoMatch_identity, applyExtractedTerms_identity.
  destruct (vendorMemory memories) as [vm|]; [| apply identityOf_initial].
  rewrite applyPaymentTerms_identity, applySkus_identity, applyCurrency_identity,
    applyTaxBehavior_identity, applyFieldMappings_identity.
  apply identityOf_initial.
Qed.

End ApplyFrames.

(** ** Apply: purchase-order matching *)

Section PurchaseOrders.
Import Apply.

Lemma fold_left_invariant {A B} (P : B -> Prop) (f : B -> A -> B) (l : list A) (b : B) :
  P b -> (forall b a, a ∈ l -> P b -> P (f b a)) -> P (fold_left f l b).
Proof.
  revert b. induction l as [|x l IH]; intros b Hb Hf; [done |].
  simpl. apply IH; [apply Hf; [left | done] |].
  intros b' a Ha. apply Hf. by right.
Qed.

(** The confidence of a match on SKU overlap. *)
Lemma overlap_confidence (matching invoiceSKUs : list string)
    (poSKUs : list (option string)) (bonus : Q) :
  (0 < length matching)%nat -> (length matching <= length invoiceSKUs)%nat ->
  (bonus = 0.2 \/ bonus = 0)%Q ->
  let ratio := (Qlen matching / Qmax (Qlen invoiceSKUs) (Qlen poSKUs))%Q in
  let confidence := Qmin 0.95 (0.5 + ratio * 0.3 + bonus) in
  (0.5 <= confidence <= 0.95)%Q /\
  ((AUTO_APPLY_THRESHOLD <= confidence)%Q -> bonus = 0.2%Q).
Proof.
  intros Hpos Hle Hbonus ratio confidence. subst confidence.
  assert (HM : (0 < Qlen matching)%Q).
  { unfold Qlen. change 0%Q with (inject_Z 0). rewrite <- Zlt_Qlt. lia. }
  assert (HMI : (Qlen matching <= Qlen invoiceSKUs)%Q).
  { unfold Qlen. rewrite <- Zle_Qle. lia. }
  pose proof (Q.max_spec (Qlen invoiceSKUs) (Qlen poSKUs)) as Hmax.
  assert (HD : (Qlen matching <= Qmax (Qlen invoiceSKUs) (Qlen poSKUs))%Q)
    by (destruct Hmax as [[? ?] | [? ?]]; lra).
  assert (Hratio : (ratio * Qmax (Qlen invoiceSKUs) (Qlen poSKUs) == Qlen matching)%Q)
    by (subst ratio; field; lra).
  clearbody ratio.
  set (D := Qmax (Qlen invoiceSKUs) (Qlen poSKUs)) in *. clearbody D.
  assert (Hr01 : (0 <= ratio <= 1)%Q) by (split; nra).
  unfold AUTO_APPLY_THRESHOLD.
  destruct Hbonus as [-> | ->].
  - split; [split; qminmax | done].
  - split; [split; qminmax |]. intros Hhigh. exfalso. revert Hhigh. qminmax.
Qed.

Lemma matchPurchaseOrder_spec invoice purchaseOrders :
  match matchPurchaseOrder invoice purchaseOrders with
  | Some m => soundMatch invoice purchaseOrders m
  | None =>
      vendorOrders invoice purchaseOrders = [] \/
      (2 <= length (vendorOrders invoice purchaseOrders))%nat
  end.
Proof.
  unfold matchPurchaseOrder. cbv zeta. fold (vendorOrders invoice purchaseOrders).
  destruct (length (vendorOrders invoice purchaseOrders) =? 0)%nat eqn:Hnone.
  { apply Nat.eqb_eq in Hnone. left. by apply nil_length_inv. }
  apply Nat.eqb_neq in Hnone.
  set (step := fun (bestMatch : option POMatch) (po : PurchaseOrder) => _).
  assert (Hbest : match fold_left step (vendorOrders invoice purchaseOrders) None with
                  | Some m => soundMatch invoice purchaseOrders m
                  | None => True
                  end).
  { apply (fold_left_invariant
             (fun b => match b with
                       | Some m => soundMatch invoice purchaseOrders m
                       | None => True
                       end)); [done |].
    intros b po Hpo Hb. subst step. cbv beta.
    set (invoiceSKUs := omap (fun i => orUndefined (li_sku i)) (lineItems (fields invoice))).
    set (matching := filter _ invoiceSKUs).
    destruct (0 <? length matching)%nat eqn:Hmatching; [| done].
    apply Nat.ltb_lt in Hmatching.
    assert (Hle : (length matching <= length invoiceSKUs)%nat)
      by apply length_filter.
    set (bonus := if (length (vendorOrders invoice purchaseOrders) =? 1)%nat
                  then 0.2%Q else 0%Q).
    assert (Hbonus : (bonus = 0.2 \/ bonus = 0)%Q)
      by (subst bonus; destruct (length _ =? 1)%nat; auto).
    destruct (overlap_confidence matching invoiceSKUs
                (map li_sku (po_lineItems po)) bonus Hmatching Hle Hbonus)
      as [Hrange Hauto].
    cbv zeta in Hrange, Hauto.
    assert (Hnew : soundMatch invoice purchaseOrders
              {| pm_poNumber := po_poNumber po;
                 pm_confidence :=
                   Qmin 0.95
                     (0.5 + Qlen matching /
                            Qmax (Qlen invoiceSKUs) (Qlen (map li_sku (po_lineItems po))) *
                            0.3 + bonus) |}).
    { split; [by exists po |]. split; [done |]. simpl. intros Hhigh.
      specialize (Hauto Hhigh). subst bonus.
      destruct (length (vendorOrders invoice purchaseOrders) =? 1)%nat eqn:Hone;
        [by apply Nat.eqb_eq |].
      discriminate Hauto. }
    destruct b as [m|]; [| done]. by destruct (Qltb _ _). }
  destruct (fold_left step (vendorOrders invoice purchaseOrders) None) as [m|];
    [done |].
  destruct (vendorOrders invoice purchaseOrders) as [|po [|po' rest]] eqn:Hpos;
    [done | | right; simpl; lia].
  split; [exists po; split; [rewrite Hpos; left | done] |].
  unfold AUTO_APPLY_THRESHOLD. simpl. split; [lra |]. by rewrite Hpos.
Qed.

(** X19.  A purchase-order match names a purchase order of the vendor of
    the document, with a confidence between 0.5 and 0.95; the confidence
    reaches the threshold at which Apply writes the number without review
    only when the vendor has exactly one purchase order in the list.  No
    match is made when the vendor has none, or has several and none shares a
    SKU with the document. *)
Theorem matchPurchaseOrder_sound (invoice : Invoice)
    (purchaseOrders : list PurchaseOrder) :
  let vendorPOs := vendorOrders invoice purchaseOrders in
  match matchPurchaseOrder invoice purchaseOrders with
  | Some m =>
      (exists po, po ∈ purchaseOrders /\ po_vendor po = vendor invoice /\
                  po_poNumber po = pm_poNumber m) /\
      (0.5 <= pm_confidence m <= 0.95)%Q /\
      ((AUTO_APPLY_THRESHOLD <= pm_confidence m)%Q -> length vendorPOs = 1%nat)
  | None => vendorPOs = [] \/ (2 <= length vendorPOs)%nat
  end.
Proof.
  intros vendorPOs. subst vendorPOs.
  pose proof (matchPurchaseOrder_spec invoice purchaseOrders) as Hspec.
  destruct (matchPurchaseOrder invoice purchaseOrders) as [m|]; [| done].
  destruct Hspec as ((po & Hpo & Hnum) & Hrange & Hauto).
  split; [| done]. exists po. unfold vendorOrders in Hpo.
  apply list_elem_of_filter in Hpo as [Hv Hin]. done.
Qed.

End PurchaseOrders.

(** ** Apply: the currency recovered from the raw text *)

Section CurrencyExtraction.
Import Apply.

Lemma upperChar_letter x : isLetter x = true -> isUpper (upperChar x) = true.
Proof.
  intros Hx. destruct x as [[] [] [] [] [] [] [] []];
    vm_compute in Hx |- *; congruence.
Qed.

Lemma currencyLabelHere_letters s m :
  currencyLabelHere s = Some m ->
  exists x y z, m = string_of_list_ascii [x; y; z] /\
                isLetter x = true /\ isLetter y = true /\ isLetter z = true.
Proof.
  unfold currencyLabelHere.
  destruct (matchLiteral _ s) as [[|c rest]|]; try done.
  destruct (Ascii.eqb c ":" || isSpace c); [| done].
  destruct (dropWhile _ rest) as [|x [|y [|z tl]]]; try done.
  destruct (isLetter x && isLetter y && isLetter z) eqn:Hl; [| done].
  intros [= <-]. exists x, y, z. split; [reflexivity |].
  apply andb_true_iff in Hl as [Hl Hz]. apply andb_true_iff in Hl as [Hx Hy].
  done.
Qed.

Lemma searchCurrencyLabel_letters s m :
  searchCurrencyLabel s = Some m ->
  exists x y z, m = string_of_list_ascii [x; y; z] /\
                isLetter x = true /\ isLetter y = true /\ isLetter z = true.
Proof.
  induction s as [|c s IH]; cbn [searchCurrencyLabel].
  - destruct (currencyLabelHere []) eqn:Hhere; [| done].
    intros [= <-]. by apply currencyLabelHere_letters in Hhere.
  - destruct (currencyLabelHere (c :: s)) eqn:Hhere; [| exact IH].
    intros [= <-]. by apply currencyLabelHere_letters in Hhere.
Qed.

Lemma currencyCodeHere_known prev s m :
  currencyCodeHere prev s = Some m -> toUpperCase m ∈ knownCurrencies.
Proof.
  unfold currencyCodeHere. destruct s as [|x [|y [|z rest]]]; try done. cbv zeta.
  set (w := toUpperCase (string_of_list_ascii [x; y; z])).
  destruct (negb prev && _ && _) eqn:Hok; [| done]. intros [= <-].
  apply andb_true_iff in Hok as [Hok _]. apply andb_true_iff in Hok as [_ Hknown].
  change (w ∈ knownCurrencies). clearbody w. unfold knownCurrencies.
  repeat (apply orb_true_iff in Hknown as [Hknown | Hknown]);
    apply String.eqb_eq in Hknown; subst w; set_solver.
Qed.

Lemma searchCurrencyCode_known prev s m :
  searchCurrencyCode prev s = Some m -> toUpperCase m ∈ knownCurrencies.
Proof.
  revert prev. induction s as [|c s IH]; intros prev; cbn [searchCurrencyCode].
  - destruct (currencyCodeHere prev []) eqn:Hhere; [| done].
    intros [= <-]. by apply currencyCodeHere_known in Hhere.
  - destruct (currencyCodeHere prev (c :: s)) eqn:Hhere; [| apply IH].
    intros [= <-]. by apply currencyCodeHere_known in Hhere.
Qed.

(** X20.  A currency [extractCurrencyFromRawText] recovers is always three
    upper-case letters, so it is never empty; and when the text has no
    [Currency] label followed by three letters, it is one of EUR, USD, GBP
    and CHF. *)
Theorem extractCurrencyFromRawText_shape (rawText : string) :
  match extractCurrencyFromRawText rawText with
  | Some currency =>
      isCurrencyCode currency = true /\ truthy currency = true /\
      (searchCurrencyLabel (list_ascii_of_string rawText) = None ->
       currency ∈ knownCurrencies)
  | None => True
  end.
Proof.
  unfold extractCurrencyFromRawText. cbv zeta.
  destruct (searchCurrencyLabel (list_ascii_of_string rawText)) as [m|] eqn:Hlabel.
  - destruct (searchCurrencyLabel_letters _ _ Hlabel)
      as (x & y & z & -> & Hx & Hy & Hz).
    split; [| split; [done | done]].
    unfold isCurrencyCode. simpl.
    by rewrite !upperChar_letter.
  - destruct (searchCurrencyCode false (list_ascii_of_string rawText)) as [m|] eqn:Hcode;
      [| done].
    apply searchCurrencyCode_known in Hcode.
    assert (Hall : forall c, c ∈ knownCurrencies ->
              isCurrencyCode c = true /\ truthy c = true).
    { intros c Hc. unfold knownCurrencies in Hc.
      repeat (apply elem_of_cons in Hc as [-> | Hc]; [by split |]).
      by apply elem_of_nil in Hc. }
    destruct (Hall _ Hcode). done.
Qed.

End CurrencyExtraction.

(** ** Learn: what a batch of corrections changes *)

Section LearnFrame.
Import CorrectionMem VendorMem Learn.
Context `{JsRuntime}.

Lemma learnsAbout_refl v db : learnsAbout v db db.
Proof.
  unfold learnsAbout. split; [done |]. split; [done |]. split; [done |].
  split; [done |]. intros Hk. by split.
Qed.

Lemma learnsAbout_trans v db1 db2 db3 :
  learnsAbout v db1 db2 -> learnsAbout v db2 db3 -> learnsAbout v db1 db3.
Proof.
  intros (Hr1 & Hp1 & Hv1 & Hs1 & Hc1) (Hr2 & Hp2 & Hv2 & Hs2 & Hc2).
  split; [congruence |]. split; [congruence |]. split; [| split].
  - intros v' Hv'. rewrite Hv2 by done. by apply Hv1.
  - auto.
  - intros Hk. destruct (Hc1 Hk) as [Hk2 Hf1]. destruct (Hc2 Hk2) as [Hk3 Hf2].
    split; [done |]. intros v' Hv'. rewrite Hf2 by done. by apply Hf1.
Qed.

Lemma relates_ret {A} v (a : A) : relates (learnsAbout v) (ret a).
Proof. intros db. apply learnsAbout_refl. Qed.

Lemma relates_bind {A B} v (m : Db A) (k : A -> Db B) :
  relates (learnsAbout v) m -> (forall a, relates (learnsAbout v) (k a)) ->
  relates (learnsAbout v) (x ← m; k x).
Proof.
  intros Hm Hk db. unfold mbind, db_bind.
  specialize (Hm db). destruct (m db) as [a db1]. simpl in Hm.
  eapply learnsAbout_trans; [exact Hm | apply Hk].
Qed.

Lemma relates_if {A} v (b : bool) (m1 m2 : Db A) :
  relates (learnsAbout v) m1 -> relates (learnsAbout v) m2 ->
  relates (learnsAbout v) (if b then m1 else m2).
Proof. by destruct b. Qed.

(** A change of the vendor table alone. *)
Lemma learnsAbout_vendorTable v db db' :
  correction_memories db' = correction_memories db ->
  resolution_memories db' = resolution_memories db ->
  processed_invoices db' = processed_invoices db ->
  (nextId db <= nextId db')%nat ->
  (forall v', v' <> v -> vendor_memories db' !! v' = vendor_memories db !! v') ->
  (is_Some (vendor_memories db !! v) -> is_Some (vendor_memories db' !! v)) ->
  learnsAbout v db db'.
Proof.
  intros Hc Hr Hp Hn Hv Hs. repeat (split; [done |]).
  intros [Hnd Hids]. split; [| intros v' _; by rewrite Hc].
  split; [by rewrite Hc |]. intros c Hin. rewrite Hc in Hin.
  destruct (Hids c Hin) as (k & Hk & Hid). exists k. split; [lia | done].
Qed.

Lemma ensureVendorMemory_relates now v : relates (learnsAbout v) (ensureVendorMemory now v).
Proof.
  intros db. unfold ensureVendorMemory, getVendorMemory, createVendorMemory,
    mbind, db_bind, getDb, uuidv4, setVendorMemories. simpl.
  destruct (vendor_memories db !! v) as [m|] eqn:Hm; simpl;
    [apply learnsAbout_refl |].
  apply learnsAbout_vendorTable; simpl; try done.
  - lia.
  - intros v' Hv'. by apply lookup_insert_ne.
  - intros _. rewrite lookup_insert_eq. by eexists.
Qed.

Lemma updateVendorRow_relates v f : relates (learnsAbout v) (updateVendorRow v f).
Proof.
  intros db. unfold updateVendorRow, setVendorMemories. simpl.
  destruct (vendor_memories db !! v) as [m|] eqn:Hm.
  - apply learnsAbout_vendorTable; simpl; try done.
    + intros v' Hv'. by apply lookup_insert_ne.
    + intros _. rewrite lookup_insert_eq. by eexists.
  - apply learnsAbout_vendorTable; simpl; done.
Qed.

Lemma vendor_update_relates now v (k : VendorMemory -> VendorMemory -> VendorMemory) :
  relates (learnsAbout v)
    (memory ← ensureVendorMemory now v; updateVendorRow v (k memory)).
Proof.
  apply relates_bind; [apply ensureVendorMemory_relates |].
  intros m. apply updateVendorRow_relates.
Qed.

Lemma filter_updateRows v' id f t :
  (forall c, cm_vendorName (f c) = cm_vendorName c) ->
  (forall c, c ∈ t -> cm_id c = id -> cm_vendorName c <> v') ->
  filter (fun c => cm_vendorName c = v') (updateRows id f t) =
  filter (fun c => cm_vendorName c = v') t.
Proof.
  intros Hf. induction t as [|c t IH]; intros Hid; [done |].
  unfold updateRows in *. cbn [map]. rewrite !filter_cons.
  rewrite IH by (intros c' Hc'; apply Hid; by right).
  destruct (decide (cm_id c = id)) as [Hc|Hc]; [| done].
  rewrite Hf. rewrite !decide_False; [done | |]; apply Hid; by try left.
Qed.

Lemma updateRows_relates v id f db existing :
  (forall c, cm_id (f c) = cm_id c) ->
  (forall c, cm_vendorName (f c) = cm_vendorName c) ->
  existing ∈ correction_memories db -> cm_id existing = id ->
  cm_vendorName existing = v ->
  learnsAbout v db (withCorrections (updateRows id f (correction_memories db)) db).
Proof.
  intros Hid Hname Hin Heid Hev. repeat (split; [done |]).
  intros Hk. split; [by apply wellKeyed_updateRows |].
  intros v' Hv'. apply filter_updateRows; [done |].
  intros c Hc Hcid. destruct Hk as [Hnd _].
  assert (c = existing) as -> by (apply (NoDup_key_inj _ _ _ Hnd Hc Hin); congruence).
  congruence.
Qed.

Lemma reinforceCorrection_relates now v db existing :
  existing ∈ correction_memories db -> cm_vendorName existing = v ->
  learnsAbout v db (snd (reinforceCorrection now (cm_id existing) db)).
Proof.
  intros Hin Hv. rewrite reinforceCorrection_eq.
  destruct (lookupCorrection (cm_id existing) db) as [row|];
    [| apply learnsAbout_refl].
  by apply (updateRows_relates v _ _ db existing).
Qed.

Lemma weakenCorrection_relates now v db existing :
  existing ∈ correction_memories db -> cm_vendorName existing = v ->
  learnsAbout v db (snd (weakenCorrection now (cm_id existing) db)).
Proof.
  intros Hin Hv. rewrite weakenCorrection_eq.
  destruct (lookupCorrection (cm_id existing) db) as [row|];
    [| apply learnsAbout_refl].
  by apply (updateRows_relates v _ _ db existing).
Qed.

Lemma recordCorrection_relates now v f p t x :
  relates (learnsAbout v) (recordCorrection now v f p t x).
Proof.
  intros db. pose proof (wellKeyed_record now v f p t x db) as Hkeyed.
  rewrite recordCorrection_db in Hkeyed |- *.
  destruct (fst (findMatchingCorrection v f (Some p) (bumpId db)))
    as [existing|] eqn:Hfind.
  - apply findMatchingCorrection_Some in Hfind as (Hin & Hv & _).
    apply (learnsAbout_trans v db (bumpId db)).
    + apply learnsAbout_vendorTable; simpl; try done. lia.
    + by apply reinforceCorrection_relates.
  - repeat (split; [done |]). intros Hk. split; [by apply Hkeyed |].
    intros v' Hv'. simpl. rewrite filter_app, filter_cons, filter_nil.
    rewrite decide_False by (simpl; congruence). by rewrite app_nil_r.
Qed.

Lemma reinforceOrWeaken_relates now v c ok :
  relates (learnsAbout v) (reinforceOrWeaken now v c ok).
Proof.
  intros db.
  destruct (fst (findMatchingCorrection v (fc_field c) None db))
    as [existing|] eqn:Hfind.
  - pose proof Hfind as (Hin & Hv & _)%findMatchingCorrection_Some.
    destruct ok.
    + pose proof (reinforceOrWeaken_eq now v c approved db existing Hfind) as Heq.
      cbn [isApprovedDecision] in Heq. rewrite Heq.
      by apply reinforceCorrection_relates.
    + pose proof (reinforceOrWeaken_eq now v c rejected db existing Hfind) as Heq.
      cbn [isApprovedDecision] in Heq. rewrite Heq.
      by apply weakenCorrection_relates.
  - rewrite reinforceOrWeaken_none by done. apply learnsAbout_refl.
Qed.

Ltac vendor_update :=
  first [apply vendor_update_relates | cbv zeta; apply vendor_update_relates].

Ltac steps :=
  apply relates_bind; [| intros ?; first [apply relates_ret | steps]].

Ltac then_return :=
  apply relates_bind; [| intros ?; apply relates_ret].

Lemma processCorrection_relates now invoice v c decision :
  relates (learnsAbout v) (processCorrection now invoice v c decision).
Proof.
  unfold processCorrection. cbv zeta. steps.
  - unfold learnServiceDate. apply relates_if; [| apply relates_ret].
    apply relates_bind; [unfold updateFieldMapping; vendor_update | intros ?].
    then_return. apply recordCorrection_relates.
  - unfold learnTax. apply relates_if; [| apply relates_ret].
    apply relates_bind; [unfold updateTaxBehavior; vendor_update | intros ?].
    then_return. apply recordCorrection_relates.
  - unfold learnCurrency. apply relates_if; [| apply relates_ret].
    apply relates_bind; [unfold updateDefaultCurrency; vendor_update | intros ?].
    then_return. apply recordCorrection_relates.
  - unfold learnPoNumber. apply relates_if; [| apply relates_ret].
    then_return. apply recordCorrection_relates.
  - unfold learnSku. apply relates_if; [| apply relates_ret].
    repeat case_match; try apply relates_ret.
    all: then_return; unfold updateSkuMapping; vendor_update.
  - unfold learnDiscountTerms. apply relates_if; [| apply relates_ret].
    apply relates_bind; [unfold updatePaymentTerms; vendor_update | intros ?].
    then_return. apply recordCorrection_relates.
  - apply reinforceOrWeaken_relates.
Qed.

Lemma processCorrections_relates now invoice v cs decision :
  relates (learnsAbout v) (processCorrections now invoice v cs decision).
Proof.
  induction cs as [|c cs IH]; simpl; [apply relates_ret |].
  apply relates_bind; [apply processCorrection_relates | intros o].
  apply relates_bind; [exact IH | intros ?; apply relates_ret].
Qed.

Lemma learnPrologue_relates now v db :
  let db1 := snd (learnPrologue now v db) in
  learnsAbout v db db1 /\ is_Some (vendor_memories db1 !! v).
Proof.
  unfold learnPrologue, getVendorMemory, createVendorMemory, mbind, db_bind,
    getDb, uuidv4, setVendorMemories. simpl.
  destruct (vendor_memories db !! v) as [m|] eqn:Hm; simpl.
  - split; [apply learnsAbout_refl | by rewrite Hm].
  - split; [| rewrite lookup_insert_eq; by eexists].
    apply learnsAbout_vendorTable; simpl; try done.
    + lia.
    + intros v' Hv'. by apply lookup_insert_ne.
    + intros _. rewrite lookup_insert_eq. by eexists.
Qed.

Lemma recordResolutions_rows now invoice cs decision db :
  let db' := snd (recordResolutions now invoice (vendor invoice) cs decision db) in
  vendor_memories db' = vendor_memories db /\
  correction_memories db' = correction_memories db /\
  processed_invoices db' = processed_invoices db /\
  nextId db' = (nextId db + length cs)%nat /\
  resolution_memories db' =
    resolution_memories db ++ resolutionRows now invoice decision (nextId db) cs.
Proof.
  revert db. induction cs as [|c cs IH]; intros db; simpl.
  - repeat split; try done; try lia. by rewrite app_nil_r.
  - unfold mbind, db_bind, ResolutionMem.recordResolution, uuidv4,
      setResolutionMemories. simpl.
    match goal with |- context [recordResolutions _ _ _ _ _ ?d] =>
      destruct (IH d) as (Hv & Hc & Hp & Hn & Hr) end.
    simpl in *. repeat (split; [done |]). split; [lia |].
    by rewrite Hr, <- app_assoc.
Qed.

(** What [learn] leaves behind, phase by phase: [db2] is the store after
    the first loop, [db3] the store after the second. *)
Lemma learn_phases now invoice hc db :
  exists db2 db3,
    snd (learn now invoice hc db) =
      snd (DuplicateDetection.recordProcessedInvoice now invoice db3) /\
    learnsAbout (vendor invoice) db db2 /\
    is_Some (vendor_memories db2 !! vendor invoice) /\
    vendor_memories db3 = vendor_memories db2 /\
    correction_memories db3 = correction_memories db2 /\
    processed_invoices db3 = processed_invoices db /\
    nextId db3 = (nextId db2 + length (corrections hc))%nat /\
    resolution_memories db3 =
      resolution_memories db ++
      resolutionRows now invoice (finalDecision hc) (nextId db2) (corrections hc).
Proof.
  rewrite learn_eq.
  destruct (learnPrologue_relates now (vendor invoice) db) as [Hpro Hrow].
  destruct (learnPrologue now (vendor invoice) db) as [created db1]. simpl in Hpro, Hrow.
  pose proof (processCorrections_relates now invoice (vendor invoice)
                (corrections hc) (finalDecision hc) db1) as Hloop.
  destruct (processCorrections _ _ _ _ _ db1) as [processed db2]. simpl in Hloop.
  exists db2, (snd (recordResolutions now invoice (vendor invoice) (corrections hc)
                      (finalDecision hc) db2)).
  destruct (recordResolutions_rows now invoice (corrections hc) (finalDecision hc) db2)
    as (Hv & Hc & Hp & Hn & Hr).
  pose proof (learnsAbout_trans _ _ _ _ Hpro Hloop) as Hall.
  split; [done |]. split; [done |]. split; [by apply Hloop |].
  split; [done |]. split; [done |].
  destruct Hall as (Hr0 & Hp0 & _).
  split; [by rewrite Hp, Hp0 |]. split; [done |]. by rewrite Hr, Hr0.
Qed.

Lemma applyHumanCorrection_db now invoice hc db :
  snd (Index.applyHumanCorrection now invoice hc db) = snd (learn now invoice hc db).
Proof.
  unfold Index.applyHumanCorrection, mbind, db_bind.
  by destruct (learn now invoice hc db).
Qed.

End LearnFrame.

(** ** Learn and the entry points *)

Section LearnProperties.
Import CorrectionMem VendorMem Learn DuplicateDetection Recall.
Context `{JsRuntime} `{Apply.Extractors}.

(** X21.  Whatever the corrections of a batch are, [learn] appends to the
    resolution table exactly one row per correction, in the order of the
    batch, each for the document's vendor and with the batch's decision; it
    appends exactly one ledger row, for the document; both under consecutive
    identifiers; and the vendor has a vendor-memory row afterwards. *)
Theorem learn_bookkeeping (now : Z) (invoice : Invoice) (hc : HumanCorrection)
    (db : Database) :
  exists n,
    resolution_memories (snd (learn now invoice hc db)) =
      resolution_memories db ++
      resolutionRows now invoice (finalDecision hc) n (corrections hc) /\
    processed_invoices (snd (learn now invoice hc db)) =
      processed_invoices db ++
      [ledgerEntry now (uuid (n + length (corrections hc))) invoice] /\
    is_Some (vendor_memories (snd (learn now invoice hc db)) !! vendor invoice).
Proof.
  destruct (learn_phases now invoice hc db)
    as (db2 & db3 & -> & _ & Hrow & Hv & _ & Hp & Hn & Hr).
  exists (nextId db2). rewrite recordProcessedInvoice_db. simpl.
  split; [done |]. split; [by rewrite Hp, Hn | by rewrite Hv].
Qed.

Lemma filter_resolutionRows now invoice decision n cs v' :
  v' <> vendor invoice ->
  filter (fun r => rm_vendorName r = v') (resolutionRows now invoice decision n cs) = [].
Proof.
  intros Hv. revert n. induction cs as [|c cs IH]; intros n; [done |].
  cbn [resolutionRows]. rewrite filter_cons, decide_False by (simpl; congruence).
  apply IH.
Qed.

Lemma recallMemories_same other db db' :
  vendor_memories db' !! vendor other = vendor_memories db !! vendor other ->
  filter (fun c => cm_vendorName c = vendor other) (correction_memories db') =
  filter (fun c => cm_vendorName c = vendor other) (correction_memories db) ->
  filter (fun r => rm_vendorName r = vendor other) (resolution_memories db') =
  filter (fun r => rm_vendorName r = vendor other) (resolution_memories db) ->
  filter (fun r => pi_vendorName r = vendor other /\
                   pi_invoiceNumber r = invoiceNumber (fields other))
         (processed_invoices db') =
  filter (fun r => pi_vendorName r = vendor other /\
                   pi_invoiceNumber r = invoiceNumber (fields other))
         (processed_invoices db) ->
  fst (recallMemories other db') = fst (recallMemories other db).
Proof.
  intros Hv Hc Hr Hp.
  unfold recallMemories, getVendorMemory, getCorrectionMemories,
    getCorrectionMemoriesOf, ResolutionMem.getResolutionMemories, checkDuplicate,
    checkDuplicateIn, selectProcessed, mbind, db_bind, getDb. simpl.
  by rewrite Hv, Hc, Hr, Hp.
Qed.

Lemma processInvoice_recalled invoice pos db db' :
  fst (recallMemories invoice db') = fst (recallMemories invoice db) ->
  fst (Index.processInvoice invoice pos db') = fst (Index.processInvoice invoice pos db).
Proof.
  unfold Index.processInvoice, mbind, db_bind.
  destruct (recallMemories invoice db') as [m' d'].
  destruct (recallMemories invoice db) as [m d]. simpl. by intros ->.
Qed.

(** X22.  Learning from a document of one vendor changes nothing of what is
    recalled for a document of another vendor, and so nothing of how that
    document is processed, provided the stored correction memories have
    distinct identifiers, all of them issued by the store. *)
Theorem learn_leaves_other_vendors (now : Z) (invoice other : Invoice)
    (hc : HumanCorrection) (pos : option (list PurchaseOrder)) (db : Database) :
  wellKeyed db ->
  vendor other <> vendor invoice ->
  fst (recallMemories other (snd (Index.applyHumanCorrection now invoice hc db))) =
  fst (recallMemories other db) /\
  fst (Index.processInvoice other pos
         (snd (Index.applyHumanCorrection now invoice hc db))) =
  fst (Index.processInvoice other pos db).
Proof.
  intros Hk Hother.
  assert (Hsame :
    fst (recallMemories other (snd (Index.applyHumanCorrection now invoice hc db))) =
    fst (recallMemories other db)).
  { rewrite applyHumanCorrection_db.
    destruct (learn_phases now invoice hc db)
      as (db2 & db3 & -> & Hframe & _ & Hv & Hc & Hp & _ & Hr).
    destruct Hframe as (_ & _ & Hvs & _ & Hcs). destruct (Hcs Hk) as [_ Hfilter].
    rewrite recordProcessedInvoice_db.
    apply recallMemories_same; simpl.
    - rewrite Hv. by apply Hvs.
    - rewrite Hc. by apply Hfilter.
    - rewrite Hr, filter_app, filter_resolutionRows by done. by rewrite app_nil_r.
    - rewrite Hp, filter_app, filter_cons, filter_nil.
      rewrite decide_False by (simpl; intros [? _]; congruence).
      by rewrite app_nil_r. }
  split; [exact Hsame | by apply processInvoice_recalled].
Qed.

Lemma recallMemories_duplicate invoice db :
  potentialDuplicate (fst (recallMemories invoice db)) = checkDuplicateIn db invoice.
Proof. reflexivity. Qed.

Lemma processInvoice_review invoice pos db :
  Index.requiresHumanReview (fst (Index.processInvoice invoice pos db)) =
  let memories := fst (recallMemories invoice db) in
  let applied := Apply.applyMemories invoice memories pos in
  Decide.requiresHumanReview
    (Decide.makeDecision (Apply.normalizedInvoice applied)
       (Apply.proposedCorrections applied) memories (inv_confidence invoice)).
Proof. reflexivity. Qed.

(** X23.  Once a document has been learned from, at an instant later than
    every ledger row of its vendor and number, processing the same document
    again recalls the ledger row just written as its potential duplicate and
    requires human review, whatever was learned. *)
Theorem learned_invoice_is_flagged_duplicate (now : Z) (invoice : Invoice)
    (hc : HumanCorrection) (pos : option (list PurchaseOrder)) (db : Database) :
  laterThanLedger now invoice db ->
  (exists id,
     potentialDuplicate
       (fst (recallMemories invoice
               (snd (Index.applyHumanCorrection now invoice hc db)))) =
     Some (ledgerEntry now id invoice)) /\
  Index.requiresHumanReview
    (fst (Index.processInvoice invoice pos
            (snd (Index.applyHumanCorrection now invoice hc db)))) = true.
Proof.
  intros Hlater. rewrite applyHumanCorrection_db.
  destruct (learn_phases now invoice hc db)
    as (db2 & db3 & -> & _ & _ & _ & _ & Hp & _ & _).
  assert (Hdup :
    checkDuplicateIn (snd (recordProcessedInvoice now invoice db3)) invoice =
    Some (ledgerEntry now (uuid (nextId db3)) invoice)).
  { rewrite (checkDuplicate_after_record now invoice invoice db3); try done.
    - rewrite String.eqb_refl. by destruct (_ && _).
    - unfold laterThanLedger in Hlater. by rewrite Hp. }
  rewrite <- recallMemories_duplicate in Hdup. split.
  - exists (uuid (nextId db3)). exact Hdup.
  - rewrite processInvoice_review. cbv zeta.
    rewrite makeDecision_review, Hdup. reflexivity.
Qed.

(** X24.  [processInvoice] only reads: the store it leaves is the store it
    found — in particular the document is not entered in the ledger and no
    use of the vendor is counted — it reports no memory updates, and a
    second run gives the result of the first. *)
Theorem processInvoice_reads_only (invoice : Invoice)
    (pos : option (list PurchaseOrder)) (db : Database) :
  snd (Index.processInvoice invoice pos db) = db /\
  Index.memoryUpdates (fst (Index.processInvoice invoice pos db)) = [] /\
  Index.processInvoice invoice pos (snd (Index.processInvoice invoice pos db)) =
  Index.processInvoice invoice pos db.
Proof.
  assert (Hsame : snd (Index.processInvoice invoice pos db) = db) by reflexivity.
  split; [exact Hsame |]. split; [reflexivity |]. by rewrite Hsame.
Qed.

Lemma find_existsb {A} (p : A -> bool) (l : list A) :
  existsb p l = isSome (find p l).
Proof. induction l as [|x l IH]; [done |]. simpl. by destruct (p x). Qed.

(** X25.  [learnFromBatch] passes over the corrections that name no invoice
    of the list: the results and the store are those of the batch without
    them; there is one result, and one new ledger row, per correction that
    names an invoice. *)
Theorem learnFromBatch_skips_unmatched (invoices : list Invoice)
    (cs : list (Z * HumanCorrection)) (db : Database) :
  learnFromBatch invoices cs db =
  learnFromBatch invoices (filter (fun c => namesInvoice invoices c = true) cs) db /\
  length (fst (learnFromBatch invoices cs db)) =
  length (filter (fun c => namesInvoice invoices c = true) cs) /\
  length (processed_invoices (snd (learnFromBatch invoices cs db))) =
  (length (processed_invoices db) +
   length (filter (fun c => namesInvoice invoices c = true) cs))%nat.
Proof.
  revert db. induction cs as [|[now c] cs IH]; intros db; [by simpl; rewrite Nat.add_0_r |].
  assert (Hn : namesInvoice invoices (now, c) =
               isSome (find (fun inv => String.eqb (invoiceId inv) (hc_invoiceId c))
                            invoices)) by apply find_existsb.
  rewrite filter_cons. cbn [learnFromBatch].
  destruct (find _ invoices) as [invoice|] eqn:Hfind; cbn [isSome] in Hn.
  - rewrite decide_True by done. cbn [learnFromBatch]. rewrite Hfind.
    unfold mbind, db_bind.
    destruct (learn_phases now invoice c db)
      as (db2' & db3' & Hdb & _ & _ & _ & _ & Hp & _ & _).
    assert (Hledger : length (processed_invoices (snd (learn now invoice c db))) =
                      S (length (processed_invoices db))).
    { rewrite Hdb, recordProcessedInvoice_db. simpl.
      rewrite length_app, Hp. simpl. lia. }
    clear Hdb. destruct (learn now invoice c db) as [r db1]. cbn [snd] in Hledger.
    destruct (IH db1) as (Heq & Hlen & Hrows). rewrite <- Heq.
    destruct (learnFromBatch invoices cs db1) as [rs db2]. simpl in *.
    split; [done |]. split; [by rewrite Hlen |].
    rewrite Hrows, Hledger. lia.
  - rewrite decide_False by (by rewrite Hn). apply IH.
Qed.

End LearnProperties.

Lemma wellKeyed_empty : wellKeyed emptyDatabase.
Proof. split; [constructor | by intros c ?%elem_of_nil]. Qed.

Lemma learn_leaves_other_vendors_witness :
  wellKeyed emptyDatabase /\
  vendor invoice2 <> vendor Samples.invoice1 /\
  fst (@Index.processInvoice sampleRuntime silentExtractors invoice2 None
         (snd (@Index.applyHumanCorrection sampleRuntime 1000 Samples.invoice1
                 Samples.rejectedBatch emptyDatabase))) =
  fst (@Index.processInvoice sampleRuntime silentExtractors invoice2 None emptyDatabase).
Proof.
  assert (Hv : vendor invoice2 <> vendor Samples.invoice1) by discriminate.
  split; [exact wellKeyed_empty |]. split; [exact Hv |].
  exact (proj2 (@learn_leaves_other_vendors sampleRuntime silentExtractors 1000
                  Samples.invoice1 invoice2 Samples.rejectedBatch None emptyDatabase
                  wellKeyed_empty Hv)).
Defined.

Lemma learned_invoice_is_flagged_duplicate_witness :
  laterThanLedger 1000 Samples.invoice1 emptyDatabase /\
  Index.requiresHumanReview
    (fst (@Index.processInvoice sampleRuntime silentExtractors Samples.invoice1 None
            (snd (@Index.applyHumanCorrection sampleRuntime 1000 Samples.invoice1
                    Samples.rejectedBatch emptyDatabase)))) = true.
Proof.
  assert (Hl : laterThanLedger 1000 Samples.invoice1 emptyDatabase)
    by (by intros r ?%elem_of_nil).
  split; [exact Hl |].
  exact (proj2 (@learned_invoice_is_flagged_duplicate sampleRuntime silentExtractors
                  1000 Samples.invoice1 Samples.rejectedBatch None emptyDatabase Hl)).
Defined.

(** ** From Learn to Apply: the default currency *)

Section LearnedCurrency.
Import CorrectionMem VendorMem Learn Recall.
Context `{JsRuntime} `{Apply.Extractors}.

Lemma hoare_ret {A} P (a : A) : hoare P (ret a) P.
Proof. by intros db Hdb. Qed.

Lemma hoare_bind {A B} P Q R (m : Db A) (k : A -> Db B) :
  hoare P m Q -> (forall a, hoare Q (k a) R) -> hoare P (x ← m; k x) R.
Proof.
  intros Hm Hk db Hdb. unfold mbind, db_bind.
  specialize (Hm db Hdb). destruct (m db) as [a db1]. by apply Hk.
Qed.

Lemma hoare_vendors {A} v cur (m : Db A) :
  (forall db, vendor_memories (snd (m db)) = vendor_memories db) ->
  hoare (hasDefaultCurrency v cur) m (hasDefaultCurrency v cur).
Proof. intros Hm db Hdb. unfold hasDefaultCurrency. by rewrite Hm. Qed.

Ltac row_after :=
  let db := fresh "db" in let vm := fresh "vm" in
  let Hvm := fresh "Hvm" in let Hcur := fresh "Hcur" in
  intros db (vm & Hvm & Hcur); unfold hasDefaultCurrency; cbv zeta;
  rewrite vendor_update_lookup, decide_True by done;
  eexists; split; [reflexivity |];
  unfold rowOrFresh; rewrite Hvm; simpl; done.

Lemma updateFieldMapping_currency now v l t ok cur :
  hoare (hasDefaultCurrency v cur) (updateFieldMapping now v l t ok)
        (hasDefaultCurrency v cur).
Proof. unfold updateFieldMapping. row_after. Qed.

Lemma updateTaxBehavior_currency now v i r ok cur :
  hoare (hasDefaultCurrency v cur) (updateTaxBehavior now v i r ok)
        (hasDefaultCurrency v cur).
Proof. unfold updateTaxBehavior. row_after. Qed.

Lemma updateSkuMapping_currency now v d s ok cur :
  hoare (hasDefaultCurrency v cur) (updateSkuMapping now v d s ok)
        (hasDefaultCurrency v cur).
Proof. unfold updateSkuMapping. row_after. Qed.

Lemma updatePaymentTerms_currency now v t cur :
  hoare (hasDefaultCurrency v cur) (updatePaymentTerms now v t)
        (hasDefaultCurrency v cur).
Proof. unfold updatePaymentTerms. row_after. Qed.

Lemma updateDefaultCurrency_currency now v new cur :
  hoare (hasDefaultCurrency v cur) (updateDefaultCurrency now v new)
        (hasDefaultCurrency v new).
Proof. unfold updateDefaultCurrency. row_after. Qed.

Lemma recordCorrection_currency now v f p t x cur :
  hoare (hasDefaultCurrency v cur) (recordCorrection now v f p t x)
        (hasDefaultCurrency v cur).
Proof. apply hoare_vendors. intros db. apply recordCorrection_vendors. Qed.

Lemma reinforceOrWeaken_currency now v c ok cur :
  hoare (hasDefaultCurrency v cur) (reinforceOrWeaken now v c ok)
        (hasDefaultCurrency v cur).
Proof.
  apply hoare_vendors. intros db.
  destruct (fst (findMatchingCorrection v (fc_field c) None db))
    as [existing|] eqn:Hfind.
  - destruct ok.
    + pose proof (reinforceOrWeaken_eq now v c approved db existing Hfind) as Heq.
      cbn [isApprovedDecision] in Heq. rewrite Heq.
      apply reinforceCorrection_vendors.
    + pose proof (reinforceOrWeaken_eq now v c rejected db existing Hfind) as Heq.
      cbn [isApprovedDecision] in Heq. rewrite Heq.
      apply weakenCorrection_vendors.
  - by rewrite reinforceOrWeaken_none.
Qed.

Ltac keep v cur :=
  apply hoare_bind with (Q := hasDefaultCurrency v cur); [| intros ?].
Ltac finish := first [apply hoare_ret | apply recordCorrection_currency].

Lemma processCorrection_defaultCurrency now invoice v c decision cur :
  hoare (hasDefaultCurrency v cur)
    (processCorrection now invoice v c decision)
    (hasDefaultCurrency v
       (if String.eqb (fc_field c) "currency" then columnValue (fc_to c) else cur)).
Proof.
  unfold processCorrection. cbv zeta.
  set (cur' := if String.eqb (fc_field c) "currency" then columnValue (fc_to c) else cur).
  keep v cur.
  { unfold learnServiceDate. case_match; [| apply hoare_ret].
    keep v cur; [apply updateFieldMapping_currency |]. keep v cur; finish. }
  keep v cur.
  { unfold learnTax. case_match; [| apply hoare_ret].
    keep v cur; [apply updateTaxBehavior_currency |]. keep v cur; finish. }
  keep v cur'.
  { unfold learnCurrency. subst cur'. case_match; [| apply hoare_ret].
    keep v (columnValue (fc_to c)); [apply updateDefaultCurrency_currency |].
    keep v (columnValue (fc_to c)); finish. }
  keep v cur'.
  { unfold learnPoNumber. case_match; [| apply hoare_ret]. keep v cur'; finish. }
  keep v cur'.
  { unfold learnSku. repeat case_match; try apply hoare_ret.
    all: keep v cur'; [apply updateSkuMapping_currency | apply hoare_ret]. }
  keep v cur'.
  { unfold learnDiscountTerms. case_match; [| apply hoare_ret].
    keep v cur'; [apply updatePaymentTerms_currency |]. keep v cur'; finish. }
  keep v cur'; [apply reinforceOrWeaken_currency | apply hoare_ret].
Qed.

Lemma processCorrections_defaultCurrency now invoice v cs decision cur :
  hoare (hasDefaultCurrency v cur)
    (processCorrections now invoice v cs decision)
    (hasDefaultCurrency v (learnedCurrency cs cur)).
Proof.
  revert cur. induction cs as [|c cs IH]; intros cur; simpl; [apply hoare_ret |].
  eapply hoare_bind; [apply processCorrection_defaultCurrency | intros o].
  eapply hoare_bind; [apply IH | intros ?; apply hoare_ret].
Qed.

Lemma learn_defaultCurrency now invoice hc db :
  hasDefaultCurrency (vendor invoice)
    (learnedCurrency (corrections hc) (storedCurrency (vendor invoice) db))
    (snd (learn now invoice hc db)).
Proof.
  rewrite learn_eq.
  assert (Hpro : hasDefaultCurrency (vendor invoice)
                   (storedCurrency (vendor invoice) db)
                   (snd (learnPrologue now (vendor invoice) db))).
  { unfold learnPrologue, getVendorMemory, createVendorMemory, mbind, db_bind,
      getDb, uuidv4, setVendorMemories, storedCurrency, hasDefaultCurrency. simpl.
    destruct (vendor_memories db !! vendor invoice) as [vm|] eqn:Hvm; simpl.
    - by exists vm.
    - eexists. split; [apply lookup_insert_eq | done]. }
  destruct (learnPrologue now (vendor invoice) db) as [created db1]. simpl in Hpro.
  pose proof (processCorrections_defaultCurrency now invoice (vendor invoice)
                (corrections hc) (finalDecision hc) _ db1 Hpro) as Hloop.
  destruct (processCorrections _ _ _ _ _ db1) as [processed db2]. simpl in Hloop.
  cbv zeta. cbn [snd]. rewrite recordProcessedInvoice_db.
  unfold hasDefaultCurrency. simpl.
  destruct (recordResolutions_rows now invoice (corrections hc) (finalDecision hc) db2)
    as (Hv & _). by rewrite Hv.
Qed.

(** X26.  After [learn], the default currency of the document's vendor is
    the value of the last correction of the batch whose field is
    [currency], as the TEXT column keeps it (a string as it is, a number as
    its text, null as none), whatever the decision; when the batch has none,
    it is what it was before (none for a vendor met for the first time). *)
Theorem learn_sets_default_currency (now : Z) (invoice : Invoice)
    (hc : HumanCorrection) (db : Database) :
  storedCurrency (vendor invoice) (snd (learn now invoice hc db)) =
  learnedCurrency (corrections hc) (storedCurrency (vendor invoice) db).
Proof.
  destruct (learn_defaultCurrency now invoice hc db) as (vm & Hvm & Hcur).
  unfold storedCurrency at 1. by rewrite Hvm.
Qed.

(** *** Apply keeps what it has proposed *)

Ltac kept :=
  let n := fresh "n" in let cs := fresh "cs" in
  let c := fresh "c" in let Hc := fresh "Hc" in
  intros [n cs] c Hc; simpl in Hc;
  repeat case_match; simpl; try done; apply elem_of_app; by left.

Lemma applySkus_keeps vm : keepsProposals (Apply.applySkus vm).
Proof. unfold Apply.applySkus. kept. Qed.

Lemma applyPaymentTerms_keeps vm : keepsProposals (Apply.applyPaymentTerms vm).
Proof. unfold Apply.applyPaymentTerms. kept. Qed.

Lemma applyExtractedTerms_keeps invoice :
  keepsProposals (Apply.applyExtractedTerms invoice).
Proof. unfold Apply.applyExtractedTerms. kept. Qed.

Lemma applyPoMatch_keeps invoice pos : keepsProposals (Apply.applyPoMatch invoice pos).
Proof. unfold Apply.applyPoMatch. kept. Qed.

Lemma applyMemories_proposes_default invoice memories pos vm cur :
  vendorMemory memories = Some vm ->
  defaultCurrency vm = Some cur -> truthy cur = true ->
  isSet (currency (fields invoice)) = false ->
  currencyProposal cur ∈
    Apply.proposedCorrections (Apply.applyMemories invoice memories pos).
Proof.
  intros Hvm Hcur Htruthy Hmissing.
  unfold Apply.applyMemories. rewrite Hvm. cbv zeta. cbn [Apply.proposedCorrections].
  apply applyPoMatch_keeps, applyExtractedTerms_keeps, applyPaymentTerms_keeps,
    applySkus_keeps.
  destruct (Apply.applyTaxBehavior invoice vm _) as [n cs].
  unfold Apply.applyCurrency. rewrite Hmissing, Hcur.
  unfold orUndefined. rewrite Htruthy. simpl.
  apply elem_of_app. right. by left.
Qed.

(** X27.  What was learned is used, and never silently: when the batch
    leaves a non-empty default currency for the vendor - the string of its
    last currency correction, or the text of the number it carries -
    processing a later document of that vendor that states no currency
    proposes that currency with confidence 0.75, not auto-applied, and
    requires human review. *)
Theorem learned_currency_is_proposed (now : Z) (invoice next : Invoice)
    (hc : HumanCorrection) (pos : option (list PurchaseOrder)) (db : Database)
    (cur : string) :
  vendor next = vendor invoice ->
  isSet (currency (fields next)) = false ->
  learnedCurrency (corrections hc) (storedCurrency (vendor invoice) db) = Some cur ->
  truthy cur = true ->
  currencyProposal cur ∈
    Index.proposedCorrections
      (fst (Index.processInvoice next pos
              (snd (Index.applyHumanCorrection now invoice hc db)))) /\
  Index.requiresHumanReview
    (fst (Index.processInvoice next pos
            (snd (Index.applyHumanCorrection now invoice hc db)))) = true.
Proof.
  intros Hvendor Hmissing Hlearned Htruthy.
  rewrite applyHumanCorrection_db.
  destruct (learn_defaultCurrency now invoice hc db) as (vm & Hvm & Hcur).
  rewrite Hlearned in Hcur.
  set (db' := snd (learn now invoice hc db)) in *.
  assert (Hrecalled : vendorMemory (fst (recallMemories next db')) = Some vm)
    by (rewrite <- Hvendor in Hvm; exact Hvm).
  assert (Hin : currencyProposal cur ∈
            Apply.proposedCorrections
              (Apply.applyMemories next (fst (recallMemories next db')) pos))
    by (by apply (applyMemories_proposes_default _ _ _ vm)).
  split; [exact Hin |].
  rewrite processInvoice_review. cbv zeta. rewrite makeDecision_review.
  assert (Hpending :
    hasPending (Apply.proposedCorrections
                  (Apply.applyMemories next (fst (recallMemories next db')) pos)) = true).
  { unfold hasPending. apply existsb_exists. exists (currencyProposal cur).
    split; [by apply list_elem_of_In | reflexivity]. }
  rewrite Hpending. by rewrite !orb_true_r.
Qed.

End LearnedCurrency.

Lemma learned_currency_is_proposed_witness :
  let hc := Samples.batchOf [numericCurrencyCorrection] in
  vendor Samples.invoice1 = vendor Samples.invoice1 /\
  isSet (currency (fields Samples.invoice1)) = false /\
  @learnedCurrency sampleRuntime (corrections hc)
    (storedCurrency (vendor Samples.invoice1) emptyDatabase)
  = Some "978" /\
  truthy "978" = true /\
  currencyProposal "978" ∈
    Index.proposedCorrections
      (fst (@Index.processInvoice sampleRuntime silentExtractors Samples.invoice1 None
              (snd (@Index.applyHumanCorrection sampleRuntime 1000 Samples.invoice1
                      hc emptyDatabase)))).
Proof.
  intros hc.
  split; [reflexivity |]. split; [reflexivity |]. split; [reflexivity |].
  split; [reflexivity |].
  exact (proj1 (@learned_currency_is_proposed sampleRuntime silentExtractors 1000
                  Samples.invoice1 Samples.invoice1 hc None emptyDatabase "978"
                  eq_refl eq_refl eq_refl eq_refl)).
Defined.

(** ** Decide: the base confidence *)

Section BaseConfidence.
Import Decide.

Lemma calculateOverallConfidence_monotone b1 b2 m cs :
  (b1 <= b2)%Q ->
  (calculateOverallConfidence b1 m cs <= calculateOverallConfidence b2 m cs)%Q.
Proof.
  intros Hb. unfold calculateOverallConfidence. cbv zeta.
  generalize (sumConfidence (filter (fun c => autoApplied c = true) cs) /
              Qlen (filter (fun c => autoApplied c = true) cs))%Q.
  intros a.
  destruct (0 <? length (filter (fun c => autoApplied c = true) cs))%nat,
    (0 <? length (filter (fun c => autoApplied c = false) cs))%nat,
    (potentialDuplicate m) as [d|], (isNewVendor m),
    (vendorMemory m) as [vm|]; qminmax.
Qed.

(** X28.  A higher base confidence never hurts: with the same normalized
    invoice, proposed corrections and recalled memories, the confidence
    score of [makeDecision] does not decrease when the base confidence
    increases, and a document that needed no human review still needs
    none. *)
Theorem higher_base_confidence_never_hurts (n : NormalizedInvoice)
    (cs : list ProposedCorrection) (m : RecalledMemories) (b1 b2 : Q) :
  (b1 <= b2)%Q ->
  (confidenceScore (makeDecision n cs m b1) <=
   confidenceScore (makeDecision n cs m b2))%Q /\
  (requiresHumanReview (makeDecision n cs m b1) = false ->
   requiresHumanReview (makeDecision n cs m b2) = false).
Proof.
  intros Hb.
  assert (Hscore : (confidenceScore (makeDecision n cs m b1) <=
                    confidenceScore (makeDecision n cs m b2))%Q)
    by (by apply calculateOverallConfidence_monotone).
  split; [exact Hscore |].
  rewrite !makeDecision_review.
  destruct (isSome (potentialDuplicate m) || isNewVendor m || hasLowConfidence cs ||
            hasPending cs || hasConflictingMemories m || currencyMissing n cs);
    [done |].
  cbn [orb]. rewrite !negb_false_iff, !Qleb_le. intros H1.
  by apply (Qle_trans _ _ _ H1).
Qed.

End BaseConfidence.

Lemma higher_base_confidence_never_hurts_witness :
  (0.5 <= 0.9)%Q /\
  (Decide.confidenceScore
     (Decide.makeDecision Samples.normalized1 [] Samples.memories1 0.5) <=
   Decide.confidenceScore
     (Decide.makeDecision Samples.normalized1 [] Samples.memories1 0.9))%Q.
Proof.
  assert (Hb : (0.5 <= 0.9)%Q) by (vm_compute; discriminate).
  split; [exact Hb |].
  exact (proj1 (higher_base_confidence_never_hurts Samples.normalized1 []
                  Samples.memories1 0.5 0.9 Hb)).
Defined.
